(* ===== verification/_CoqProject ===== *)
-Q . S2P
Prelude.v
Posix.v
Stdio.v
CFloat.v
MathBuiltins.v
CLimits.v
Printf.v
Scan.v
Sscanf.v
Setjmp.v
Digits.v
Mpn.v
MpnBits.v
MpnDiv.v
Mpz.v
MpzAdd.v
MpzLogic.v
MpzMul.v
MpzInt.v
MpzText.v
MpzMachine.v
MpzSpec.v
Arm64Enc.v
CodeBuilder.v
CodeExec.v
CodeSpec.v
Align.v
Linker.v
LinkSyms.v
LinkLayout.v
LinkReloc.v
LinkSpec.v
Arfmt.v
ArSpec.v
Runtime.v
RuntimeExec.v
RuntimeSpec.v
Elf.v
ObjWrite.v
ObjParse.v
ObjRound.v
ObjFold.v
ObjSpec.v
ObjData.v
ObjPlace.v
ObjGen.v
ObjSyms.v
ObjRelas.v
ObjProgram.v
ObjFinish.v
ObjLoad.v
ObjGenSpec.v
ObjCorners.v
ElfSpec.v
StructDefs.v
StructSize.v
StructLayout.v
StructFields.v
FieldAccess.v
StructSpec.v
