(* ===== verification/Prelude.v ===== *)
(** gaston: a C compiler for Linux on AArch64, with its own assembler, linker
    and C library.

    * The program

    The compiler (Go, under src/) turns C into IR, the IR into AArch64 words
    through a code builder, writes ELF objects and ar archives and links them
    into static executables.  Its C library (src/libc, C and assembly) is
    compiled with it and sits on picolibc.  MicroPython, which is built with the
    compiler, carries the integer library mpz.  Five layers are modelled:

    - the C library's own code: src/libc;
    - the integer library: mpz.c and mpz.h under
      src/third-party/micropython/output/src/py (py below);
    - structs in the front end: their layout (src/ast.go, src/semcheck.go,
      src/irgen.go) and the code of field accesses (src/elfgen.go);
    - the back end: instruction encoders (src/arm64enc.go) and the code builder
      of src/elfgen.go;
    - object files (src/objgen.go), archives (src/arfmt.go), the linker (src/linker.go) and the runtime helpers it
      emits (src/elfgen.go).

    * The files

    Prelude: integers at their width ([wrapU], [wrapS], [u8] to [i64]), checked
    buffer access, generic list lemmas, the hint databases and tactics shared by
    all files.

    C library.  [Posix] is the interface of read and write, a class with its
    laws; [Stdio] is stdio.c over it: a call is a computation on the world, a
    local buffer a byte list whose accesses are checked.  [CFloat] holds IEEE
    bit patterns and their decoding; [MathBuiltins] is mathbuiltins.c;
    [CLimits] is limits.h, stdint.h and float.h.  [Printf] is printf.c over an
    interface of picolibc's vfprintf.  [Scan] holds the scanners of sscanf.c and
    [Sscanf] its format interpreter, which leaves a trace of stores.  [Setjmp]
    is setjmp_arm64.s on a machine of registers and words.

    Integers.  [Digits] has the digit arrays of mpz.h and the loop rules over
    them; [Mpn], [MpnBits] and [MpnDiv] the mpn routines and their exactness;
    [Mpz] the object, the store of objects that routines share through
    addresses, and assignment; [MpzAdd], [MpzLogic], [MpzMul], [MpzInt] and
    [MpzText] the routines by group; [MpzMachine] programs of calls and the
    integer machine that they refine; [MpzSpec] the properties.

    Structs.  [StructDefs] has declarations, layouts and sizes: the builder of
    the checker and that of the IR generator are one definition with a flag for
    the two differences.  [StructSize] is about the size of a struct,
    [StructLayout] the loop over the members and its invariant, [StructFields]
    the search for fields and the agreement of the builders.  [FieldAccess] is
    the IR and the instructions of field accesses with what they do to memory;
    [StructSpec] the properties.

    Back end.  [Arm64Enc] has one definition per encoder and a decoder written
    from the architecture's tables; [CodeBuilder] the type codeBuilder, one
    definition per method, and [op] with [build] for a sequence of calls;
    [CodeExec] a machine for moves, loads and stores; [CodeSpec] the
    properties.

    Linking.  [Linker] has the loaded object, the result type [res] of
    the linker's errors and lazy linking; [LinkSyms] symbol precedence and
    COMMON merging; [LinkLayout] placement, addresses and the symbol table;
    [LinkReloc] relocation and contents; [LinkSpec] the properties; [Align]
    the rounding of addresses.  [Arfmt] is the archive writer and reader,
    [ArSpec] its properties.  [Runtime] is the emitted start code, sbrk, system
    calls, setjmp and longjmp, and the path of linkWithObjs from loaded objects
    to linked code; [RuntimeExec] runs the helpers on a machine with a kernel
    behind SVC; [RuntimeSpec] states what they do in a linked program.  [Elf]
    is the executable: its headers, its bytes, and the image a loader makes of
    them; [ElfSpec] says what that image holds.

    Object files.  [ObjWrite] is the part of genObjectTo that serialises an
    object whose contents are known: name tables, symbols, relocations, section
    headers, layout.  [ObjParse] is debug/elf as far as the linker uses it, and
    parseObjELF, which folds custom sections into the standard ones.  [ObjRound]
    and [ObjFold] hold the lemmas of the round trip, [ObjSpec] the properties.
    The contents come from a program in IR: [ObjData] places its variables,
    [ObjGen] is genObjectTo itself, with sections, symbols, aliases and
    relocations; a function carries the builder calls of its body, as code
    generation is not modelled.  [ObjPlace] is about the data, [ObjSyms] about
    the symbol table as a list of entries, [ObjRelas] about undefined symbols,
    aliases and relocations, [ObjProgram] and [ObjFinish] about the run as a
    whole, [ObjLoad] about the object as a file; [ObjGenSpec] has the properties
    and [ObjCorners] programs that come out wrong.

    * What is proved

    - sscanf is defined and ends on every pair of strings, reads back what was
      printed, and stores inside the fields it is given; output and input are
      inverse; snprintf keeps its bounds; the classification of doubles agrees
      with IEEE; longjmp resumes the caller of setjmp.
    - Programs of mpz calls, with operands shared in any way, refine integer
      arithmetic, and each routine computes what Python's integers are; the text
      and byte encodings and machine integers round trip.
    - The layout of every struct that C allows is well formed; both passes
      agree on it unless something is packed; sizes are found exactly when
      structs do not contain themselves; fields lie inside their structs;
      fields and bit-fields read back what was stored and leave the rest alone.
    - Each encoder yields a word that decodes to the instruction it is named
      for; branch fixups resolve exactly when their labels are there and in
      range; immediates, pool loads and the peephole optimiser are sound.
    - Lazy linking ends with every resolvable reference resolved; precedence
      decides each name; the image is laid out without overlap; relocations and
      contents are right; archives read back.
    - A program in IR becomes an object or an error of two kinds; variables are
      placed apart and initialised, relocations are against the names that were
      meant, and the linker's object holds the program.
    - Object files read back as the object they were written for, and folding
      moves every symbol and relocation with its bytes.
    - The executable loads: its segments hold the linked words and data where
      they were linked for, zeros in .bss, and nothing else.
    - Linked programs start at the initialiser and main; sbrk refines the break
      of the kernel; the system calls reach it; the emitted setjmp and longjmp
      are those of the library's source.

    * Parameters

    Code that is not in the repository, or not read here, is an interface with
    named laws and an instance in the witnesses: read and write ([Posix]),
    vfprintf and its string sink ([Printf.Tinystdio]), the allocator's
    realloc ([Mpz.Renew]: it keeps what fits), the loader of an object in
    lazy linking ([loadObj] of [Linker.lazy_link], with the law
    [Linker.archive_ok] that an indexed member loads and defines the name; the
    code's loader is [ObjParse.loadObjFromBytes], and the archive reader
    establishes the law for any loader), the kernel ([RuntimeExec]; its
    brk is the documented one, [RuntimeSpec.brk_documented]).

    * Bounds and fuel

    Machine integers wrap where they are stored.  Loops that are not structural
    take fuel, always enough: the size of a struct takes one step more than
    there are structs ([StructSize.exact_bound]); a string scan takes the
    distance to the terminator; [Linker.pull_loop] one more than the unused
    members, which shrink each round; [Arfmt.read_members] one more than the
    bytes; the powers of mpz a bit of the exponent per round; the corrections of
    a quotient digit two more than needed; a chain of aliases two more than
    there are aliases.  The theorems show that each of these
    ends with a result, never that it would be right if it did.  Struct layout
    assumes members of at most 2^40 bytes and structs of at most 2^50 (Go's int
    is 64 bits wide).  Layout of the image assumes one below 2^62 bytes; code
    relocations and fixups assume what a branch can reach, and the corner lemmas
    show what happens beyond.

    * Corner cases

    Lemmas beside the properties show where the code departs from its intent or
    its comments: [Stdio.print_long_min], [MathBuiltins.round_through_long],
    [Sscanf.width_does_not_split], [MpzSpec.shr_in_place_rounds_wrong],
    [MpzSpec.pow3_in_place_is_one], [MpzSpec.as_bytes_negative_verdict_wrong],
    [CodeSpec.pool_offset_unchecked], [LinkSpec.pulled_twice],
    [LinkSpec.call_out_of_range], [ArSpec.long_name_cut],
    [RuntimeSpec.shrink_failure_is_success], [ObjSpec.section_named_text_lost],
    all of [ObjCorners], and those at the end of [StructSpec], among them
    [StructSpec.packed_layouts_differ], [StructSpec.inline_overlaps_bit_field],
    [StructSpec.high_bit_field_lost] and [StructSpec.far_store_becomes_load].

    * Not modelled

    - The front end (lexer, preprocessor, parser, checks, IR generation) apart
      from structs, and the translation of IR to instructions (elfGen apart from
      its helpers and the accesses of fields).
    - Of debug/elf, what no object of the compiler needs: other classes and
      byte orders, compressed sections, program headers.
    - mpz_set_from_float and mpz_as_float; the declarations of stdio.h,
      stdarg.h, stddef.h and errno.c.
    - Files, processes and command lines; the other vendored programs.

    Planned next, in this order: constant evaluation (tryEvalConstInt and the
    preprocessor's #if), code generation for scalar expressions. *)
From Stdlib Require Export ZArith Lia.
From stdpp Require Export base list numbers option.

Open Scope Z_scope.

Declare Scope gaston_scope.
Delimit Scope gaston_scope with gaston.
Open Scope gaston_scope.

(** * C integers at their width *)

Definition wrapU (w v : Z) : Z := v mod 2 ^ w.

Definition wrapS (w v : Z) : Z :=
  let r := v mod 2 ^ w in
  if r <? 2 ^ (w - 1) then r else r - 2 ^ w.

Abbreviation u8 := (wrapU 8).
Abbreviation u16 := (wrapU 16).
Abbreviation u32 := (wrapU 32).
Abbreviation u64 := (wrapU 64).
Abbreviation i8 := (wrapS 8).
Abbreviation i32 := (wrapS 32).
Abbreviation i64 := (wrapS 64).

Lemma wrapU_range w v : 0 <= w -> 0 <= wrapU w v < 2 ^ w.
Proof. intros. apply Z.mod_pos_bound. lia. Qed.

Lemma wrapU_small w v : 0 <= v < 2 ^ w -> wrapU w v = v.
Proof. apply Z.mod_small. Qed.

Lemma pow2_half w : 0 < w -> 2 ^ w = 2 * 2 ^ (w - 1).
Proof. intros. rewrite <- Z.pow_succ_r by lia. f_equal. lia. Qed.

Lemma wrapS_range w v : 0 < w -> - 2 ^ (w - 1) <= wrapS w v < 2 ^ (w - 1).
Proof.
  intros Hw. unfold wrapS. pose proof (pow2_half w Hw).
  pose proof (Z.mod_pos_bound v (2 ^ w) ltac:(lia)).
  destruct (Z.ltb_spec (v mod 2 ^ w) (2 ^ (w - 1))); lia.
Qed.

Lemma wrapS_small w v : 0 < w -> - 2 ^ (w - 1) <= v < 2 ^ (w - 1) -> wrapS w v = v.
Proof.
  intros Hw Hv. unfold wrapS. pose proof (pow2_half w Hw).
  destruct (Z.leb_spec 0 v).
  - rewrite Z.mod_small by lia. destruct (Z.ltb_spec v (2 ^ (w - 1))); lia.
  - replace (v mod 2 ^ w) with (v + 2 ^ w).
    + destruct (Z.ltb_spec (v + 2 ^ w) (2 ^ (w - 1))); lia.
    + apply (Z.mod_unique _ _ (-1)); lia.
Qed.

Lemma wrapS_cong w a b : a mod 2 ^ w = b mod 2 ^ w -> wrapS w a = wrapS w b.
Proof. unfold wrapS. by intros ->. Qed.

Lemma wrapS_mod w v : 0 < w -> wrapS w v mod 2 ^ w = v mod 2 ^ w.
Proof.
  intros Hw. unfold wrapS. pose proof (pow2_half w Hw).
  destruct (Z.ltb_spec (v mod 2 ^ w) (2 ^ (w - 1))).
  - apply Z.mod_mod. lia.
  - rewrite <- (Z.mod_mod v (2 ^ w)) at 2 by lia.
    rewrite <- (Z.mod_add (v mod 2 ^ w - 2 ^ w) 1) by lia. f_equal. lia.
Qed.

Lemma wrapS_offset w v : 0 < w -> exists k, wrapS w v = v + k * 2 ^ w.
Proof.
  intros Hw. unfold wrapS. pose proof (Z.div_mod v (2 ^ w) ltac:(lia)).
  destruct (Z.ltb_spec (v mod 2 ^ w) (2 ^ (w - 1))); eexists (- (v / 2 ^ w) - _)%Z.
  - instantiate (1 := 0). lia.
  - instantiate (1 := 1). lia.
Qed.

(** Multiples of a wider modulus do not matter. *)
Lemma wrapS_add_wider w u v k : 0 < w <= u -> wrapS w (v + k * 2 ^ u) = wrapS w v.
Proof.
  intros [Hw Hu]. apply wrapS_cong. replace u with (u - w + w) by lia.
  rewrite Z.pow_add_r, Z.mul_assoc, Z.mod_add by lia. done.
Qed.

(** One step of a digit accumulator. *)
Lemma wrapS_step w v b d : 0 < w -> wrapS w (wrapS w (wrapS w v * b) + d) = wrapS w (v * b + d).
Proof.
  intros Hw. destruct (wrapS_offset w v Hw) as [k ->].
  destruct (wrapS_offset w ((v + k * 2 ^ w) * b) Hw) as [k2 ->].
  rewrite <- (wrapS_add_wider w w (v * b + d) (k * b + k2)) by lia. f_equal. lia.
Qed.

Lemma i8_small v : -128 <= v < 128 -> i8 v = v.
Proof. intros. apply wrapS_small; lia. Qed.
Lemma i32_small v : - 2 ^ 31 <= v < 2 ^ 31 -> i32 v = v.
Proof. intros. apply wrapS_small; lia. Qed.
Lemma i64_small v : - 2 ^ 63 <= v < 2 ^ 63 -> i64 v = v.
Proof. intros. apply wrapS_small; lia. Qed.
Lemma u8_small v : 0 <= v < 256 -> u8 v = v.
Proof. intros. apply wrapU_small; lia. Qed.

(** * Loops

    A loop of the source is a body on its local state: [inl s] goes round
    again, [inr r] leaves with [r].  [loop] runs it with fuel and is [None]
    when the fuel runs out; [loop_rule] is the total-correctness rule. *)

Fixpoint loop {S R : Type} (fuel : nat) (body : S -> S + R) (s : S) : option R :=
  match fuel with
  | O => None
  | Datatypes.S fuel =>
      match body s with
      | inl s' => loop fuel body s'
      | inr r => Some r
      end
  end.

Lemma loop_rule {S R : Type} (body : S -> S + R) (I : S -> Prop) (m : S -> nat) (Q : R -> Prop) :
  (forall s, I s -> match body s with
                    | inl s' => I s' /\ (m s' < m s)%nat
                    | inr r => Q r
                    end) ->
  forall fuel s, I s -> (m s < fuel)%nat -> exists r, loop fuel body s = Some r /\ Q r.
Proof.
  intros Hb. induction fuel as [|fuel IH]; intros s HI Hm; [lia|].
  simpl. specialize (Hb s HI). destruct (body s) as [s'|r].
  - destruct Hb as [HI' Hlt]. apply IH; [done|lia].
  - eauto.
Qed.

Lemma loop_eq {S R : Type} (body : S -> S + R) (I : S -> Prop) (m : S -> nat) (r : R) :
  (forall s, I s -> match body s with
                    | inl s' => I s' /\ (m s' < m s)%nat
                    | inr r' => r' = r
                    end) ->
  forall fuel s, I s -> (m s < fuel)%nat -> loop fuel body s = Some r.
Proof.
  intros Hb fuel s HI Hm.
  destruct (loop_rule body I m (fun r' => r' = r) Hb fuel s HI Hm) as (? & ? & ->). done.
Qed.

Lemma loop_more_fuel {S R : Type} (body : S -> S + R) n m s r :
  loop n body s = Some r -> (n <= m)%nat -> loop m body s = Some r.
Proof.
  revert m s. induction n as [|n IH]; intros [|m] s H Hle; simpl in *; try done; [lia|].
  destruct (body s); [|done]. apply IH; [done|lia].
Qed.

(** * Byte buffers

    A local [char buf[n]] is a list of [n] bytes; a store outside it is
    undefined behaviour and has no result. *)

Definition in_buf (buf : list Z) (p : Z) : bool := (0 <=? p) && (p <? Z.of_nat (length buf)).

Definition store8 (buf : list Z) (p v : Z) : option (list Z) :=
  if in_buf buf p then Some (<[Z.to_nat p := u8 v]> buf) else None.

Definition load8 (buf : list Z) (p : Z) : option Z :=
  if in_buf buf p then buf !! Z.to_nat p else None.

(** The [n] bytes at [p], as a system call reads them. *)
Definition slice (buf : list Z) (p n : Z) : option (list Z) :=
  if (0 <=? p) && (0 <=? n) && (p + n <=? Z.of_nat (length buf))
  then Some (take (Z.to_nat n) (drop (Z.to_nat p) buf)) else None.

Lemma store8_mid pre suf old p v :
  p = Z.of_nat (length pre) -> store8 (pre ++ old :: suf) p v = Some (pre ++ u8 v :: suf).
Proof.
  intros ->. unfold store8, in_buf. rewrite length_app. simpl.
  destruct (Z.leb_spec 0 (Z.of_nat (length pre))); [|lia].
  destruct (Z.ltb_spec (Z.of_nat (length pre)) (Z.of_nat (length pre + S (length suf)))); [|lia].
  simpl. f_equal. rewrite Nat2Z.id. by rewrite insert_app_r_alt, Nat.sub_diag by lia.
Qed.

Lemma slice_suffix pre suf p n :
  p = Z.of_nat (length pre) -> n = Z.of_nat (length suf) -> slice (pre ++ suf) p n = Some suf.
Proof.
  intros -> ->. unfold slice. rewrite length_app.
  destruct (Z.leb_spec 0 (Z.of_nat (length pre))); [|lia].
  destruct (Z.leb_spec 0 (Z.of_nat (length suf))); [|lia].
  destruct (Z.leb_spec (Z.of_nat (length pre) + Z.of_nat (length suf)) (Z.of_nat (length pre + length suf))); [|lia].
  simpl. f_equal. by rewrite !Nat2Z.id, drop_app_length, take_ge.
Qed.

(** * Strings in memory

    Memory is a function from addresses to bytes (0 to 255: gaston loads a
    [char] with LDRB, which zero-extends).  [cstr mem a s]: the bytes [s], none
    of them zero, stand at [a], followed by the terminator. *)

Definition cstr (mem : Z -> Z) (a : Z) (s : list Z) : Prop :=
  (forall i c, s !! i = Some c -> mem (a + Z.of_nat i) = c /\ c <> 0) /\
  mem (a + Z.of_nat (length s)) = 0.

(** The memory that holds exactly the bytes [s] from address [a] on. *)
Definition mem_of (a : Z) (s : list Z) : Z -> Z := fun x =>
  if x <? a then 0 else nth (Z.to_nat (x - a)) s 0.

Lemma cstr_cons mem a c s : cstr mem a (c :: s) <-> mem a = c /\ c <> 0 /\ cstr mem (a + 1) s.
Proof.
  unfold cstr. cbn [length]. rewrite Nat2Z.inj_succ. split.
  - intros [Hs Hz]. destruct (Hs 0%nat c eq_refl) as [H0 Hc]. rewrite Z.add_0_r in H0.
    split_and!; try done.
    + intros i d Hi. destruct (Hs (S i) d Hi) as [Hd Hne]. split; [|done].
      rewrite <- Hd. f_equal. lia.
    + rewrite <- Hz. f_equal. lia.
  - intros (H0 & Hc & Hs & Hz). split.
    + intros [|i] d Hi; cbn in Hi.
      * injection Hi as <-. by rewrite Z.add_0_r.
      * destruct (Hs i d Hi) as [Hd Hne]. split; [|done]. rewrite <- Hd. f_equal. lia.
    + rewrite <- Hz. f_equal. lia.
Qed.

Lemma cstr_nil mem a : cstr mem a [] <-> mem a = 0.
Proof. unfold cstr. cbn. rewrite Z.add_0_r. split; [by intros []|]. by intros. Qed.

Lemma cstr_mem_of a s : Forall (fun c => c <> 0) s -> cstr (mem_of a s) a s.
Proof.
  intros Hs. unfold mem_of. split.
  - intros i c Hi. split; [|by rewrite Forall_lookup in Hs; eauto].
    destruct (Z.ltb_spec (a + Z.of_nat i) a); [lia|].
    replace (Z.to_nat (a + Z.of_nat i - a)) with i by lia.
    rewrite nth_lookup, Hi. done.
  - destruct (Z.ltb_spec (a + Z.of_nat (length s)) a); [lia|].
    rewrite nth_overflow; [done|lia].
Qed.

(** The bytes [bs] stand at [a]; nothing is said of what follows. *)
Definition at_mem (mem : Z -> Z) (a : Z) (bs : list Z) : Prop :=
  forall i c, bs !! i = Some c -> mem (a + Z.of_nat i) = c.

Lemma at_mem_cons mem a c bs : at_mem mem a (c :: bs) <-> mem a = c /\ at_mem mem (a + 1) bs.
Proof.
  unfold at_mem. split.
  - intros H. split.
    + specialize (H 0%nat c eq_refl). by rewrite Z.add_0_r in H.
    + intros i d Hi. rewrite <- (H (S i) d Hi). f_equal. lia.
  - intros [H0 H] [|i] d Hi; cbn in Hi.
    + injection Hi as <-. by rewrite Z.add_0_r.
    + rewrite <- (H i d Hi). f_equal. lia.
Qed.

Lemma at_mem_app mem a bs1 bs2 :
  at_mem mem a (bs1 ++ bs2) <-> at_mem mem a bs1 /\ at_mem mem (a + Z.of_nat (length bs1)) bs2.
Proof.
  revert a. induction bs1 as [|b bs1 IH]; intros a; cbn [app length].
  - rewrite Z.add_0_r. split; [|tauto]. intros H. split; [|done]. intros i c Hi. by rewrite lookup_nil in Hi.
  - rewrite !at_mem_cons, IH. replace (a + 1 + Z.of_nat (length bs1)) with (a + Z.of_nat (S (length bs1))) by lia.
    tauto.
Qed.

Lemma cstr_at_mem mem a s : cstr mem a s -> at_mem mem a (s ++ [0]).
Proof.
  intros [Hs Hz]. apply at_mem_app. split.
  - intros i c Hi. by apply Hs.
  - apply at_mem_cons. split; [done|]. intros i c Hi. by rewrite lookup_nil in Hi.
Qed.

(** * Numerals

    [digits_value b ds] is the number the digit values [ds] denote in base [b],
    most significant first; [to_digits b n] is its canonical inverse. *)

Definition digits_value (b : Z) (ds : list Z) : Z := fold_left (fun a d => a * b + d) ds 0.

Fixpoint to_digits_fuel (fuel : nat) (b n : Z) : list Z :=
  match fuel with
  | O => []
  | S fuel => if n <? b then [n] else to_digits_fuel fuel b (n / b) ++ [n mod b]
  end.

Definition to_digits (b n : Z) : list Z := to_digits_fuel (S (Z.to_nat (Z.log2 n))) b n.

Lemma digits_value_acc b ds a :
  fold_left (fun a d => a * b + d) ds a = a * b ^ Z.of_nat (length ds) + digits_value b ds.
Proof.
  unfold digits_value. revert a. induction ds as [|d ds IH]; intros a; cbn [fold_left length].
  - rewrite Z.pow_0_r. lia.
  - rewrite IH, (IH (0 * b + d)), Nat2Z.inj_succ, Z.pow_succ_r by lia. lia.
Qed.

Lemma digits_value_cons b d ds :
  digits_value b (d :: ds) = d * b ^ Z.of_nat (length ds) + digits_value b ds.
Proof. unfold digits_value at 1. cbn [fold_left]. rewrite digits_value_acc. lia. Qed.

Lemma digits_value_snoc b ds d : digits_value b (ds ++ [d]) = digits_value b ds * b + d.
Proof. unfold digits_value. by rewrite fold_left_app. Qed.

Lemma digits_value_bounds b ds :
  1 < b -> Forall (fun d => 0 <= d < b) ds -> 0 <= digits_value b ds < b ^ Z.of_nat (length ds).
Proof.
  intros Hb. induction 1 as [|d ds Hd _ IH]; [cbn; lia|].
  rewrite digits_value_cons. cbn [length]. rewrite Nat2Z.inj_succ, Z.pow_succ_r by lia.
  pose proof (Z.pow_pos_nonneg b (Z.of_nat (length ds))). nia.
Qed.

Lemma log2_div_lt b n : 1 < b -> b <= n -> Z.log2 (n / b) < Z.log2 n.
Proof.
  intros Hb Hn. assert (0 < n / b) by (apply Z.div_str_pos; lia).
  apply Z.log2_lt_pow2; [lia|]. pose proof (Z.log2_spec n ltac:(lia)) as [_ Hs].
  pose proof (Z.mul_div_le n b ltac:(lia)).
  assert (0 < Z.log2 n) by (apply Z.log2_pos; lia).
  assert (2 ^ Z.succ (Z.log2 n) = 2 * 2 ^ Z.log2 n) by (apply Z.pow_succ_r; lia). nia.
Qed.

Lemma to_digits_fuel_irrel b : 1 < b -> forall f g n, 0 <= n ->
  Z.log2 n < Z.of_nat f -> Z.log2 n < Z.of_nat g -> to_digits_fuel f b n = to_digits_fuel g b n.
Proof.
  intros Hb. induction f as [|f IH]; intros [|g] n Hn Hf Hg;
    try (pose proof (Z.log2_nonneg n); lia).
  cbn [to_digits_fuel]. destruct (Z.ltb_spec n b) as [|Hge]; [done|].
  pose proof (log2_div_lt b n Hb Hge). f_equal. apply IH; try lia. apply Z.div_pos; lia.
Qed.

Lemma to_digits_small b n : n < b -> to_digits b n = [n].
Proof. intros H. unfold to_digits. cbn [to_digits_fuel]. by destruct (Z.ltb_spec n b); [|lia]. Qed.

Lemma to_digits_step b n : 1 < b -> b <= n -> to_digits b n = to_digits b (n / b) ++ [n mod b].
Proof.
  intros Hb Hn. unfold to_digits at 1. cbn [to_digits_fuel].
  destruct (Z.ltb_spec n b); [lia|]. f_equal.
  pose proof (log2_div_lt b n Hb Hn). pose proof (Z.log2_nonneg (n / b)).
  apply to_digits_fuel_irrel; try lia. apply Z.div_pos; lia.
Qed.

(** Strong induction along the digits of [n]. *)
Lemma digit_ind (b : Z) (P : Z -> Prop) : 1 < b ->
  (forall n, 0 <= n < b -> P n) -> (forall n, b <= n -> P (n / b) -> P n) ->
  forall n, 0 <= n -> P n.
Proof.
  intros Hb Hs Hstep n Hn. assert (G : forall k m, 0 <= m -> (Z.to_nat m < k)%nat -> P m).
  { induction k as [|k IH]; intros m Hm Hk; [lia|].
    destruct (Z.ltb_spec m b); [apply Hs; lia|].
    assert (m / b < m) by (apply Z.div_lt; lia).
    apply Hstep; [lia|]. apply IH; [apply Z.div_pos; lia|]. lia. }
  by apply (G (S (Z.to_nat n))); [|lia].
Qed.

Lemma to_digits_value b n : 1 < b -> 0 <= n -> digits_value b (to_digits b n) = n.
Proof.
  intros Hb Hn. pattern n. apply (digit_ind b); try done.
  - intros m Hm. rewrite to_digits_small by lia. cbn. lia.
  - intros m Hm IH. rewrite to_digits_step, digits_value_snoc, IH by lia.
    pose proof (Z.div_mod m b ltac:(lia)). lia.
Qed.

Lemma to_digits_range b n : 1 < b -> 0 <= n -> Forall (fun d => 0 <= d < b) (to_digits b n).
Proof.
  intros Hb Hn. pattern n. apply (digit_ind b); try done.
  - intros m Hm. rewrite to_digits_small, Forall_singleton by lia. done.
  - intros m Hm IH. rewrite to_digits_step by lia. apply Forall_app; split; [done|].
    apply Forall_singleton, Z.mod_pos_bound; lia.
Qed.

Lemma to_digits_nonempty b n : 1 < b -> 0 <= n -> to_digits b n <> [].
Proof.
  intros Hb Hn. destruct (Z.ltb_spec n b); [by rewrite to_digits_small|].
  rewrite to_digits_step by lia. intros E. by apply app_eq_nil in E as [_ ?].
Qed.

(** No leading zero, except in the numeral of zero. *)
Lemma to_digits_canonical b n ds : 1 < b -> 0 <= n -> to_digits b n = 0 :: ds -> n = 0.
Proof.
  intros Hb Hn. revert ds. pattern n. apply (digit_ind b); try done.
  - intros m Hm ds. rewrite to_digits_small by lia. by intros [= ->].
  - intros m Hm IH ds. rewrite to_digits_step by lia.
    assert (0 < m / b) by (apply Z.div_str_pos; lia).
    destruct (to_digits b (m / b)) as [|d ds'] eqn:E.
    + by apply to_digits_nonempty in E; [|lia..].
    + intros [= -> _]. specialize (IH ds' eq_refl). lia.
Qed.

Lemma to_digits_length b n k :
  1 < b -> 0 <= n < b ^ Z.of_nat k -> (0 < k)%nat -> (length (to_digits b n) <= k)%nat.
Proof.
  intros Hb. revert n. induction k as [|k IH]; intros n Hn Hk; [lia|].
  destruct (Z.ltb_spec n b); [rewrite to_digits_small; cbn; lia|].
  rewrite to_digits_step, length_app by lia. cbn [length].
  rewrite Nat2Z.inj_succ, Z.pow_succ_r in Hn by lia.
  destruct k as [|k]; [cbn in Hn; lia|].
  enough (length (to_digits b (n / b)) <= S k)%nat by lia.
  apply IH; [|lia]. split; [apply Z.div_pos; lia|]. apply Z.div_lt_upper_bound; lia.
Qed.

(** ASCII decimal numerals. *)
Definition dec (n : Z) : list Z := (fun d => d + 48) <$> to_digits 10 n.

Definition decimal (x : Z) : list Z := if x <? 0 then 45 :: dec (- x) else dec x.

Definition is_digit (c : Z) : bool := (48 <=? c) && (c <=? 57).

Lemma dec_small n : n < 10 -> dec n = [n + 48].
Proof. intros. unfold dec. by rewrite to_digits_small. Qed.

Lemma dec_step n : 10 <= n -> dec n = dec (n / 10) ++ [n mod 10 + 48].
Proof. intros. unfold dec. rewrite to_digits_step, fmap_app by lia. done. Qed.

Lemma dec_length n k : 0 <= n < 10 ^ Z.of_nat k -> (0 < k)%nat -> (length (dec n) <= k)%nat.
Proof. intros. unfold dec. rewrite length_fmap. by apply to_digits_length. Qed.

Lemma dec_nonempty n : 0 <= n -> dec n <> [].
Proof. intros Hn E. apply fmap_nil_inv in E. by apply to_digits_nonempty in E; [|lia..]. Qed.

Lemma dec_digits n : 0 <= n -> Forall (fun c => 48 <= c <= 57) (dec n).
Proof.
  intros Hn. unfold dec. apply Forall_fmap.
  pose proof (to_digits_range 10 n ltac:(lia) Hn) as H.
  eapply Forall_impl; [|exact H]. cbn. intros; lia.
Qed.

Lemma dec_value n : 0 <= n -> digits_value 10 ((fun c => c - 48) <$> dec n) = n.
Proof.
  intros Hn. unfold dec. rewrite <- list_fmap_compose.
  rewrite (list_fmap_ext _ id); [rewrite list_fmap_id; apply to_digits_value; lia|].
  intros i d _. cbn. lia.
Qed.

(** * Automation *)

(** Case analysis on every integer comparison of the goal, impossible cases closed by [lia]. *)
Ltac zcase :=
  repeat (match goal with
          | |- context [?a <? ?b] => destruct (Z.ltb_spec a b); try lia
          | |- context [?a <=? ?b] => destruct (Z.leb_spec a b); try lia
          | |- context [?a >? ?b] => rewrite (Z.gtb_ltb a b)
          | |- context [?a >=? ?b] => rewrite (Z.geb_leb a b)
          | |- context [?a =? ?b] => destruct (Z.eqb_spec a b); try lia
          end; cbn [andb orb negb]).

(** Linear arithmetic with division and modulo by constants. *)
Ltac zdm := Z.to_euclidean_division_equations; lia.

Create HintDb gaston.
#[export] Hint Rewrite Nat2Z.id Nat2Z.inj_succ @length_app @length_fmap @length_insert : gaston.

(** A number put under the bits of another. *)
Lemma lor_low n a b : 0 <= n -> 0 <= b < 2 ^ n -> Z.lor (a * 2 ^ n) b = a * 2 ^ n + b.
Proof.
  intros Hn Hb. symmetry. apply Z.add_nocarry_lor. apply Z.bits_inj'. intros i Hi.
  rewrite Z.land_spec, Z.bits_0. destruct (Z.ltb_spec i n).
  - by rewrite Z.mul_pow2_bits_low by lia.
  - rewrite <- (Z.mod_small b (2 ^ n)), Z.mod_pow2_bits_high by lia. apply andb_false_r.
Qed.
