(* ===== verification/Posix.v ===== *)
(** The system-call interface the C library of [src/libc] is written against.

    [read] and [write] are supplied by picolibc's POSIX layer, outside the
    repository's sources, so they are operations of a class over an abstract
    world [W]; [PosixLaws] names what the library relies on: standard output
    receives every byte written to descriptor 1, and a one-byte read of
    descriptor 0 delivers the next pending byte or reports end of file. *)
From S2P Require Import Prelude.

Class Posix (W : Type) := {
  (** [write(fd, buf, n)], given the [n] bytes: the count and the new world. *)
  sys_write : Z -> list Z -> W -> Z * W;
  (** [read(fd, buf, n)]: the count, the bytes placed in [buf], the new world. *)
  sys_read : Z -> Z -> W -> Z * list Z * W;
}.

Class PosixLaws (W : Type) `{Posix W} := {
  stdin : W -> list Z;
  stdout : W -> list Z;
  write_stdout : forall bs w, stdout (sys_write 1 bs w).2 = stdout w ++ bs;
  write_stdin : forall bs w, stdin (sys_write 1 bs w).2 = stdin w;
  read_byte : forall c r w, stdin w = c :: r ->
    exists w', sys_read 0 1 w = (1, [c], w') /\ stdin w' = r /\ stdout w' = stdout w;
  read_eof : forall w, stdin w = [] ->
    exists n w', sys_read 0 1 w = (n, [], w') /\ n <= 0 /\ stdin w' = [] /\ stdout w' = stdout w;
}.

(** A stateful computation that may be undefined (an access outside a buffer). *)
Definition io (W A : Type) : Type := W -> option (A * W).

Definition io_ret {W A} (a : A) : io W A := fun w => Some (a, w).
Definition io_bind {W A B} (m : io W A) (k : A -> io W B) : io W B := fun w =>
  match m w with
  | Some (a, w') => k a w'
  | None => None
  end.
Definition io_of {W A} (o : option A) : io W A := fun w => (fun a => (a, w)) <$> o.

Notation "x <-- m ;; k" := (io_bind m (fun x => k))
  (at level 60, m at next level, right associativity) : gaston_scope.

Definition write_fd {W} `{Posix W} (fd : Z) (bs : list Z) : io W unit :=
  fun w => Some (tt, (sys_write fd bs w).2).

(** ** A console: the two byte streams and nothing else *)

Record console := Console { con_in : list Z; con_out : list Z }.

#[export] Instance console_posix : Posix console := {|
  sys_write fd bs w :=
    (Z.of_nat (length bs), if fd =? 1 then Console (con_in w) (con_out w ++ bs) else w);
  sys_read fd n w :=
    if fd =? 0 then
      let k := Z.to_nat n in
      (Z.of_nat (length (take k (con_in w))), take k (con_in w),
       Console (drop k (con_in w)) (con_out w))
    else (-1, [], w);
|}.

#[export] Program Instance console_laws : PosixLaws console := {|
  stdin := con_in;
  stdout := con_out;
|}.
Next Obligation. done. Qed.
Next Obligation. done. Qed.
Next Obligation. intros c r [i o] E. simpl in *. subst. eexists; split; [reflexivity|]. done. Qed.
Next Obligation. intros [i o] E. simpl in *. subst. eexists _, _; split; [reflexivity|]. done. Qed.
