(* ===== verification/Stdio.v ===== *)
(** [src/libc/stdio.c]: the decimal printers and the integer reader, and the
    single-character and string writers.

    Each function is a computation on the world of [Posix]; its local
    [char buf[n]] is a byte list whose accesses are checked, so a result
    [Some] also says that no access leaves the buffer. *)
From S2P Require Import Prelude Posix.

Section Stdio.
Context {W : Type} `{Posix W}.

(** ** [output]: print an integer and a newline *)

(** One round of the digit loop on the buffer, the write position and the value. *)
Definition output_body (s : list Z * Z * Z) : list Z * Z * Z + option (list Z * Z) :=
  let '(buf, p, val) := s in
  if 0 <? val then
    match store8 buf p (i8 (Z.rem val 10 + 48)) with
    | Some buf => inl (buf, p - 1, Z.quot val 10)
    | None => inr None
    end
  else inr (Some (buf, p)).

Definition output_digits (buf : list Z) (p val : Z) : option (list Z * Z) :=
  if val =? 0 then buf ← store8 buf p 48; Some (buf, p - 1)
  else r ← loop 32 output_body (buf, p, val); r.

(** The contents of [buf] before the call are arbitrary: [buf0]. *)
Definition output (buf0 : list Z) (x : Z) : io W unit :=
  let neg := x <? 0 in
  let val := if neg then i64 (0 - x) else x in
  bs <-- io_of (
    buf ← store8 buf0 23 10;
    '(buf, p) ← output_digits buf 22 val;
    '(buf, p) ← (if neg then buf ← store8 buf p 45; Some (buf, p - 1) else Some (buf, p));
    slice buf (p + 1) (24 - (p + 1)));;
  write_fd 1 bs.

(** ** [input]: read an integer *)

(** [n = read(0, buf, 1)]: the byte, or [None] when [n <= 0]. *)
Definition getc (w : W) : option Z * W :=
  let '(n, bs, w) := sys_read 0 1 w in
  if n <=? 0 then (None, w) else (head bs, w).

Definition is_space (c : Z) : bool := (c =? 32) || (c =? 10) || (c =? 13) || (c =? 9).

Definition input_skip (w : W) : W + option Z * W :=
  let '(c, w) := getc w in
  match c with
  | None => inr (None, w)
  | Some c => if is_space c then inl w else inr (Some c, w)
  end.

Definition input_digits (s : Z * Z * W) : Z * Z * W + Z * W :=
  let '(val, c, w) := s in
  if is_digit c then
    let val := i64 (i64 (val * 10) + (c - 48)) in
    match getc w with
    | (None, w) => inr (val, w)
    | (Some c, w) => inl (val, c, w)
    end
  else inr (val, w).

Definition input_number (fuel : nat) (neg : bool) (c : Z) (w : W) : option (Z * W) :=
  '(val, w) ← loop fuel input_digits (0, c, w);
  Some (i32 (if neg then i64 (0 - val) else val), w).

Definition input (fuel : nat) : io W Z := fun w =>
  '(c, w) ← loop fuel input_skip w;
  match c with
  | None => Some (0, w)
  | Some c =>
      if (c =? 45) || (c =? 43) then
        match getc w with
        | (None, w) => Some (0, w)
        | (Some d, w) => input_number fuel (c =? 45) d w
        end
      else input_number fuel false c w
  end.

(** ** Characters, strings and longs *)

Definition print_char (c : Z) : io W unit := write_fd 1 [u8 (i8 c)].

(** [strlen] loop of [print_string] and [puts], over the memory from [s] on. *)
Definition cstr_len (fuel : nat) (mem : Z -> Z) (s : Z) : option Z :=
  loop fuel (fun len => if mem (s + len) =? 0 then inr len else inl (len + 1)) 0.

Definition mem_bytes (mem : Z -> Z) (s len : Z) : list Z :=
  (fun i => mem (s + Z.of_nat i)) <$> seq 0 (Z.to_nat len).

Definition print_string (fuel : nat) (mem : Z -> Z) (s : Z) : io W unit :=
  len <-- io_of (cstr_len fuel mem s);;
  write_fd 1 (mem_bytes mem s len).

Fixpoint stdio_print_pos (fuel : nat) (n : Z) : io W unit :=
  match fuel with
  | O => fun _ => None
  | S fuel =>
      _ <-- (if 10 <=? n then stdio_print_pos fuel (Z.quot n 10) else io_ret tt);;
      print_char (i32 (Z.rem n 10 + 48))
  end.

(** 20 levels: a [long] has at most 19 decimal digits. *)
Definition stdio_print_long (n : Z) : io W unit :=
  if n <? 0 then
    _ <-- print_char 45;;
    stdio_print_pos 20 (i64 (0 - n))
  else stdio_print_pos 20 n.

End Stdio.

(** * Facts about one byte and one digit *)

Lemma u8_i8 v : 0 <= v < 128 -> u8 (i8 v) = v.
Proof. intros. rewrite i8_small, u8_small; lia. Qed.

Lemma digit_byte n : 0 <= n -> u8 (i8 (Z.rem n 10 + 48)) = n mod 10 + 48.
Proof.
  intros. rewrite Z.rem_mod_nonneg by lia. pose proof (Z.mod_pos_bound n 10 ltac:(lia)).
  apply u8_i8. lia.
Qed.

Definition dec_pos (v : Z) : list Z := if v =? 0 then [] else dec v.

Lemma dec_pos_step v : 0 < v -> dec v = dec_pos (v / 10) ++ [v mod 10 + 48].
Proof.
  intros Hv. unfold dec_pos. destruct (Z.eqb_spec (v / 10) 0) as [E|E].
  - rewrite dec_small by zdm. simpl. f_equal. zdm.
  - rewrite dec_step by zdm. done.
Qed.

(** * The printers *)

Section OutputSpec.
Context (v0 : Z) (Hv0 : 0 < v0 < 10 ^ 22).

Definition output_inv (s : list Z * Z * Z) : Prop :=
  let '(buf, p, v) := s in
  exists pre mid, buf = pre ++ mid ++ [10] /\ p = Z.of_nat (length pre) - 1 /\ 0 <= v /\
    dec_pos v ++ mid = dec v0 /\ (length pre + length mid = 23)%nat.

Lemma dec_v0_length : (length (dec v0) <= 22)%nat.
Proof. apply dec_length; [|lia]. change (Z.of_nat 22) with 22. lia. Qed.

Lemma output_digits_loop buf p v : output_inv (buf, p, v) ->
  exists pre, loop 32 output_body (buf, p, v) = Some (Some (pre ++ dec v0 ++ [10], Z.of_nat (length pre) - 1))
    /\ (length pre + length (dec v0) = 23)%nat.
Proof.
  intros HI.
  destruct (loop_rule output_body output_inv (fun '(_, _, v) => length (dec_pos v))
    (fun r => exists pre, r = Some (pre ++ dec v0 ++ [10], Z.of_nat (length pre) - 1) /\
              (length pre + length (dec v0) = 23)%nat)) with (fuel := 32%nat) (s := (buf, p, v))
    as (r & E & pre & -> & Hl); [|done| |by eauto].
  - clear buf p v HI. intros [[buf p] v] (pre & mid & -> & -> & Hv & Hd & Hl). unfold output_body.
    destruct (Z.ltb_spec 0 v) as [Hpos|].
    + pose proof dec_v0_length as HL. rewrite <- Hd, length_app in HL.
      assert (Hne : pre <> []).
      { intros ->. cbn in Hl. unfold dec_pos in HL. destruct (Z.eqb_spec v 0); [lia|].
        pose proof (dec_nonempty v Hv). destruct (dec v); [done|]. cbn in HL. lia. }
      destruct (exists_last Hne) as (pre' & old & ->). rewrite length_app in *. cbn [length] in *.
      rewrite <- app_assoc. cbn [app].
      rewrite (store8_mid pre' _ old) by (rewrite ?Nat2Z.inj_add; lia).
      rewrite digit_byte by lia. unfold dec_pos in Hd at 1. destruct (Z.eqb_spec v 0); [lia|].
      rewrite dec_pos_step in Hd by lia.
      rewrite Z.quot_div_nonneg by lia. split.
      * exists pre', (v mod 10 + 48 :: mid). repeat split; cbn [length]; try lia.
        -- apply Z.div_pos; lia.
        -- rewrite <- Hd, <- app_assoc. done.
      * unfold dec_pos at 2. destruct (Z.eqb_spec v 0); [lia|].
        rewrite (dec_pos_step v), length_app by lia. cbn. lia.
    + assert (v = 0) as -> by lia. cbn in Hd. subst mid. eauto.
  - destruct HI as (pre & mid & -> & -> & Hv & Hd & Hl).
    pose proof dec_v0_length as HL. rewrite <- Hd, length_app in HL. cbn. lia.
Qed.
End OutputSpec.

Lemma output_digits_spec buf22 t v :
  length buf22 = 23%nat -> t = [10] -> 0 <= v < 10 ^ 22 ->
  exists pre, output_digits (buf22 ++ t) 22 v = Some (pre ++ dec v ++ [10], Z.of_nat (length pre) - 1)
    /\ (length pre + length (dec v) = 23)%nat.
Proof.
  intros Hl -> Hv. unfold output_digits. destruct (Z.eqb_spec v 0) as [->|Hne].
  - destruct (exists_last (l := buf22)) as (pre & old & ->); [by intros ->|].
    rewrite length_app in Hl. cbn in Hl. rewrite <- app_assoc. cbn [app].
    rewrite (store8_mid pre _ old) by lia. exists pre. rewrite (dec_small 0) by lia.
    cbn. split; [|lia]. do 3 f_equal. lia.
  - destruct (output_digits_loop v ltac:(lia) (buf22 ++ [10]) 22 v) as (pre & -> & Hp).
    + exists buf22, []. split_and!; cbn [length]; try lia; [done|].
      rewrite app_nil_r. unfold dec_pos. by destruct (Z.eqb_spec v 0).
    + exists pre. done.
Qed.

Section OutputLaws.
Context {W : Type} `{PosixLaws W}.

(** [output x] never leaves its 24-byte buffer, whatever that held before, and
    appends the decimal numeral of [x] and a newline. *)
Lemma output_decimal (buf0 : list Z) (x : Z) (w : W) :
  length buf0 = 24%nat -> - 2 ^ 31 <= x < 2 ^ 31 ->
  exists w', output buf0 x w = Some (tt, w') /\
    stdout w' = stdout w ++ decimal x ++ [10] /\ stdin w' = stdin w.
Proof.
  intros Hl Hx. destruct (exists_last (l := buf0)) as (b & old & ->); [by intros ->|].
  rewrite length_app in Hl. cbn in Hl.
  unfold output, io_bind, io_of. rewrite (store8_mid b [] old) by lia. cbn [mbind option_bind].
  replace (u8 10) with 10 by reflexivity.
  assert (Hv : (if x <? 0 then i64 (0 - x) else x) = Z.abs x).
  { destruct (Z.ltb_spec x 0); [rewrite i64_small|]; lia. }
  rewrite Hv. clear Hv. set (v := Z.abs x).
  destruct (output_digits_spec b [10] v) as (pre & -> & Hp); [lia|done|lia|].
  cbn [mbind option_bind].
  assert (Hlen : (length (dec v) <= 10)%nat) by (apply dec_length; change (Z.of_nat 10) with 10; lia).
  unfold decimal. destruct (Z.ltb_spec x 0).
  - destruct (exists_last (l := pre)) as (pre' & o & ->); [intros ->; cbn [length] in Hp; lia|].
    rewrite length_app in *. cbn [length] in *. rewrite <- app_assoc. cbn [app].
    rewrite (store8_mid pre' _ o) by lia. cbn [mbind option_bind].
    replace (u8 45) with 45 by reflexivity.
    rewrite (slice_suffix pre' (45 :: dec v ++ [10]))
      by (cbn [length]; rewrite ?length_app; cbn [length]; lia).
    cbn. eexists; split; [reflexivity|]. rewrite write_stdout, write_stdin.
    replace (- x) with v by lia. done.
  - cbn [mbind option_bind].
    rewrite (slice_suffix pre (dec v ++ [10])) by (rewrite ?length_app; cbn [length]; lia).
    cbn. eexists; split; [reflexivity|]. rewrite write_stdout, write_stdin.
    replace x with v by lia. done.
Qed.

Lemma print_char_spec (c : Z) (w : W) : 0 <= c < 128 ->
  exists w', print_char c w = Some (tt, w') /\ stdout w' = stdout w ++ [c] /\ stdin w' = stdin w.
Proof.
  intros Hc. unfold print_char. rewrite u8_i8 by lia. eexists; split; [reflexivity|].
  by rewrite write_stdout, write_stdin.
Qed.

Lemma print_pos_spec n : 0 <= n -> forall fuel (w : W), (length (dec n) <= fuel)%nat ->
  exists w', stdio_print_pos fuel n w = Some (tt, w') /\
    stdout w' = stdout w ++ dec n /\ stdin w' = stdin w.
Proof.
  intros Hn. pattern n. apply (digit_ind 10); try done.
  - intros m Hm [|fuel] w Hf; [rewrite dec_small in Hf; cbn in Hf; lia|].
    cbn [stdio_print_pos]. destruct (Z.leb_spec 10 m); [lia|]. cbn [io_bind io_ret].
    unfold io_bind, io_ret. rewrite Z.rem_small, i32_small, dec_small by lia.
    apply print_char_spec. lia.
  - intros m Hm IH [|fuel] w Hf; rewrite dec_step, length_app in Hf by lia; cbn [length] in Hf; [lia|].
    cbn [stdio_print_pos]. destruct (Z.leb_spec 10 m); [|lia]. unfold io_bind.
    rewrite Z.quot_div_nonneg, Z.rem_mod_nonneg by lia.
    destruct (IH fuel w ltac:(lia)) as (w1 & -> & Ho & Hi).
    pose proof (Z.mod_pos_bound m 10 ltac:(lia)). rewrite i32_small by lia.
    destruct (print_char_spec (m mod 10 + 48) w1 ltac:(lia)) as (w2 & -> & Ho2 & Hi2).
    exists w2. split; [done|]. rewrite Ho2, Hi2, Ho, Hi, (dec_step m), app_assoc by lia. done.
Qed.

(** [__stdio_print_long n] prints the decimal numeral of every [long] but
    [LONG_MIN]. *)
Theorem print_long_decimal (n : Z) (w : W) : - 2 ^ 63 < n < 2 ^ 63 ->
  exists w', stdio_print_long n w = Some (tt, w') /\
    stdout w' = stdout w ++ decimal n /\ stdin w' = stdin w.
Proof.
  intros Hn. unfold stdio_print_long, decimal.
  assert (HL : forall m, 0 <= m < 2 ^ 63 -> (length (dec m) <= 20)%nat).
  { intros m Hm. apply dec_length; [|lia]. change (Z.of_nat 20) with 20. lia. }
  destruct (Z.ltb_spec n 0).
  - unfold io_bind. destruct (print_char_spec 45 w ltac:(lia)) as (w1 & -> & Ho & Hi).
    rewrite i64_small by lia. replace (0 - n) with (- n) by lia.
    destruct (print_pos_spec (- n) ltac:(lia) 20 w1) as (w2 & -> & Ho2 & Hi2); [apply HL; lia|].
    exists w2. split; [done|]. rewrite Ho2, Hi2, Ho, Hi, <- app_assoc. done.
  - apply print_pos_spec; [lia|]. apply HL. lia.
Qed.

(** On [LONG_MIN] the negation overflows and the two bytes ["-("] come out
    instead of a numeral. *)
Theorem print_long_min (w : W) :
  exists w', stdio_print_long (- 2 ^ 63) w = Some (tt, w') /\ stdout w' = stdout w ++ [45; 40].
Proof.
  unfold stdio_print_long. change (- 2 ^ 63 <? 0) with true. unfold io_bind.
  destruct (print_char_spec 45 w ltac:(lia)) as (w1 & -> & Ho & _).
  change (i64 (0 - - 2 ^ 63)) with (- 2 ^ 63). cbn [stdio_print_pos].
  change (10 <=? - 2 ^ 63) with false. cbn iota. unfold io_bind, io_ret.
  change (i32 (Z.rem (- 2 ^ 63) 10 + 48)) with 40.
  destruct (print_char_spec 40 w1 ltac:(lia)) as (w2 & -> & Ho2 & _).
  exists w2. split; [done|]. by rewrite Ho2, Ho, <- app_assoc.
Qed.

(** ** Reading an integer back *)

Lemma getc_cons c r (w : W) : stdin w = c :: r ->
  exists w', getc w = (Some c, w') /\ stdin w' = r /\ stdout w' = stdout w.
Proof.
  intros E. destruct (read_byte c r w E) as (w' & Hr & Hi & Ho). exists w'.
  unfold getc. by rewrite Hr.
Qed.

Lemma getc_eof (w : W) : stdin w = [] ->
  exists w', getc w = (None, w') /\ stdin w' = [] /\ stdout w' = stdout w.
Proof.
  intros E. destruct (read_eof w E) as (n & w' & Hr & Hn & Hi & Ho). exists w'.
  unfold getc. rewrite Hr. destruct (Z.leb_spec n 0); [done|lia].
Qed.

Lemma input_skip_spec ws : Forall (fun c => is_space c = true) ws ->
  forall c r (w : W) fuel, stdin w = ws ++ c :: r -> is_space c = false -> (length ws < fuel)%nat ->
  exists w', loop fuel input_skip w = Some (Some c, w') /\ stdin w' = r /\ stdout w' = stdout w.
Proof.
  induction 1 as [|s ws Hs _ IH]; intros c r w [|fuel] E Hc Hf; cbn [length] in Hf; try lia;
    cbn [loop]; unfold input_skip at 1.
  - destruct (getc_cons c r w E) as (w' & -> & Hi & Ho). rewrite Hc. eauto.
  - destruct (getc_cons s _ w E) as (w' & -> & Hi & Ho). rewrite Hs.
    destruct (IH c r w' fuel Hi Hc ltac:(lia)) as (w2 & -> & Hi2 & Ho2).
    exists w2. by rewrite Ho2, Ho.
Qed.

(** What follows a numeral: nothing, or a byte that is not a digit. *)
Definition stops (rest : list Z) : Prop :=
  match rest with [] => True | c :: _ => is_digit c = false end.

Lemma input_digits_spec ds : forall d val rest (w : W) fuel,
  Forall (fun c => is_digit c = true) (d :: ds) -> stdin w = ds ++ rest -> stops rest ->
  (length ds + 1 < fuel)%nat ->
  exists v w' k, loop fuel input_digits (val, d, w) = Some (v, w') /\
    v = fold_left (fun a d => a * 10 + d) ((fun c => c - 48) <$> d :: ds) val + k * 2 ^ 64 /\
    stdin w' = tail rest /\ stdout w' = stdout w.
Proof.
  induction ds as [|e ds IH]; intros d val rest w [|fuel] Hd E Hs Hf; cbn [length] in Hf; try lia;
    inversion Hd as [|? ? Hd1 Hd2]; subst; cbn [loop]; unfold input_digits at 1; rewrite Hd1;
    destruct (wrapS_offset 64 (val * 10) ltac:(lia)) as [k1 Hk1];
    destruct (wrapS_offset 64 (i64 (val * 10) + (d - 48)) ltac:(lia)) as [k2 Hk2];
    rewrite Hk2, Hk1.
  - destruct rest as [|c rest].
    + destruct (getc_eof w E) as (w' & -> & Hi & Ho). eexists _, w', (k1 + k2). cbn. split_and!; try done; lia.
    + destruct (getc_cons c rest w E) as (w' & -> & Hi & Ho). cbn in Hs.
      destruct fuel as [|fuel]; [lia|]. cbn [loop]. unfold input_digits. rewrite Hs.
      eexists _, w', (k1 + k2). cbn. split_and!; try done; lia.
  - destruct (getc_cons e (ds ++ rest) w E) as (w' & -> & Hi & Ho).
    match goal with |- context [loop _ _ (?v1, e, w')] =>
      destruct (IH e v1 rest w' fuel Hd2 Hi Hs ltac:(lia)) as (v & w2 & k & -> & Hm & Hi2 & Ho2) end.
    exists v, w2, (k + (k1 + k2) * 10 * 10 ^ Z.of_nat (length ((fun c => c - 48) <$> ds))).
    split_and!; try done; [|by rewrite Ho2].
    rewrite Hm. rewrite !fmap_cons. cbn [fold_left]. rewrite !digits_value_acc.
    set (P := 10 ^ _). set (D := digits_value _ _). lia.
Qed.

Lemma input_number_spec neg d ds rest (w : W) fuel :
  Forall (fun c => is_digit c = true) (d :: ds) -> stdin w = ds ++ rest -> stops rest ->
  (length ds + 1 < fuel)%nat ->
  exists w', input_number fuel neg d w =
      Some (let n := digits_value 10 ((fun c => c - 48) <$> d :: ds) in i32 (if neg : bool then - n else n), w') /\
    stdin w' = tail rest /\ stdout w' = stdout w.
Proof.
  intros Hd E Hs Hf. unfold input_number.
  destruct (input_digits_spec ds d 0 rest w fuel Hd E Hs Hf) as (v & w' & k & -> & -> & Hi & Ho).
  exists w'. split; [|done]. cbn [mbind option_bind]. do 2 f_equal. cbv zeta. fold (digits_value 10 ((fun c => c - 48) <$> d :: ds)).
  set (n := digits_value _ _). destruct neg.
  - destruct (wrapS_offset 64 (0 - (n + k * 2 ^ 64)) ltac:(lia)) as [k' ->].
    rewrite <- (wrapS_add_wider 32 64 (- n) (k' - k)) by lia. f_equal. lia.
  - apply wrapS_add_wider. lia.
Qed.

(** The sign [input] accepts in front of the digits. *)
Inductive sign_of : list Z -> bool -> Prop :=
| sign_none : sign_of [] false
| sign_plus : sign_of [43] false
| sign_minus : sign_of [45] true.

Lemma input_reads_aux (ws sg ds rest : list Z) (neg : bool) (w : W) (fuel : nat) :
  Forall (fun c => is_space c = true) ws -> sign_of sg neg -> ds <> [] ->
  Forall (fun c => is_digit c = true) ds -> stops rest ->
  stdin w = ws ++ sg ++ ds ++ rest -> (length ws + length ds < fuel)%nat ->
  exists w', input fuel w =
      Some (let n := digits_value 10 ((fun c => c - 48) <$> ds) in i32 (if neg then - n else n), w') /\
    stdin w' = tail rest /\ stdout w' = stdout w.
Proof.
  intros Hws Hsg Hne Hds Hs E Hf. destruct ds as [|d ds]; [done|]. cbn [length] in Hf.
  assert (Hd : is_digit d = true) by (by inversion Hds).
  unfold input. destruct Hsg; cbn [app] in E.
  - assert (Hsp : is_space d = false).
    { unfold is_digit, is_space in *. revert Hd. zcase; done. }
    destruct (input_skip_spec ws Hws d _ w fuel E Hsp ltac:(lia)) as (w1 & -> & Hi & Ho).
    cbn [mbind option_bind].
    assert (Hm : (d =? 45) || (d =? 43) = false).
    { unfold is_digit in Hd. revert Hd. zcase; done. }
    rewrite Hm.
    destruct (input_number_spec false d ds rest w1 fuel) as (w' & -> & ? & Ho'); try done; [lia|].
    exists w'. by rewrite Ho', Ho.
  - destruct (input_skip_spec ws Hws 43 _ w fuel E eq_refl ltac:(lia)) as (w1 & -> & Hi & Ho).
    cbn [mbind option_bind]. change ((43 =? 45) || (43 =? 43)) with true. change (43 =? 45) with false. cbn iota.
    destruct (getc_cons d _ w1 Hi) as (w2 & -> & Hi2 & Ho2).
    destruct (input_number_spec false d ds rest w2 fuel) as (w' & -> & ? & Ho'); try done; [lia|].
    exists w'. by rewrite Ho', Ho2, Ho.
  - destruct (input_skip_spec ws Hws 45 _ w fuel E eq_refl ltac:(lia)) as (w1 & -> & Hi & Ho).
    cbn [mbind option_bind]. change ((45 =? 45) || (45 =? 43)) with true. change (45 =? 45) with true. cbn iota.
    destruct (getc_cons d _ w1 Hi) as (w2 & -> & Hi2 & Ho2).
    destruct (input_number_spec true d ds rest w2 fuel) as (w' & -> & ? & Ho'); try done; [lia|].
    exists w'. by rewrite Ho', Ho2, Ho.
Qed.

Lemma decimal_shape x : exists sg neg n, decimal x = sg ++ dec n /\ sign_of sg neg /\ 0 <= n /\
  x = if neg : bool then - n else n.
Proof.
  unfold decimal. destruct (Z.ltb_spec x 0).
  - exists [45], true, (- x). split_and!; [done|constructor|lia|lia].
  - exists [], false, x. split_and!; [done|constructor|lia|lia].
Qed.

Lemma dec_is_digit n : 0 <= n -> Forall (fun c => is_digit c = true) (dec n).
Proof.
  intros Hn. eapply Forall_impl; [|apply (dec_digits n Hn)]. cbv beta. unfold is_digit. intros c Hc. lia.
Qed.

(** [input] skips white space, reads an optional sign and a digit string of
    any length, consumes the byte that ends it, and returns the number reduced
    to an [int]. *)
Theorem input_reads (ws sg ds rest : list Z) (neg : bool) (w : W) (fuel : nat) :
  Forall (fun c => is_space c = true) ws -> sign_of sg neg -> ds <> [] ->
  Forall (fun c => is_digit c = true) ds -> stops rest ->
  stdin w = ws ++ sg ++ ds ++ rest -> (length ws + length ds < fuel)%nat ->
  exists w', input fuel w =
      Some (let n := digits_value 10 ((fun c => c - 48) <$> ds) in i32 (if neg then - n else n), w') /\
    stdin w' = tail rest /\ stdout w' = stdout w.
Proof. intros. by apply (input_reads_aux ws sg ds rest neg). Qed.

(** C30: for every [int] [x] and whatever its 24-byte buffer held before,
    [output x] stays inside the buffer and appends to standard output the decimal
    numeral of [x] and a newline; [input] reads those bytes, followed by
    anything, back as [x] and stops right after the newline. *)
Theorem output_input_roundtrip (buf0 : list Z) (x : Z) (w : W) :
  length buf0 = 24%nat -> - 2 ^ 31 <= x < 2 ^ 31 ->
  exists w', output buf0 x w = Some (tt, w') /\ stdout w' = stdout w ++ decimal x ++ [10] /\
    forall (wr : W) rest fuel, stdin wr = (decimal x ++ [10]) ++ rest ->
    (length (decimal x) < fuel)%nat ->
    exists wr', input fuel wr = Some (x, wr') /\ stdin wr' = rest.
Proof.
  intros Hl Hx. destruct (output_decimal buf0 x w Hl Hx) as (w' & Hw & Ho & _).
  exists w'. split_and!; try done. intros wr rest fuel E Hf.
  destruct (decimal_shape x) as (sg & neg & n & Ed & Hsg & Hn & Hxn). rewrite Ed in *.
  rewrite !length_app in Hf. rewrite <- !app_assoc in E.
  destruct (input_reads_aux [] sg (dec n) ([10] ++ rest) neg wr fuel) as (w2 & -> & Hi & _);
    try done; [by apply dec_nonempty|by apply dec_is_digit|cbn [length] in *; lia|].
  exists w2. split; [|done]. cbv zeta. rewrite dec_value by done.
  rewrite <- Hxn, i32_small by lia. done.
Qed.

(** ** Strings *)

Lemma cstr_len_spec s : forall mem a fuel, cstr mem a s -> (length s < fuel)%nat ->
  cstr_len fuel mem a = Some (Z.of_nat (length s)).
Proof.
  intros mem a fuel [Hs Hz] Hf. unfold cstr_len.
  apply (loop_eq _ (fun len => 0 <= len <= Z.of_nat (length s)) (fun len => Z.to_nat (Z.of_nat (length s) - len)));
    [|lia|lia].
  intros len Hlen. destruct (Z.eqb_spec (mem (a + len)) 0) as [E|E].
  - destruct (Z.eqb_spec len (Z.of_nat (length s))); [done|].
    destruct (lookup_lt_is_Some_2 s (Z.to_nat len)) as [c Hc]; [lia|].
    destruct (Hs _ _ Hc) as [Hm Hne]. rewrite Z2Nat.id in Hm by lia. congruence.
  - assert (len <> Z.of_nat (length s)) by (intros ->; done). lia.
Qed.

Lemma mem_bytes_cstr mem a s : cstr mem a s -> mem_bytes mem a (Z.of_nat (length s)) = s.
Proof.
  intros [Hs _]. unfold mem_bytes. rewrite Nat2Z.id. apply list_eq. intros i.
  rewrite list_lookup_fmap. destruct (decide (i < length s)%nat).
  - rewrite lookup_seq_lt by done. destruct (lookup_lt_is_Some_2 s i) as [c Hc]; [done|].
    cbn. rewrite Hc. by destruct (Hs i c Hc) as [-> _].
  - rewrite lookup_seq_ge, lookup_ge_None_2 by lia. done.
Qed.

(** [print_string] writes exactly the string, up to its terminator. *)
Lemma print_string_writes (mem : Z -> Z) (a : Z) (s : list Z) (w : W) (fuel : nat) :
  cstr mem a s -> (length s < fuel)%nat ->
  exists w', print_string fuel mem a w = Some (tt, w') /\
    stdout w' = stdout w ++ s /\ stdin w' = stdin w.
Proof.
  intros Hs Hf. unfold print_string, io_bind, io_of. rewrite (cstr_len_spec s) by done.
  cbn. rewrite mem_bytes_cstr by done. eexists; split; [reflexivity|].
  by rewrite write_stdout, write_stdin.
Qed.
End OutputLaws.

(** * The theorems at concrete inputs, on the console *)

Definition buf24 : list Z := replicate 24 0.

Lemma print_long_decimal_witness :
  exists w', stdio_print_long (-1000) (Console [] []) = Some (tt, w') /\
    stdout w' = [] ++ decimal (-1000) /\ stdin w' = [].
Proof. exact (print_long_decimal (-1000) (Console [] []) ltac:(lia)). Defined.

(** ["  -12 "] *)
Lemma input_reads_witness :
  exists w', input 10 (Console [32; 32; 45; 49; 50; 32] []) = Some (-12, w') /\
    stdin w' = [] /\ stdout w' = [].
Proof.
  refine (input_reads [32; 32] [45] [49; 50] [32] true (Console [32; 32; 45; 49; 50; 32] []) 10
    _ sign_minus _ _ eq_refl eq_refl _); [by repeat constructor|done|by repeat constructor|cbn; lia].
Defined.

Lemma output_input_roundtrip_witness :
  exists w', output buf24 (- 2 ^ 31) (Console [] []) = Some (tt, w') /\
    stdout w' = [] ++ decimal (- 2 ^ 31) ++ [10] /\
    forall (wr : console) rest fuel, stdin wr = (decimal (- 2 ^ 31) ++ [10]) ++ rest ->
    (length (decimal (- 2 ^ 31)) < fuel)%nat ->
    exists wr', input fuel wr = Some (- 2 ^ 31, wr') /\ stdin wr' = rest.
Proof. exact (output_input_roundtrip buf24 (- 2 ^ 31) (Console [] []) eq_refl ltac:(lia)). Defined.

Lemma print_string_writes_witness :
  exists w', print_string 10 (mem_of 100 [104; 105]) 100 (Console [7] [1]) = Some (tt, w') /\
    stdout w' = [1] ++ [104; 105] /\ stdin w' = [7].
Proof.
  refine (print_string_writes (mem_of 100 [104; 105]) 100 [104; 105] (Console [7] [1]) 10 _ _);
    [|cbn; lia].
  apply cstr_mem_of. by repeat constructor.
Defined.
