(* ===== verification/CFloat.v ===== *)
(** IEEE 754 numbers as the C library handles them.

    A [double] is its 64-bit pattern, a [float] its 32-bit pattern (the library
    reads patterns through unions).  [decode64] gives the number a pattern
    denotes as a [spec_float] of the Standard Library, whose operations are the
    IEEE ones; arithmetic decodes, computes and encodes.  [DBL_MANT_DIG] and
    [DBL_MAX_EXP] are those of [src/libc/float.h].  Conversions to [long]
    truncate and saturate, as the FCVTZS instruction gaston emits does. *)
From Stdlib Require Import SpecFloat.
From S2P Require Import Prelude.

(** ** [src/libc/float.h] *)

Definition DBL_MANT_DIG : Z := 53.
Definition DBL_MIN_EXP : Z := -1021.
Definition DBL_MAX_EXP : Z := 1024.
Definition FLT_MANT_DIG : Z := 24.
Definition FLT_MIN_EXP : Z := -125.
Definition FLT_MAX_EXP : Z := 128.

(** ** Bit fields *)

Definition bits (x lo len : Z) : Z := Z.land (Z.shiftr x lo) (Z.ones len).

Definition dbl_sign (x : Z) : bool := Z.testbit x 63.
Definition dbl_exp (x : Z) : Z := bits x 52 11.
Definition dbl_frac (x : Z) : Z := bits x 0 52.

Definition mk_dbl (s : bool) (e f : Z) : Z :=
  (if s then 2 ^ 63 else 0) + e * 2 ^ 52 + f.

Definition dbl_nan : Z := mk_dbl false 2047 (2 ^ 51).

Definition decode64 (x : Z) : spec_float :=
  let s := dbl_sign x in
  let e := dbl_exp x in
  let f := dbl_frac x in
  if e =? 2047 then (if f =? 0 then S754_infinity s else S754_nan)
  else if e =? 0 then
    match f with
    | Zpos m => S754_finite s m (-1074)
    | _ => S754_zero s
    end
  else
    match f + 2 ^ 52 with
    | Zpos m => S754_finite s m (e - 1075)
    | _ => S754_nan
    end.

Definition encode64 (v : spec_float) : Z :=
  match v with
  | S754_zero s => mk_dbl s 0 0
  | S754_infinity s => mk_dbl s 2047 0
  | S754_nan => dbl_nan
  | S754_finite s m e =>
      if Zpos m <? 2 ^ 52 then mk_dbl s 0 (Zpos m)
      else mk_dbl s (e + 1075) (Zpos m - 2 ^ 52)
  end.

(** ** Arithmetic *)

Definition dadd (x y : Z) : Z := encode64 (SFadd DBL_MANT_DIG DBL_MAX_EXP (decode64 x) (decode64 y)).
Definition dsub (x y : Z) : Z := encode64 (SFsub DBL_MANT_DIG DBL_MAX_EXP (decode64 x) (decode64 y)).
Definition dmul (x y : Z) : Z := encode64 (SFmul DBL_MANT_DIG DBL_MAX_EXP (decode64 x) (decode64 y)).
Definition ddiv (x y : Z) : Z := encode64 (SFdiv DBL_MANT_DIG DBL_MAX_EXP (decode64 x) (decode64 y)).
Definition dge (x y : Z) : bool := SFleb (decode64 y) (decode64 x).

(** [(double)i] *)
Definition dbl_of_long (i : Z) : Z :=
  encode64 (binary_normalize DBL_MANT_DIG DBL_MAX_EXP i 0 false).

Definition saturate (v : Z) : Z := Z.max (- 2 ^ 63) (Z.min (2 ^ 63 - 1) v).

(** [(long)x] *)
Definition long_of_dbl (x : Z) : Z :=
  match decode64 x with
  | S754_zero _ | S754_nan => 0
  | S754_infinity s => if s then - 2 ^ 63 else 2 ^ 63 - 1
  | S754_finite s m e =>
      let v := if 0 <=? e then Zpos m * 2 ^ e else Z.shiftr (Zpos m) (- e) in
      saturate (if s then - v else v)
  end.

(** ** [float] to [double] *)

Definition flt_sign (x : Z) : bool := Z.testbit x 31.
Definition flt_exp (x : Z) : Z := bits x 23 8.
Definition flt_frac (x : Z) : Z := bits x 0 23.

Definition decode32 (x : Z) : spec_float :=
  let s := flt_sign x in
  let e := flt_exp x in
  let f := flt_frac x in
  if e =? 255 then (if f =? 0 then S754_infinity s else S754_nan)
  else if e =? 0 then
    match f with
    | Zpos m => S754_finite s m (-149)
    | _ => S754_zero s
    end
  else
    match f + 2 ^ 23 with
    | Zpos m => S754_finite s m (e - 150)
    | _ => S754_nan
    end.

(** Widening (FCVT): exact; a NaN keeps its sign and payload and becomes quiet. *)
Definition widen (x : Z) : Z :=
  let s := flt_sign x in
  let e := flt_exp x in
  let f := flt_frac x in
  if e =? 255 then mk_dbl s 2047 (if f =? 0 then 0 else Z.lor (2 ^ 51) (f * 2 ^ 29))
  else if e =? 0 then
    if f =? 0 then mk_dbl s 0 0
    else let k := Z.log2 f in mk_dbl s (k - 149 + 1023) ((f - 2 ^ k) * 2 ^ (52 - k))
  else mk_dbl s (e - 127 + 1023) (f * 2 ^ 29).

(** ** Fields of patterns *)

Lemma bits_range x lo len : 0 <= len -> 0 <= bits x lo len < 2 ^ len.
Proof. intros. unfold bits. rewrite Z.land_ones by lia. apply Z.mod_pos_bound. lia. Qed.

Lemma bits_spec x lo len : 0 <= lo -> 0 <= len -> bits x lo len = x / 2 ^ lo mod 2 ^ len.
Proof. intros. unfold bits. by rewrite Z.land_ones, Z.shiftr_div_pow2 by lia. Qed.

Lemma dbl_exp_range x : 0 <= dbl_exp x < 2048.
Proof. apply (bits_range x 52 11). lia. Qed.

Lemma dbl_frac_range x : 0 <= dbl_frac x < 2 ^ 52.
Proof. apply (bits_range x 0 52). lia. Qed.

Lemma flt_exp_range x : 0 <= flt_exp x < 256.
Proof. apply (bits_range x 23 8). lia. Qed.

Lemma flt_frac_range x : 0 <= flt_frac x < 2 ^ 23.
Proof. apply (bits_range x 0 23). lia. Qed.

Lemma testbit_top w x : 0 <= w -> 0 <= x < 2 ^ (w + 1) -> Z.testbit x w = (2 ^ w <=? x).
Proof.
  intros Hw Hx. rewrite Z.pow_add_r in Hx by lia.
  assert (Hq : x / 2 ^ w = if 2 ^ w <=? x then 1 else 0).
  { destruct (Z.leb_spec (2 ^ w) x).
    - symmetry. apply (Z.div_unique x (2 ^ w) 1 (x - 2 ^ w)); lia.
    - apply Z.div_small. lia. }
  rewrite Z.testbit_eqb, Hq by lia. by destruct (2 ^ w <=? x).
Qed.

Lemma mk_dbl_fields x : 0 <= x < 2 ^ 64 -> mk_dbl (dbl_sign x) (dbl_exp x) (dbl_frac x) = x.
Proof.
  intros Hx. unfold mk_dbl, dbl_sign, dbl_exp, dbl_frac. rewrite !bits_spec by lia.
  rewrite (testbit_top 63) by lia. change (2 ^ 0) with 1. rewrite Z.div_1_r.
  change (2 ^ 11) with 2048. change (2 ^ 52) with 4503599627370496 in *.
  change (2 ^ 63) with 9223372036854775808 in *. change (2 ^ 64) with 18446744073709551616 in *.
  destruct (Z.leb_spec 9223372036854775808 x); zdm.
Qed.

Lemma fields_mk_dbl s e f : 0 <= e < 2048 -> 0 <= f < 2 ^ 52 ->
  dbl_sign (mk_dbl s e f) = s /\ dbl_exp (mk_dbl s e f) = e /\ dbl_frac (mk_dbl s e f) = f /\
  0 <= mk_dbl s e f < 2 ^ 64.
Proof.
  intros He Hf. assert (Hr : 0 <= mk_dbl s e f < 2 ^ 64) by (unfold mk_dbl; destruct s; lia).
  unfold dbl_sign, dbl_exp, dbl_frac. rewrite !bits_spec, (testbit_top 63) by lia.
  revert Hr. unfold mk_dbl. change (2 ^ 0) with 1. rewrite Z.div_1_r.
  change (2 ^ 11) with 2048. change (2 ^ 52) with 4503599627370496 in *.
  change (2 ^ 63) with 9223372036854775808 in *. change (2 ^ 64) with 18446744073709551616 in *.
  destruct s; intros; split_and!; try lia; zdm.
Qed.

(** Encoding is a left inverse of decoding, except that every NaN becomes the
    default one. *)
Lemma encode_decode64 x : 0 <= x < 2 ^ 64 ->
  encode64 (decode64 x) = if (dbl_exp x =? 2047) && negb (dbl_frac x =? 0) then dbl_nan else x.
Proof.
  intros Hx. rewrite <- (mk_dbl_fields x Hx) at 4.
  pose proof (dbl_exp_range x). pose proof (dbl_frac_range x). unfold decode64.
  destruct (Z.eqb_spec (dbl_exp x) 2047) as [->|].
  { by destruct (Z.eqb_spec (dbl_frac x) 0) as [->|]. }
  cbn [andb]. destruct (Z.eqb_spec (dbl_exp x) 0) as [->|].
  - destruct (dbl_frac x) as [|m|] eqn:E; [done| |lia]. cbn [encode64].
    by destruct (Z.ltb_spec (Z.pos m) (2 ^ 52)); [|lia].
  - destruct (dbl_frac x + 2 ^ 52) as [|m|] eqn:E; [lia| |lia]. cbn [encode64].
    destruct (Z.ltb_spec (Z.pos m) (2 ^ 52)); [lia|]. f_equal; lia.
Qed.

(** The two values are the same number, the second with a finer exponent. *)
Definition same_value (a b : spec_float) : Prop :=
  match a, b with
  | S754_zero s, S754_zero s' | S754_infinity s, S754_infinity s' => s = s'
  | S754_nan, S754_nan => True
  | S754_finite s m e, S754_finite s' m' e' =>
      s = s' /\ exists k, 0 <= k /\ e = e' + k /\ Zpos m' = Zpos m * 2 ^ k
  | _, _ => False
  end.

Lemma lor_quiet f : 0 <= f < 2 ^ 51 -> Z.lor (2 ^ 51) f = 2 ^ 51 + f.
Proof.
  intros Hf. symmetry.
  rewrite <- Z.lxor_lor; [apply Z.add_nocarry_lxor|];
    apply Z.bits_inj'; intros n Hn; rewrite Z.land_spec, Z.pow2_bits_eqb, Z.bits_0 by lia;
    (destruct (Z.eqb_spec 51 n) as [<-|]; [|done]);
    cbn [andb]; rewrite Z.testbit_eqb, Z.div_small by lia; done.
Qed.

Lemma nan_payload f : 0 < f < 2 ^ 23 ->
  0 <= Z.lor (2 ^ 51) (f * 2 ^ 29) < 2 ^ 52 /\ Z.lor (2 ^ 51) (f * 2 ^ 29) <> 0.
Proof.
  intros Hf. destruct (Z.ltb_spec f (2 ^ 22)).
  - rewrite lor_quiet by lia. lia.
  - assert (E : f * 2 ^ 29 = 2 ^ 51 + (f - 2 ^ 22) * 2 ^ 29) by lia.
    rewrite E, <- lor_quiet, Z.lor_assoc, Z.lor_diag, lor_quiet by lia. lia.
Qed.

Lemma widen_mk x : exists e f, widen x = mk_dbl (flt_sign x) e f /\ 0 <= e < 2048 /\ 0 <= f < 2 ^ 52.
Proof.
  pose proof (flt_exp_range x). pose proof (flt_frac_range x). unfold widen. cbv zeta.
  destruct (Z.eqb_spec (flt_exp x) 255).
  { destruct (Z.eqb_spec (flt_frac x) 0); eexists _, _; (split; [reflexivity|]); [lia|].
    split; [lia|]. apply nan_payload. lia. }
  destruct (Z.eqb_spec (flt_exp x) 0); [|eexists _, _; split; [reflexivity|]; lia].
  destruct (Z.eqb_spec (flt_frac x) 0); [eexists _, _; split; [reflexivity|]; lia|].
  set (f := flt_frac x) in *. pose proof (Z.log2_spec f ltac:(lia)) as [Hlo Hhi].
  assert (Hk : 0 <= Z.log2 f < 23) by (split; [apply Z.log2_nonneg|apply Z.log2_lt_pow2; lia]).
  assert (E : 2 ^ 52 = 2 ^ Z.log2 f * 2 ^ (52 - Z.log2 f)) by (rewrite <- Z.pow_add_r; [f_equal|..]; lia).
  rewrite Z.pow_succ_r in Hhi by lia.
  eexists _, _; split; [reflexivity|]. pose proof (Z.pow_pos_nonneg 2 (52 - Z.log2 f)). nia.
Qed.

Lemma widen_range x : 0 <= widen x < 2 ^ 64.
Proof. destruct (widen_mk x) as (e & f & -> & He & Hf). by apply fields_mk_dbl. Qed.

Lemma widen_sign x : dbl_sign (widen x) = flt_sign x.
Proof. destruct (widen_mk x) as (e & f & -> & He & Hf). by apply fields_mk_dbl. Qed.

(** The fields of a widened pattern, by the class of the [float]. *)
Lemma decode_mk_dbl s e f : 0 <= e < 2048 -> 0 <= f < 2 ^ 52 ->
  decode64 (mk_dbl s e f) =
    if e =? 2047 then (if f =? 0 then S754_infinity s else S754_nan)
    else if e =? 0 then match f with Zpos m => S754_finite s m (-1074) | _ => S754_zero s end
    else match f + 2 ^ 52 with Zpos m => S754_finite s m (e - 1075) | _ => S754_nan end.
Proof.
  intros He Hf. destruct (fields_mk_dbl s e f He Hf) as (Hs & He' & Hf' & _).
  unfold decode64. by rewrite Hs, He', Hf'.
Qed.

Lemma same_value_finite s m e n e' k :
  0 <= k -> e = e' + k -> n = Zpos m * 2 ^ k ->
  same_value (S754_finite s m e)
    (match n with Zpos m' => S754_finite s m' e' | _ => S754_nan end).
Proof.
  intros Hk He Hn. assert (0 < n) by (subst n; apply Z.mul_pos_pos; [lia|apply Z.pow_pos_nonneg; lia]).
  destruct n as [|n|n]; try lia. cbn. eauto.
Qed.

Lemma widen_value x : same_value (decode32 x) (decode64 (widen x)).
Proof.
  pose proof (flt_exp_range x). pose proof (flt_frac_range x). unfold widen, decode32. cbv zeta.
  destruct (Z.eqb_spec (flt_exp x) 255).
  { destruct (Z.eqb_spec (flt_frac x) 0); [by rewrite decode_mk_dbl|].
    destruct (nan_payload (flt_frac x)) as [? Hz]; [lia|]. rewrite decode_mk_dbl by lia.
    change (2047 =? 2047) with true. cbn iota.
    by destruct (Z.eqb_spec (Z.lor (2 ^ 51) (flt_frac x * 2 ^ 29)) 0). }
  destruct (Z.eqb_spec (flt_exp x) 0) as [|Hne].
  - destruct (flt_frac x) as [|f|] eqn:Ef; [by change (0 =? 0) with true; cbn iota; rewrite decode_mk_dbl| |lia].
    change (Z.pos f =? 0) with false. cbv zeta iota.
    pose proof (Z.log2_spec (Z.pos f) ltac:(lia)) as [Hlo Hhi].
    assert (Hk : 0 <= Z.log2 (Z.pos f) < 23) by (split; [apply Z.log2_nonneg|apply Z.log2_lt_pow2; lia]).
    set (k := Z.log2 (Z.pos f)) in *.
    assert (E : 2 ^ 52 = 2 ^ k * 2 ^ (52 - k)) by (rewrite <- Z.pow_add_r; [f_equal|..]; lia).
    rewrite Z.pow_succ_r in Hhi by lia. pose proof (Z.pow_pos_nonneg 2 (52 - k)).
    rewrite decode_mk_dbl by nia.
    destruct (Z.eqb_spec (k - 149 + 1023) 2047); [lia|]. destruct (Z.eqb_spec (k - 149 + 1023) 0); [lia|].
    apply same_value_finite with (k := 52 - k); nia.
  - rewrite decode_mk_dbl by lia.
    destruct (Z.eqb_spec (flt_exp x - 127 + 1023) 2047); [lia|].
    destruct (Z.eqb_spec (flt_exp x - 127 + 1023) 0); [lia|].
    destruct (flt_frac x + 2 ^ 23) as [|m|] eqn:Em; [lia| |lia].
    apply same_value_finite with (k := 29); lia.
Qed.
