(* ===== verification/MathBuiltins.v ===== *)
(** [src/libc/mathbuiltins.c]: the sign, NaN and infinity tests and [round],
    on bit patterns as the source reads them through its union. *)
From Stdlib Require Import SpecFloat.
From S2P Require Import Prelude CFloat.

(** ** The functions *)

Definition builtin_signbit (x : Z) : Z := i32 (Z.shiftr x 63).

Definition builtin_signbitf (x : Z) : Z :=
  let d := widen x in
  i32 (Z.shiftr d 63).

Definition builtin_signbitl (x : Z) : Z := builtin_signbit x.

Definition isnand (x : Z) : Z :=
  let exp := Z.land (Z.shiftr x 52) 2047 in
  let mant := Z.land x 4503599627370495 in
  if (exp =? 2047) && negb (mant =? 0) then 1 else 0.

Definition isnanf (x : Z) : Z :=
  let d := widen x in
  isnand d.

Definition isnanl (x : Z) : Z := isnand x.

Definition isinfd (x : Z) : Z :=
  let exp := Z.land (Z.shiftr x 52) 2047 in
  let mant := Z.land x 4503599627370495 in
  if (exp =? 2047) && (mant =? 0) then
    if negb (Z.shiftr x 63 =? 0) then -1 else 1
  else 0.

Definition isinff (x : Z) : Z :=
  let d := widen x in
  isinfd d.

Definition isinfl (x : Z) : Z := isinfd x.

Definition dbl_half : Z := mk_dbl false 1022 0.

Definition round (x : Z) : Z :=
  if negb (isnand x =? 0) then x
  else if negb (isinfd x =? 0) then x
  else if dge x (dbl_of_long 0) then
    let i := long_of_dbl (dadd x dbl_half) in
    dbl_of_long i
  else
    let i := long_of_dbl (dsub x dbl_half) in
    dbl_of_long i.

(** ** What they compute *)

Definition sf_sign (v : spec_float) : bool :=
  match v with
  | S754_zero s | S754_infinity s | S754_finite s _ _ => s
  | S754_nan => false
  end.

Lemma signbit_bit x : 0 <= x < 2 ^ 64 -> builtin_signbit x = Z.b2z (dbl_sign x).
Proof.
  intros Hx. unfold builtin_signbit, dbl_sign. rewrite Z.shiftr_div_pow2, (testbit_top 63) by lia.
  destruct (Z.leb_spec (2 ^ 63) x).
  - replace (x / 2 ^ 63) with 1; [reflexivity|]. apply (Z.div_unique _ _ 1 (x - 2 ^ 63)); lia.
  - rewrite Z.div_small by lia. reflexivity.
Qed.

Lemma classify_fields x :
  Z.land (Z.shiftr x 52) 2047 = dbl_exp x /\ Z.land x 4503599627370495 = dbl_frac x.
Proof. unfold dbl_exp, dbl_frac, bits. rewrite Z.shiftr_0_r. done. Qed.

Lemma isnand_decode x : isnand x = match decode64 x with S754_nan => 1 | _ => 0 end.
Proof.
  unfold isnand, decode64. destruct (classify_fields x) as [-> ->].
  pose proof (dbl_frac_range x).
  destruct (dbl_exp x =? 2047); cbn [andb].
  - by destruct (dbl_frac x =? 0).
  - destruct (dbl_exp x =? 0); [by destruct (dbl_frac x)|].
    by destruct (dbl_frac x + 2 ^ 52) eqn:E; [lia| |lia].
Qed.

Lemma isinfd_decode x : 0 <= x < 2 ^ 64 ->
  isinfd x = match decode64 x with S754_infinity s => if s then -1 else 1 | _ => 0 end.
Proof.
  intros Hx. unfold isinfd, decode64. destruct (classify_fields x) as [-> ->].
  pose proof (dbl_frac_range x). destruct (dbl_exp x =? 2047); cbn [andb].
  - destruct (dbl_frac x =? 0); [|done].
    pose proof (signbit_bit x Hx) as Hs. unfold builtin_signbit, dbl_sign in *.
    assert (0 <= Z.shiftr x 63 < 2).
    { rewrite Z.shiftr_div_pow2 by lia. split; [apply Z.div_pos; lia|]. apply Z.div_lt_upper_bound; lia. }
    rewrite i32_small in Hs by lia. rewrite Hs. by destruct (Z.testbit x 63).
  - destruct (dbl_exp x =? 0); [by destruct (dbl_frac x)|].
    by destruct (dbl_frac x + 2 ^ 52) eqn:E; [lia| |lia].
Qed.

(** The three tests agree with the IEEE value of every 64-bit pattern: the
    NaN test is 1 exactly on NaNs, the infinity test is +1 and -1 on the two
    infinities and 0 elsewhere, and the sign test is the sign of every value
    that is not a NaN. *)
Theorem classification (x : Z) : 0 <= x < 2 ^ 64 ->
  isnand x = match decode64 x with S754_nan => 1 | _ => 0 end /\
  isinfd x = match decode64 x with S754_infinity s => if s then -1 else 1 | _ => 0 end /\
  (decode64 x <> S754_nan -> builtin_signbit x = Z.b2z (sf_sign (decode64 x))).
Proof.
  intros Hx. split_and!; [apply isnand_decode|by apply isinfd_decode|].
  intros Hn. rewrite signbit_bit by done. f_equal. revert Hn. unfold decode64.
  destruct (dbl_exp x =? 2047); [by destruct (dbl_frac x =? 0)|].
  destruct (dbl_exp x =? 0); [by destruct (dbl_frac x)|].
  by destruct (dbl_frac x + 2 ^ 52).
Qed.

Lemma classification_witness :
  isnand (mk_dbl true 2047 7) = 1 /\ isinfd (mk_dbl true 2047 7) = 0 /\
  (decode64 (mk_dbl true 2047 7) <> S754_nan ->
   builtin_signbit (mk_dbl true 2047 7) = Z.b2z (sf_sign (decode64 (mk_dbl true 2047 7)))).
Proof. exact (classification (mk_dbl true 2047 7) ltac:(vm_compute; split; congruence)). Defined.

(** The [float] variants go through a widening to [double] that is exact, so
    they classify the [float] itself: NaNs, signed infinities, and the sign bit
    of every pattern (NaNs included). *)
Theorem float_classification (x : Z) :
  same_value (decode32 x) (decode64 (widen x)) /\
  isnanf x = match decode32 x with S754_nan => 1 | _ => 0 end /\
  isinff x = match decode32 x with S754_infinity s => if s then -1 else 1 | _ => 0 end /\
  builtin_signbitf x = Z.b2z (flt_sign x).
Proof.
  pose proof (widen_value x) as Hv. pose proof (widen_range x) as Hr. split_and!.
  - done.
  - unfold isnanf. rewrite isnand_decode. by destruct (decode32 x), (decode64 (widen x)).
  - unfold isinff. rewrite isinfd_decode by done. revert Hv.
    destruct (decode32 x), (decode64 (widen x)); cbn; try done. by intros ->.
  - change (builtin_signbitf x) with (builtin_signbit (widen x)). rewrite signbit_bit by done.
    by rewrite widen_sign.
Qed.

(** [round] leaves NaNs and infinities alone. *)
Lemma round_special x : 0 <= x < 2 ^ 64 ->
  match decode64 x with S754_nan | S754_infinity _ => round x = x | _ => True end.
Proof.
  intros Hx. unfold round. rewrite isnand_decode, (isinfd_decode x Hx).
  destruct (decode64 x) as [|[]| |]; done.
Qed.

(** [round] goes through [long], so it is round-half-away only on moderate
    values: the half-way cases 2.5 and -2.5 and an ordinary value come out
    right, but the largest [double] below 0.5 is rounded up to 1 (the addition
    of 0.5 rounds), -0.25 loses its sign, and 2^64 saturates to 2^63. *)
Theorem round_through_long :
  round (mk_dbl false 1024 (2 ^ 50)) = dbl_of_long 3 /\
  round (mk_dbl true 1024 (2 ^ 50)) = dbl_of_long (- 3) /\
  round (dbl_of_long 1000001) = dbl_of_long 1000001 /\
  round (dbl_half - 1) = dbl_of_long 1 /\
  round (mk_dbl true 1021 0) = dbl_of_long 0 /\
  round (dbl_of_long (2 ^ 64)) = dbl_of_long (2 ^ 63).
Proof. vm_compute. repeat split. Qed.
