(* ===== verification/CLimits.v ===== *)
(** [src/libc/limits.h], [src/libc/stdint.h] and [src/libc/float.h]: the limit
    constants, and the numbers they must be on an LP64 target whose [double] and
    [float] are the IEEE binary formats.  A decimal floating constant of the
    header is the pair of its digits and its power of ten. *)
From Stdlib Require Import SpecFloat.
From S2P Require Import Prelude CFloat.

(** ** limits.h *)

Definition CHAR_BIT : Z := 8.
Definition CHAR_MAX : Z := 127.
Definition CHAR_MIN : Z := -128.
Definition UCHAR_MAX : Z := 255.
Definition SHRT_MAX : Z := 32767.
Definition SHRT_MIN : Z := -32768.
Definition USHRT_MAX : Z := 65535.
Definition INT_MAX : Z := 2147483647.
Definition INT_MIN : Z := -2147483648.
Definition UINT_MAX : Z := 4294967295.
Definition LONG_MAX : Z := 9223372036854775807.
Definition LONG_MIN : Z := -9223372036854775808.
Definition ULONG_MAX : Z := 18446744073709551615.

(** ** stdint.h *)

Definition INT64_MAX : Z := 9223372036854775807.
Definition UINT64_MAX : Z := 18446744073709551615.
Definition INT32_MAX : Z := 2147483647.
Definition SIZE_MAX : Z := 18446744073709551615.

(** The integer types of stdint.h: width in bits and signedness. *)
Record c_int := CInt { width : Z; signed : bool }.
Definition int64_t : c_int := CInt 64 true.
Definition uint64_t : c_int := CInt 64 false.
Definition int32_t : c_int := CInt 32 true.
Definition uint32_t : c_int := CInt 32 false.
Definition size_t : c_int := CInt 64 true.

(** ** float.h *)

(** [digits * 10 ^ exponent] *)
Record decimal_constant := Dec { digits : Z; exponent : Z }.

Definition DBL_DIG : Z := 15.
Definition DBL_MIN_10_EXP : Z := -307.
Definition DBL_MAX_10_EXP : Z := 308.
Definition DBL_MAX : decimal_constant := Dec 17976931348623157 (308 - 16).
Definition DBL_MIN : decimal_constant := Dec 22250738585072014 (-308 - 16).
Definition DBL_EPSILON : decimal_constant := Dec 22204460492503131 (-16 - 16).
Definition DBL_DECIMAL_DIG : Z := 17.
Definition FLT_DIG : Z := 6.
Definition FLT_MIN_10_EXP : Z := -37.
Definition FLT_MAX_10_EXP : Z := 38.
Definition FLT_MAX : decimal_constant := Dec 34028235 (38 - 7).
Definition FLT_MIN : decimal_constant := Dec 11754944 (-38 - 7).
Definition FLT_EPSILON : decimal_constant := Dec 11920929 (-7 - 7).
Definition FLT_DECIMAL_DIG : Z := 9.
Definition LDBL_MANT_DIG : Z := 53.
Definition LDBL_MIN_EXP : Z := -1021.
Definition LDBL_MAX_EXP : Z := 1024.
Definition FLT_RADIX : Z := 2.

(** ** What they must be *)

Definition max_of (t : c_int) : Z := if signed t then 2 ^ (width t - 1) - 1 else 2 ^ width t - 1.
Definition min_of (t : c_int) : Z := if signed t then - 2 ^ (width t - 1) else 0.

(** Every integer limit is the extreme value of a type of its width: 8, 16,
    32 and 64 bits for [char], [short], [int] and [long], and the fixed-width
    constants of stdint.h. *)
Theorem integer_limits :
  CHAR_MAX = max_of (CInt CHAR_BIT true) /\ CHAR_MIN = min_of (CInt CHAR_BIT true) /\
  UCHAR_MAX = max_of (CInt CHAR_BIT false) /\
  SHRT_MAX = max_of (CInt 16 true) /\ SHRT_MIN = min_of (CInt 16 true) /\ USHRT_MAX = max_of (CInt 16 false) /\
  INT_MAX = max_of int32_t /\ INT_MIN = min_of int32_t /\ UINT_MAX = max_of uint32_t /\
  LONG_MAX = max_of int64_t /\ LONG_MIN = min_of int64_t /\ ULONG_MAX = max_of uint64_t /\
  INT64_MAX = max_of int64_t /\ UINT64_MAX = max_of uint64_t /\ INT32_MAX = max_of int32_t.
Proof. vm_compute. repeat split. Qed.

(** [SIZE_MAX] is not a value of the [size_t] the same header declares,
    which is the signed [long]. *)
Lemma size_max_not_size_t : max_of size_t < SIZE_MAX.
Proof. vm_compute. reflexivity. Qed.

(** [m * 2 ^ e] and the constant [c] differ by less than half a unit of [m]:
    the constant rounds to that number. *)
Definition rounds_to (c : decimal_constant) (m e : Z) : bool :=
  let scale10 := if exponent c <? 0 then 10 ^ (- exponent c) else 1 in
  let scale2 := if e <? 0 then 2 ^ (- e) else 1 in
  let lhs := digits c * (if exponent c <? 0 then 1 else 10 ^ exponent c) * scale2 in
  let unit := (if e <? 0 then 1 else 2 ^ e) * scale10 in
  2 * Z.abs (lhs - m * unit) <? unit.

(** The [double] limits of float.h round to the largest finite value, the
    smallest normal value and the spacing above 1 of the format with 53
    significant bits and exponents up to 1024, which are the decoded patterns
    0x7FEF...F, 0x0010...0 and their like; the [float] ones likewise with 24 bits
    and 128. *)
Theorem float_limits :
  decode64 (mk_dbl false 2046 (2 ^ 52 - 1)) = S754_finite false (2 ^ 53 - 1) 971 /\
  rounds_to DBL_MAX (2 ^ DBL_MANT_DIG - 1) (DBL_MAX_EXP - DBL_MANT_DIG) = true /\
  decode64 (mk_dbl false 1 0) = S754_finite false (2 ^ 52) (-1074) /\
  rounds_to DBL_MIN (2 ^ (DBL_MANT_DIG - 1)) (DBL_MIN_EXP - DBL_MANT_DIG) = true /\
  rounds_to DBL_EPSILON (2 ^ (DBL_MANT_DIG - 1)) (1 - DBL_MANT_DIG - (DBL_MANT_DIG - 1)) = true /\
  rounds_to FLT_MAX (2 ^ FLT_MANT_DIG - 1) (FLT_MAX_EXP - FLT_MANT_DIG) = true /\
  rounds_to FLT_MIN (2 ^ (FLT_MANT_DIG - 1)) (FLT_MIN_EXP - FLT_MANT_DIG) = true /\
  rounds_to FLT_EPSILON (2 ^ (FLT_MANT_DIG - 1)) (1 - FLT_MANT_DIG - (FLT_MANT_DIG - 1)) = true.
Proof. vm_compute. repeat split. Qed.
