(* ===== verification/Printf.v ===== *)
(** [src/libc/printf.c]: [putchar], [puts], and the variadic front ends of
    picolibc's format engine.

    The engine ([vfprintf]) and the string sink ([__file_str_put]) belong to
    picolibc, outside the repository's sources: [Tinystdio] is the interface the
    front ends call and [TinystdioLaws] is what they rely on. *)
From S2P Require Import Prelude Posix Stdio.

(** ** Streams *)

(** The functions a [put] field can point to. *)
Inductive put_fn := file_str_put.

(** [struct __file] *)
Record file := File {
  unget : Z;
  flags : Z;
  put : option put_fn;
  get : option unit;
  flush : option unit;
}.

(** [struct __file_str] *)
Record file_str := FileStr {
  base_file : file;
  pos : Z;
  end_pos : Z;
  size : Z;
}.

Definition memory : Type := Z -> Z.

(** [*a = v] *)
Definition poke (m : memory) (a v : Z) : memory := fun x => if x =? a then u8 v else m x.

Class Tinystdio (W Args : Type) := {
  (** [__file_str_put(c, f)] *)
  file_str_put_c : Z -> memory * file_str -> memory * file_str;
  (** [vfprintf(&f.file, fmt, ap)] on a string stream: the count it returns. *)
  vfprintf_str : Z -> Args -> memory * file_str -> Z * (memory * file_str);
  (** [vfprintf(stream, fmt, ap)] on a stream of picolibc's own. *)
  vfprintf_file : Z -> Z -> Args -> io W Z;
  (** The pointer value of [stdout]. *)
  stdout_ptr : Z;
}.

Definition set_pos (f : file_str) (p : Z) : file_str :=
  FileStr (base_file f) p (end_pos f) (size f).

Class TinystdioLaws (W Args : Type) `{Tinystdio W Args} := {
  (** The bytes a format and its arguments expand to. *)
  expansion : memory -> Z -> Args -> list Z;
  (** The sink stores a byte and advances while there is room, then stops. *)
  put_room : forall c m f, pos f <> end_pos f ->
    file_str_put_c c (m, f) = (poke m (pos f) c, set_pos f (pos f + 1));
  put_full : forall c m f, pos f = end_pos f -> file_str_put_c c (m, f) = (m, f);
  (** The engine feeds the expansion to the stream's [put], one byte at a time,
      and returns its length. *)
  vfprintf_feeds : forall fmt ap m f, put (base_file f) = Some file_str_put ->
    vfprintf_str fmt ap (m, f) =
      (Z.of_nat (length (expansion m fmt ap)),
       fold_left (fun st c => file_str_put_c c st) (expansion m fmt ap) (m, f));
}.

(** ** The functions *)

Section Printf.
Context {W Args : Type} `{Posix W} `{Tinystdio W Args}.

Definition putchar (c : Z) : io W Z :=
  _ <-- write_fd 1 [u8 (i8 c)];;
  io_ret c.

Definition puts (fuel : nat) (mem : memory) (s : Z) : io W Z :=
  i <-- io_of (cstr_len fuel mem s);;
  _ <-- write_fd 1 (mem_bytes mem s i);;
  _ <-- write_fd 1 [10];;
  io_ret 0.

Definition printf (fmt : Z) (ap : Args) : io W Z := vfprintf_file stdout_ptr fmt ap.

Definition fprintf (stream fmt : Z) (ap : Args) : io W Z := vfprintf_file stream fmt ap.

(** [print_double] of stdio.c: ["%f\n"] with one [double] argument; [fmt_f] is
    the address of that literal and [mk_args] packs the argument. *)
Definition print_double (fmt_f : Z) (mk_args : Z -> Args) (x : Z) : io W unit :=
  _ <-- printf fmt_f (mk_args x);;
  io_ret tt.

Definition str_file (buf end_ptr : Z) : file_str :=
  FileStr (File 0 2 (Some file_str_put) None None) buf end_ptr 0.

Definition sprintf (mem : memory) (buf fmt : Z) (ap : Args) : Z * memory :=
  let f := str_file buf (buf + 2147483646) in
  let '(r, (mem, f)) := vfprintf_str fmt ap (mem, f) in
  (r, poke mem (pos f) 0).

Definition snprintf (mem : memory) (buf n fmt : Z) (ap : Args) : Z * memory :=
  let end_ptr := if n <=? 0 then buf else buf + (n - 1) in
  let f := str_file buf end_ptr in
  let '(r, (mem, f)) := vfprintf_str fmt ap (mem, f) in
  (r, if 0 <? n then poke mem (pos f) 0 else mem).

End Printf.

(** ** What the string sink accumulates *)

(** The memory after the bytes [bs] have been stored from [a] on. *)
Definition pokes (m : memory) (a : Z) (bs : list Z) : memory := fun x =>
  if (a <=? x) && (x <? a + Z.of_nat (length bs)) then u8 (nth (Z.to_nat (x - a)) bs 0) else m x.

Lemma pokes_snoc m a bs c x : poke (pokes m a bs) (a + Z.of_nat (length bs)) c x = pokes m a (bs ++ [c]) x.
Proof.
  unfold poke, pokes. rewrite length_app. cbn [length].
  destruct (Z.eqb_spec x (a + Z.of_nat (length bs))) as [->|Hne].
  - zcase. replace (Z.to_nat _) with (length bs + 0)%nat by lia. by rewrite app_nth2_plus.
  - zcase; try done. by rewrite app_nth1 by lia.
Qed.

Lemma pokes_nil m a x : pokes m a [] x = m x.
Proof. unfold pokes. cbn [length]. destruct (Z.leb_spec a x), (Z.ltb_spec x (a + Z.of_nat 0)); done || lia. Qed.

Section PrintfLaws.
Context {W Args : Type} `{PosixLaws W} `{TinystdioLaws W Args}.

(** Feeding [bs] to a sink with room for [k] bytes stores the first [k]. *)
Lemma feed_sink bs : forall (m0 m : memory) buf done_ base sz k,
  (length done_ <= k)%nat -> (forall x, m x = pokes m0 buf done_ x) ->
  exists m', fold_left (fun st c => file_str_put_c c st) bs
      (m, FileStr base (buf + Z.of_nat (length done_)) (buf + Z.of_nat k) sz) =
      (m', FileStr base (buf + Z.of_nat (length (take k (done_ ++ bs)))) (buf + Z.of_nat k) sz) /\
    forall x, m' x = pokes m0 buf (take k (done_ ++ bs)) x.
Proof.
  induction bs as [|c bs IH]; intros m0 m buf done_ base sz k Hk Hm; cbn [fold_left].
  - exists m. by rewrite app_nil_r, take_ge.
  - destruct (decide (length done_ = k)) as [E|E].
    + rewrite put_full by (cbn; lia).
      destruct (IH m0 m buf done_ base sz k Hk Hm) as (m' & -> & Hm').
      exists m'. rewrite !take_app_le in * by lia. done.
    + rewrite put_room by (cbn; lia). unfold set_pos. cbn [pos base_file end_pos size].
      destruct (IH m0 (poke m (buf + Z.of_nat (length done_)) c) buf (done_ ++ [c]) base sz k) as (m' & Hf & Hm').
      * rewrite length_app. cbn. lia.
      * intros x. rewrite <- pokes_snoc. unfold poke. by destruct (x =? _).
      * exists m'. rewrite length_app in Hf. cbn [length] in Hf.
        replace (buf + Z.of_nat (length done_ + 1)) with (buf + Z.of_nat (length done_) + 1) in Hf by lia.
        rewrite Hf. rewrite <- app_assoc in *. done.
Qed.

Lemma feed_string bs (m : memory) buf base sz k :
  exists m', fold_left (fun st c => file_str_put_c c st) bs (m, FileStr base buf (buf + Z.of_nat k) sz) =
      (m', FileStr base (buf + Z.of_nat (length (take k bs))) (buf + Z.of_nat k) sz) /\
    forall x, m' x = pokes m buf (take k bs) x.
Proof.
  destruct (feed_sink bs m m buf [] base sz k) as (m' & Hf & Hm).
  - cbn. lia.
  - intros x. by rewrite pokes_nil.
  - exists m'. cbn [length app] in Hf. by rewrite Z.add_0_r in Hf.
Qed.

(** C23: for [n > 0], [snprintf] returns the length of the whole expansion and
    stores exactly its first [n - 1] bytes and a terminator: nothing outside
    [buf .. buf + n) changes. *)
Theorem snprintf_bounded (mem : memory) (buf n fmt : Z) (ap : Args) : 0 < n ->
  let bs := expansion mem fmt ap in
  exists mem', snprintf mem buf n fmt ap = (Z.of_nat (length bs), mem') /\
    (forall x, mem' x = pokes mem buf (take (Z.to_nat (n - 1)) bs ++ [0]) x) /\
    (forall x, x < buf \/ buf + n <= x -> mem' x = mem x).
Proof.
  intros Hn bs. unfold snprintf. destruct (Z.leb_spec n 0); [lia|]. destruct (Z.ltb_spec 0 n); [|lia].
  rewrite vfprintf_feeds by done. fold bs. unfold str_file.
  replace (buf + (n - 1)) with (buf + Z.of_nat (Z.to_nat (n - 1))) by lia.
  destruct (feed_string bs mem buf (File 0 2 (Some file_str_put) None None) 0 (Z.to_nat (n - 1)))
    as (m' & -> & Hm). cbn [pos].
  set (k := take (Z.to_nat (n - 1)) bs) in *.
  assert (Hp : forall x, poke m' (buf + Z.of_nat (length k)) 0 x = pokes mem buf (k ++ [0]) x).
  { intros x. rewrite <- pokes_snoc. unfold poke. by destruct (x =? _). }
  eexists; split; [reflexivity|]. split; [exact Hp|].
  intros x Hx. rewrite Hp. unfold pokes. rewrite length_app. cbn [length].
  assert (length k <= Z.to_nat (n - 1))%nat by (unfold k; rewrite length_take; lia).
  destruct (Z.leb_spec buf x), (Z.ltb_spec x (buf + Z.of_nat (length k + 1))); try done; lia.
Qed.

(** For [n <= 0], [snprintf] still returns the length of the expansion and
    changes no memory. *)
Theorem snprintf_count_only (mem : memory) (buf n fmt : Z) (ap : Args) : n <= 0 ->
  exists mem', snprintf mem buf n fmt ap = (Z.of_nat (length (expansion mem fmt ap)), mem') /\
    forall x, mem' x = mem x.
Proof.
  intros Hn. unfold snprintf. destruct (Z.leb_spec n 0); [|lia]. destruct (Z.ltb_spec 0 n); [lia|].
  rewrite vfprintf_feeds by done. unfold str_file.
  destruct (feed_string (expansion mem fmt ap) mem buf (File 0 2 (Some file_str_put) None None) 0 0)
    as (m' & Hf & Hm). rewrite Z.add_0_r in Hf. rewrite Hf.
  eexists; split; [reflexivity|]. intros x. rewrite Hm. apply pokes_nil.
Qed.

(** [sprintf] stores the whole expansion and a terminator, provided it fits
    the 2147483646 bytes the stream's end is set to, and returns its length. *)
Lemma sprintf_stores (mem : memory) (buf fmt : Z) (ap : Args) :
  let bs := expansion mem fmt ap in
  Z.of_nat (length bs) <= 2147483646 ->
  exists mem', sprintf mem buf fmt ap = (Z.of_nat (length bs), mem') /\
    forall x, mem' x = pokes mem buf (bs ++ [0]) x.
Proof.
  intros bs Hl. unfold sprintf. rewrite vfprintf_feeds by done. fold bs. unfold str_file.
  replace 2147483646 with (Z.of_nat (Z.to_nat 2147483646)) by lia.
  destruct (feed_string bs mem buf (File 0 2 (Some file_str_put) None None) 0 (Z.to_nat 2147483646))
    as (m' & -> & Hm). cbn [pos]. rewrite take_ge in * by lia.
  eexists; split; [reflexivity|]. intros x. rewrite <- pokes_snoc. unfold poke. by destruct (x =? _).
Qed.

(** [puts] writes the string and a newline, in that order, and returns 0. *)
Lemma puts_line (mem : memory) (a : Z) (s : list Z) (w : W) (fuel : nat) :
  cstr mem a s -> (length s < fuel)%nat ->
  exists w', puts fuel mem a w = Some (0, w') /\ stdout w' = stdout w ++ s ++ [10] /\
    stdin w' = stdin w.
Proof.
  intros Hs Hf. unfold puts, io_bind, io_of. rewrite (cstr_len_spec s) by done.
  cbn. rewrite mem_bytes_cstr by done. eexists; split; [reflexivity|].
  by rewrite !write_stdout, !write_stdin, app_assoc.
Qed.
End PrintfLaws.

(** ** A concrete engine: the format without conversions

    Argument lists are the expansions themselves, which is enough to run the
    front ends. *)

#[export] Instance literal_engine : Tinystdio console (list Z) := {|
  file_str_put_c c st :=
    let '(m, f) := st in
    if pos f =? end_pos f then (m, f) else (poke m (pos f) c, set_pos f (pos f + 1));
  vfprintf_str fmt ap st :=
    (Z.of_nat (length ap),
     fold_left (fun st c => let '(m, f) := st in
       if pos f =? end_pos f then (m, f) else (poke m (pos f) c, set_pos f (pos f + 1))) ap st);
  vfprintf_file stream fmt ap := _ <-- write_fd 1 ap;; io_ret (Z.of_nat (length ap));
  stdout_ptr := 1;
|}.

#[export] Program Instance literal_laws : TinystdioLaws console (list Z) := {|
  expansion m fmt ap := ap;
|}.
Next Obligation. intros c m f Hne. cbn. by destruct (Z.eqb_spec (pos f) (end_pos f)). Qed.
Next Obligation. intros c m f E. cbn. by destruct (Z.eqb_spec (pos f) (end_pos f)). Qed.
Next Obligation. done. Qed.

Definition mem0 : memory := fun _ => 255.

Lemma snprintf_bounded_witness :
  exists mem', snprintf mem0 1000 3 0 [97; 98; 99; 100] = (4, mem') /\
    (forall x, mem' x = pokes mem0 1000 [97; 98; 0] x) /\
    (forall x, x < 1000 \/ 1003 <= x -> mem' x = mem0 x).
Proof. exact (snprintf_bounded mem0 1000 3 0 [97; 98; 99; 100] ltac:(lia)). Defined.

Lemma snprintf_count_only_witness :
  exists mem', snprintf mem0 1000 0 0 [97; 98; 99; 100] = (4, mem') /\ forall x, mem' x = mem0 x.
Proof. exact (snprintf_count_only mem0 1000 0 0 [97; 98; 99; 100] ltac:(lia)). Defined.

Lemma sprintf_stores_witness :
  exists mem', sprintf mem0 1000 0 [97; 98] = (2, mem') /\
    forall x, mem' x = pokes mem0 1000 [97; 98; 0] x.
Proof.
  assert (Hl : Z.of_nat (length [97; 98]) <= 2147483646) by (cbn [length]; lia).
  exact (sprintf_stores mem0 1000 0 [97; 98] Hl).
Defined.

Lemma puts_line_witness :
  exists w', puts 10 (mem_of 100 [104; 105]) 100 (Console [] []) = Some (0, w') /\
    stdout w' = [104; 105; 10] /\ stdin w' = [].
Proof.
  refine (puts_line (mem_of 100 [104; 105]) 100 [104; 105] (Console [] []) 10 _ _); [|cbn; lia].
  apply cstr_mem_of. by repeat constructor.
Defined.
