(* ===== verification/Scan.v ===== *)
(** [src/libc/sscanf.c], the scanners: white space, integers in four bases,
    scan sets and floating-point numbers.

    A string argument is the memory from its address on, [str : Z -> Z] with
    [str i] the byte [str[i]].  The source combines its 0/1 tests with [&] and
    [|], which evaluate both sides; reads are total here, so the boolean
    connectives say the same. *)
From S2P Require Import Prelude Stdio CFloat.

Definition LLONG_MAX : Z := 9223372036854775807.
Definition LLONG_MIN : Z := 0 - LLONG_MAX - 1.

(** ** Character classes *)

Definition sc_isws (c : Z) : bool :=
  if c =? 32 then true
  else if c =? 9 then true
  else if c =? 10 then true
  else if c =? 13 then true
  else false.

Definition sc_isdigit (c : Z) : bool := (48 <=? c) && (c <=? 57).

Definition sc_isxdigit (c : Z) : bool :=
  if (48 <=? c) && (c <=? 57) then true
  else if (97 <=? c) && (c <=? 102) then true
  else if (65 <=? c) && (c <=? 70) then true
  else false.

Definition sc_xval (c : Z) : Z :=
  if (48 <=? c) && (c <=? 57) then c - 48
  else if (97 <=? c) && (c <=? 102) then c - 97 + 10
  else c - 65 + 10.

Definition sc_skipws (fuel : nat) (str : Z -> Z) (si : Z) : option Z :=
  loop fuel (fun si => if sc_isws (str si) then inl (si + 1) else inr si) si.

(** ** Integers *)

(** The digit [c] stands for in [base], if it is one. *)
Definition sc_digit (base c : Z) : option Z :=
  if (base =? 10) && sc_isdigit c then Some (c - 48)
  else if (base =? 16) && sc_isxdigit c then Some (sc_xval c)
  else if (base =? 8) && (48 <=? c) && (c <=? 55) then Some (c - 48)
  else if (base =? 2) && ((c =? 48) || (c =? 49)) then Some (c - 48)
  else None.

Definition scan_sign (str : Z -> Z) (si : Z) : bool * Z :=
  if str si =? 45 then (true, si + 1)
  else if str si =? 43 then (false, si + 1)
  else (false, si).

Definition is_x (c : Z) : bool := (c =? 120) || (c =? 88).

(** The base to scan in, the index after the prefix, and whether a consumed 0
    counts as a digit. *)
Definition scan_base (str : Z -> Z) (si base : Z) : Z * Z * bool :=
  if base =? 0 then
    if str si =? 48 then
      if is_x (str (si + 1)) then (16, si + 1 + 1, false) else (8, si + 1, true)
    else (10, si, false)
  else if base =? 16 then
    if (str si =? 48) && is_x (str (si + 1)) then (16, si + 2, false) else (16, si, false)
  else (base, si, false).

Record int_scan := IntScan { is_si : Z; is_val : Z; is_any : bool; is_overflow : bool }.

Definition scan_int_body (str : Z -> Z) (base : Z) (is_signed : bool) (s : int_scan) : int_scan + int_scan :=
  let '(IntScan si val any overflow) := s in
  if str si =? 0 then inr s
  else match sc_digit base (str si) with
       | None => inr s
       | Some digit =>
           let overflow :=
             if is_signed && (base =? 10) && negb overflow then
               Z.quot (LLONG_MAX - digit) 10 <? val
             else overflow in
           let val := if negb overflow then i64 (i64 (val * base) + digit) else val in
           inl (IntScan (si + 1) val true overflow)
       end.

(** The new index, the value stored through [out_val] and the flag stored
    through [matched]. *)
Definition sc_scan_int (fuel : nat) (str : Z -> Z) (si base : Z) (is_signed : bool) : option (Z * Z * bool) :=
  let '(neg, si) := if is_signed then scan_sign str si else (false, si) in
  let '(base, si, any) := scan_base str si base in
  '(IntScan si val any overflow) ←
    loop fuel (scan_int_body str base is_signed) (IntScan si 0 any false);
  let '(val, neg) :=
    if overflow then (if neg then LLONG_MIN else LLONG_MAX, false) else (val, neg) in
  let val := if neg then i64 (0 - val) else val in
  Some (si, val, any).

(** ** Scan sets *)

Definition in_set_body (fmt : Z -> Z) (pat_end c : Z) (pi : Z) : Z + bool :=
  if pi <? pat_end then
    if (pi + 2 <? pat_end) && (fmt (pi + 1) =? 45) then
      if (fmt pi <=? c) && (c <=? fmt (pi + 2)) then inr true else inl (pi + 3)
    else if c =? fmt pi then inr true else inl (pi + 1)
  else inr false.

(** Each round advances by at least one byte, so the length of the pattern is
    fuel enough. *)
Definition sc_in_set (fmt : Z -> Z) (pat_start pat_end c : Z) : option bool :=
  let fuel := S (Z.to_nat (pat_end - pat_start)) in
  if (pat_start <? pat_end) && (fmt pat_start =? 93) then
    if c =? 93 then Some true
    else loop fuel (in_set_body fmt pat_end c) (pat_start + 1)
  else loop fuel (in_set_body fmt pat_end c) pat_start.

(** ** Floating point *)

Definition ci (c l : Z) : bool := (c =? l) || (c =? l - 32).

Definition dbl_zero : Z := dbl_of_long 0.
Definition dbl_one : Z := dbl_of_long 1.
Definition dbl_ten : Z := dbl_of_long 10.

Definition is_inf_at (str : Z -> Z) (si : Z) : bool :=
  ci (str si) 105 && (ci (str (si + 1)) 110 && ci (str (si + 2)) 102).

Definition is_inity_at (str : Z -> Z) (si : Z) : bool :=
  ci (str si) 105 && ci (str (si + 1)) 110 && ci (str (si + 2)) 105 &&
  ci (str (si + 3)) 116 && ci (str (si + 4)) 121.

Definition is_nan_at (str : Z -> Z) (si : Z) : bool :=
  ci (str si) 110 && (ci (str (si + 1)) 97 && ci (str (si + 2)) 110).

Record float_scan := FloatScan {
  fs_si : Z; int_part : Z; frac_part : Z; frac_scale : Z; frac_digits : Z; in_frac : bool; fs_any : bool;
}.

Definition scan_float_body (str : Z -> Z) (s : float_scan) : float_scan + float_scan :=
  let '(FloatScan si ip fp sc fd inf any) := s in
  let c := str si in
  if c =? 0 then inr s
  else if sc_isdigit c then
    if inf then
      if fd <? 18 then
        inl (FloatScan (si + 1) ip (i64 (i64 (fp * 10) + (c - 48))) (i64 (sc * 10)) (fd + 1) inf true)
      else inl (FloatScan (si + 1) ip fp sc fd inf true)
    else inl (FloatScan (si + 1) (i64 (i64 (ip * 10) + (c - 48))) fp sc fd inf true)
  else if (c =? 46) && negb inf then inl (FloatScan (si + 1) ip fp sc fd true any)
  else inr s.

(** [exp_val] and the index after the exponent's digits. *)
Definition scan_exp (fuel : nat) (str : Z -> Z) (si : Z) : option (Z * Z) :=
  loop fuel (fun '(e, si) =>
    if sc_isdigit (str si) then inl (i32 (i32 (e * 10) + (str si - 48)), si + 1) else inr (e, si)) (0, si).

(** [while (exp_val > 0) { val = f(val); exp_val = exp_val - 1; }] *)
Definition scale (fuel : nat) (f : Z -> Z) (val exp_val : Z) : option Z :=
  loop fuel (fun '(v, e) => if 0 <? e then inl (f v, e - 1) else inr v) (val, exp_val).

Definition scan_exponent (fuel : nat) (str : Z -> Z) (si val : Z) : option (Z * Z) :=
  if ci (str si) 101 then
    let '(exp_neg, si) := scan_sign str (si + 1) in
    '(exp_val, si) ← scan_exp fuel str si;
    val ← scale fuel (fun v => if exp_neg : bool then ddiv v dbl_ten else dmul v dbl_ten) val exp_val;
    Some (val, si)
  else Some (val, si).

(** The new index, the [double] stored through [out_val] (none when nothing
    matched) and the match flag. *)
Definition sc_scan_float (fuel : nat) (str : Z -> Z) (si : Z) : option (Z * option Z * bool) :=
  let '(neg, si) := scan_sign str si in
  if is_inf_at str si then
    let val := ddiv dbl_one dbl_zero in
    let val := if neg then dsub dbl_zero val else val in
    let si := si + 3 in
    Some (if is_inity_at str si then si + 5 else si, Some val, true)
  else if is_nan_at str si then Some (si + 3, Some (ddiv dbl_zero dbl_zero), true)
  else
    s ← loop fuel (scan_float_body str) (FloatScan si 0 0 1 0 false false);
    if negb (fs_any s) then Some (fs_si s, None, false)
    else
      let val := dadd (dbl_of_long (int_part s)) (ddiv (dbl_of_long (frac_part s)) (dbl_of_long (frac_scale s))) in
      '(val, si) ← scan_exponent fuel str (fs_si s) val;
      let val := if neg then dsub dbl_zero val else val in
      Some (si, Some val, true).

(** * The digit loop *)

Lemma sc_digit_zero base : sc_digit base 0 = None.
Proof.
  unfold sc_digit, sc_isdigit, sc_isxdigit.
  by destruct (base =? 10), (base =? 16), (base =? 8), (base =? 2).
Qed.

Lemma sc_digit_nonzero base c d : sc_digit base c = Some d -> c <> 0.
Proof. intros H ->. by rewrite sc_digit_zero in H. Qed.

Lemma sc_digit_range base c d : sc_digit base c = Some d -> 0 <= d < base.
Proof.
  unfold sc_digit, sc_isdigit, sc_isxdigit, sc_xval. repeat case_match; intros [= <-]; lia.
Qed.

(** [cs] is a maximal run of [base] digits, of values [ds], at [si]. *)
Record digit_run (str : Z -> Z) (base si : Z) (cs ds : list Z) : Prop := {
  run_digits : Forall2 (fun c d => sc_digit base c = Some d) cs ds;
  run_at : at_mem str si cs;
  run_stop : sc_digit base (str (si + Z.of_nat (length cs))) = None;
}.

Lemma digit_run_cons str base si c cs d ds :
  digit_run str base si (c :: cs) (d :: ds) ->
  str si = c /\ sc_digit base c = Some d /\ digit_run str base (si + 1) cs ds.
Proof.
  intros [Hd Ha Hs]. inversion Hd; subst. apply at_mem_cons in Ha as [Hc Ha].
  split_and!; try done. constructor; try done.
  replace (si + 1 + Z.of_nat (length cs)) with (si + Z.of_nat (length (c :: cs))); [done|].
  cbn [length]. lia.
Qed.

Lemma scan_body_stop str base sg s :
  sc_digit base (str (is_si s)) = None -> scan_int_body str base sg s = inr s.
Proof. destruct s as [si v a o]. cbn. intros ->. by destruct (str si =? 0). Qed.

Lemma scan_body_digit str base sg si v a o d :
  sc_digit base (str si) = Some d ->
  scan_int_body str base sg (IntScan si v a o) =
    let o' := if sg && (base =? 10) && negb o then Z.quot (LLONG_MAX - d) 10 <? v else o in
    inl (IntScan (si + 1) (if negb o' then i64 (i64 (v * base) + d) else v) true o').
Proof.
  intros H. cbn. rewrite H. by destruct (Z.eqb_spec (str si) 0) as [E|]; [apply sc_digit_nonzero in H|].
Qed.

Definition fold_digits (base : Z) (ds : list Z) (v : Z) : Z := fold_left (fun a d => a * base + d) ds v.

(** Without clamping, the accumulator holds the value modulo 2^64. *)
Lemma scan_wraps str base sg cs : forall si ds v any fuel,
  sg && (base =? 10) = false -> digit_run str base si cs ds -> (length cs < fuel)%nat ->
  loop fuel (scan_int_body str base sg) (IntScan si (i64 v) any false) =
    Some (IntScan (si + Z.of_nat (length cs)) (i64 (fold_digits base ds v))
                  (any || negb (length cs =? 0)%nat) false).
Proof.
  induction cs as [|c cs IH]; intros si ds v any [|fuel] Hsg Hrun Hf; cbn [length] in Hf; try lia; cbn [loop].
  - destruct Hrun as [Hd _ Hs]. inversion Hd; subst. cbn [length] in *. rewrite Z.add_0_r in *.
    rewrite scan_body_stop by done. cbn. by rewrite orb_false_r.
  - destruct ds as [|d ds]; [by destruct Hrun as [Hd]; inversion Hd|].
    apply digit_run_cons in Hrun as (Hc & Hd & Hrun).
    rewrite (scan_body_digit _ _ _ _ _ _ _ d) by congruence. rewrite Hsg. cbn [andb negb]. cbv zeta iota.
    rewrite wrapS_step, (IH _ ds) by (done || lia). cbn [length]. rewrite orb_true_r, orb_true_l.
    do 2 f_equal. lia.
Qed.

Lemma fold_digits_ge base ds v : 1 <= base -> Forall (fun d => 0 <= d) ds -> 0 <= v -> v <= fold_digits base ds v.
Proof.
  intros Hb Hds. revert v. induction Hds as [|d ds Hd _ IH]; intros v Hv; cbn; [lia|].
  etransitivity; [|apply IH]; nia.
Qed.

Lemma run_nonneg str base si cs ds : digit_run str base si cs ds -> Forall (fun d => 0 <= d < base) ds.
Proof.
  intros [Hd _ _]. induction Hd as [|c d cs ds Hcd _ IH]; constructor; [|done].
  by apply sc_digit_range in Hcd.
Qed.

(** After an overflow the remaining digits are consumed and ignored. *)
Lemma scan_overflowed str cs : forall si ds v any fuel,
  digit_run str 10 si cs ds -> (length cs < fuel)%nat ->
  loop fuel (scan_int_body str 10 true) (IntScan si v any true) =
    Some (IntScan (si + Z.of_nat (length cs)) v (any || negb (length cs =? 0)%nat) true).
Proof.
  induction cs as [|c cs IH]; intros si ds v any [|fuel] Hrun Hf; cbn [length] in Hf; try lia; cbn [loop].
  - destruct Hrun as [Hd _ Hs]. inversion Hd; subst. cbn [length] in *. rewrite Z.add_0_r in *.
    rewrite scan_body_stop by done. by rewrite orb_false_r.
  - destruct ds as [|d ds]; [by destruct Hrun as [Hd]; inversion Hd|].
    apply digit_run_cons in Hrun as (Hc & Hd & Hrun).
    rewrite (scan_body_digit _ _ _ _ _ _ _ d) by congruence. cbn [andb negb]. cbv zeta iota.
    change (10 =? 10) with true. cbn [andb negb]. cbn iota.
    rewrite (IH _ ds) by (done || lia). cbn [length]. rewrite orb_true_r, orb_true_l.
    do 2 f_equal. lia.
Qed.

(** With clamping, the accumulator is exact as long as the value fits a [long],
    and the overflow flag is set as soon as it does not. *)
Lemma scan_clamps str cs : forall si ds v any fuel,
  digit_run str 10 si cs ds -> (length cs < fuel)%nat -> 0 <= v <= LLONG_MAX ->
  exists v' o, loop fuel (scan_int_body str 10 true) (IntScan si v any false) =
    Some (IntScan (si + Z.of_nat (length cs)) v' (any || negb (length cs =? 0)%nat) o) /\
    (if o : bool then LLONG_MAX < fold_digits 10 ds v
     else v' = fold_digits 10 ds v /\ fold_digits 10 ds v <= LLONG_MAX).
Proof.
  induction cs as [|c cs IH]; intros si ds v any [|fuel] Hrun Hf Hv; cbn [length] in Hf; try lia; cbn [loop].
  - destruct Hrun as [Hd _ Hs]. inversion Hd; subst. cbn [length] in *. rewrite Z.add_0_r in *.
    rewrite scan_body_stop by done. exists v, false. rewrite orb_false_r. cbn. split; [done|]. lia.
  - destruct ds as [|d ds]; [by destruct Hrun as [Hd]; inversion Hd|].
    pose proof (run_nonneg _ _ _ _ _ Hrun) as Hnn. inversion Hnn as [|? ? Hd0 Hds]; subst.
    apply digit_run_cons in Hrun as (Hc & Hd & Hrun).
    rewrite (scan_body_digit _ _ _ _ _ _ _ d) by congruence. change (10 =? 10) with true.
    cbn [andb negb]. cbv zeta. cbn [fold_digits fold_left]. unfold LLONG_MAX in *.
    rewrite Z.quot_div_nonneg by lia.
    destruct (Z.ltb_spec ((9223372036854775807 - d) / 10) v) as [Hov|Hok]; cbn [negb].
    + rewrite (scan_overflowed _ cs _ ds) by (done || lia). eexists _, true. split.
      { cbn [length]. rewrite orb_true_r, orb_true_l. do 2 f_equal. lia. }
      unfold fold_digits. eapply Z.lt_le_trans; [|apply (fold_digits_ge 10)]; [zdm|lia| |lia].
      eapply Forall_impl; [|exact Hds]. cbv beta. lia.
    + assert (v * 10 + d <= 9223372036854775807) by zdm.
      rewrite (i64_small (v * 10)), i64_small by lia.
      destruct (IH (si + 1) ds (v * 10 + d) true fuel Hrun ltac:(lia) ltac:(lia)) as (v' & o & -> & Ho).
      exists v', o. split; [|done]. cbn [length]. rewrite orb_true_r, orb_true_l.
      do 2 f_equal. lia.
Qed.

(** * What the integer scanner returns *)

Definition clamp64 (v : Z) : Z := Z.max LLONG_MIN (Z.min LLONG_MAX v).

Lemma sc_digit_char base c d : sc_digit base c = Some d -> 48 <= c <= 102.
Proof. unfold sc_digit, sc_isdigit, sc_isxdigit. repeat case_match; intros [=]; lia. Qed.

Lemma digit_first str base si c cs ds : digit_run str base si (c :: cs) ds -> str si = c /\ 48 <= c <= 102.
Proof.
  intros [Hd Ha _]. apply at_mem_cons in Ha as [Hc _]. split; [done|].
  inversion Hd; subst. by eapply sc_digit_char.
Qed.

Lemma scan_sign_run str sg neg si base cs ds :
  sign_of sg neg -> at_mem str si sg -> digit_run str base (si + Z.of_nat (length sg)) cs ds -> cs <> [] ->
  scan_sign str si = (neg, si + Z.of_nat (length sg)).
Proof.
  intros Hsg Ha Hrun Hne. unfold scan_sign. destruct Hsg; cbn [length] in *.
  - rewrite Z.add_0_r in *. destruct cs as [|c cs]; [done|].
    destruct (digit_first _ _ _ _ _ _ Hrun) as [-> Hc].
    destruct (Z.eqb_spec c 45); [lia|]. destruct (Z.eqb_spec c 43); [lia|]. done.
  - apply at_mem_cons in Ha as [-> _]. done.
  - apply at_mem_cons in Ha as [-> _]. done.
Qed.

(** The signed decimal scanner on an optional sign and a digit string of any
    length returns the number clamped to the range of [long]. *)
Lemma scan_int_signed str si sg neg cs ds fuel :
  sign_of sg neg -> at_mem str si sg -> digit_run str 10 (si + Z.of_nat (length sg)) cs ds -> cs <> [] ->
  (length cs < fuel)%nat ->
  sc_scan_int fuel str si 10 true =
    Some (si + Z.of_nat (length sg) + Z.of_nat (length cs),
          clamp64 (if neg : bool then - digits_value 10 ds else digits_value 10 ds), true).
Proof.
  intros Hsg Ha Hrun Hne Hf. unfold sc_scan_int. rewrite (scan_sign_run _ _ _ _ _ _ _ Hsg Ha Hrun Hne).
  unfold scan_base. cbn [Z.eqb Pos.eqb].
  destruct (scan_clamps str cs (si + Z.of_nat (length sg)) ds 0 false fuel Hrun Hf) as (v & o & -> & Ho);
    [unfold LLONG_MAX; lia|].
  change (fold_digits 10 ds 0) with (digits_value 10 ds) in Ho.
  pose proof (digits_value_bounds 10 ds ltac:(lia) (run_nonneg _ _ _ _ _ Hrun)) as [Hpos _].
  destruct cs as [|c cs]; [done|]. cbn [length Nat.eqb negb orb]. cbn [mbind option_bind].
  unfold clamp64, LLONG_MIN, LLONG_MAX in *. destruct o.
  - destruct neg; do 3 f_equal; lia.
  - destruct Ho as [-> Hle]. destruct neg; [rewrite i64_small by lia|]; do 3 f_equal; lia.
Qed.

(** C29: the signed decimal scanner accepts an optional sign and a digit string
    of any length, consumes exactly those bytes and returns the number clamped
    to [LLONG_MIN .. LLONG_MAX]; the unsigned one, in whatever base and after
    whatever prefix [scan_base] finds, consumes the maximal digit run and
    returns its value modulo 2^64; both report a match exactly when there is a
    digit. *)
Theorem scan_int_values (str : Z -> Z) (si : Z) (fuel : nat) :
  (forall sg neg cs ds, sign_of sg neg -> at_mem str si sg ->
     digit_run str 10 (si + Z.of_nat (length sg)) cs ds -> cs <> [] -> (length cs < fuel)%nat ->
     sc_scan_int fuel str si 10 true =
       Some (si + Z.of_nat (length sg) + Z.of_nat (length cs),
             clamp64 (if neg : bool then - digits_value 10 ds else digits_value 10 ds), true)) /\
  (forall base b si' any cs ds, scan_base str si base = (b, si', any) ->
     digit_run str b si' cs ds -> (length cs < fuel)%nat ->
     sc_scan_int fuel str si base false =
       Some (si' + Z.of_nat (length cs), i64 (digits_value b ds), any || negb (length cs =? 0)%nat)).
Proof.
  split; [intros; by apply scan_int_signed|].
  intros base b si' any cs ds Hb Hrun Hf. unfold sc_scan_int. rewrite Hb.
  pose proof (scan_wraps str b false cs si' ds 0 any fuel eq_refl Hrun Hf) as Hl.
  change (i64 0) with 0 in Hl. by rewrite Hl.
Qed.

(** * Scan sets *)

(** The ranges a pattern lists, as the scanner groups its bytes. *)
Fixpoint set_ranges (pat : list Z) : list (Z * Z) :=
  match pat with
  | [] => []
  | a :: rest =>
      match rest with
      | d :: b :: rest' => if d =? 45 then (a, b) :: set_ranges rest' else (a, a) :: set_ranges rest
      | _ => (a, a) :: set_ranges rest
      end
  end.

Definition in_ranges (c : Z) (rs : list (Z * Z)) : bool :=
  existsb (fun '(lo, hi) => (lo <=? c) && (c <=? hi)) rs.

(** A first [']'] stands for itself. *)
Definition set_spec (pat : list Z) (c : Z) : bool :=
  match pat with
  | 93 :: rest => (c =? 93) || in_ranges c (set_ranges rest)
  | _ => in_ranges c (set_ranges pat)
  end.

Lemma single_range (c a : Z) : (a <=? c) && (c <=? a) = (c =? a).
Proof. destruct (Z.leb_spec a c), (Z.leb_spec c a), (Z.eqb_spec c a); cbn; lia || done. Qed.

Lemma in_set_loop fmt c n : forall pat pi pat_end fuel,
  (length pat <= n)%nat -> at_mem fmt pi pat -> pat_end = pi + Z.of_nat (length pat) -> (length pat < fuel)%nat ->
  loop fuel (in_set_body fmt pat_end c) pi = Some (in_ranges c (set_ranges pat)).
Proof.
  induction n as [|n IH]; intros pat pi pe [|fuel] Hn Ha -> Hf; try lia; cbn [loop];
    (destruct pat as [|a rest];
     [unfold in_set_body; destruct (Z.ltb_spec pi (pi + Z.of_nat (length (@nil Z)))); cbn [length] in *; [lia|done]|]);
    cbn [length] in *; [lia|].
  apply at_mem_cons in Ha as [Hpa Ha]. unfold in_set_body at 1.
  destruct (Z.ltb_spec pi (pi + Z.of_nat (S (length rest)))); [|lia].
  assert (Hone : loop fuel (in_set_body fmt (pi + Z.of_nat (S (length rest))) c) (pi + 1) =
                 Some (in_ranges c (set_ranges rest))) by (apply IH; [lia|done|lia|lia]).
  destruct rest as [|d [|b rest]]; cbn [length] in *.
  - destruct (Z.ltb_spec (pi + 2) (pi + Z.of_nat 1)); [lia|]. cbn [andb].
    rewrite Hpa. cbn [set_ranges in_ranges existsb]. rewrite single_range. by destruct (c =? a).
  - destruct (Z.ltb_spec (pi + 2) (pi + Z.of_nat 2)); [lia|]. cbn [andb].
    rewrite Hpa. cbn [set_ranges in_ranges existsb]. rewrite single_range. by destruct (c =? a).
  - pose proof Ha as Ha'. apply at_mem_cons in Ha' as [Hd Ha']. apply at_mem_cons in Ha' as [Hb Ha'].
    replace (pi + 1 + 1) with (pi + 2) in * by lia.
    destruct (Z.ltb_spec (pi + 2) (pi + Z.of_nat (S (S (S (length rest)))))); [|lia].
    cbn [andb]. rewrite Hpa, Hd, Hb. cbn [set_ranges]. destruct (d =? 45).
    + cbn [in_ranges existsb]. destruct ((a <=? c) && (c <=? b)); [done|].
      apply IH; [lia| |lia|lia]. by replace (pi + 3) with (pi + 2 + 1) by lia.
    + cbn [in_ranges existsb]. rewrite single_range. by destruct (c =? a).
Qed.

(** Set membership is decided as the pattern reads: single bytes and ranges
    [x-y], a [']'] in first place standing for itself, and a ['-'] that has no
    byte on one side standing for itself. *)
Theorem in_set_decides (fmt : Z -> Z) (a : Z) (pat : list Z) (c : Z) : at_mem fmt a pat ->
  sc_in_set fmt a (a + Z.of_nat (length pat)) c = Some (set_spec pat c).
Proof.
  intros Ha. unfold sc_in_set. replace (a + _ - a) with (Z.of_nat (length pat)) by lia. rewrite Nat2Z.id.
  destruct pat as [|p rest].
  - cbn [length]. destruct (Z.ltb_spec a (a + Z.of_nat 0)); [lia|]. cbn [andb].
    by rewrite (in_set_loop _ _ 0 []) by (done || cbn; lia).
  - assert (Hl : loop (S (length (p :: rest))) (in_set_body fmt (a + Z.of_nat (length (p :: rest))) c) a =
                 Some (in_ranges c (set_ranges (p :: rest)))) by (eapply in_set_loop; [reflexivity|done|lia|lia]).
    cbn [length] in *. destruct (Z.ltb_spec a (a + Z.of_nat (S (length rest)))); [|lia]. cbn [andb].
    apply at_mem_cons in Ha as [Hp Ha]. rewrite Hp. destruct (Z.eqb_spec p 93) as [->|Hne].
    + cbn [set_spec]. destruct (c =? 93); [done|]. cbn [orb].
      by rewrite (in_set_loop _ _ (length rest) rest) by (done || lia).
    + rewrite Hl. unfold set_spec. f_equal. destruct p as [|p|p]; try done.
      do 7 (destruct p as [p|p|]; try done).
Qed.

(** * Floating point *)

(** [cs] are decimal digits standing at [si]. *)
Definition dec_at (str : Z -> Z) (si : Z) (cs : list Z) : Prop :=
  at_mem str si cs /\ Forall (fun c => sc_isdigit c = true) cs.

Definition vals (cs : list Z) : list Z := (fun c => c - 48) <$> cs.

Lemma dec_at_cons str si c cs : dec_at str si (c :: cs) ->
  str si = c /\ sc_isdigit c = true /\ 48 <= c <= 57 /\ dec_at str (si + 1) cs.
Proof.
  intros [Ha Hd]. apply at_mem_cons in Ha as [Hc Ha]. inversion Hd as [|? ? Hd1 Hd2]; subst.
  split_and!; try done; unfold sc_isdigit in Hd1; lia.
Qed.

Definition nonempty {A} (l : list A) : bool := match l with [] => false | _ => true end.

Lemma float_int_loop str cs : forall si v fuel r any fp sc fd,
  dec_at str si cs ->
  loop fuel (scan_float_body str)
    (FloatScan (si + Z.of_nat (length cs)) (i64 (fold_digits 10 (vals cs) v)) fp sc fd false (any || nonempty cs)) = Some r ->
  loop (length cs + fuel) (scan_float_body str) (FloatScan si (i64 v) fp sc fd false any) = Some r.
Proof.
  induction cs as [|c cs IH]; intros si v fuel r any fp sc fd Hd Hr; cbn [length Nat.add loop] in *.
  - by rewrite Z.add_0_r, orb_false_r in Hr.
  - apply dec_at_cons in Hd as (Hc & Hdig & Hrange & Hd). unfold scan_float_body at 1.
    rewrite Hc, Hdig. destruct (Z.eqb_spec c 0); [lia|]. rewrite wrapS_step by lia.
    apply IH; [done|]. rewrite <- Hr. cbn [nonempty]. rewrite orb_true_r.
    do 2 f_equal. lia.
Qed.

Lemma float_frac_loop str cs : forall si F n fuel r any ip,
  dec_at str si cs -> (n <= 18)%nat -> 0 <= F < 10 ^ Z.of_nat n ->
  let kept := take (18 - n) cs in
  loop fuel (scan_float_body str)
    (FloatScan (si + Z.of_nat (length cs)) ip (fold_digits 10 (vals kept) F)
       (10 ^ Z.of_nat (n + length kept)) (Z.of_nat (n + length kept)) true (any || nonempty cs)) = Some r ->
  loop (length cs + fuel) (scan_float_body str)
    (FloatScan si ip F (10 ^ Z.of_nat n) (Z.of_nat n) true any) = Some r.
Proof.
  induction cs as [|c cs IH]; intros si F n fuel r any ip Hd Hn HF kept Hr; subst kept; cbn [length Nat.add loop] in *.
  - rewrite take_nil in Hr. cbn [length] in Hr. by rewrite Nat.add_0_r, Z.add_0_r, orb_false_r in Hr.
  - apply dec_at_cons in Hd as (Hc & Hdig & Hrange & Hd). unfold scan_float_body at 1.
    rewrite Hc, Hdig. destruct (Z.eqb_spec c 0); [lia|].
    destruct (Z.ltb_spec (Z.of_nat n) 18).
    + assert (10 ^ Z.of_nat n <= 10 ^ 17) by (apply Z.pow_le_mono_r; lia).
      rewrite (i64_small (F * 10)), !i64_small by lia.
      replace (10 ^ Z.of_nat n * 10) with (10 ^ Z.of_nat (S n)) by (rewrite Nat2Z.inj_succ, Z.pow_succ_r; lia).
      replace (Z.of_nat n + 1) with (Z.of_nat (S n)) by lia.
      apply (IH (si + 1) (F * 10 + (c - 48)) (S n)); [done|lia| |].
      { rewrite Nat2Z.inj_succ, Z.pow_succ_r by lia. lia. }
      rewrite <- Hr. replace (18 - n)%nat with (S (18 - S n)) by lia. cbn [take firstn length nonempty].
      rewrite orb_true_r, <- !plus_n_Sm, !Nat.add_succ_l. do 2 f_equal. lia.
    + assert (n = 18%nat) as -> by lia. apply (IH (si + 1) F 18%nat); [done|lia|done|].
      rewrite <- Hr. cbn [Nat.sub take firstn nonempty]. rewrite orb_true_r. do 2 f_equal. lia.
Qed.

Lemma float_stop str si ip fp sc fd inf any fuel :
  sc_isdigit (str si) = false -> (str si = 46 -> inf = true) -> (0 < fuel)%nat ->
  loop fuel (scan_float_body str) (FloatScan si ip fp sc fd inf any) = Some (FloatScan si ip fp sc fd inf any).
Proof.
  intros Hd Hdot Hf. destruct fuel as [|fuel]; [lia|]. cbn [loop]. unfold scan_float_body at 1.
  rewrite Hd. destruct (str si =? 0); [done|].
  destruct (Z.eqb_spec (str si) 46) as [E|]; [|done]. by rewrite (Hdot E).
Qed.

(** The value the scanner forms from the digits before and after the point. *)
Definition float_value (ip fp : list Z) : Z :=
  dadd (dbl_of_long (i64 (digits_value 10 (vals ip))))
       (ddiv (dbl_of_long (digits_value 10 (vals (take 18 fp))))
             (dbl_of_long (10 ^ Z.of_nat (length (take 18 fp))))).

Lemma not_inf_nan str si : (sc_isdigit (str si) = true \/ str si = 46) ->
  is_inf_at str si = false /\ is_nan_at str si = false.
Proof.
  unfold sc_isdigit, is_inf_at, is_nan_at, ci. intros H.
  destruct (Z.eqb_spec (str si) 105), (Z.eqb_spec (str si) (105 - 32)),
    (Z.eqb_spec (str si) 110), (Z.eqb_spec (str si) (110 - 32)); cbn [orb andb]; done || lia.
Qed.

(** The mantissa loop on a fixed-point numeral [ip.fp]. *)
Lemma float_loop str si ip fp fuel :
  dec_at str si ip -> str (si + Z.of_nat (length ip)) = 46 ->
  dec_at str (si + Z.of_nat (length ip) + 1) fp ->
  sc_isdigit (str (si + Z.of_nat (length ip) + 1 + Z.of_nat (length fp))) = false ->
  (length ip + length fp + 2 < fuel)%nat ->
  loop fuel (scan_float_body str) (FloatScan si 0 0 1 0 false false) =
    Some (FloatScan (si + Z.of_nat (length ip) + 1 + Z.of_nat (length fp))
      (i64 (digits_value 10 (vals ip))) (digits_value 10 (vals (take 18 fp)))
      (10 ^ Z.of_nat (length (take 18 fp))) (Z.of_nat (length (take 18 fp))) true (nonempty ip || nonempty fp)).
Proof.
  intros Hip Hdot Hfp Hstop Hf. replace fuel with (length ip + (fuel - length ip))%nat by lia.
  pose proof (fun r => float_int_loop str ip si 0 (fuel - length ip) r false 0 1 0 Hip) as Hint.
  change (i64 0) with 0 in Hint. apply Hint. clear Hint.
  replace (fuel - length ip)%nat with (S (length fp + (fuel - length ip - 1 - length fp))) by lia.
  cbn [loop]. unfold scan_float_body at 1. rewrite Hdot. change (46 =? 0) with false.
  change (sc_isdigit 46) with false. cbn [Z.eqb Pos.eqb negb andb orb].
  apply (float_frac_loop str fp _ 0 0); [done|lia|cbn; lia|]. cbn [Nat.sub Nat.add].
  apply float_stop; [done|done|lia].
Qed.

Lemma scale_iter f n : forall v fuel, (n < fuel)%nat -> scale fuel f v (Z.of_nat n) = Some (Nat.iter n f v).
Proof.
  unfold scale. induction n as [|n IH]; intros v [|fuel] Hf; try lia; cbn [loop]; [done|].
  destruct (Z.ltb_spec 0 (Z.of_nat (S n))); [|lia].
  replace (Z.of_nat (S n) - 1) with (Z.of_nat n) by lia. rewrite IH by lia. by rewrite Nat.iter_succ_r.
Qed.

Lemma scale_steps f v e fuel : 0 <= e -> e < Z.of_nat fuel -> scale fuel f v e = Some (Nat.iter (Z.to_nat e) f v).
Proof. intros He Hf. rewrite <- (scale_iter f (Z.to_nat e)) with (fuel := fuel) by lia. by rewrite Z2Nat.id. Qed.

Lemma scan_exp_run str cs : forall si v fuel, dec_at str si cs ->
  sc_isdigit (str (si + Z.of_nat (length cs))) = false -> (length cs < fuel)%nat ->
  0 <= v -> fold_digits 10 (vals cs) v < 2 ^ 31 ->
  loop fuel (fun '(e, si) =>
    if sc_isdigit (str si) then inl (i32 (i32 (e * 10) + (str si - 48)), si + 1) else inr (e, si)) (v, si) =
  Some (fold_digits 10 (vals cs) v, si + Z.of_nat (length cs)).
Proof.
  induction cs as [|c cs IH]; intros si v [|fuel] Hd Hs Hf Hv Hb; cbn [length] in *; try lia; cbn [loop].
  - rewrite Z.add_0_r in *. by rewrite Hs.
  - apply dec_at_cons in Hd as (Hc & Hdig & Hr & Hd). rewrite Hc, Hdig.
    change (fold_digits 10 (vals (c :: cs)) v) with (fold_digits 10 (vals cs) (v * 10 + (c - 48))) in *.
    assert (v * 10 + (c - 48) <= fold_digits 10 (vals cs) (v * 10 + (c - 48))).
    { apply fold_digits_ge; [lia| |lia]. destruct Hd as [_ Hd]. unfold vals. apply Forall_fmap.
      eapply Forall_impl; [|exact Hd]. cbn. unfold sc_isdigit. intros; lia. }
    rewrite (i32_small (v * 10)), i32_small by lia. rewrite IH; [|done| |lia|lia|exact Hb].
    + do 2 f_equal. lia.
    + rewrite <- Hs. do 2 f_equal. lia.
Qed.

(** The exponent part: nothing, or [e], a sign and digits. *)
Inductive exponent_at (str : Z -> Z) (si : Z) : bool -> Z -> nat -> Prop :=
| no_exponent : ci (str si) 101 = false -> exponent_at str si false 0 0
| an_exponent sg neg cs : ci (str si) 101 = true -> sign_of sg neg -> at_mem str (si + 1) sg ->
    cs <> [] -> dec_at str (si + 1 + Z.of_nat (length sg)) cs ->
    sc_isdigit (str (si + 1 + Z.of_nat (length sg) + Z.of_nat (length cs))) = false ->
    digits_value 10 (vals cs) < 2 ^ 31 ->
    exponent_at str si neg (digits_value 10 (vals cs)) (1 + length sg + length cs).

Lemma scan_exponent_at str si neg e len v fuel : exponent_at str si neg e len ->
  (len < fuel)%nat -> e < Z.of_nat fuel ->
  scan_exponent fuel str si v =
    Some (Nat.iter (Z.to_nat e) (fun v => if neg then ddiv v dbl_ten else dmul v dbl_ten) v, si + Z.of_nat len).
Proof.
  intros He Hf Hfe. unfold scan_exponent. inversion He as [Hc|sg ng cs Hc Hsg Hat Hne Hd Hstop Hb]; subst; rewrite Hc.
  { by rewrite Z.add_0_r. }
  destruct cs as [|c cs]; [done|]. pose proof Hd as Hd'. apply dec_at_cons in Hd' as (Hc0 & _ & Hr & _).
  assert (Hsgn : scan_sign str (si + 1) = (neg, si + 1 + Z.of_nat (length sg))).
  { unfold scan_sign. destruct Hsg; cbn [length] in *; rewrite ?Z.add_0_r in *.
    - rewrite Hc0. destruct (Z.eqb_spec c 45); [lia|]. destruct (Z.eqb_spec c 43); [lia|]. done.
    - by apply at_mem_cons in Hat as [-> _].
    - by apply at_mem_cons in Hat as [-> _]. }
  rewrite Hsgn. unfold scan_exp.
  rewrite (scan_exp_run str (c :: cs)) by (done || lia). fold (digits_value 10 (vals (c :: cs))).
  cbn [mbind option_bind].
  assert (0 <= digits_value 10 (vals (c :: cs))).
  { eapply (fold_digits_ge 10); [lia| |lia]. destruct Hd as [_ Hd]. unfold vals. apply Forall_fmap.
    eapply Forall_impl; [|exact Hd]. cbn. unfold sc_isdigit. intros; lia. }
  change (fold_digits 10 (vals (c :: cs)) 0) with (digits_value 10 (vals (c :: cs))).
  rewrite scale_steps by done. cbn [mbind option_bind]. do 2 f_equal. lia.
Qed.

(** A numeral [ip.fp] with an optional sign and an optional exponent is
    consumed to its last byte; the value is the integer part plus the first 18
    fractional digits over their power of ten, multiplied or divided by ten as
    often as the exponent says, and negated under a minus sign. *)
Theorem scan_float_decimal (str : Z -> Z) (si : Z) (sg : list Z) (neg : bool) (ip fp : list Z)
    (eneg : bool) (e : Z) (elen fuel : nat) :
  sign_of sg neg -> at_mem str si sg ->
  dec_at str (si + Z.of_nat (length sg)) ip ->
  str (si + Z.of_nat (length sg) + Z.of_nat (length ip)) = 46 ->
  let sf := si + Z.of_nat (length sg) + Z.of_nat (length ip) + 1 in
  dec_at str sf fp -> nonempty ip || nonempty fp = true ->
  let se := sf + Z.of_nat (length fp) in
  sc_isdigit (str se) = false -> exponent_at str se eneg e elen ->
  (length ip + length fp + elen + 2 < fuel)%nat -> e < Z.of_nat fuel ->
  sc_scan_float fuel str si =
    Some (se + Z.of_nat elen,
      Some (let v := Nat.iter (Z.to_nat e) (fun v => if eneg then ddiv v dbl_ten else dmul v dbl_ten)
                       (float_value ip fp) in
            if neg then dsub dbl_zero v else v), true).
Proof.
  intros Hsg Hat Hip Hdot sf Hfp Hne se Hstop Hexp Hf He. unfold sc_scan_float.
  assert (Hfirst : sc_isdigit (str (si + Z.of_nat (length sg))) = true \/ str (si + Z.of_nat (length sg)) = 46).
  { destruct ip as [|c ip]; [right; by rewrite Z.add_0_r in Hdot|left].
    apply dec_at_cons in Hip as (-> & ? & _). done. }
  assert (Hsgn : scan_sign str si = (neg, si + Z.of_nat (length sg))).
  { unfold scan_sign, sc_isdigit in *. destruct Hsg; cbn [length] in *; rewrite ?Z.add_0_r in *.
    - destruct (Z.eqb_spec (str si) 45) as [E|]; [rewrite E in Hfirst; cbn in Hfirst; lia|].
      destruct (Z.eqb_spec (str si) 43) as [E|]; [rewrite E in Hfirst; cbn in Hfirst; lia|]. done.
    - by apply at_mem_cons in Hat as [-> _].
    - by apply at_mem_cons in Hat as [-> _]. }
  rewrite Hsgn. destruct (not_inf_nan _ _ Hfirst) as [-> ->].
  rewrite (float_loop str _ ip fp) by (done || lia). cbn [mbind option_bind fs_any fs_si int_part frac_part frac_scale].
  rewrite Hne. cbn [negb]. fold (float_value ip fp). fold sf se.
  rewrite (scan_exponent_at _ _ _ _ _ _ _ Hexp) by lia. done.
Qed.

(** [inf] and [infinity], in any mix of cases and with an optional sign, scan
    as the infinity of that sign, and [nan] as a NaN. *)
Theorem scan_float_special (str : Z -> Z) (si : Z) (sg : list Z) (neg : bool) (fuel : nat) :
  sign_of sg neg -> at_mem str si sg ->
  let s := si + Z.of_nat (length sg) in
  (is_inf_at str s = true -> is_inity_at str (s + 3) = false ->
     sc_scan_float fuel str si = Some (s + 3, Some (mk_dbl neg 2047 0), true)) /\
  (is_inf_at str s = true -> is_inity_at str (s + 3) = true ->
     sc_scan_float fuel str si = Some (s + 8, Some (mk_dbl neg 2047 0), true)) /\
  (is_nan_at str s = true -> sc_scan_float fuel str si = Some (s + 3, Some dbl_nan, true)).
Proof.
  intros Hsg Hat s.
  assert (Hsgn : is_inf_at str s = true \/ is_nan_at str s = true -> scan_sign str si = (neg, s)).
  { subst s. unfold is_inf_at, is_nan_at, scan_sign, ci.
    destruct Hsg; cbn [length]; rewrite ?Z.add_0_r; intros H.
    - destruct (Z.eqb_spec (str si) 45) as [E|]; [rewrite E in H; cbn in H; by destruct H|].
      destruct (Z.eqb_spec (str si) 43) as [E|]; [rewrite E in H; cbn in H; by destruct H|]. done.
    - by apply at_mem_cons in Hat as [-> _].
    - by apply at_mem_cons in Hat as [-> _]. }
  unfold sc_scan_float. split_and!.
  - intros Hi Hn. rewrite Hsgn, Hi by auto. cbv zeta. rewrite Hn. by destruct neg.
  - intros Hi Hn. rewrite Hsgn, Hi by auto. cbv zeta. rewrite Hn.
    replace (s + 3 + 5) with (s + 8) by lia. by destruct neg.
  - intros Hn. rewrite Hsgn by auto. destruct (is_inf_at str s) eqn:Hi; [|by rewrite Hn].
    unfold is_inf_at, is_nan_at, ci in *. lia.
Qed.

Lemma scan_int_values_witness :
  sc_scan_int 9 (mem_of 0 [45; 49; 50; 32]) 0 10 true = Some (3, -12, true) /\
  sc_scan_int 9 (mem_of 0 [48; 120; 102; 102; 32]) 0 16 false = Some (4, 255, true).
Proof.
  split.
  - refine (proj1 (scan_int_values (mem_of 0 [45; 49; 50; 32]) 0 9) [45] true [49; 50] [1; 2] sign_minus _ _ _ _);
      [by intros [|[]] c [= <-]| |done|cbn; lia].
    split; [by repeat constructor|by intros [|[|[]]] c [= <-]|reflexivity].
  - refine (proj2 (scan_int_values (mem_of 0 [48; 120; 102; 102; 32]) 0 9) 16 16 2 false [102; 102] [15; 15] eq_refl _ _);
      [|cbn; lia].
    split; [by repeat constructor|by intros [|[|[]]] c [= <-]|reflexivity].
Defined.

(** The pattern [][a-c] of the bytes at 5. *)
Lemma in_set_decides_witness :
  sc_in_set (mem_of 5 [93; 97; 45; 99; 0]) 5 9 98 = Some true /\
  sc_in_set (mem_of 5 [93; 97; 45; 99; 0]) 5 9 45 = Some false.
Proof.
  assert (H : at_mem (mem_of 5 [93; 97; 45; 99; 0]) 5 [93; 97; 45; 99]).
  { by intros [|[|[|[|]]]] c [= <-]. }
  split.
  - exact (in_set_decides _ 5 [93; 97; 45; 99] 98 H).
  - exact (in_set_decides _ 5 [93; 97; 45; 99] 45 H).
Defined.

(** "-12.5e1,": minus 125. *)
Lemma scan_float_decimal_witness :
  sc_scan_float 20 (mem_of 0 [45; 49; 50; 46; 53; 101; 49; 44]) 0 = Some (7, Some (dbl_of_long (-125)), true).
Proof.
  set (str := mem_of 0 [45; 49; 50; 46; 53; 101; 49; 44]).
  assert (Hexp : exponent_at str 5 false 1 2).
  { refine (an_exponent str 5 [] false [49] eq_refl sign_none _ _ _ eq_refl _); [by intros ? c ?|done| |cbn; lia].
    split; [by intros [|[]] c [= <-]|by repeat constructor]. }
  refine (scan_float_decimal str 0 [45] true [49; 50] [53] false 1 2 20
    sign_minus _ _ eq_refl _ eq_refl eq_refl Hexp _ _).
  - by intros [|[]] c [= <-].
  - split; [by intros [|[|[]]] c [= <-]|by repeat constructor].
  - split; [by intros [|[]] c [= <-]|by repeat constructor].
  - cbn. lia.
  - cbn. lia.
Defined.

(** "-InFinity" *)
Lemma scan_float_special_witness :
  sc_scan_float 0 (mem_of 0 [45; 73; 110; 70; 105; 110; 105; 116; 121]) 0 = Some (9, Some (mk_dbl true 2047 0), true).
Proof.
  refine (proj1 (proj2 (scan_float_special (mem_of 0 [45; 73; 110; 70; 105; 110; 105; 116; 121]) 0 [45] true 0
    sign_minus _)) eq_refl eq_refl).
  by intros [|[]] c [= <-].
Defined.
