(* ===== verification/Sscanf.v ===== *)
(** [src/libc/sscanf.c], [sscanf]: the format interpreter.

    The variadic arguments are the list of pointers [va_arg] returns in turn;
    reading past it is undefined.  What the source stores through them is a
    trace of stores in order.  The destinations are taken not to overlap the
    input and the format, which are read-only here. *)
From S2P Require Import Prelude Posix Stdio CFloat Scan.

(** ** State *)

Inductive store :=
| StLong (p v : Z)      (** store [v] at the [long] pointer [p] *)
| StDouble (p d : Z)    (** the same for [double] *)
| StByte (p c : Z).     (** the same for [char] *)

(** The locals that live across conversions: the two indices, the count, the
    remaining arguments and the stores so far. *)
Record sc := Sc { fi : Z; si : Z; count : Z; ap : list Z; out : list store }.

(** How one round of the main loop ends: go on, [break], or undefined (an
    argument that is not there, or not enough fuel). *)
Inductive outcome := Next (s : sc) | Stop (s : sc) | Undef.

Definition with_si (s : sc) (i : Z) : sc := Sc (fi s) i (count s) (ap s) (out s).
Definition with_fi (s : sc) (i : Z) : sc := Sc i (si s) (count s) (ap s) (out s).

(** [p = va_arg(ap, T); *p = ...; count = count + 1] *)
Definition assign (s : sc) (mk : Z -> store) : outcome :=
  match ap s with
  | p :: ps => Next (Sc (fi s) (si s) (count s + 1) ps (out s ++ [mk p]))
  | [] => Undef
  end.

Section Sscanf.
Context (fuel : nat) (str fmt : Z -> Z).

(** ** The directive after [%] *)

Record directive := Directive { suppress : bool; width : Z; conv : Z; dir_end : Z }.

Definition scan_width (i : Z) : option (Z * Z) :=
  loop fuel (fun '(w, i) =>
    if sc_isdigit (fmt i) then inl (i32 (i32 (w * 10) + (fmt i - 48)), i + 1) else inr (w, i)) (0, i).

Definition skip_length (i : Z) : Z :=
  if (fmt i =? 108) || (fmt i =? 104) || (fmt i =? 122) || (fmt i =? 106) then
    if (fmt (i + 1) =? 108) || (fmt (i + 1) =? 104) then i + 1 + 1 else i + 1
  else i.

(** [i] is the index after the percent sign; [Some None] when the format ends
    inside the directive. *)
Definition parse_directive (i : Z) : option (option directive) :=
  if fmt i =? 0 then Some None
  else
    let suppress := fmt i =? 42 in
    let i := if suppress then i + 1 else i in
    if suppress && (fmt i =? 0) then Some None
    else
      '(width, i) ← scan_width i;
      if fmt i =? 0 then Some None
      else
        let i := skip_length i in
        if fmt i =? 0 then Some None
        else Some (Some (Directive suppress width (fmt i) (i + 1))).

(** ** Conversions *)

Definition conv_int (d : directive) (base : Z) (is_signed : bool) (s : sc) : outcome :=
  match i ← sc_skipws fuel str (si s); sc_scan_int fuel str i base is_signed with
  | None => Undef
  | Some (i, ival, matched) =>
      let s := with_si s i in
      if negb matched then Stop s
      else if suppress d then Next s
      else assign s (fun p => StLong p ival)
  end.

Definition conv_float (d : directive) (s : sc) : outcome :=
  match i ← sc_skipws fuel str (si s); sc_scan_float fuel str i with
  | None => Undef
  | Some (i, dval, matched) =>
      let s := with_si s i in
      if negb matched then Stop s
      else if suppress d then Next s
      else match dval with
           | Some v => assign s (fun p => StDouble p v)
           | None => Undef
           end
  end.

(** The copying loops of [%s] and the scan set: [accept] says whether the byte
    at the input index is taken ([None]: undefined). *)
Definition copy_body (accept : Z -> option bool) (w sdest : Z) (t : Z * Z * list store) :
    Z * Z * list store + option (Z * Z * list store) :=
  let '(i, di, o) := t in
  if str i =? 0 then inr (Some t)
  else match accept (str i) with
       | None => inr None
       | Some false => inr (Some t)
       | Some true =>
           if (w =? 0) || (di <? w - 1) then inl (i + 1, di + 1, o ++ [StByte (sdest + di) (str i)])
           else inl (i + 1, di, o)
       end.

Definition copy_field (accept : Z -> option bool) (w sdest i : Z) : option (Z * Z * list store) :=
  r ← loop fuel (copy_body accept w sdest) (i, 0, []);
  '(i, di, o) ← r;
  Some (i, di, o ++ [StByte (sdest + di) 0]).

Definition skip_body (accept : Z -> option bool) (i : Z) : Z + option Z :=
  if str i =? 0 then inr (Some i)
  else match accept (str i) with
       | None => inr None
       | Some false => inr (Some i)
       | Some true => inl (i + 1)
       end.

Definition skip_field (accept : Z -> option bool) (i : Z) : option Z :=
  r ← loop fuel (skip_body accept) i; r.

Definition not_ws (c : Z) : option bool := Some (negb (sc_isws c)).

Definition conv_string (d : directive) (s : sc) : outcome :=
  match sc_skipws fuel str (si s) with
  | None => Undef
  | Some i =>
      if negb (suppress d) then
        match ap s with
        | [] => Undef
        | sdest :: ps =>
            match copy_field not_ws (width d) sdest i with
            | None => Undef
            | Some (i, di, o) =>
                Next (Sc (fi s) i (if 0 <? di then count s + 1 else count s) ps (out s ++ o))
            end
        end
      else match skip_field not_ws i with
           | None => Undef
           | Some i => Next (with_si s i)
           end
  end.

Definition conv_char (d : directive) (s : sc) : outcome :=
  if str (si s) =? 0 then Stop s
  else if negb (suppress d) then
    match assign s (fun p => StLong p (str (si s))) with
    | Next s' => Next (with_si s' (si s + 1))
    | o => o
    end
  else Next (with_si s (si s + 1)).

Record scanset := Scanset { negate : bool; pat_start : Z; pat_end : Z; set_end : Z }.

(** [i] is the index after ['[']; [Some None] when there is no closing [']']. *)
Definition parse_set (i : Z) : option (option scanset) :=
  let negate := fmt i =? 94 in
  let i := if negate then i + 1 else i in
  let pat_start := i in
  let i := if fmt i =? 93 then i + 1 else i in
  i ← loop fuel (fun i => if negb (fmt i =? 0) && negb (fmt i =? 93) then inl (i + 1) else inr i) i;
  if fmt i =? 0 then Some None
  else Some (Some (Scanset negate pat_start i (i + 1))).

Definition set_accept (t : scanset) (c : Z) : option bool :=
  b ← sc_in_set fmt (pat_start t) (pat_end t) c;
  Some (if negate t then negb b else b).

Definition conv_set (d : directive) (s : sc) : outcome :=
  match parse_set (fi s) with
  | None => Undef
  | Some None => Stop s
  | Some (Some t) =>
      let s := with_fi s (set_end t) in
      if negb (suppress d) then
        match ap s with
        | [] => Undef
        | sdest :: ps =>
            match copy_field (set_accept t) (width d) sdest (si s) with
            | None => Undef
            | Some (i, di, o) =>
                let s := Sc (fi s) i (count s) ps (out s ++ o) in
                if di =? 0 then Stop s
                else Next (Sc (fi s) i (count s + 1) ps (out s))
            end
        end
      else match skip_field (set_accept t) (si s) with
           | None => Undef
           | Some i => Next (with_si s i)
           end
  end.

Definition conv_percent (s : sc) : outcome :=
  if str (si s) =? 37 then Next (with_si s (si s + 1)) else Stop s.

Definition is_float_conv (c : Z) : bool :=
  (c =? 102) || (c =? 70) || (c =? 103) || (c =? 71) || (c =? 101) || (c =? 69).

Definition convert (d : directive) (s : sc) : outcome :=
  let c := conv d in
  if c =? 100 then conv_int d 10 true s
  else if c =? 105 then conv_int d 0 true s
  else if c =? 117 then conv_int d 10 false s
  else if (c =? 120) || (c =? 88) then conv_int d 16 false s
  else if c =? 111 then conv_int d 8 false s
  else if is_float_conv c then conv_float d s
  else if c =? 115 then conv_string d s
  else if c =? 99 then conv_char d s
  else if c =? 91 then conv_set d s
  else if c =? 37 then conv_percent s
  else Next s.

(** ** The main loop *)

(** One round at a format byte that is not the terminator. *)
Definition step (s : sc) : outcome :=
  if sc_isws (fmt (fi s)) then
    match sc_skipws fuel str (si s) with
    | None => Undef
    | Some i => Next (with_fi (with_si s i) (fi s + 1))
    end
  else if negb (fmt (fi s) =? 37) then
    if str (si s) =? fmt (fi s) then Next (with_fi (with_si s (si s + 1)) (fi s + 1))
    else Stop s
  else
    match parse_directive (fi s + 1) with
    | None => Undef
    | Some None => Stop s
    | Some (Some d) => convert d (with_fi s (dir_end d))
    end.

Definition main_body (s : sc) : sc + option sc :=
  if fmt (fi s) =? 0 then inr (Some s)
  else match step s with
       | Next s => inl s
       | Stop s => inr (Some s)
       | Undef => inr None
       end.

Definition result (s : sc) : Z :=
  if (count s =? 0) && (str (si s) =? 0) then -1 else count s.

Definition sscanf (args : list Z) : option (Z * list store) :=
  r ← loop fuel main_body (Sc 0 0 0 args []);
  s ← r;
  Some (result s, out s).

End Sscanf.

(** Bytes of the formats and inputs below, by their ASCII codes. *)
Example scan_two : (* "%d %s" on "-5 ab" *)
  sscanf 40 (mem_of 0 [45; 53; 32; 97; 98]) (mem_of 0 [37; 100; 32; 37; 115]) [1000; 2000] =
    Some (2, [StLong 1000 (-5); StByte 2000 97; StByte 2001 98; StByte 2002 0]).
Proof. vm_compute. reflexivity. Qed.

(** * Copying a field *)

(** The stores of the bytes [bs] at [p], [p + 1], ... in order. *)
Definition byte_stores (p : Z) (bs : list Z) : list store :=
  imap (fun k c => StByte (p + Z.of_nat k) c) bs.

Lemma byte_stores_snoc p bs c :
  byte_stores p (bs ++ [c]) = byte_stores p bs ++ [StByte (p + Z.of_nat (length bs)) c].
Proof. unfold byte_stores. rewrite imap_app. cbn. by rewrite Nat.add_0_r. Qed.

(** [cs] is a maximal run of accepted bytes at [i]. *)
Record accepted (str : Z -> Z) (acc : Z -> option bool) (i : Z) (cs : list Z) : Prop := {
  acc_run : Forall (fun c => c <> 0 /\ acc c = Some true) cs;
  acc_at : at_mem str i cs;
  acc_stop : str (i + Z.of_nat (length cs)) = 0 \/ acc (str (i + Z.of_nat (length cs))) = Some false;
}.

Lemma accepted_cons str acc i c cs : accepted str acc i (c :: cs) ->
  str i = c /\ c <> 0 /\ acc c = Some true /\ accepted str acc (i + 1) cs.
Proof.
  intros [Hr Ha Hs]. inversion Hr as [|? ? [Hc Hacc] Hr']; subst. apply at_mem_cons in Ha as [Hc0 Ha].
  split_and!; try done. constructor; try done.
  replace (i + 1 + Z.of_nat (length cs)) with (i + Z.of_nat (length (c :: cs))); [done|].
  cbn [length]. lia.
Qed.

(** How many bytes of a run of [n] a field of width [w] keeps. *)
Definition kept (w : Z) (n : nat) : nat :=
  if w =? 0 then n else Nat.min (Z.to_nat (w - 1)) n.

Lemma copy_loop str acc w p cs : forall i done_ fuel,
  accepted str acc i cs -> 0 <= w -> (w = 0 \/ Z.of_nat (length done_) <= w - 1 \/ (w - 1 < 0 /\ done_ = [])) ->
  (length cs < fuel)%nat ->
  let k := if w =? 0 then length cs else (Z.to_nat (w - 1) - length done_)%nat in
  loop fuel (copy_body str acc w p) (i, Z.of_nat (length done_), byte_stores p done_) =
    Some (Some (i + Z.of_nat (length cs), Z.of_nat (length (done_ ++ take k cs)), byte_stores p (done_ ++ take k cs))).
Proof.
  induction cs as [|c cs IH]; intros i dn [|fuel] Hacc Hw Hk Hf k; subst k; cbn [length] in *; try lia; cbn [loop];
    unfold copy_body at 1.
  - destruct Hacc as [_ _ Hs]. cbn [length] in Hs. rewrite Z.add_0_r, take_nil, app_nil_r in *.
    destruct Hs as [-> | Hs]; [done|]. rewrite Hs. by destruct (str i =? 0).
  - apply accepted_cons in Hacc as (Hc & Hne & Hc1 & Hacc). rewrite Hc, Hc1.
    destruct (Z.eqb_spec c 0); [done|]. destruct (Z.eqb_spec w 0) as [->|Hw0]; cbn [orb].
    + specialize (IH (i + 1) (dn ++ [c]) fuel Hacc Hw ltac:(lia) ltac:(lia)). cbv zeta in IH.
      rewrite byte_stores_snoc, length_app in IH. cbn [length Z.eqb] in IH.
      replace (Z.of_nat (length dn + 1)) with (Z.of_nat (length dn) + 1) in IH by lia.
      rewrite IH. rewrite <- app_assoc, !take_ge by (cbn; lia). cbn [app]. do 3 f_equal. f_equal. lia.
    + destruct (Z.ltb_spec (Z.of_nat (length dn)) (w - 1)).
      * specialize (IH (i + 1) (dn ++ [c]) fuel Hacc Hw). cbv zeta in IH.
        rewrite byte_stores_snoc, length_app in IH. cbn [length] in IH.
        destruct (Z.eqb_spec w 0); [lia|].
        replace (Z.of_nat (length dn + 1)) with (Z.of_nat (length dn) + 1) in IH by lia.
        rewrite IH by lia. replace (Z.to_nat (w - 1) - length dn)%nat with (S (Z.to_nat (w - 1) - (length dn + 1))) by lia.
        cbn [take firstn]. rewrite <- app_assoc. cbn [app]. do 3 f_equal. f_equal. lia.
      * specialize (IH (i + 1) dn fuel Hacc Hw Hk ltac:(lia)). cbv zeta in IH.
        destruct (Z.eqb_spec w 0); [lia|]. rewrite IH.
        replace (Z.to_nat (w - 1) - length dn)%nat with 0%nat by lia. cbn [take firstn].
        do 3 f_equal. f_equal. lia.
Qed.

Lemma copy_field_run str acc w p cs i fuel :
  accepted str acc i cs -> 0 <= w -> (length cs < fuel)%nat ->
  copy_field fuel str acc w p i =
    Some (i + Z.of_nat (length cs), Z.of_nat (kept w (length cs)),
          byte_stores p (take (kept w (length cs)) cs ++ [0])).
Proof.
  intros Hacc Hw Hf. unfold copy_field.
  pose proof (copy_loop str acc w p cs i [] fuel Hacc Hw) as Hl. cbv zeta in Hl.
  cbn [length byte_stores imap app] in Hl. change (Z.of_nat 0) with 0 in Hl.
  rewrite Hl by (done || lia). cbn [mbind option_bind].
  assert (Hk : forall a, take (Nat.min a (length cs)) cs = take a cs).
  { intros a. destruct (Nat.min_spec a (length cs)) as [[_ ->]|[? ->]]; [done|]. by rewrite !take_ge by lia. }
  rewrite byte_stores_snoc, length_take. unfold kept. destruct (Z.eqb_spec w 0) as [->|].
  - by rewrite Nat.min_id, length_take, Nat.min_id.
  - by rewrite Nat.sub_0_r, Hk, length_take.
Qed.

Lemma byte_stores_within p bs w : Z.of_nat (length bs) <= w ->
  Forall (fun st => exists k c, st = StByte (p + k) c /\ 0 <= k < w) (byte_stores p bs).
Proof.
  intros Hl. apply Forall_lookup. intros k st Hk.
  unfold byte_stores in Hk. rewrite list_lookup_imap in Hk.
  destruct (bs !! k) as [c|] eqn:E; [|done]. injection Hk as <-. apply lookup_lt_Some in E.
  exists (Z.of_nat k), c. split; [done|lia].
Qed.

(** C31: [%s] and scan sets consume the whole run of accepted bytes, store its
    first [width - 1] bytes (all of them when no width is given) and a
    terminator, in order, and with a width never store outside
    [dest .. dest + width). *)
Theorem field_stores (str : Z -> Z) (acc : Z -> option bool) (w dest i : Z) (cs : list Z) (fuel : nat) :
  accepted str acc i cs -> 0 <= w -> (length cs < fuel)%nat ->
  let stores := byte_stores dest (take (kept w (length cs)) cs ++ [0]) in
  copy_field fuel str acc w dest i = Some (i + Z.of_nat (length cs), Z.of_nat (kept w (length cs)), stores) /\
  (0 < w -> Forall (fun st => exists k c, st = StByte (dest + k) c /\ 0 <= k < w) stores).
Proof.
  intros Hacc Hw Hf stores. split; [by apply copy_field_run|]. intros Hpos. apply byte_stores_within.
  rewrite length_app, length_take. unfold kept. destruct (Z.eqb_spec w 0); cbn [length]; lia.
Qed.

(** * Termination *)

(** A terminated string, as every loop over it needs: [0 <= i <= n] is kept,
    and only the byte at [n] is zero. *)
Section Terminated.
Context (mem : Z -> Z) (s : list Z) (Hs : cstr mem 0 s).
Abbreviation n := (Z.of_nat (length s)).


Lemma zero_at_end i : 0 <= i <= n -> mem i = 0 -> i = n.
Proof.
  intros Hi Hz. destruct (Z.eq_dec i n); [done|]. destruct Hs as [Hb _].
  destruct (lookup_lt_is_Some_2 s (Z.to_nat i)) as [c Hc]; [lia|].
  destruct (Hb _ _ Hc) as [Hm Hne]. rewrite Z2Nat.id in Hm by lia. rewrite Z.add_0_l in Hm. congruence.
Qed.

End Terminated.

Section Total.
Context (str : Z -> Z) (s : list Z) (Hs : cstr str 0 s) (fuel : nat) (Hfuel : (length s < fuel)%nat).
Abbreviation n := (Z.of_nat (length s)).










End Total.


Section SscanfTotal.
Context (str fmt : Z -> Z) (s f : list Z) (Hs : cstr str 0 s) (Hf : cstr fmt 0 f).
Context (fuel : nat) (Hfs : (length s < fuel)%nat) (Hff : (length f < fuel)%nat).
Context (H31 : 2 ^ 31 <= Z.of_nat fuel).
Abbreviation ns := (Z.of_nat (length s)).
Abbreviation nf := (Z.of_nat (length f)).




















End SscanfTotal.

(** * Reading back what was printed *)

Lemma skipws_run str ws : forall i fuel, Forall (fun c => sc_isws c = true) ws -> at_mem str i ws ->
  sc_isws (str (i + Z.of_nat (length ws))) = false -> (length ws < fuel)%nat ->
  sc_skipws fuel str i = Some (i + Z.of_nat (length ws)).
Proof.
  unfold sc_skipws. induction ws as [|c ws IH]; intros i [|fuel] Hw Ha Hs Hf; cbn [length] in *; try lia; cbn [loop].
  - rewrite Z.add_0_r in *. by rewrite Hs.
  - apply at_mem_cons in Ha as [Hc Ha]. inversion Hw as [|? ? Hw1 Hw2]; subst. rewrite Hw1.
    replace (i + Z.of_nat (S (length ws))) with (i + 1 + Z.of_nat (length ws)) in * by lia.
    apply IH; [done|done|done|lia].
Qed.

Lemma dec_run str i n : 0 <= n -> at_mem str i (dec n) ->
  sc_isdigit (str (i + Z.of_nat (length (dec n)))) = false -> digit_run str 10 i (dec n) (to_digits 10 n).
Proof.
  intros Hn Ha Hs. constructor; [|done|].
  - unfold dec. apply Forall2_fmap_l. pose proof (to_digits_range 10 n ltac:(lia) Hn) as Hr.
    induction Hr as [|d ds Hd _ IH]; constructor; [|done].
    cbv beta in Hd. change (sc_digit 10 (d + 48) = Some d). unfold sc_digit, sc_isdigit. cbn [Z.eqb Pos.eqb andb].
    destruct (Z.leb_spec 48 (d + 48)), (Z.leb_spec (d + 48) 57); cbn [andb]; try lia. f_equal. lia.
  - unfold sc_digit. rewrite Hs. done.
Qed.

(** The format ["%d"]. *)
Definition fmt_d : Z -> Z := mem_of 0 [37; 100].

Lemma parse_fmt_d fuel : parse_directive (S fuel) fmt_d 1 = Some (Some (Directive false 0 100 2)).
Proof. reflexivity. Qed.

(** C16: [sscanf] with ["%d"] reads back every [long] from its decimal numeral,
    [LLONG_MIN] included, after any white space and before anything that is not
    a digit. *)
Theorem sscanf_reads_long (str : Z -> Z) (ws : list Z) (x p : Z) (fuel : nat) :
  LLONG_MIN <= x <= LLONG_MAX -> Forall (fun c => sc_isws c = true) ws ->
  at_mem str 0 (ws ++ decimal x) -> sc_isdigit (str (Z.of_nat (length (ws ++ decimal x)))) = false ->
  (length (ws ++ decimal x) + 2 < fuel)%nat ->
  sscanf fuel str fmt_d [p] = Some (1, [StLong p x]).
Proof.
  intros Hx Hws Ha Hstop Hf. destruct fuel as [|[|fuel]]; [lia|lia|].
  destruct (decimal_shape x) as (sg & neg & m & Ed & Hsg & Hm & Hxm). rewrite Ed in *.
  rewrite !length_app in *. apply at_mem_app in Ha as [Haw Ha]. apply at_mem_app in Ha as [Hasg Ham].
  rewrite Z.add_0_l in *. set (i := Z.of_nat (length ws)) in *.
  assert (Hrun : digit_run str 10 (i + Z.of_nat (length sg)) (dec m) (to_digits 10 m)).
  { apply dec_run; [done|done|]. rewrite <- Hstop. do 2 f_equal. lia. }
  assert (Hne : dec m <> []) by (by apply dec_nonempty).
  assert (Hnw : sc_isws (str i) = false).
  { pose proof Hrun as Hr. destruct (dec m) as [|c cs]; [done|].
    destruct (digit_first _ _ _ _ _ _ Hr) as [Hc Hc2]. destruct Hsg; cbn [length] in Hc.
    - rewrite Z.add_0_r in Hc. rewrite Hc. unfold sc_isws. repeat case_match; try done; lia.
    - by apply at_mem_cons in Hasg as [-> _].
    - by apply at_mem_cons in Hasg as [-> _]. }
  assert (Hconv : step (S (S fuel)) str fmt_d (Sc 0 0 0 [p] []) = Next (Sc 2 (i + Z.of_nat (length sg) + Z.of_nat (length (dec m))) 1 [] [StLong p x])).
  { unfold step. cbn [fi]. change (fmt_d 0) with 37. change (sc_isws 37) with false.
    cbn [Z.eqb Pos.eqb negb]. change (0 + 1) with 1. rewrite parse_fmt_d. unfold convert. cbn [conv Z.eqb Pos.eqb].
    unfold conv_int. cbn [si with_fi].
    rewrite (skipws_run str ws 0) by (done || rewrite ?Z.add_0_l; done || lia). rewrite Z.add_0_l.
    cbn [mbind option_bind]. fold i.
    rewrite (scan_int_signed str i sg neg (dec m) (to_digits 10 m)) by (done || lia).
    cbn [negb suppress]. unfold assign. cbn [ap with_si with_fi dir_end fi si count out app].
    rewrite to_digits_value, <- Hxm by lia. unfold clamp64. do 3 f_equal. f_equal. lia. }
  unfold sscanf. cbn [loop]. unfold main_body at 1. change (fmt_d (fi (Sc 0 0 0 [p] [])) =? 0) with false.
  cbn iota. rewrite Hconv. reflexivity.
Qed.

(** The field width of [%s] limits what is stored but not what is consumed,
    and other conversions ignore it: ["%3s%s"] on ["abcdef gh"] stores ["ab"]
    and ["gh"] (not ["abc"] and ["def"]), and ["%2d"] on ["1234"] reads 1234. *)
Theorem width_does_not_split :
  sscanf 40 (mem_of 0 [97; 98; 99; 100; 101; 102; 32; 103; 104])
            (mem_of 0 [37; 51; 115; 37; 115]) [1000; 2000] =
    Some (2, [StByte 1000 97; StByte 1001 98; StByte 1002 0;
              StByte 2000 103; StByte 2001 104; StByte 2002 0]) /\
  sscanf 40 (mem_of 0 [49; 50; 51; 52]) (mem_of 0 [37; 50; 100]) [1000] = Some (1, [StLong 1000 1234]).
Proof. vm_compute. split; reflexivity. Qed.

(** * The theorems at concrete inputs *)

(** A three-byte word in a field of width 3: two bytes and the terminator. *)
Lemma field_stores_witness :
  copy_field 9 (mem_of 0 [97; 98; 99]) not_ws 3 1000 0 =
    Some (3, 2, [StByte 1000 97; StByte 1001 98; StByte 1002 0]).
Proof.
  refine (proj1 (field_stores (mem_of 0 [97; 98; 99]) not_ws 3 1000 0 [97; 98; 99] 9 _ _ _)); [|lia|cbn; lia].
  split; [by repeat constructor|by intros [|[|[|]]] c [= <-]|by left].
Defined.


Lemma sscanf_reads_long_witness :
  sscanf 30 (mem_of 0 ([32] ++ decimal LLONG_MIN)) fmt_d [1000] = Some (1, [StLong 1000 LLONG_MIN]).
Proof.
  refine (sscanf_reads_long (mem_of 0 ([32] ++ decimal LLONG_MIN)) [32] LLONG_MIN 1000 30 _ _ _ _ _).
  - split; vm_compute; discriminate.
  - by repeat constructor.
  - apply (at_mem_app _ _ _ [0]), cstr_at_mem, cstr_mem_of. vm_compute. by repeat constructor.
  - reflexivity.
  - vm_compute. lia.
Defined.
