(* ===== verification/Setjmp.v ===== *)
(** [src/libc/setjmp_arm64.s]: [setjmp] and [longjmp] on an AArch64 machine.

    The machine has the 31 general registers, the stack pointer and a memory of
    64-bit words (the 8-byte slots of [jmp_buf]); the two routines are the
    instruction lists of the source.  [RET] continues at the link register. *)
From S2P Require Import Prelude.

(** ** The machine *)

Record machine := Machine { reg : Z -> Z; sp : Z; word : Z -> Z; pc : option Z }.

(** Update of one register or one word of memory. *)
Definition upd (f : Z -> Z) (k v : Z) : Z -> Z := fun x => if x =? k then v else f x.

Inductive insn :=
| STP (r1 r2 off base : Z)       (** store the pair at [off + base] *)
| LDP (off base r1 r2 : Z)       (** load the pair *)
| STR (r off base : Z)
| LDR (off base r : Z)
| MOV (src dst : Z)
| MOVI (imm dst : Z)
| MOV_from_SP (dst : Z)
| MOV_to_SP (src : Z)
| CBNZ (r : Z) (skip : nat)      (** skip that many instructions when not zero *)
| RET.

Definition set_reg (m : machine) (r v : Z) : machine := Machine (upd (reg m) r v) (sp m) (word m) (pc m).
Definition set_word (m : machine) (a v : Z) : machine := Machine (reg m) (sp m) (upd (word m) a v) (pc m).

(** One instruction: the new state and how many instructions to skip. *)
Definition exec (i : insn) (m : machine) : machine * nat :=
  match i with
  | STP r1 r2 off base =>
      let a := reg m base + off in
      (set_word (set_word m a (reg m r1)) (a + 8) (reg m r2), 0%nat)
  | LDP off base r1 r2 =>
      let a := reg m base + off in
      (set_reg (set_reg m r1 (word m a)) r2 (word m (a + 8)), 0%nat)
  | STR r off base => (set_word m (reg m base + off) (reg m r), 0%nat)
  | LDR off base r => (set_reg m r (word m (reg m base + off)), 0%nat)
  | MOV src dst => (set_reg m dst (reg m src), 0%nat)
  | MOVI imm dst => (set_reg m dst imm, 0%nat)
  | MOV_from_SP dst => (set_reg m dst (sp m), 0%nat)
  | MOV_to_SP src => (Machine (reg m) (reg m src) (word m) (pc m), 0%nat)
  | CBNZ r skip => (m, if reg m r =? 0 then 0%nat else skip)
  | RET => (Machine (reg m) (sp m) (word m) (Some (reg m 30)), 0%nat)
  end.

(** Straight-line execution with forward skips, up to [RET]. *)
Fixpoint run (code : list insn) (skip : nat) (m : machine) : machine :=
  match code with
  | [] => m
  | i :: code =>
      match skip with
      | S skip => run code skip m
      | O =>
          let '(m', skip) := exec i m in
          match pc m' with
          | Some _ => m'
          | None => run code skip m'
          end
      end
  end.

(** ** The routines *)

Definition setjmp : list insn := [
  STP 19 20 0 0;
  STP 21 22 16 0;
  STP 23 24 32 0;
  STP 25 26 48 0;
  STP 27 28 64 0;
  STP 29 30 80 0;
  MOV_from_SP 1;
  STR 1 96 0;
  MOVI 0 0;
  RET
].

Definition longjmp : list insn := [
  MOV 0 3;
  MOV 1 2;
  LDP 0 3 19 20;
  LDP 16 3 21 22;
  LDP 32 3 23 24;
  LDP 48 3 25 26;
  LDP 64 3 27 28;
  LDP 80 3 29 30;
  LDR 96 3 1;
  MOV_to_SP 1;
  CBNZ 2 1;
  MOVI 1 2;
  (* setjmp_done: *)
  MOV 2 0;
  RET
].

(** ** The contract *)

(** The words of [jmp_buf] the routines use: slots 0 to 12. *)
Definition same_env (env : Z) (w1 w2 : Z -> Z) : Prop :=
  forall k, 0 <= k <= 12 -> w1 (env + 8 * k) = w2 (env + 8 * k).

Definition env_slot (m : machine) (k : Z) : Z := if k =? 12 then sp m else reg m (19 + k).

(** What [setjmp] leaves: slot [k] holds register 19 + [k], slot 12 the stack
    pointer; it returns 0 and touches nothing else the caller can rely on. *)
Lemma setjmp_saves m : pc m = None ->
  let m' := run setjmp 0 m in
  reg m' 0 = 0 /\ pc m' = Some (reg m 30) /\ sp m' = sp m /\
  (forall r, 2 <= r -> reg m' r = reg m r) /\
  (forall k, 0 <= k <= 12 -> word m' (reg m 0 + 8 * k) = env_slot m k) /\
  (forall a, a < reg m 0 \/ reg m 0 + 104 <= a -> word m' a = word m a).
Proof.
  destruct m as [rg s w p]. cbn [pc]. intros ->. cbn -[Z.add Z.mul]. split_and!; try done.
  - intros r Hr. unfold upd. destruct (Z.eqb_spec r 0), (Z.eqb_spec r 1); done || lia.
  - intros k Hk. unfold upd, env_slot. cbn [sp reg].
    assert (Hcases : k = 0 \/ k = 1 \/ k = 2 \/ k = 3 \/ k = 4 \/ k = 5 \/ k = 6 \/ k = 7 \/ k = 8 \/
      k = 9 \/ k = 10 \/ k = 11 \/ k = 12) by lia.
    repeat match type of Hcases with _ \/ _ => destruct Hcases as [Hcases|Hcases] end; subst k;
      cbn [Z.mul Z.add Pos.mul Pos.add Z.eqb Pos.eqb];
      repeat match goal with |- context [?a =? ?b] => destruct (Z.eqb_spec a b); try lia end; done.
  - intros a Ha. unfold upd.
    repeat match goal with |- context [?a =? ?b] => destruct (Z.eqb_spec a b); try lia end.
Qed.

(** What [longjmp] restores from slots it finds. *)
Lemma longjmp_restores m : pc m = None ->
  let m' := run longjmp 0 m in
  let env := reg m 0 in
  reg m' 0 = (if reg m 1 =? 0 then 1 else reg m 1) /\ pc m' = Some (word m (env + 88)) /\
  sp m' = word m (env + 96) /\ (forall k, 0 <= k <= 11 -> reg m' (19 + k) = word m (env + 8 * k)) /\
  word m' = word m.
Proof.
  destruct m as [rg s w p]. cbn [pc]. intros ->. cbn -[Z.add Z.mul].
  destruct (Z.eqb_spec (rg 1) 0) as [E|E]; cbn -[Z.add Z.mul]; split_and!; try done;
    try (do 2 f_equal; lia).
  all: intros k Hk;
    assert (Hcases : k = 0 \/ k = 1 \/ k = 2 \/ k = 3 \/ k = 4 \/ k = 5 \/ k = 6 \/ k = 7 \/ k = 8 \/
      k = 9 \/ k = 10 \/ k = 11) by lia;
    repeat match type of Hcases with _ \/ _ => destruct Hcases as [Hcases|Hcases] end; subst k; cbn; unfold upd; cbn; f_equal; lia.
Qed.

(** C17: control comes back to the caller of [setjmp].  If [setjmp(env)] runs in
    state [m] and later, from any state whose [env] words are still as [setjmp]
    left them, [longjmp(env, val)] runs, then execution continues at the return
    address of the [setjmp] call with its stack pointer and all callee-saved
    registers X19 to X30, and with [val] (or 1 when [val] is 0) as the value
    [setjmp] appears to return; the first return gave 0. *)
Theorem longjmp_resumes_setjmp (m later : machine) (val : Z) :
  pc m = None -> pc later = None -> reg later 0 = reg m 0 -> reg later 1 = val ->
  same_env (reg m 0) (word (run setjmp 0 m)) (word later) ->
  let first := run setjmp 0 m in
  let m' := run longjmp 0 later in
  reg first 0 = 0 /\ reg m' 0 = (if val =? 0 then 1 else val) /\ reg m' 0 <> 0 /\
  pc m' = pc first /\ sp m' = sp m /\
  (forall r, 19 <= r <= 30 -> reg m' r = reg m r) /\ word m' = word later.
Proof.
  intros Hm Hl Henv Hval Hsame first m'.
  destruct (setjmp_saves m Hm) as (H0 & Hpc & _ & _ & Hslots & _).
  destruct (longjmp_restores later Hl) as (R0 & Rpc & Rsp & Rregs & Rword).
  assert (Hw : forall k, 0 <= k <= 12 -> word later (reg later 0 + 8 * k) = env_slot m k).
  { intros k Hk. rewrite Henv, <- (Hsame k Hk). by apply Hslots. }
  split_and!; try done.
  - by rewrite <- Hval.
  - fold m' in R0. rewrite R0, Hval. destruct (Z.eqb_spec val 0); lia.
  - fold m' in Rpc. rewrite Rpc. subst first. rewrite Hpc. f_equal. by apply (Hw 11).
  - fold m' in Rsp. rewrite Rsp. by apply (Hw 12).
  - intros r Hr. replace r with (19 + (r - 19)) by lia. fold m' in Rregs. rewrite Rregs, Hw by lia.
    unfold env_slot. destruct (Z.eqb_spec (r - 19) 12); [lia|done].
Qed.

Definition demo : machine := Machine (fun r => 100 + r) 4096 (fun _ => 0) None.

Definition demo_later (w : Z -> Z) : machine :=
  Machine (fun r => if r =? 0 then 100 else if r =? 1 then 0 else 7) 64 w None.

Lemma demo_later_env w : same_env (reg demo 0) w (word (demo_later w)).
Proof. intros k _. reflexivity. Qed.

Lemma longjmp_resumes_setjmp_witness :
  let later := demo_later (word (run setjmp 0 demo)) in
  let m' := run longjmp 0 later in
  reg (run setjmp 0 demo) 0 = 0 /\ reg m' 0 = 1 /\ reg m' 0 <> 0 /\ pc m' = pc (run setjmp 0 demo) /\
  sp m' = sp demo /\ (forall r, 19 <= r <= 30 -> reg m' r = reg demo r) /\ word m' = word later.
Proof.
  exact (longjmp_resumes_setjmp demo (demo_later (word (run setjmp 0 demo))) 0 eq_refl eq_refl eq_refl eq_refl
    (demo_later_env (word (run setjmp 0 demo)))).
Defined.
