(* ===== verification/Digits.v ===== *)
(** Arrays of mpz digits (third-party/micropython, py/mpz.h): the digit
    types at MPZ_DIG_SIZE = 16, the value of a digit array, reads and
    writes through pointers that may share memory, and the rules for the
    loops that walk digit arrays upwards and downwards. *)
From S2P Require Import Prelude.

(** * Digit types *)

Definition DIG_SIZE : Z := 16.
Definition DIG_MASK : Z := 65535.
Definition DIG_MSB : Z := 32768.
Definition DIG_BASE : Z := 65536.

Definition is_dig (d : Z) : Prop := 0 <= d < DIG_BASE.

(** The value of an array, least significant digit first. *)
Fixpoint dval (l : list Z) : Z :=
  match l with
  | [] => 0
  | d :: l => d + DIG_BASE * dval l
  end.

(** [bpow n] is the weight of digit [n]. *)
Definition bpow (n : nat) : Z := DIG_BASE ^ Z.of_nat n.

Lemma bpow_S n : bpow (S n) = DIG_BASE * bpow n.
Proof. unfold bpow. rewrite Nat2Z.inj_succ, Z.pow_succ_r; lia. Qed.

Lemma bpow_add n m : bpow (n + m) = bpow n * bpow m.
Proof. unfold bpow. rewrite Nat2Z.inj_add, Z.pow_add_r; lia. Qed.

Lemma bpow_pos n : 0 < bpow n.
Proof. unfold bpow, DIG_BASE. lia. Qed.

Lemma bpow_0 : bpow 0 = 1.
Proof. done. Qed.

Lemma bpow_1 : bpow 1 = DIG_BASE.
Proof. done. Qed.

Lemma bpow_2 n : bpow n = 2 ^ (16 * Z.of_nat n).
Proof. unfold bpow, DIG_BASE. rewrite Z.pow_mul_r by lia. done. Qed.

Lemma bpow_le n m : (n <= m)%nat -> bpow n <= bpow m.
Proof. intros. unfold bpow. apply Z.pow_le_mono_r; unfold DIG_BASE; lia. Qed.

Lemma dval_app l1 l2 : dval (l1 ++ l2) = dval l1 + bpow (length l1) * dval l2.
Proof.
  induction l1 as [|d l1 IH]; cbn [dval app length].
  - rewrite bpow_0. lia.
  - rewrite IH, bpow_S. lia.
Qed.

Lemma dval_bounds l : Forall is_dig l -> 0 <= dval l < bpow (length l).
Proof.
  induction 1 as [|d l Hd _ IH]; cbn [dval length].
  - rewrite bpow_0. lia.
  - rewrite bpow_S. unfold is_dig, DIG_BASE in *. lia.
Qed.

Lemma dval_replicate n : dval (replicate n 0) = 0.
Proof. induction n as [|n IH]; cbn [dval replicate]; [done|]. rewrite IH. lia. Qed.

Lemma dval_zeros l : Forall (fun d => d = 0) l -> dval l = 0.
Proof. induction 1 as [|d l -> _ IH]; cbn [dval]; lia. Qed.

Lemma dval_zero l : Forall is_dig l -> dval l = 0 -> Forall (fun d => d = 0) l.
Proof.
  induction 1 as [|d l Hd Hl IH]; cbn [dval]; intros H; [done|].
  pose proof (dval_bounds l Hl). unfold is_dig, DIG_BASE in *.
  constructor; [lia|]. apply IH. lia.
Qed.

(** * Normalised arrays: no leading zero digit *)

Definition normal (l : list Z) : Prop := list.last l <> Some 0.

Lemma normal_nil : normal [].
Proof. done. Qed.

Lemma normal_snoc l d : normal (l ++ [d]) <-> d <> 0.
Proof. unfold normal. rewrite last_snoc. naive_solver. Qed.

Lemma normal_lower l : Forall is_dig l -> normal l -> l <> [] -> bpow (pred (length l)) <= dval l.
Proof.
  intros Hl Hn Hne. destruct l as [|d l _] using rev_ind; [done|].
  apply Forall_app in Hl as [Hl Hd]. apply Forall_inv in Hd.
  apply normal_snoc in Hn. rewrite dval_app, length_app. cbn [length dval].
  replace (pred (length l + 1)) with (length l) by lia.
  pose proof (dval_bounds l Hl). pose proof (bpow_pos (length l)).
  unfold is_dig in Hd. assert (1 <= d) by lia. rewrite Z.mul_0_r, Z.add_0_r. nia.
Qed.

Lemma normal_of_lower l :
  Forall is_dig l -> (l = [] \/ bpow (pred (length l)) <= dval l) -> normal l.
Proof.
  intros Hl H. destruct l as [|d l _] using rev_ind; [done|].
  destruct H as [H|H]; [by destruct l|].
  apply normal_snoc. intros ->. apply Forall_app in Hl as [Hl _].
  rewrite dval_app, length_app in H. cbn [length dval] in H.
  replace (pred (length l + 1)) with (length l) in H by lia.
  pose proof (dval_bounds l Hl). lia.
Qed.

Lemma normal_zero l : Forall is_dig l -> normal l -> dval l = 0 <-> l = [].
Proof.
  intros Hl Hn. split; [|by intros ->]. intros H0.
  destruct (decide (l = [])) as [|Hne]; [done|].
  pose proof (normal_lower l Hl Hn Hne). pose proof (bpow_pos (pred (length l))). lia.
Qed.

(** A longer normalised array has the greater value. *)
Lemma normal_longer l1 l2 :
  Forall is_dig l1 -> Forall is_dig l2 -> normal l2 -> (length l1 < length l2)%nat ->
  dval l1 < dval l2.
Proof.
  intros H1 H2 Hn Hlen. pose proof (dval_bounds l1 H1).
  pose proof (normal_lower l2 H2 Hn ltac:(by intros ->; simpl in Hlen; lia)).
  pose proof (bpow_le (length l1) (pred (length l2)) ltac:(lia)). lia.
Qed.

(** * Pointers

    A destination is the list of the digits of its buffer.  A source operand
    is a buffer of its own or the destination buffer itself (the routines
    allow their pointers to be equal).  A read or write outside the buffer
    is undefined behaviour: [None]. *)

Inductive operand := Self | Buf (l : list Z).

Definition contents (o : operand) (dst : list Z) : list Z :=
  match o with
  | Self => dst
  | Buf l => l
  end.

Definition get (o : operand) (dst : list Z) (i : nat) : option Z := contents o dst !! i.

(** A store to an mpz_dig_t keeps its low 16 bits. *)
Definition put (dst : list Z) (i : nat) (v : Z) : option (list Z) :=
  if decide (i < length dst)%nat then Some (<[i := u16 v]> dst) else None.

(** memset(dst, 0, n digits) *)
Definition clear (dst : list Z) (n : nat) : option (list Z) :=
  if decide (n <= length dst)%nat then Some (replicate n 0 ++ drop n dst) else None.

(** memcpy(dst, src, n digits) *)
Definition copy (dst src : list Z) (n : nat) : option (list Z) :=
  if decide (n <= length dst /\ n <= length src)%nat then Some (take n src ++ drop n dst) else None.

Lemma get_later o dst dst0 p q :
  drop p dst = drop p dst0 -> (p <= q)%nat -> get o dst q = get o dst0 q.
Proof.
  intros Hd Hq. destruct o as [|l]; [|done]. unfold get. cbn [contents].
  replace q with (p + (q - p))%nat by lia. by rewrite <- !lookup_drop, Hd.
Qed.

Lemma get_earlier o dst dst0 p q :
  take p dst = take p dst0 -> (q < p)%nat -> get o dst q = get o dst0 q.
Proof.
  intros Hd Hq. destruct o as [|l]; [|done]. unfold get. cbn [contents].
  by rewrite <- (lookup_take_lt dst p), <- (lookup_take_lt dst0 p), Hd by lia.
Qed.

Lemma put_some dst i v : is_dig v -> (i < length dst)%nat -> put dst i v = Some (<[i := v]> dst).
Proof.
  intros Hv Hi. unfold put. rewrite decide_True by done.
  by rewrite wrapU_small by (unfold is_dig, DIG_BASE in Hv; lia).
Qed.

Lemma dval_take_bounds l p : Forall is_dig l -> 0 <= dval (take p l) < bpow p.
Proof.
  intros Hd. pose proof (dval_bounds (take p l) (Forall_take _ _ _ Hd)) as H.
  pose proof (bpow_le (length (take p l)) p ltac:(rewrite length_take; lia)). lia.
Qed.

Lemma dval_take_S l p d : l !! p = Some d -> dval (take (S p) l) = dval (take p l) + bpow p * d.
Proof.
  intros Hl. rewrite (take_S_r _ _ _ Hl), dval_app. cbn [dval].
  apply lookup_lt_Some in Hl. rewrite length_take_le by lia. lia.
Qed.

(** * Loops over digits

    [digits_up step n p s dst] is the loop that, [n] times, computes a digit
    and a new local state from the memory, stores the digit at index [p] and
    increments the pointers; [digits_down lo n s dst] is the same with the pointers
    going down from index [lo + n - 1] to [lo]. *)

Section loops.
  Context {S : Type} (step : nat -> list Z -> S -> option (Z * S)).

Fixpoint digits_up (n p : nat) (s : S) (dst : list Z) : option (S * list Z) :=
  match n with
  | O => Some (s, dst)
  | Datatypes.S n =>
      '(d, s) ← step p dst s;
      dst ← put dst p d;
      digits_up n (Datatypes.S p) s dst
  end.

Fixpoint digits_down (lo n : nat) (s : S) (dst : list Z) : option (S * list Z) :=
  match n with
  | O => Some (s, dst)
  | Datatypes.S n =>
      '(d, s) ← step (lo + n)%nat dst s;
      dst ← put dst (lo + n) d;
      digits_down lo n s dst
  end.

  (** Total correctness of the upward loop: every step stores a digit and
      keeps the invariant [I p v s], where [v] is the value of the first [p]
      digits; the digits not yet reached are still those of [dst0], the
      buffer as it was when the routine began. *)
Lemma digits_up_rule (I : nat -> Z -> S -> Prop) (dst0 : list Z) n p0 s0 dst1 :
    (p0 + n <= length dst0)%nat -> length dst1 = length dst0 -> Forall is_dig dst1 ->
    drop p0 dst1 = drop p0 dst0 -> I p0 (dval (take p0 dst1)) s0 ->
    (forall p v s dst, (p0 <= p < p0 + n)%nat -> length dst = length dst0 ->
       drop p dst = drop p dst0 -> 0 <= v < bpow p -> I p v s ->
       exists d s', step p dst s = Some (d, s') /\ is_dig d /\ I (Datatypes.S p) (v + bpow p * d) s') ->
    exists s' dst2, digits_up n p0 s0 dst1 = Some (s', dst2) /\
      length dst2 = length dst0 /\ Forall is_dig dst2 /\
      drop (p0 + n) dst2 = drop (p0 + n) dst0 /\ I (p0 + n)%nat (dval (take (p0 + n) dst2)) s'.
Proof.
    revert p0 s0 dst1. induction n as [|n IH]; intros p0 s0 dst1 Hlen Hl Hd Hdrop HI Hstep.
    { rewrite Nat.add_0_r. exists s0, dst1. auto. }
    destruct (Hstep p0 (dval (take p0 dst1)) s0 dst1) as (d & s' & Hs & Hdd & HI');
      [lia|done|done|by apply dval_take_bounds|done|].
    cbn [digits_up]. rewrite Hs. cbn [mbind option_bind]. rewrite put_some by (done || lia).
    cbn [mbind option_bind].
    assert (Hlook : <[p0 := d]> dst1 !! p0 = Some d) by (apply list_lookup_insert_eq; lia).
    destruct (IH (Datatypes.S p0) s' (<[p0 := d]> dst1)) as (s2 & dst2 & ? & ? & ? & H1 & H2).
    - lia.
    - by rewrite length_insert.
    - by apply Forall_insert.
    - rewrite drop_insert_lt by lia. pose proof (drop_drop dst1 1 p0) as E1.
      pose proof (drop_drop dst0 1 p0) as E2. rewrite Nat.add_1_r in *. congruence.
    - rewrite (dval_take_S _ _ _ Hlook), take_insert_ge by lia. done.
    - intros. apply Hstep; try done. lia.
    - replace (Datatypes.S p0 + n)%nat with (p0 + Datatypes.S n)%nat in * by lia. eauto 10.
Qed.

  (** The downward loop: [I p v s], where [v] is the value of the digits
      stored so far, those from [p] to [top]; the digits below are still
      those of [dst0]. *)
Lemma digits_down_rule (I : nat -> Z -> S -> Prop) (dst0 : list Z) top lo n s0 dst1 :
    (lo + n <= top <= length dst0)%nat -> length dst1 = length dst0 -> Forall is_dig dst1 ->
    take (lo + n) dst1 = take (lo + n) dst0 ->
    I (lo + n)%nat (dval (drop (lo + n) (take top dst1))) s0 ->
    (forall p v s dst, (lo <= p < lo + n)%nat -> length dst = length dst0 ->
       take (Datatypes.S p) dst = take (Datatypes.S p) dst0 -> I (Datatypes.S p) v s ->
       exists d s', step p dst s = Some (d, s') /\ is_dig d /\ I p (d + DIG_BASE * v) s') ->
    exists s' dst2, digits_down lo n s0 dst1 = Some (s', dst2) /\
      length dst2 = length dst0 /\ Forall is_dig dst2 /\
      take lo dst2 = take lo dst0 /\ drop (lo + n) dst2 = drop (lo + n) dst1 /\
      I lo (dval (drop lo (take top dst2))) s'.
Proof.
    revert s0 dst1. induction n as [|n IH]; intros s0 dst1 Hlen Hl Hd Htake HI Hstep.
    { rewrite Nat.add_0_r in *. exists s0, dst1. auto 10. }
    replace (lo + Datatypes.S n)%nat with (Datatypes.S (lo + n)) in * by lia.
    destruct (Hstep (lo + n)%nat (dval (drop (Datatypes.S (lo + n)) (take top dst1))) s0 dst1)
      as (d & s' & Hs & Hdd & HI'); [lia|done|done|done|].
    cbn [digits_down]. rewrite Hs. cbn [mbind option_bind]. rewrite put_some by (done || lia).
    cbn [mbind option_bind].
    assert (Hlook : take top (<[(lo + n)%nat := d]> dst1) !! (lo + n)%nat = Some d).
    { rewrite lookup_take_lt by lia. apply list_lookup_insert_eq. lia. }
    destruct (IH s' (<[(lo + n)%nat := d]> dst1)) as (s2 & dst2 & ? & ? & ? & ? & H1 & H2).
    - lia.
    - by rewrite length_insert.
    - by apply Forall_insert.
    - rewrite take_insert_ge by lia. rewrite <- (Nat.min_l (lo + n) (Datatypes.S (lo + n))) by lia.
      by rewrite <- !take_take, Htake.
    - rewrite (drop_S _ _ _ Hlook). cbn [dval].
      rewrite take_insert_lt by lia. rewrite drop_insert_lt by lia. done.
    - intros. apply Hstep; try done. lia.
    - exists s2, dst2. split_and!; try done.
      pose proof (drop_drop dst2 1 (lo + n)) as E. rewrite Nat.add_1_r in E.
      rewrite <- E, H1, drop_drop, Nat.add_1_r. by apply drop_insert_lt; lia.
Qed.
End loops.

(** * Digits as quotients and remainders of the value *)

Lemma dval_take_mod l p : Forall is_dig l -> dval (take p l) = dval l mod bpow p.
Proof.
  intros Hd. destruct (decide (length l <= p)%nat) as [Hp|Hp].
  - rewrite firstn_all2 by done. symmetry. apply Z.mod_small.
    pose proof (dval_bounds l Hd). pose proof (bpow_le _ _ Hp). lia.
  - rewrite <- (take_drop p l) at 2. rewrite dval_app, length_take_le by lia.
    rewrite Z.mul_comm, Z.mod_add by (pose proof (bpow_pos p); lia).
    symmetry. apply Z.mod_small. by apply dval_take_bounds.
Qed.

Lemma dval_drop_div l p : Forall is_dig l -> dval (drop p l) = dval l / bpow p.
Proof.
  intros Hd. destruct (decide (length l <= p)%nat) as [Hp|Hp].
  - rewrite drop_ge by done. symmetry. apply Z.div_small.
    pose proof (dval_bounds l Hd). pose proof (bpow_le _ _ Hp). lia.
  - rewrite <- (take_drop p l) at 2. rewrite dval_app, length_take_le by lia.
    rewrite Z.mul_comm, Z.div_add by (pose proof (bpow_pos p); lia).
    rewrite Z.div_small; [lia|]. by apply dval_take_bounds.
Qed.

Lemma dval_digit l p d : Forall is_dig l -> l !! p = Some d -> d = dval l / bpow p mod DIG_BASE.
Proof.
  intros Hd Hl. rewrite <- dval_drop_div by done. rewrite (drop_S _ _ _ Hl). cbn [dval].
  rewrite Z.mul_comm, Z.mod_add by done. symmetry. apply Z.mod_small.
  apply (Forall_lookup_1 _ _ _ _ Hd Hl).
Qed.

(** The next digit of a value, upwards. *)
Lemma mod_bpow_S v p : v mod bpow (S p) = v mod bpow p + bpow p * (v / bpow p mod DIG_BASE).
Proof.
  pose proof (bpow_pos p). rewrite bpow_S, Z.mul_comm. apply Z.rem_mul_r; unfold DIG_BASE; lia.
Qed.

Lemma div_bpow_S v p : v / bpow (S p) = v / bpow p / DIG_BASE.
Proof.
  pose proof (bpow_pos p). rewrite bpow_S, Z.mul_comm. symmetry. apply Z.div_div; unfold DIG_BASE; lia.
Qed.

(** * Bitwise operations, digit by digit *)

(** [op] combines corresponding bits with [f]. *)
Definition bitwise (op : Z -> Z -> Z) (f : bool -> bool -> bool) : Prop :=
  forall a b i, 0 <= i -> Z.testbit (op a b) i = f (Z.testbit a i) (Z.testbit b i).

Lemma land_bitwise : bitwise Z.land andb.
Proof. intros a b i _. apply Z.land_spec. Qed.
Lemma lor_bitwise : bitwise Z.lor orb.
Proof. intros a b i _. apply Z.lor_spec. Qed.
Lemma lxor_bitwise : bitwise Z.lxor xorb.
Proof. intros a b i _. apply Z.lxor_spec. Qed.

Lemma bitwise_mod op f n a b : 0 <= n -> f false false = false -> bitwise op f ->
  op a b mod 2 ^ n = op (a mod 2 ^ n) (b mod 2 ^ n).
Proof.
  intros Hn Hf Hop. apply Z.bits_inj'. intros i Hi. rewrite Hop by done.
  destruct (Z.ltb_spec i n).
  - by rewrite !Z.mod_pow2_bits_low, Hop by lia.
  - by rewrite !Z.mod_pow2_bits_high, Hf by lia.
Qed.

Lemma bitwise_div op f n a b : 0 <= n -> bitwise op f ->
  op a b / 2 ^ n = op (a / 2 ^ n) (b / 2 ^ n).
Proof.
  intros Hn Hop. apply Z.bits_inj'. intros i Hi.
  by rewrite Hop, <- !Z.shiftr_div_pow2, !Z.shiftr_spec, Hop by lia.
Qed.

(** Digit [p] of [op a b], from the digits of [a] and [b]. *)
Lemma bitwise_digit op f p a b : f false false = false -> bitwise op f ->
  op a b / bpow p mod DIG_BASE = op (a / bpow p mod DIG_BASE) (b / bpow p mod DIG_BASE).
Proof.
  intros Hf Hop. rewrite bpow_2. change DIG_BASE with (2 ^ 16).
  by rewrite (bitwise_div op f), (bitwise_mod op f) by (done || lia).
Qed.

(** The operations stay within the range of their operands. *)
Lemma bitwise_range op f n a b : 0 <= n -> f false false = false -> bitwise op f ->
  - 2 ^ n <= a < 2 ^ n -> - 2 ^ n <= b < 2 ^ n -> - 2 ^ n <= op a b < 2 ^ n.
Proof.
  intros Hn Hf Hop Ha Hb.
  assert (H : forall x, - 2 ^ n <= x < 2 ^ n <-> x / 2 ^ n = 0 \/ x / 2 ^ n = -1).
  { intros x. assert (0 < 2 ^ n) by lia. pose proof (Z.div_mod x (2 ^ n) ltac:(lia)) as E.
    pose proof (Z.mod_pos_bound x (2 ^ n) ltac:(lia)). split.
    - intros Hx. assert (-2 < x / 2 ^ n < 1) by nia. lia.
    - intros [E' | E']; rewrite E' in E; lia. }
  apply H in Ha, Hb. apply H. rewrite (bitwise_div op f) by done.
  assert (H0 : op 0 0 = 0).
  { apply Z.bits_inj'. intros i Hi. by rewrite Hop, !Z.bits_0, Hf by done. }
  assert (Hc : forall x y, (x = 0 \/ x = -1) -> (y = 0 \/ y = -1) -> op x y = 0 \/ op x y = -1).
  { intros x y Hx Hy.
    assert (Hcst : forall i, 0 <= i -> Z.testbit (op x y) i = f (x =? -1) (y =? -1)).
    { intros i Hi. rewrite Hop by done.
      destruct Hx as [-> | ->], Hy as [-> | ->]; by rewrite ?Z.bits_0, ?Z.bits_m1 by done. }
    destruct (f (x =? -1) (y =? -1)); [right|left]; apply Z.bits_inj'; intros i Hi;
      by rewrite Hcst, ?Z.bits_0, ?Z.bits_m1 by done. }
  by apply Hc.
Qed.

Lemma lor_disjoint a b : 0 <= b < DIG_BASE -> Z.lor b (a * DIG_BASE) = a * DIG_BASE + b.
Proof. intros Hb. rewrite Z.lor_comm. apply (lor_low 16); [lia|done]. Qed.

(** * Results

    A routine leaves in the destination an array whose first [n] digits are
    normalised and have the value [v]; the buffer keeps its size. *)

Definition result (size : nat) (dst : list Z) (n : nat) (v : Z) : Prop :=
  length dst = size /\ Forall is_dig dst /\ (n <= size)%nat /\
  dval (take n dst) = v /\ normal (take n dst).

(** An operand of [len] digits with value [v]. *)
Definition holds (l : list Z) (len : nat) (v : Z) : Prop :=
  (len <= length l)%nat /\ Forall is_dig l /\ dval (take len l) = v.

Lemma holds_bounds l len v : holds l len v -> 0 <= v < bpow len.
Proof.
  intros (Hl & Hd & <-). pose proof (dval_bounds (take len l) (Forall_take _ _ _ Hd)) as H.
  by rewrite length_take_le in H by done.
Qed.

Lemma holds_lookup l len v p : holds l len v -> (p < len)%nat ->
  l !! p = Some (v / bpow p mod DIG_BASE).
Proof.
  intros (Hl & Hd & <-) Hp. destruct (lookup_lt_is_Some_2 l p ltac:(lia)) as [d Hlook].
  rewrite Hlook. f_equal. apply (dval_digit (take len l)); [by apply Forall_take|].
  by rewrite lookup_take_lt.
Qed.

(** Its digit [p] splits its value. *)
Lemma holds_digit l len v p : holds l len v -> (p < len)%nat ->
  exists d, l !! p = Some d /\ is_dig d /\
    dval (take (S p) l) = dval (take p l) + bpow p * d.
Proof.
  intros (Hl & Hd & _) Hp. destruct (lookup_lt_is_Some_2 l p ltac:(lia)) as [d Hlook].
  exists d. split; [done|]. split; [by apply (Forall_lookup_1 _ _ _ _ Hd Hlook)|].
  rewrite (take_S_r _ _ _ Hlook), dval_app, length_take_le by lia. cbn [dval]. lia.
Qed.

Lemma is_dig_land c : is_dig (Z.land c DIG_MASK).
Proof.
  unfold DIG_MASK. change 65535 with (Z.ones 16). rewrite Z.land_ones by lia.
  unfold is_dig, DIG_BASE. apply Z.mod_pos_bound. lia.
Qed.

Lemma land_mask c : Z.land c DIG_MASK = c mod DIG_BASE.
Proof. unfold DIG_MASK. change 65535 with (Z.ones 16). by rewrite Z.land_ones by lia. Qed.

Lemma shr_dig c : Z.shiftr c DIG_SIZE = c / DIG_BASE.
Proof. unfold DIG_SIZE. by rewrite Z.shiftr_div_pow2 by lia. Qed.

Lemma shl_dig c : Z.shiftl c DIG_SIZE = c * DIG_BASE.
Proof. unfold DIG_SIZE. by rewrite Z.shiftl_mul_pow2 by lia. Qed.

Lemma is_dig_mod c : is_dig (c mod DIG_BASE).
Proof. unfold is_dig, DIG_BASE. apply Z.mod_pos_bound. lia. Qed.

#[export] Hint Resolve is_dig_land is_dig_mod bpow_pos : gaston.
