(* ===== verification/Mpn.v ===== *)
(** The mpn routines of py/mpz.c: arithmetic on digit arrays.  Every routine
    takes its destination buffer and operands that may be that same buffer,
    and returns the buffer and the number of digits of the result; [None] is
    an access outside a buffer or a failed assert. *)
From S2P Require Import Prelude Digits.

(** * Routines *)

Fixpoint mpn_remove_trailing_zeros (dst : list Z) (n : nat) : option nat :=
  match n with
  | O => Some O
  | S n' =>
      d ← dst !! n';
      if d =? 0 then mpn_remove_trailing_zeros dst n' else Some n
  end.

Fixpoint mpn_cmp_digits (i j : list Z) (n : nat) : option Z :=
  match n with
  | O => Some 0
  | S n =>
      a ← i !! n;
      b ← j !! n;
      let cmp := i32 (u32 (a - b)) in
      if cmp <? 0 then Some (-1) else if 0 <? cmp then Some 1 else mpn_cmp_digits i j n
  end.

Definition mpn_cmp (i : list Z) (ilen : nat) (j : list Z) (jlen : nat) : option Z :=
  if (ilen <? jlen)%nat then Some (-1)
  else if (jlen <? ilen)%nat then Some 1
  else mpn_cmp_digits i j ilen.

(** A digit of [mpn_shl], from the two source digits held in [d]. *)
Definition shl_step (j : operand) (n_whole : nat) (n_part : Z)
    (q : nat) (dst : list Z) (d : Z) : option (Z * Z) :=
  a ← get j dst (q - n_whole);
  let d := Z.lor d a in
  Some (Z.land (Z.shiftr d (DIG_SIZE - n_part)) DIG_MASK, u32 (Z.shiftl d DIG_SIZE)).

Definition mpn_shl (dst : list Z) (j : operand) (jlen : nat) (n : Z) : option (list Z * nat) :=
  let n_whole := Z.to_nat (u64 (n + DIG_SIZE - 1) / DIG_SIZE) in
  let n_part := if n mod DIG_SIZE =? 0 then DIG_SIZE else n mod DIG_SIZE in
  '(d, dst) ← digits_down (shl_step j n_whole n_part) n_whole jlen 0 dst;
  dst ← put dst (n_whole - 1) (Z.land (Z.shiftr d (DIG_SIZE - n_part)) DIG_MASK);
  dst ← clear dst (n_whole - 1);
  len ← mpn_remove_trailing_zeros dst (jlen + n_whole);
  Some (dst, len).

Definition shr_step (j : operand) (n_whole : nat) (n_part : Z) (jlen : nat)
    (p : nat) (dst : list Z) (_ : unit) : option (Z * unit) :=
  d ← get j dst (p + n_whole);
  d ← (if (1 <? jlen - p)%nat
       then a ← get j dst (p + n_whole + 1); Some (Z.lor d (u32 (Z.shiftl a DIG_SIZE)))
       else Some d);
  Some (Z.land (Z.shiftr d n_part) DIG_MASK, tt).

Definition mpn_shr (dst : list Z) (j : operand) (jlen : nat) (n : Z) : option (list Z * nat) :=
  let n_whole := Z.to_nat (n / DIG_SIZE) in
  let n_part := n mod DIG_SIZE in
  if (jlen <=? n_whole)%nat then Some (dst, 0%nat)
  else
    let jlen := (jlen - n_whole)%nat in
    '(_, dst) ← digits_up (shr_step j n_whole n_part jlen) jlen 0 tt dst;
    d ← dst !! (jlen - 1)%nat;
    Some (dst, if d =? 0 then (jlen - 1)%nat else jlen).

Definition add_step (j k : operand) (p : nat) (dst : list Z) (carry : Z) : option (Z * Z) :=
  a ← get j dst p;
  b ← get k dst p;
  let carry := u32 (carry + u32 (a + b)) in
  Some (Z.land carry DIG_MASK, Z.shiftr carry DIG_SIZE).

Definition add_carry_step (j : operand) (p : nat) (dst : list Z) (carry : Z) : option (Z * Z) :=
  a ← get j dst p;
  let carry := u32 (carry + a) in
  Some (Z.land carry DIG_MASK, Z.shiftr carry DIG_SIZE).

(** The closing [if (carry != 0) *idig++ = carry;] *)
Definition put_carry (dst : list Z) (n : nat) (carry : Z) : option (list Z * nat) :=
  if carry =? 0 then Some (dst, n) else dst ← put dst n carry; Some (dst, S n).

Definition mpn_add (dst : list Z) (j : operand) (jlen : nat) (k : operand) (klen : nat)
    : option (list Z * nat) :=
  '(carry, dst) ← digits_up (add_step j k) klen 0 0 dst;
  '(carry, dst) ← digits_up (add_carry_step j) (jlen - klen) klen carry dst;
  put_carry dst jlen carry.

Definition sub_step (j k : operand) (p : nat) (dst : list Z) (borrow : Z) : option (Z * Z) :=
  a ← get j dst p;
  b ← get k dst p;
  let borrow := i32 (u32 (borrow + u32 (a - b))) in
  Some (Z.land borrow DIG_MASK, Z.shiftr borrow DIG_SIZE).

Definition sub_borrow_step (j : operand) (p : nat) (dst : list Z) (borrow : Z) : option (Z * Z) :=
  a ← get j dst p;
  let borrow := i32 (borrow + a) in
  Some (Z.land borrow DIG_MASK, Z.shiftr borrow DIG_SIZE).

Definition mpn_sub (dst : list Z) (j : operand) (jlen : nat) (k : operand) (klen : nat)
    : option (list Z * nat) :=
  '(borrow, dst) ← digits_up (sub_step j k) klen 0 0 dst;
  '(_, dst) ← digits_up (sub_borrow_step j) (jlen - klen) klen borrow dst;
  len ← mpn_remove_trailing_zeros dst jlen;
  Some (dst, len).

(** [*idig = *jdig OP *kdig], and the copy of the rest of j. *)
Definition bit_step (op : Z -> Z -> Z) (j k : operand) (p : nat) (dst : list Z) (_ : unit)
    : option (Z * unit) :=
  a ← get j dst p;
  b ← get k dst p;
  Some (op a b, tt).

Definition copy_step (j : operand) (p : nat) (dst : list Z) (_ : unit) : option (Z * unit) :=
  a ← get j dst p;
  Some (a, tt).

Definition mpn_and (dst : list Z) (j k : operand) (klen : nat) : option (list Z * nat) :=
  '(_, dst) ← digits_up (bit_step Z.land j k) klen 0 tt dst;
  len ← mpn_remove_trailing_zeros dst klen;
  Some (dst, len).

Definition mpn_or (dst : list Z) (j : operand) (jlen : nat) (k : operand) (klen : nat)
    : option (list Z * nat) :=
  '(_, dst) ← digits_up (bit_step Z.lor j k) klen 0 tt dst;
  '(_, dst) ← digits_up (copy_step j) (jlen - klen) klen tt dst;
  Some (dst, jlen).

Definition mpn_xor (dst : list Z) (j : operand) (jlen : nat) (k : operand) (klen : nat)
    : option (list Z * nat) :=
  '(_, dst) ← digits_up (bit_step Z.lxor j k) klen 0 tt dst;
  '(_, dst) ← digits_up (copy_step j) (jlen - klen) klen tt dst;
  len ← mpn_remove_trailing_zeros dst jlen;
  Some (dst, len).

(** The loops on two's complements carry three carries and the two lengths
    that the condition [--klen <= --jlen] counts down (a size_t wraps). *)
Record carries := { ci : Z; cj : Z; ck : Z; c_jlen : Z; c_klen : Z }.

Definition dig_mask (carry : Z) : Z := if carry =? 0 then 0 else DIG_MASK.

(** [carryk += (--klen <= --jlen) ? f of the next digit of k : f0], reading k only
    while there is one. *)
Definition next_k (f : Z -> Z) (f0 : Z) (k : operand) (p : nat) (dst : list Z) (jlen klen : Z)
    : option Z :=
  if klen <=? jlen then b ← get k dst p; Some (f b) else Some f0.

Definition neg_step (op : Z -> Z -> Z) (imask jmask kmask : Z) (j k : operand)
    (p : nat) (dst : list Z) (c : carries) : option (Z * carries) :=
  a ← get j dst p;
  let cj' := u32 (cj c + Z.lxor a jmask) in
  let klen := u64 (c_klen c - 1) in
  let jlen := u64 (c_jlen c - 1) in
  b ← next_k (fun b => Z.lxor b kmask) kmask k p dst jlen klen;
  let ck' := u32 (ck c + b) in
  let ci' := u32 (ci c + Z.land (Z.lxor (op cj' ck') imask) DIG_MASK) in
  Some (Z.land ci' DIG_MASK,
        {| ci := Z.shiftr ci' DIG_SIZE; cj := Z.shiftr cj' DIG_SIZE; ck := Z.shiftr ck' DIG_SIZE;
           c_jlen := jlen; c_klen := klen |}).

Definition mpn_and_neg (dst : list Z) (j : operand) (jlen : nat) (k : operand) (klen : nat)
    (carryi carryj carryk : Z) : option (list Z * nat) :=
  '(c, dst) ← digits_up (neg_step Z.land (dig_mask carryi) (dig_mask carryj) (dig_mask carryk) j k)
                jlen 0 {| ci := carryi; cj := carryj; ck := carryk;
                          c_jlen := Z.of_nat jlen; c_klen := Z.of_nat klen |} dst;
  '(dst, n) ← put_carry dst jlen (ci c);
  len ← mpn_remove_trailing_zeros dst n;
  Some (dst, len).

Definition mpn_or_neg (dst : list Z) (j : operand) (jlen : nat) (k : operand) (klen : nat)
    (carryj carryk : Z) : option (list Z * nat) :=
  '(c, dst) ← digits_up (neg_step Z.lor DIG_MASK (dig_mask carryj) (dig_mask carryk) j k)
                jlen 0 {| ci := 1; cj := carryj; ck := carryk;
                          c_jlen := Z.of_nat jlen; c_klen := Z.of_nat klen |} dst;
  if ci c =? 0
  then len ← mpn_remove_trailing_zeros dst jlen; Some (dst, len)
  else None.

Definition xor_neg_step (j k : operand) (p : nat) (dst : list Z) (c : carries)
    : option (Z * carries) :=
  a ← get j dst p;
  let cj' := u32 (cj c + (a + DIG_MASK)) in
  let klen := u64 (c_klen c - 1) in
  let jlen := u64 (c_jlen c - 1) in
  b ← next_k (fun b => b + DIG_MASK) DIG_MASK k p dst jlen klen;
  let ck' := u32 (ck c + b) in
  let ci' := u32 (ci c + Z.land (Z.lxor cj' ck') DIG_MASK) in
  Some (Z.land ci' DIG_MASK,
        {| ci := Z.shiftr ci' DIG_SIZE; cj := Z.shiftr cj' DIG_SIZE; ck := Z.shiftr ck' DIG_SIZE;
           c_jlen := jlen; c_klen := klen |}).

Definition mpn_xor_neg (dst : list Z) (j : operand) (jlen : nat) (k : operand) (klen : nat)
    (carryi carryj carryk : Z) : option (list Z * nat) :=
  '(c, dst) ← digits_up (xor_neg_step j k) jlen 0
                {| ci := carryi; cj := carryj; ck := carryk;
                   c_jlen := Z.of_nat jlen; c_klen := Z.of_nat klen |} dst;
  '(dst, n) ← put_carry dst jlen (ci c);
  len ← mpn_remove_trailing_zeros dst n;
  Some (dst, len).

Definition mul_dig_step (dmul : Z) (p : nat) (dst : list Z) (carry : Z) : option (Z * Z) :=
  a ← get Self dst p;
  let carry := u32 (carry + u32 (a * dmul)) in
  Some (Z.land carry DIG_MASK, Z.shiftr carry DIG_SIZE).

Definition mpn_mul_dig_add_dig (dst : list Z) (ilen : nat) (dmul dadd : Z)
    : option (list Z * nat) :=
  '(carry, dst) ← digits_up (mul_dig_step dmul) ilen 0 dadd dst;
  put_carry dst ilen carry.

(** The inner loop of [mpn_mul]: adds j * kd at [off]. *)
Definition mul_step (jdig : list Z) (kd : Z) (off p : nat) (dst : list Z) (carry : Z)
    : option (Z * Z) :=
  a ← get Self dst p;
  b ← jdig !! (p - off)%nat;
  let carry := u32 (carry + u32 (a + u32 (b * kd))) in
  Some (Z.land carry DIG_MASK, Z.shiftr carry DIG_SIZE).

Fixpoint mul_rows (jdig : list Z) (jlen : nat) (kdig : list Z) (klen off ilen : nat) (dst : list Z)
    : option (list Z * nat) :=
  match klen with
  | O => Some (dst, ilen)
  | S klen =>
      kd ← kdig !! off;
      '(carry, dst) ← digits_up (mul_step jdig kd off) jlen off 0 dst;
      '(dst, ilen) ← put_carry dst (off + jlen) carry;
      mul_rows jdig jlen kdig klen (S off) ilen dst
  end.

Definition mpn_mul (dst : list Z) (jdig : list Z) (jlen : nat) (kdig : list Z) (klen : nat)
    : option (list Z * nat) :=
  mul_rows jdig jlen kdig klen 0 0 dst.

(** * Shared facts *)

Lemma normal_take dst n : Forall is_dig dst -> (n <= length dst)%nat ->
  n = 0%nat \/ bpow (pred n) <= dval (take n dst) -> normal (take n dst).
Proof.
  intros Hd Hn H. apply normal_of_lower; [by apply Forall_take|].
  rewrite length_take_le by done. destruct H as [->|H]; [left; by rewrite firstn_O|by right].
Qed.

Lemma normal_take_lower dst n : Forall is_dig dst -> (0 < n <= length dst)%nat ->
  normal (take n dst) -> bpow (pred n) <= dval (take n dst).
Proof.
  intros Hd Hn H. pose proof (normal_lower (take n dst) (Forall_take _ _ _ Hd) H) as Hl.
  rewrite length_take_le in Hl by lia. apply Hl. intros E. apply (f_equal length) in E.
  rewrite length_take_le in E by lia. simpl in E. lia.
Qed.

Lemma rtz_spec dst n : Forall is_dig dst -> (n <= length dst)%nat ->
  exists m, mpn_remove_trailing_zeros dst n = Some m /\ (m <= n)%nat /\
    dval (take m dst) = dval (take n dst) /\ normal (take m dst).
Proof.
  intros Hd. induction n as [|n IH]; intros Hn.
  { exists 0%nat. split_and!; try done. }
  destruct (lookup_lt_is_Some_2 dst n ltac:(lia)) as [d Hl].
  cbn [mpn_remove_trailing_zeros]. rewrite Hl. cbn [mbind option_bind].
  destruct (Z.eqb_spec d 0) as [->|Hd0].
  - destruct (IH ltac:(lia)) as (m & -> & ? & Hm & ?). exists m. split_and!; try done; [lia|].
    rewrite Hm, (dval_take_S _ _ _ Hl). lia.
  - exists (S n). split_and!; try done. rewrite (take_S_r _ _ _ Hl). by apply normal_snoc.
Qed.

Lemma rtz_result dst n v : Forall is_dig dst -> (n <= length dst)%nat -> dval (take n dst) = v ->
  exists m, mpn_remove_trailing_zeros dst n = Some m /\ result (length dst) dst m v.
Proof.
  intros Hd Hn Hv. destruct (rtz_spec dst n Hd Hn) as (m & Hm & Hle & Hval & Hnorm).
  exists m. split; [done|]. split_and!; [done|done|lia|congruence|done].
Qed.

Lemma put_carry_spec dst n c v :
  Forall is_dig dst -> (n <= length dst)%nat -> is_dig c ->
  dval (take n dst) + bpow n * c = v -> v < bpow (length dst) ->
  exists dst' m, put_carry dst n c = Some (dst', m) /\ length dst' = length dst /\
    Forall is_dig dst' /\ (m <= length dst)%nat /\ dval (take m dst') = v /\
    (m = n /\ c = 0 \/ m = S n /\ bpow n <= v).
Proof.
  intros Hd Hn Hc Hv Hlt. unfold put_carry.
  pose proof (dval_take_bounds dst n Hd). unfold is_dig in Hc.
  destruct (Z.eqb_spec c 0) as [->|Hc0].
  - exists dst, n. split_and!; try done; [lia|]. by left.
  - assert (n < length dst)%nat.
    { destruct (decide (n = length dst)) as [->|]; [|lia]. pose proof (bpow_pos (length dst)). nia. }
    rewrite put_some by done. cbn [mbind option_bind]. eexists _, (S n). split; [done|].
    assert (Hlook : <[n := c]> dst !! n = Some c) by (apply list_lookup_insert_eq; lia).
    split_and!.
    + by rewrite length_insert.
    + by apply Forall_insert.
    + lia.
    + rewrite (dval_take_S _ _ _ Hlook), take_insert_ge by lia. done.
    + right. split; [done|]. pose proof (bpow_pos n). nia.
Qed.

(** The digit of an operand at or above the current index is still that of
    the start, whichever buffer it is in. *)
Lemma get_spec o dst dst0 p q len v :
  holds (contents o dst0) len v -> drop p dst = drop p dst0 -> (p <= q < len)%nat ->
  exists d, get o dst q = Some d /\ is_dig d /\
    dval (take (S q) (contents o dst0)) = dval (take q (contents o dst0)) + bpow q * d.
Proof.
  intros Ho Hd Hq. destruct (holds_digit _ _ _ q Ho ltac:(lia)) as (d & Hl & ? & ?).
  exists d. by rewrite (get_later _ _ dst0 p) by (done || lia).
Qed.

Lemma bpow_split p q : (p <= q)%nat -> bpow q = bpow p * bpow (q - p).
Proof. intros. rewrite <- bpow_add. f_equal. lia. Qed.

(** Splitting a sum into a digit and a carry. *)
Lemma carry_split s c : 0 <= c < 2 ^ 32 ->
  exists d c', Z.land (u32 c) DIG_MASK = d /\ Z.shiftr (u32 c) DIG_SIZE = c' /\
    is_dig d /\ s + c = s + d + DIG_BASE * c' /\ 0 <= c' < DIG_BASE /\
    (c < 2 * DIG_BASE -> c' <= 1).
Proof.
  intros Hc. rewrite wrapU_small by lia. eexists _, _. split; [done|]. split; [done|].
  split; [auto with gaston|]. rewrite land_mask, shr_dig. unfold DIG_BASE. zdm.
Qed.

(** The addition and subtraction loops: first over the digits of both
    operands, then over the rest of the longer one. *)
Lemma two_loops {S} (step1 step2 : nat -> list Z -> S -> option (Z * S))
    (I : nat -> Z -> S -> Prop) k n s0 dst0 :
  (k <= n <= length dst0)%nat -> Forall is_dig dst0 -> I 0%nat 0 s0 ->
  (forall p v s dst, (p < k)%nat -> drop p dst = drop p dst0 -> I p v s ->
     exists d s', step1 p dst s = Some (d, s') /\ is_dig d /\ I (Datatypes.S p) (v + bpow p * d) s') ->
  (forall p v s dst, (k <= p < n)%nat -> drop p dst = drop p dst0 -> I p v s ->
     exists d s', step2 p dst s = Some (d, s') /\ is_dig d /\ I (Datatypes.S p) (v + bpow p * d) s') ->
  exists s1 dst1 s2 dst2, digits_up step1 k 0 s0 dst0 = Some (s1, dst1) /\
    digits_up step2 (n - k) k s1 dst1 = Some (s2, dst2) /\
    length dst2 = length dst0 /\ Forall is_dig dst2 /\ I n (dval (take n dst2)) s2.
Proof.
  intros Hk Hd HI H1 H2.
  destruct (digits_up_rule step1 I dst0 k 0 s0 dst0) as (s1 & dst1 & E1 & L1 & D1 & R1 & I1);
    [lia|done|done|done|done|intros; apply H1; [lia|done|done]|].
  destruct (digits_up_rule step2 I dst0 (n - k) k s1 dst1) as (s2 & dst2 & E2 & L2 & D2 & R2 & I2);
    [lia|done|done|done|done|intros; apply H2; [lia|done|done]|].
  replace (k + (n - k))%nat with n in * by lia. eauto 10.
Qed.

Lemma mpn_add_spec dst j jlen k klen jv kv :
  Forall is_dig dst -> holds (contents j dst) jlen jv -> holds (contents k dst) klen kv ->
  (klen <= jlen <= length dst)%nat -> normal (take jlen (contents j dst)) ->
  jv + kv < bpow (length dst) ->
  exists dst' n, mpn_add dst j jlen k klen = Some (dst', n) /\
    result (length dst) dst' n (jv + kv).
Proof.
  intros Hd Hj Hk Hlen Hn Hlt.
  destruct (two_loops (add_step j k) (add_carry_step j)
    (fun p v c => 0 <= c <= 1 /\ v + bpow p * c =
       dval (take p (contents j dst)) + dval (take (p `min` klen) (contents k dst)))
    klen jlen 0 dst) as (c1 & dst1 & c2 & dst2 & E1 & E2 & L2 & D2 & Hc & Hv);
    [lia|done|by rewrite !firstn_O| | |].
  { intros p v c dst' Hp Hdrop [Hc HI].
    destruct (get_spec j dst' dst p p jlen jv) as (a & Ha & Hda & Hva); [done|done|lia|].
    destruct (get_spec k dst' dst p p klen kv) as (b & Hb & Hdb & Hvb); [done|done|lia|].
    rewrite !Nat.min_l in * by lia. unfold add_step. rewrite Ha. cbn [mbind option_bind].
    rewrite Hb. cbn [mbind option_bind]. unfold is_dig, DIG_BASE in Hda, Hdb.
    rewrite (wrapU_small 32 (a + b)) by lia.
    destruct (carry_split 0 (c + (a + b)) ltac:(lia)) as (d & c' & Hdd & Hc' & ? & ? & ? & Hle).
    specialize (Hle ltac:(unfold DIG_BASE; lia)).
    exists d, c'. rewrite Hdd, Hc'. split; [done|]. split; [done|]. split; [lia|].
    rewrite Hva, Hvb, bpow_S. nia. }
  { intros p v c dst' Hp Hdrop [Hc HI].
    destruct (get_spec j dst' dst p p jlen jv) as (a & Ha & Hda & Hva); [done|done|lia|].
    rewrite !Nat.min_r in * by lia. unfold add_carry_step. rewrite Ha. cbn [mbind option_bind].
    unfold is_dig, DIG_BASE in Hda.
    destruct (carry_split 0 (c + a) ltac:(lia)) as (d & c' & Hdd & Hc' & ? & ? & ? & Hle).
    specialize (Hle ltac:(unfold DIG_BASE; lia)).
    exists d, c'. rewrite Hdd, Hc'. split; [done|]. split; [done|]. split; [lia|].
    rewrite Hva, bpow_S. nia. }
  unfold mpn_add. rewrite E1. cbn [mbind option_bind]. rewrite E2. cbn [mbind option_bind].
  rewrite Nat.min_r in Hv by lia.
  pose proof (holds_bounds _ _ _ Hk). pose proof (holds_bounds _ _ _ Hj).
  destruct Hj as (Hjl & Hjd & <-), Hk as (_ & _ & <-).
  destruct (put_carry_spec dst2 jlen c2 _ D2 ltac:(lia) ltac:(unfold is_dig, DIG_BASE; lia) Hv
    ltac:(by rewrite L2)) as (dst3 & n & E3 & L3 & D3 & Hm & Hval & Hcase).
  exists dst3, n. split; [done|]. split_and!; [lia|done|lia|done|].
  apply normal_take; [done|lia|]. rewrite Hval. destruct Hcase as [[-> _]|[-> ?]]; [|by right].
  destruct jlen as [|jlen]; [by left|right].
  pose proof (normal_take_lower (contents j dst) (S jlen) Hjd ltac:(lia) Hn). lia.
Qed.

(** * Comparison and subtraction *)

Lemma i32_u32 x : - 2 ^ 31 <= x < 2 ^ 31 -> i32 (u32 x) = x.
Proof.
  intros Hx. rewrite <- (i32_small x Hx) at 2. apply wrapS_cong.
  unfold wrapU. apply Z.mod_mod. lia.
Qed.

Lemma mpn_cmp_digits_spec i j n :
  Forall is_dig i -> Forall is_dig j -> (n <= length i)%nat -> (n <= length j)%nat ->
  mpn_cmp_digits i j n = Some (Z.sgn (dval (take n i) - dval (take n j))).
Proof.
  intros Hi Hj. induction n as [|n IH]; intros Hli Hlj; [by rewrite !firstn_O|].
  destruct (lookup_lt_is_Some_2 i n ltac:(lia)) as [a Ha].
  destruct (lookup_lt_is_Some_2 j n ltac:(lia)) as [b Hb].
  cbn [mpn_cmp_digits]. rewrite Ha. cbn [mbind option_bind]. rewrite Hb. cbn [mbind option_bind].
  pose proof (Forall_lookup_1 _ _ _ _ Hi Ha) as Hda. pose proof (Forall_lookup_1 _ _ _ _ Hj Hb) as Hdb.
  unfold is_dig, DIG_BASE in Hda, Hdb. rewrite i32_u32 by lia.
  rewrite (dval_take_S _ _ _ Ha), (dval_take_S _ _ _ Hb).
  pose proof (dval_take_bounds i n Hi). pose proof (dval_take_bounds j n Hj).
  destruct (Z.ltb_spec (a - b) 0); [f_equal; symmetry; apply Z.sgn_neg; nia|].
  destruct (Z.ltb_spec 0 (a - b)); [f_equal; symmetry; apply Z.sgn_pos; nia|].
  rewrite IH by lia. do 2 f_equal. assert (a = b) as -> by lia. lia.
Qed.

(** [mpn_cmp] compares the values of normalised arrays. *)
Lemma mpn_cmp_spec i ilen j jlen iv jv :
  holds i ilen iv -> holds j jlen jv -> normal (take ilen i) -> normal (take jlen j) ->
  mpn_cmp i ilen j jlen = Some (Z.sgn (iv - jv)).
Proof.
  intros (Hli & Hdi & <-) (Hlj & Hdj & <-) Hni Hnj. unfold mpn_cmp.
  destruct (Nat.ltb_spec ilen jlen); [|destruct (Nat.ltb_spec jlen ilen)].
  - pose proof (normal_longer (take ilen i) (take jlen j)) as H'.
    rewrite !length_take_le in H' by done. f_equal. symmetry. apply Z.sgn_neg.
    specialize (H' (Forall_take _ _ _ Hdi) (Forall_take _ _ _ Hdj) Hnj ltac:(lia)). lia.
  - pose proof (normal_longer (take jlen j) (take ilen i)) as H'.
    rewrite !length_take_le in H' by done. f_equal. symmetry. apply Z.sgn_pos.
    specialize (H' (Forall_take _ _ _ Hdj) (Forall_take _ _ _ Hdi) Hni ltac:(lia)). lia.
  - assert (ilen = jlen) as -> by lia. by apply mpn_cmp_digits_spec.
Qed.

(** Splitting a difference into a digit and a borrow. *)
Lemma borrow_split c : - DIG_BASE <= c < DIG_BASE ->
  is_dig (Z.land c DIG_MASK) /\ c = Z.land c DIG_MASK + DIG_BASE * Z.shiftr c DIG_SIZE /\
  -1 <= Z.shiftr c DIG_SIZE <= 0.
Proof.
  intros Hc. split; [auto with gaston|]. rewrite land_mask, shr_dig. unfold DIG_BASE in *. zdm.
Qed.

Lemma mpn_sub_spec dst j jlen k klen jv kv :
  Forall is_dig dst -> holds (contents j dst) jlen jv -> holds (contents k dst) klen kv ->
  (klen <= jlen <= length dst)%nat -> kv <= jv ->
  exists dst' n, mpn_sub dst j jlen k klen = Some (dst', n) /\
    result (length dst) dst' n (jv - kv) /\ (n <= jlen)%nat.
Proof.
  intros Hd Hj Hk Hlen Hle.
  destruct (two_loops (sub_step j k) (sub_borrow_step j)
    (fun p v c => -1 <= c <= 0 /\ v + bpow p * c =
       dval (take p (contents j dst)) - dval (take (p `min` klen) (contents k dst)))
    klen jlen 0 dst) as (c1 & dst1 & c2 & dst2 & E1 & E2 & L2 & D2 & Hc & Hv);
    [lia|done|by rewrite !firstn_O| | |].
  { intros p v c dst' Hp Hdrop [Hc HI].
    destruct (get_spec j dst' dst p p jlen jv) as (a & Ha & Hda & Hva); [done|done|lia|].
    destruct (get_spec k dst' dst p p klen kv) as (b & Hb & Hdb & Hvb); [done|done|lia|].
    rewrite !Nat.min_l in * by lia. unfold sub_step. rewrite Ha. cbn [mbind option_bind].
    rewrite Hb. cbn [mbind option_bind]. unfold is_dig in Hda, Hdb.
    assert (Hw : i32 (u32 (c + u32 (a - b))) = c + (a - b)).
    { unfold wrapU. rewrite Zplus_mod_idemp_r. apply i32_u32. unfold DIG_BASE in *. lia. }
    rewrite Hw. destruct (borrow_split (c + (a - b)) ltac:(lia)) as (? & ? & ?).
    eexists _, _. split; [done|]. split; [done|]. split; [lia|]. rewrite Hva, Hvb, bpow_S. nia. }
  { intros p v c dst' Hp Hdrop [Hc HI].
    destruct (get_spec j dst' dst p p jlen jv) as (a & Ha & Hda & Hva); [done|done|lia|].
    rewrite !Nat.min_r in * by lia. unfold sub_borrow_step. rewrite Ha. cbn [mbind option_bind].
    unfold is_dig in Hda. rewrite i32_small by (unfold DIG_BASE in *; lia).
    destruct (borrow_split (c + a) ltac:(lia)) as (? & ? & ?).
    eexists _, _. split; [done|]. split; [done|]. split; [lia|]. rewrite Hva, bpow_S. nia. }
  unfold mpn_sub. rewrite E1. cbn [mbind option_bind]. rewrite E2. cbn [mbind option_bind].
  rewrite Nat.min_r in Hv by lia. destruct Hj as (Hjl & Hjd & <-), Hk as (_ & _ & <-).
  pose proof (dval_take_bounds dst2 jlen D2).
  assert (c2 = 0) as -> by nia.
  destruct (rtz_spec dst2 jlen D2 ltac:(lia)) as (n & -> & Hn & Hval & Hnorm).
  exists dst2, n. split; [done|]. split; [|done]. split_and!; [done|done|lia|lia|done].
Qed.

(** * Multiplication by a digit *)

Lemma mpn_mul_dig_add_dig_spec dst len dmul dadd v :
  holds dst len v -> is_dig dmul -> is_dig dadd -> v * dmul + dadd < bpow (length dst) ->
  0 < dmul -> normal (take len dst) ->
  exists dst' n, mpn_mul_dig_add_dig dst len dmul dadd = Some (dst', n) /\
    result (length dst) dst' n (v * dmul + dadd).
Proof.
  intros (Hl & Hd & <-) Hm Ha Hlt Hm0 Hn.
  destruct (digits_up_rule (mul_dig_step dmul)
    (fun p v c => is_dig c /\ v + bpow p * c = dval (take p dst) * dmul + dadd) dst len 0 dadd dst)
    as (c & dst1 & E1 & L1 & D1 & _ & Hc & Hv); [lia|done|done|done| | |].
  { rewrite firstn_O, bpow_0. split; [done|]. cbn [dval]. lia. }
  { intros p v c dst' Hp _ Hdrop _ [Hc HI].
    destruct (holds_digit dst len _ p ltac:(done) ltac:(lia)) as (a & Hla & Hda & Hva).
    unfold mul_dig_step. rewrite (get_later Self dst' dst p p) by (done || lia).
    unfold get. cbn [contents]. rewrite Hla. cbn [mbind option_bind].
    unfold is_dig, DIG_BASE in Hm, Hc, Hda. rewrite (wrapU_small 32 (a * dmul)) by nia.
    destruct (carry_split 0 (c + a * dmul) ltac:(nia)) as (d & c' & Hdd & Hc' & ? & ? & ? & _).
    exists d, c'. rewrite Hdd, Hc'. split; [done|]. split; [done|]. split; [done|].
    rewrite Hva, bpow_S. nia. }
  unfold mpn_mul_dig_add_dig. rewrite E1. cbn [mbind option_bind Nat.add] in *.
  destruct (put_carry_spec dst1 len c _ D1 ltac:(lia) Hc Hv ltac:(by rewrite L1))
    as (dst3 & n & E3 & L3 & D3 & Hm' & Hval & Hcase).
  exists dst3, n. split; [done|]. split_and!; [lia|done|lia|done|].
  apply normal_take; [done|lia|]. rewrite Hval. destruct Hcase as [[-> _]|[-> ?]]; [|by right].
  destruct len as [|len]; [by left|right].
  pose proof (normal_take_lower dst (S len) Hd ltac:(lia) Hn). unfold is_dig in Ha.
  pose proof (bpow_pos (pred (S len))).
  pose proof (Z.mul_le_mono_nonneg_l 1 dmul (dval (take (S len) dst)) ltac:(lia) ltac:(lia)). lia.
Qed.

(** * Shifts *)

Lemma get_value o dst dst0 p q len v :
  holds (contents o dst0) len v -> drop p dst = drop p dst0 -> (p <= q < len)%nat ->
  get o dst q = Some (v / bpow q mod DIG_BASE).
Proof. intros Ho Hd Hq. rewrite (get_later _ _ dst0 p) by (done || lia). apply (holds_lookup _ len); [done|lia]. Qed.

Lemma get_value_below o dst dst0 p q len v :
  holds (contents o dst0) len v -> take p dst = take p dst0 -> (q < p)%nat -> (q < len)%nat ->
  get o dst q = Some (v / bpow q mod DIG_BASE).
Proof. intros Ho Hd Hq Hl. rewrite (get_earlier _ _ dst0 p) by (done || lia). by apply (holds_lookup _ len). Qed.

Lemma holds_top len v l : holds l len v -> v / bpow len = 0.
Proof. intros H. apply Z.div_small. by apply holds_bounds in H. Qed.

(** Two neighbouring digits and the window of a shift in them. *)
Lemma window w s : 0 <= s <= 16 ->
  (w mod DIG_BASE ^ 2) / 2 ^ s mod DIG_BASE = w / 2 ^ s mod DIG_BASE.
Proof.
  intros Hs. change (DIG_BASE ^ 2) with (2 ^ 32). change DIG_BASE with (2 ^ 16).
  apply Z.bits_inj'. intros i Hi. destruct (Z.ltb_spec i 16).
  - rewrite !Z.mod_pow2_bits_low, !Z.div_pow2_bits, Z.mod_pow2_bits_low by lia. done.
  - by rewrite !Z.mod_pow2_bits_high by lia.
Qed.

Lemma two_digits w : w mod DIG_BASE ^ 2 = w / DIG_BASE mod DIG_BASE * DIG_BASE + w mod DIG_BASE.
Proof. change (DIG_BASE ^ 2) with (DIG_BASE * DIG_BASE). rewrite Z.rem_mul_r by done. lia. Qed.

Lemma shift_parts n : 0 <= n ->
  2 ^ n = bpow (Z.to_nat (n / DIG_SIZE)) * 2 ^ (n mod DIG_SIZE).
Proof.
  intros Hn. rewrite bpow_2, Z2Nat.id by (unfold DIG_SIZE; zdm).
  rewrite <- Z.pow_add_r by (unfold DIG_SIZE; zdm). f_equal. unfold DIG_SIZE. zdm.
Qed.

(** A digit of the shifted number, from the two source digits around it. *)
Lemma shr_digit v p s a b : 0 <= s < 16 ->
  a = v / bpow p mod DIG_BASE -> b = v / bpow (S p) mod DIG_BASE ->
  Z.land (Z.shiftr (Z.lor a (u32 (Z.shiftl b DIG_SIZE))) s) DIG_MASK = v / bpow p / 2 ^ s mod DIG_BASE.
Proof.
  intros Hs -> ->. set (w := v / bpow p). rewrite div_bpow_S. fold w. rewrite shl_dig.
  pose proof (is_dig_mod w). pose proof (is_dig_mod (w / DIG_BASE)).
  rewrite wrapU_small by (unfold is_dig, DIG_BASE in *; lia).
  rewrite lor_disjoint by done. rewrite <- two_digits, land_mask, Z.shiftr_div_pow2 by lia.
  apply window. lia.
Qed.

(** Two digits below the top of a normalised number survive the shift. *)
Lemma shr_lower l len v n nw : holds l len v -> normal (take len l) ->
  0 <= n -> nw = Z.to_nat (n / DIG_SIZE) -> (S nw < len)%nat ->
  bpow (pred (len - nw - 1)) <= v / 2 ^ n.
Proof.
  intros (Hl & Hd & <-) Hnorm Hn -> Hlt. apply Z.div_le_lower_bound; [lia|].
  pose proof (shift_parts n Hn) as Hparts. set (nw := Z.to_nat (n / DIG_SIZE)) in *.
  pose proof (normal_take_lower l len Hd ltac:(lia) Hnorm) as Hlow.
  rewrite (bpow_split (S nw) (pred len)) in Hlow by lia. rewrite bpow_S in Hlow.
  replace (pred len - S nw)%nat with (pred (len - nw - 1)) in Hlow by lia.
  rewrite Hparts. assert (2 ^ (n mod DIG_SIZE) <= DIG_BASE).
  { change DIG_BASE with (2 ^ 16). apply Z.pow_le_mono_r; unfold DIG_SIZE; zdm. }
  pose proof (bpow_pos (pred (len - nw - 1))). pose proof (bpow_pos nw).
  assert (bpow nw * 2 ^ (n mod DIG_SIZE) <= DIG_BASE * bpow nw) by nia. nia.
Qed.

Lemma mpn_shr_spec dst j jlen jv n :
  Forall is_dig dst -> holds (contents j dst) jlen jv -> (jlen <= length dst)%nat ->
  normal (take jlen (contents j dst)) -> 0 <= n ->
  exists dst' m, mpn_shr dst j jlen n = Some (dst', m) /\
    result (length dst) dst' m (jv / 2 ^ n) /\ (m <= jlen)%nat.
Proof.
  intros Hd Hj Hlen Hnorm Hn. pose proof (holds_bounds _ _ _ Hj) as Hb.
  pose proof (shift_parts n Hn) as Hparts. unfold mpn_shr.
  set (nw := Z.to_nat (n / DIG_SIZE)) in *. set (np := n mod DIG_SIZE) in *.
  assert (Hnp : 0 <= np < 16) by (unfold np, DIG_SIZE; zdm).
  pose proof (bpow_pos nw) as Hbnw. assert (H2 : 0 < 2 ^ np) by lia.
  destruct (Nat.leb_spec jlen nw) as [Hle|Hgt].
  { exists dst, 0%nat. split; [done|]. split; [|lia]. split_and!; try done; [lia|].
    rewrite firstn_O. symmetry. apply Z.div_small. pose proof (bpow_le _ _ Hle). nia. }
  destruct (digits_up_rule (shr_step j nw np (jlen - nw))
    (fun p v _ => v = jv / 2 ^ n mod bpow p) dst (jlen - nw) 0 tt dst)
    as ([] & dst2 & E2 & L2 & D2 & _ & Hv); [lia|done|done|done| | |].
  { rewrite firstn_O, bpow_0, Z.mod_1_r. done. }
  { intros p v [] dst' Hp _ Hdrop _ ->. unfold shr_step.
    rewrite (get_value j dst' dst p (p + nw) jlen jv) by (done || lia). cbn [mbind option_bind].
    exists (jv / 2 ^ n / bpow p mod DIG_BASE), tt. split; [|split; [auto with gaston|symmetry; apply mod_bpow_S]].
    assert (Hd2 : jv / 2 ^ n / bpow p = jv / bpow (p + nw) / 2 ^ np).
    { rewrite !Z.div_div by (pose proof (bpow_pos (p + nw)); pose proof (bpow_pos p); lia).
      f_equal. rewrite Hparts, bpow_add. lia. }
    rewrite Hd2. destruct (Nat.ltb_spec 1 (jlen - nw - p)).
    - rewrite (get_value j dst' dst p (p + nw + 1) jlen jv) by (done || lia).
      cbn [mbind option_bind]. do 2 f_equal. apply shr_digit; [done|done|].
      by replace (S (p + nw)) with (p + nw + 1)%nat by lia.
    - cbn [mbind option_bind]. do 2 f_equal.
      rewrite <- (shr_digit jv (p + nw) np (jv / bpow (p + nw) mod DIG_BASE) 0); [|done|done|].
      + by rewrite Z.shiftl_0_l, Z.lor_0_r.
      + replace (S (p + nw)) with jlen by lia. by rewrite (holds_top _ _ _ Hj). }
  rewrite E2. cbn [mbind option_bind Nat.add] in *.
  assert (Hlt : jv / 2 ^ n < bpow (jlen - nw)).
  { apply Z.div_lt_upper_bound; [lia|]. rewrite Hparts.
    pose proof (bpow_split nw jlen ltac:(lia)). nia. }
  rewrite Z.mod_small in Hv by (split; [apply Z.div_pos; lia|done]).
  destruct (lookup_lt_is_Some_2 dst2 (jlen - nw - 1) ltac:(lia)) as [d Hld].
  rewrite Hld. cbn [mbind option_bind].
  pose proof (dval_take_S _ _ _ Hld) as Htop.
  replace (S (jlen - nw - 1)) with (jlen - nw)%nat in Htop by lia.
  destruct (Z.eqb_spec d 0) as [->|Hd0].
  - eexists dst2, _. split; [done|]. split; [|lia].
    split_and!; [done|done|lia|lia|]. apply normal_take; [done|lia|].
    destruct (decide (jlen - nw - 1 = 0)%nat) as [|Hj1]; [by left|right].
    replace (dval (take (jlen - nw - 1) dst2)) with (jv / 2 ^ n) by lia.
    eapply shr_lower; eauto; lia.
  - eexists dst2, _. split; [done|]. split; [|lia]. split_and!; [done|done|lia|done|].
    replace (jlen - nw)%nat with (S (jlen - nw - 1)) by lia.
    rewrite (take_S_r _ _ _ Hld). by apply normal_snoc.
Qed.

Lemma clear_spec dst n : (n <= length dst)%nat -> Forall is_dig dst ->
  exists dst', clear dst n = Some dst' /\ length dst' = length dst /\ Forall is_dig dst' /\
    dval (take n dst') = 0 /\ drop n dst' = drop n dst.
Proof.
  intros Hn Hd. unfold clear. rewrite decide_True by done. eexists. split; [done|]. split_and!.
  - rewrite length_app, length_replicate, length_drop. lia.
  - apply Forall_app. split; [|by apply Forall_drop].
    apply Forall_replicate. unfold is_dig, DIG_BASE. lia.
  - rewrite take_app_length' by (symmetry; apply length_replicate). apply dval_replicate.
  - by rewrite drop_app_length' by (symmetry; apply length_replicate).
Qed.

(** One step down: the window of two digits, and the digit kept for the next. *)
Lemma shl_digit v i s : 0 < s <= 16 ->
  let d := Z.lor (v / bpow (S i) mod DIG_BASE * DIG_BASE) (v / bpow i mod DIG_BASE) in
  Z.land (Z.shiftr d (DIG_SIZE - s)) DIG_MASK = v / bpow i / 2 ^ (16 - s) mod DIG_BASE /\
  u32 (Z.shiftl d DIG_SIZE) = v / bpow i mod DIG_BASE * DIG_BASE.
Proof.
  intros Hs d. unfold d. rewrite div_bpow_S. set (w := v / bpow i).
  rewrite Z.lor_comm, lor_disjoint by apply is_dig_mod. split.
  - rewrite <- two_digits, land_mask, Z.shiftr_div_pow2 by (unfold DIG_SIZE; lia).
    apply window. lia.
  - rewrite shl_dig. unfold wrapU. change (2 ^ 32) with (DIG_BASE * DIG_BASE).
    rewrite Z.mul_mod_distr_r by done. f_equal.
    rewrite Z.add_comm, Z.mod_add, Z.mod_mod by done. done.
Qed.

Lemma shl_loop dst j jlen jv nw s :
  Forall is_dig dst -> holds (contents j dst) jlen jv -> 0 < s <= 16 ->
  (jlen + nw <= length dst)%nat ->
  exists dst2, digits_down (shl_step j nw s) nw jlen 0 dst = Some (jv mod DIG_BASE * DIG_BASE, dst2) /\
    length dst2 = length dst /\ Forall is_dig dst2 /\
    dval (drop nw (take (jlen + nw) dst2)) = jv / 2 ^ (16 - s).
Proof.
  intros Hd Hj Hs Hlen. pose proof (holds_top _ _ _ Hj) as Htop. pose proof (holds_bounds _ _ _ Hj).
  destruct (digits_down_rule (shl_step j nw s)
    (fun q v d => v = jv / bpow (q - nw) / 2 ^ (16 - s) /\ d = jv / bpow (q - nw) mod DIG_BASE * DIG_BASE)
    dst (jlen + nw) nw jlen 0 dst) as (d & dst2 & E & L & D & _ & _ & Hv & ->);
    [lia|done|done|done| | |].
  { replace (nw + jlen - nw)%nat with jlen by lia. rewrite Htop.
    rewrite drop_ge by (rewrite length_take; lia). split; [|done].
    by rewrite Z.div_0_l by lia. }
  { intros q v d dst' Hq _ Htake [-> ->]. unfold shl_step.
    rewrite (get_value_below j dst' dst (S q) (q - nw) jlen jv) by (done || lia).
    cbn [mbind option_bind]. replace (S q - nw)%nat with (S (q - nw)) by lia.
    destruct (shl_digit jv (q - nw) s Hs) as [-> ->].
    eexists _, _. split; [done|]. split; [auto with gaston|]. split; [|done].
    rewrite div_bpow_S. set (w := jv / bpow (q - nw)).
    pose proof (Z.div_mod (w / 2 ^ (16 - s)) DIG_BASE ltac:(done)) as E.
    rewrite Z.div_div in E |- * by (unfold DIG_BASE; lia).
    rewrite (Z.mul_comm (2 ^ (16 - s)) DIG_BASE) in E. rewrite <- Z.div_div in E by (unfold DIG_BASE; lia).
    rewrite <- Z.div_div by (unfold DIG_BASE; lia). lia. }
  rewrite Nat.sub_diag, bpow_0, Z.div_1_r in *. exists dst2. by rewrite E.
Qed.

Lemma mpn_shl_spec dst j jlen jv n (nw := Z.to_nat ((n + 15) / 16)) :
  Forall is_dig dst -> holds (contents j dst) jlen jv -> (jlen + nw <= length dst)%nat ->
  0 < n < 2 ^ 64 - 16 ->
  exists dst' m, mpn_shl dst j jlen n = Some (dst', m) /\ result (length dst) dst' m (jv * 2 ^ n).
Proof.
  intros Hd Hj Hlen Hn. unfold mpn_shl. rewrite wrapU_small by (unfold DIG_SIZE; lia).
  replace (n + DIG_SIZE - 1) with (n + 15) by (unfold DIG_SIZE; lia).
  change (Z.to_nat ((n + 15) / DIG_SIZE)) with nw.
  set (s := if n mod DIG_SIZE =? 0 then DIG_SIZE else n mod DIG_SIZE).
  assert (Hs : 0 < s <= 16 /\ n = 16 * (Z.of_nat nw - 1) + s /\ (0 < nw)%nat).
  { unfold s, nw, DIG_SIZE. destruct (Z.eqb_spec (n mod 16) 0); zdm. }
  destruct Hs as (Hs & Hns & Hnw). clearbody s nw.
  destruct (shl_loop dst j jlen jv nw s) as (dst2 & E2 & L2 & D2 & V2); [done..|].
  rewrite E2. cbn [mbind option_bind].
  assert (Hlow : Z.land (Z.shiftr (jv mod DIG_BASE * DIG_BASE) (DIG_SIZE - s)) DIG_MASK
                 = (jv * 2 ^ s) mod DIG_BASE).
  { rewrite land_mask, Z.shiftr_div_pow2 by (unfold DIG_SIZE; lia).
    replace DIG_BASE with (2 ^ s * 2 ^ (DIG_SIZE - s)) at 2
      by (rewrite <- Z.pow_add_r by (unfold DIG_SIZE; lia); by replace (s + (DIG_SIZE - s)) with 16 by (unfold DIG_SIZE; lia)).
    rewrite Z.mul_assoc, Z.div_mul by (unfold DIG_SIZE; lia). apply Z.mul_mod_idemp_l. done. }
  rewrite Hlow, put_some by (auto with gaston || lia). cbn [mbind option_bind].
  set (dst3 := <[(nw - 1)%nat := _]> dst2).
  destruct (clear_spec dst3 (nw - 1)) as (dst4 & E4 & L4 & D4 & Z4 & R4);
    [unfold dst3; rewrite length_insert; lia|apply Forall_insert; auto with gaston|].
  rewrite E4. cbn [mbind option_bind].
  assert (L34 : length dst4 = length dst) by (unfold dst3 in L4; rewrite length_insert in L4; lia).
  destruct (rtz_result dst4 (jlen + nw) (jv * 2 ^ n) D4) as (m & Hm & Hres); [lia| |].
  2: { exists dst4, m. rewrite Hm. cbn [mbind option_bind]. by rewrite L34 in Hres. }
  rewrite <- (take_drop (nw - 1) (take (jlen + nw) dst4)), dval_app, take_take, length_take.
  rewrite Nat.min_l, Nat.min_l by (rewrite ?length_take; lia). rewrite Z4.
  rewrite skipn_firstn_comm, R4, <- skipn_firstn_comm.
  assert (Hl3 : take (jlen + nw) dst3 !! (nw - 1)%nat = Some ((jv * 2 ^ s) mod DIG_BASE)).
  { rewrite lookup_take_lt by lia. apply list_lookup_insert_eq. lia. }
  rewrite (drop_S _ _ _ Hl3). cbn [dval]. replace (S (nw - 1)) with nw by lia.
  unfold dst3. rewrite take_insert_lt, drop_insert_lt, V2 by lia.
  replace (jv / 2 ^ (16 - s)) with (jv * 2 ^ s / DIG_BASE).
  - rewrite <- (Z.add_comm (DIG_BASE * _)), <- (Z.div_mod (jv * 2 ^ s) DIG_BASE) by done.
    rewrite Hns, Z.pow_add_r, bpow_2 by lia. replace (Z.of_nat (nw - 1)) with (Z.of_nat nw - 1) by lia. lia.
  - replace DIG_BASE with (2 ^ (16 - s) * 2 ^ s)
      by (rewrite <- Z.pow_add_r by lia; by replace (16 - s + s) with 16 by lia).
    apply Z.div_mul_cancel_r; lia.
Qed.

(** * Multiplication *)


Section multiplication.
Context (jdig kdig : list Z) (jlen klen size : nat) (jv kv : Z).
Context (Hj : holds jdig jlen jv) (Hk : holds kdig klen kv) (Hsize : (jlen + klen <= size)%nat).

(** The buffer before row [off]: the product with the digits of k so far,
    and zeros above. *)
Definition mul_inv (off : nat) (dst : list Z) : Prop :=
  length dst = size /\ Forall is_dig dst /\
  dval (take (off + jlen) dst) = jv * (kv mod bpow off) /\
  Forall (fun d => d = 0) (drop (off + jlen) dst).

Lemma mul_row_loop off dst kd : (off < klen)%nat -> mul_inv off dst ->
  kd = kv / bpow off mod DIG_BASE ->
  exists c dst', digits_up (mul_step jdig kd off) jlen off 0 dst = Some (c, dst') /\
    length dst' = size /\ Forall is_dig dst' /\ is_dig c /\
    drop (off + jlen) dst' = drop (off + jlen) dst /\
    dval (take (off + jlen) dst') + bpow (off + jlen) * c = jv * (kv mod bpow (S off)).
Proof.
  intros Hoff (HL & HD & HV & _) Hkd.
  assert (Hdk : is_dig kd) by (rewrite Hkd; auto with gaston).
  destruct (digits_up_rule (mul_step jdig kd off)
    (fun p v c => is_dig c /\
       v + bpow p * c = dval (take p dst) + bpow off * (jv mod bpow (p - off)) * kd) dst jlen off 0 dst)
    as (c & dst' & E & L & D & R & Hc & Hv); [lia|done|done|done| | |].
  { rewrite Nat.sub_diag, bpow_0, Z.mod_1_r. split; [done|lia]. }
  { intros p v c dst' Hp _ Hdrop _ [Hc HI]. unfold mul_step.
    rewrite (get_later Self dst' dst p p) by (done || lia). unfold get. cbn [contents].
    destruct (lookup_lt_is_Some_2 dst p ltac:(lia)) as [a Ha]. rewrite Ha. cbn [mbind option_bind].
    rewrite (holds_lookup _ _ _ (p - off) Hj) by lia. cbn [mbind option_bind].
    set (b := jv / bpow (p - off) mod DIG_BASE).
    pose proof (Forall_lookup_1 _ _ _ _ HD Ha) as Hda. pose proof (is_dig_mod (jv / bpow (p - off))) as Hdb.
    fold b in Hdb. unfold is_dig, DIG_BASE in Hdk, Hc, Hda, Hdb.
    assert (Hprod : 0 <= b * kd <= 65535 * 65535) by nia.
    rewrite (wrapU_small 32 (b * kd)), (wrapU_small 32 (a + _)) by lia.
    destruct (carry_split 0 (c + (a + b * kd)) ltac:(lia)) as (d & c' & Hdd & Hc' & ? & ? & ? & _).
    exists d, c'. rewrite Hdd, Hc'. split; [done|]. split; [done|]. split; [done|].
    replace (S p - off)%nat with (S (p - off)) by lia.
    rewrite (dval_take_S _ _ _ Ha), mod_bpow_S, bpow_S. fold b.
    rewrite (bpow_split off p) in HI |- * by lia. nia. }
  exists c, dst'. split; [done|]. split; [lia|]. split_and!; try done; [apply Hc..|].
  rewrite Hv, HV, mod_bpow_S, <- Hkd. replace (off + jlen - off)%nat with jlen by lia.
  rewrite (Z.mod_small jv) by by apply (holds_bounds jdig). lia.
Qed.

Lemma mul_row off dst : (off < klen)%nat -> mul_inv off dst ->
  exists kd c dst1 dst2 ilen, kdig !! off = Some kd /\
    digits_up (mul_step jdig kd off) jlen off 0 dst = Some (c, dst1) /\
    put_carry dst1 (off + jlen) c = Some (dst2, ilen) /\ mul_inv (S off) dst2 /\
    dval (take ilen dst2) = jv * (kv mod bpow (S off)) /\
    (ilen = (off + jlen)%nat \/ ilen = S (off + jlen) /\ bpow (off + jlen) <= jv * (kv mod bpow (S off))).
Proof.
  intros Hoff Hinv. pose proof (holds_lookup _ _ _ off Hk Hoff) as Hkd.
  destruct (mul_row_loop off dst _ Hoff Hinv eq_refl) as (c & dst1 & E & L & D & Dc & R & V).
  destruct Hinv as (HL & _ & _ & HZ).
  assert (Hlt : jv * (kv mod bpow (S off)) < bpow (length dst1)).
  { pose proof (holds_bounds _ _ _ Hj). pose proof (Z.mod_pos_bound kv (bpow (S off)) (bpow_pos _)).
    pose proof (bpow_le (jlen + S off) (length dst1) ltac:(lia)) as Hle. rewrite bpow_add in Hle.
    pose proof (bpow_pos jlen). pose proof (bpow_pos (S off)). nia. }
  destruct (put_carry_spec dst1 (off + jlen) c _ D ltac:(lia) Dc V Hlt)
    as (dst2 & ilen & E2 & L2 & D2 & Hm & V2 & Hcase).
  eexists _, c, dst1, dst2, ilen. split; [done|]. split; [done|]. split; [done|].
  assert (Hz : dst !! (off + jlen)%nat = Some 0).
  { destruct (lookup_lt_is_Some_2 dst (off + jlen) ltac:(lia)) as [z Hz].
    rewrite Hz. f_equal. rewrite (drop_S _ _ _ Hz) in HZ. by apply Forall_inv in HZ. }
  rewrite (drop_S _ _ _ Hz) in HZ. apply Forall_inv_tail in HZ.
  split; [|split; [done|]].
  2: { destruct Hcase as [[? _]|[? ?]]; [by left|by right]. }
  unfold put_carry in E2. destruct (Z.eqb_spec c 0) as [->|Hc0].
  - simplify_eq. split_and!; [lia|done| |].
    + cbn [Nat.add]. erewrite dval_take_S; [|rewrite <- Hz, <- (Nat.add_0_r (off + jlen)), <- !lookup_drop; by rewrite R].
      lia.
    + cbn [Nat.add]. pose proof (drop_drop dst2 1 (off + jlen)) as R1.
      rewrite R, drop_drop, Nat.add_1_r in R1. by rewrite <- R1.
  - rewrite put_some in E2 by (done || lia). cbn [mbind option_bind] in E2. simplify_eq.
    split_and!; [lia|done|done|]. cbn [Nat.add]. rewrite drop_insert_lt by lia.
    pose proof (drop_drop dst1 1 (off + jlen)) as R1.
    rewrite R, drop_drop, Nat.add_1_r in R1. by rewrite <- R1.
Qed.

Lemma mul_rows_spec n off ilen dst : (n + off = klen)%nat -> (0 < n)%nat -> mul_inv off dst ->
  exists dst' m, mul_rows jdig jlen kdig n off ilen dst = Some (dst', m) /\
    length dst' = size /\ Forall is_dig dst' /\ dval (take m dst') = jv * kv /\
    (m = pred (jlen + klen) \/ m = (jlen + klen)%nat /\ bpow (pred (jlen + klen)) <= jv * kv).
Proof.
  revert off ilen dst. induction n as [|n IH]; intros off ilen dst Hn Hpos Hinv; [lia|].
  destruct (mul_row off dst ltac:(lia) Hinv) as (kd & c & dst1 & dst2 & ilen' & E1 & E2 & E3 & Hinv2 & V & Hcase).
  cbn [mul_rows]. rewrite E1. cbn [mbind option_bind]. rewrite E2. cbn [mbind option_bind].
  rewrite E3. cbn [mbind option_bind]. destruct (decide (n = 0%nat)) as [->|Hn0].
  - exists dst2, ilen'. destruct Hinv2 as (? & ? & _). assert (S off = klen) as Hoff by lia.
    rewrite Hoff in *. pose proof (holds_bounds _ _ _ Hk). rewrite Z.mod_small in * by lia.
    split_and!; try done. replace (pred (jlen + klen)) with (off + jlen)%nat by lia.
    destruct Hcase as [->|[-> ?]]; [by left|right]. split; [lia|done].
  - apply IH; [lia|lia|done].
Qed.
End multiplication.

Lemma mpn_mul_spec dst jdig jlen kdig klen jv kv :
  holds jdig jlen jv -> holds kdig klen kv ->
  normal (take jlen jdig) -> normal (take klen kdig) -> (0 < jlen)%nat -> (0 < klen)%nat ->
  (jlen + klen <= length dst)%nat -> Forall (fun d => d = 0) dst ->
  exists dst' n, mpn_mul dst jdig jlen kdig klen = Some (dst', n) /\
    result (length dst) dst' n (jv * kv).
Proof.
  intros Hj Hk Nj Nk Lj Lk Hsize Hz.
  destruct (mul_rows_spec jdig kdig jlen klen (length dst) jv kv Hj Hk Hsize klen 0 0 dst)
    as (dst' & m & E & L & D & V & Hcase); [lia|done| |].
  { split_and!; [done| | |by apply Forall_drop].
    - eapply Forall_impl; [|exact Hz]. intros d ->. unfold is_dig, DIG_BASE. lia.
    - rewrite bpow_0, Z.mod_1_r, Z.mul_0_r. cbn [Nat.add].
      by apply dval_zeros, Forall_take. }
  unfold mpn_mul. exists dst', m. split; [done|].
  split_and!; [done|done|destruct Hcase as [->|[-> _]]; lia|done|].
  apply normal_take; [done|destruct Hcase as [->|[-> _]]; lia|]. right. rewrite V.
  destruct Hcase as [->|[-> ?]]; [|done].
  destruct Hj as (Hjl & Hjd & <-), Hk as (Hkl & Hkd & <-).
  pose proof (normal_take_lower jdig jlen Hjd ltac:(lia) Nj).
  pose proof (normal_take_lower kdig klen Hkd ltac:(lia) Nk).
  replace (pred (pred (jlen + klen))) with (pred jlen + pred klen)%nat by lia. rewrite bpow_add.
  pose proof (bpow_pos (pred jlen)). pose proof (bpow_pos (pred klen)). nia.
Qed.
