(* ===== verification/MpnBits.v ===== *)
(** The bitwise mpn routines of py/mpz.c are exact: on non-negative numbers
    digit by digit, on negative numbers through the two's complement they
    form on the fly. *)
From S2P Require Import Prelude Digits Mpn.

(** * Facts on two's complement digits *)

Lemma lor_ge a b : 0 <= b \/ a < 0 -> a <= Z.lor a b.
Proof.
  intros H. assert (E : a + Z.ldiff b a = Z.lor a b).
  { rewrite Z.add_nocarry_lor.
    - apply Z.bits_inj'. intros i Hi. rewrite !Z.lor_spec, Z.ldiff_spec.
      by destruct (Z.testbit a i), (Z.testbit b i).
    - apply Z.bits_inj'. intros i Hi. rewrite Z.land_spec, Z.ldiff_spec, Z.bits_0.
      by destruct (Z.testbit a i), (Z.testbit b i). }
  rewrite <- E. enough (0 <= Z.ldiff b a) by lia. apply Z.ldiff_nonneg. lia.
Qed.

Lemma land_below a b n : 0 <= b < n -> 0 <= Z.land a b < n.
Proof.
  intros Hb. assert (0 <= Z.land a b) by (apply Z.land_nonneg; lia).
  assert (E : Z.land a b + Z.ldiff b a = b).
  { rewrite Z.add_nocarry_lor; apply Z.bits_inj'; intros i Hi;
      rewrite ?Z.lor_spec, ?Z.land_spec, Z.ldiff_spec, ?Z.bits_0;
      by destruct (Z.testbit a i), (Z.testbit b i). }
  enough (0 <= Z.ldiff b a) by lia. apply Z.ldiff_nonneg. lia.
Qed.

Lemma lxor_mask d : is_dig d -> Z.lxor d DIG_MASK = DIG_MASK - d.
Proof.
  intros Hd. change DIG_MASK with (Z.ones 16). rewrite Z.ones_equiv.
  replace (Z.pred (2 ^ 16) - d) with (Z.lnot d mod 2 ^ 16).
  - apply Z.bits_inj'. intros i Hi. rewrite Z.lxor_spec. destruct (Z.ltb_spec i 16).
    + rewrite Z.mod_pow2_bits_low, Z.lnot_spec, <- Z.ones_equiv, Z.ones_spec_low by lia.
      by destruct (Z.testbit d i).
    + rewrite Z.mod_pow2_bits_high, <- Z.ones_equiv, Z.ones_spec_high by lia.
      unfold is_dig, DIG_BASE in Hd. rewrite <- (Z.mod_small d (2 ^ 16)) by lia.
      by rewrite Z.mod_pow2_bits_high by lia.
  - unfold Z.lnot, is_dig, DIG_BASE in *. symmetry. apply (Z.mod_unique _ _ (-1)); lia.
Qed.

(** The sign chosen by the mask of a carry. *)
Definition signed (neg : bool) (x : Z) : Z := if neg then - x else x.

Definition neg_carry (neg : bool) (x : Z) (p : nat) : Z := Z.b2z (neg && (x mod bpow p =? 0)).

Lemma neg_carry_range neg x p : 0 <= neg_carry neg x p <= 1.
Proof. unfold neg_carry. by destruct (_ && _). Qed.

(** One digit of the two's complement of x: invert and add the carry. *)
Lemma neg_digit neg x p : let d := x / bpow p mod DIG_BASE in
  let c := neg_carry neg x p + Z.lxor d (if neg then DIG_MASK else 0) in
  0 <= c <= DIG_BASE /\ c mod DIG_BASE = signed neg x / bpow p mod DIG_BASE /\
  Z.shiftr c DIG_SIZE = neg_carry neg x (S p).
Proof.
  intros d c. pose proof (is_dig_mod (x / bpow p)) as Hd. fold d in Hd. rewrite shr_dig.
  pose proof (bpow_pos p) as Hp. unfold c, neg_carry, signed. destruct neg; cbn [andb].
  2: { rewrite Z.lxor_0_r. unfold is_dig in Hd. cbn [Z.b2z]. rewrite Z.add_0_l.
       split; [lia|]. split; [by unfold d; rewrite Z.mod_mod by done|]. by apply Z.div_small. }
  rewrite lxor_mask by done. rewrite mod_bpow_S. fold d. unfold is_dig, DIG_MASK, DIG_BASE in *.
  pose proof (Z.mod_pos_bound x (bpow p) Hp) as Hm.
  destruct (Z.eqb_spec (x mod bpow p) 0) as [E|E]; cbn [Z.b2z]; (split; [lia|split]).
  - rewrite Z.div_opp_l_z by lia. unfold d. zdm.
  - rewrite E. destruct (Z.eqb_spec (0 + bpow p * d) 0); cbn [Z.b2z].
    + assert (d = 0) as -> by nia. done.
    + assert (d <> 0) by nia. clearbody d. zdm.
  - rewrite Z.div_opp_l_nz by lia. unfold d. zdm.
  - destruct (Z.eqb_spec (x mod bpow p + bpow p * d) 0); cbn [Z.b2z]; [nia|].
    clearbody d. zdm.
Qed.

(** The closing carry of the two's complement of a number of [p] digits. *)
Lemma signed_value neg x p : - bpow p <= x < bpow p -> 0 <= signed neg x -> (neg = true -> x < 0) ->
  signed neg x mod bpow p + bpow p * neg_carry neg x p = signed neg x.
Proof.
  unfold signed, neg_carry. intros Hx Hs Hn. pose proof (bpow_pos p). destruct neg; cbn [andb].
  - specialize (Hn eq_refl). destruct (decide (x = - bpow p)) as [->|].
    + rewrite Z.opp_involutive, Z_mod_same_full, Z_mod_zero_opp_full by apply Z_mod_same_full.
      cbn [Z.eqb Z.b2z]. lia.
    + rewrite Z.mod_small by lia. rewrite <- (Z.mod_add x 1), Z.mod_small by lia.
      destruct (Z.eqb_spec (x + 1 * bpow p) 0); [lia|]. cbn [Z.b2z]. lia.
  - rewrite Z.mod_small by lia. cbn [Z.b2z]. lia.
Qed.

(** * Non-negative operands *)

Lemma op_digit op f a b p : f false false = false -> bitwise op f ->
  is_dig (op (a / bpow p mod DIG_BASE) (b / bpow p mod DIG_BASE)) /\
  op a b mod bpow (S p) = op a b mod bpow p + bpow p * op (a / bpow p mod DIG_BASE) (b / bpow p mod DIG_BASE).
Proof.
  intros Hf Hop. rewrite <- (bitwise_digit op f) by done. split; [auto with gaston|apply mod_bpow_S].
Qed.

(** A number of [n] digits stays a number of [n] digits. *)
Lemma op_small op f a b n : f false false = false -> bitwise op f ->
  0 <= a < bpow n -> 0 <= b < bpow n -> op a b mod bpow n = op a b.
Proof.
  intros Hf Hop Ha Hb. rewrite bpow_2 in *. rewrite (bitwise_mod op f) by (done || lia).
  by rewrite !Z.mod_small.
Qed.

Lemma bit_loop op f dst j jlen jv k klen kv : f false false = false -> bitwise op f ->
  (forall a, op a 0 = a) \/ jlen = klen ->
  Forall is_dig dst -> holds (contents j dst) jlen jv -> holds (contents k dst) klen kv ->
  (klen <= jlen <= length dst)%nat ->
  exists dst1 dst2, digits_up (bit_step op j k) klen 0 tt dst = Some (tt, dst1) /\
    digits_up (copy_step j) (jlen - klen) klen tt dst1 = Some (tt, dst2) /\
    length dst2 = length dst /\ Forall is_dig dst2 /\ dval (take jlen dst2) = op jv kv mod bpow jlen.
Proof.
  intros Hf Hop H0 Hd Hj Hk Hlen.
  destruct (two_loops (bit_step op j k) (copy_step j) (fun p v _ => v = op jv kv mod bpow p)
    klen jlen tt dst) as ([] & dst1 & [] & dst2 & E1 & E2 & L2 & D2 & Hv); [lia|done| | | |].
  { by rewrite bpow_0, Z.mod_1_r. }
  { intros p v [] dst' Hp Hdrop ->. unfold bit_step.
    rewrite (get_value j dst' dst p p jlen jv) by (done || lia). cbn [mbind option_bind].
    rewrite (get_value k dst' dst p p klen kv) by (done || lia). cbn [mbind option_bind].
    destruct (op_digit op f jv kv p Hf Hop) as [? E]. eexists _, tt. split; [done|]. by rewrite E. }
  { intros p v [] dst' Hp Hdrop ->. unfold copy_step.
    rewrite (get_value j dst' dst p p jlen jv) by (done || lia). cbn [mbind option_bind].
    destruct (op_digit op f jv kv p Hf Hop) as [Hdd E]. eexists _, tt. split; [done|].
    rewrite E. rewrite (Z.div_small kv) in * by (pose proof (holds_bounds _ _ _ Hk); pose proof (bpow_le klen p ltac:(lia)); lia).
    rewrite Z.mod_0_l in * by done. destruct H0 as [H0|]; [by rewrite H0 in *|lia]. }
  eauto 10.
Qed.

Lemma mpn_and_spec dst j jlen k klen jv kv :
  Forall is_dig dst -> holds (contents j dst) jlen jv -> holds (contents k dst) klen kv ->
  (klen <= jlen)%nat -> (klen <= length dst)%nat ->
  exists dst' n, mpn_and dst j k klen = Some (dst', n) /\ result (length dst) dst' n (Z.land jv kv).
Proof.
  intros Hd Hj Hk Hle Hlen. pose proof (holds_bounds _ _ _ Hk) as Bk.
  assert (Hj' : holds (contents j dst) klen (jv mod bpow klen)).
  { destruct Hj as (? & Hjd & <-). split_and!; [lia|done|].
    rewrite <- (dval_take_mod (take jlen _)) by by apply Forall_take. rewrite take_take. f_equal. f_equal. lia. }
  destruct (bit_loop Z.land andb dst j klen _ k klen kv eq_refl land_bitwise (or_intror eq_refl) Hd Hj' Hk)
    as (dst1 & dst2 & E1 & E2 & L2 & D2 & Hv); [lia|].
  rewrite Nat.sub_diag in E2. cbn [digits_up] in E2. injection E2 as <-.
  unfold mpn_and. rewrite E1. cbn [mbind option_bind]. rewrite <- L2.
  destruct (rtz_result dst1 klen (Z.land jv kv)) as (n & -> & Hr); [done|lia| |by eauto].
  rewrite Hv. rewrite bpow_2 in Bk |- *. rewrite (bitwise_mod _ andb) by (done || lia || apply land_bitwise).
  rewrite Z.mod_mod by lia. rewrite <- (bitwise_mod _ andb) by (done || lia || apply land_bitwise).
  apply Z.mod_small. rewrite <- bpow_2 in *. by apply land_below.
Qed.

Lemma mpn_or_spec dst j jlen k klen jv kv :
  Forall is_dig dst -> holds (contents j dst) jlen jv -> holds (contents k dst) klen kv ->
  (klen <= jlen <= length dst)%nat -> normal (take jlen (contents j dst)) ->
  exists dst' n, mpn_or dst j jlen k klen = Some (dst', n) /\ result (length dst) dst' n (Z.lor jv kv).
Proof.
  intros Hd Hj Hk Hlen Hn. pose proof (holds_bounds _ _ _ Hk). pose proof (holds_bounds _ _ _ Hj).
  destruct (bit_loop Z.lor orb dst j jlen jv k klen kv eq_refl lor_bitwise (or_introl Z.lor_0_r) Hd Hj Hk)
    as (dst1 & dst2 & E1 & E2 & L2 & D2 & Hv); [lia|].
  unfold mpn_or. rewrite E1. cbn [mbind option_bind]. rewrite E2. cbn [mbind option_bind].
  pose proof (bpow_le klen jlen ltac:(lia)).
  rewrite (op_small _ _ _ _ _ eq_refl lor_bitwise) in Hv by lia.
  exists dst2, jlen. split; [done|]. split_and!; [done|done|lia|done|].
  apply normal_take; [done|lia|]. rewrite Hv. destruct jlen as [|jlen]; [by left|right].
  pose proof (lor_ge jv kv ltac:(lia)). destruct Hj as (Hjl & Hjd & <-).
  pose proof (normal_take_lower (contents j dst) (S jlen) Hjd ltac:(lia) Hn). lia.
Qed.

Lemma mpn_xor_spec dst j jlen k klen jv kv :
  Forall is_dig dst -> holds (contents j dst) jlen jv -> holds (contents k dst) klen kv ->
  (klen <= jlen <= length dst)%nat ->
  exists dst' n, mpn_xor dst j jlen k klen = Some (dst', n) /\ result (length dst) dst' n (Z.lxor jv kv).
Proof.
  intros Hd Hj Hk Hlen. pose proof (holds_bounds _ _ _ Hk). pose proof (holds_bounds _ _ _ Hj).
  destruct (bit_loop Z.lxor xorb dst j jlen jv k klen kv eq_refl lxor_bitwise (or_introl Z.lxor_0_r) Hd Hj Hk)
    as (dst1 & dst2 & E1 & E2 & L2 & D2 & Hv); [lia|].
  unfold mpn_xor. rewrite E1. cbn [mbind option_bind]. rewrite E2. cbn [mbind option_bind].
  pose proof (bpow_le klen jlen ltac:(lia)).
  rewrite (op_small _ _ _ _ _ eq_refl lxor_bitwise) in Hv by lia. rewrite <- L2.
  destruct (rtz_result dst2 jlen (Z.lxor jv kv)) as (n & -> & Hr); [done|lia|done|]. eauto.
Qed.

(** * Negative operands *)

(** The digits of k, zero past its end; [c_klen] and [c_jlen] count down
    together, the first wrapping when k is exhausted. *)
Lemma next_k_spec f f0 k dst dst0 klen kv jlen p :
  holds (contents k dst0) klen kv -> drop p dst = drop p dst0 ->
  (p < jlen)%nat -> (klen <= jlen)%nat -> Z.of_nat jlen < 2 ^ 63 -> f 0 = f0 ->
  next_k f f0 k p dst (u64 (u64 (Z.of_nat jlen - Z.of_nat p) - 1))
    (u64 (u64 (Z.of_nat klen - Z.of_nat p) - 1)) = Some (f (kv / bpow p mod DIG_BASE)).
Proof.
  intros Hk Hdrop Hp Hlen Hsz Hf. unfold next_k, wrapU. rewrite !Zminus_mod_idemp_l.
  rewrite (Z.mod_small (Z.of_nat jlen - _ - 1)) by lia.
  destruct (decide (p < klen)%nat) as [Hlt|Hge].
  - rewrite Z.mod_small by lia. destruct (Z.leb_spec (Z.of_nat klen - Z.of_nat p - 1) (Z.of_nat jlen - Z.of_nat p - 1)); [|lia].
    by rewrite (get_value k dst dst0 p p klen kv) by (done || lia).
  - rewrite <- (Z.mod_add _ 1), Z.mod_small by lia.
    destruct (Z.leb_spec (Z.of_nat klen - Z.of_nat p - 1 + 1 * 2 ^ 64) (Z.of_nat jlen - Z.of_nat p - 1)); [lia|].
    rewrite (Z.div_small kv), Z.mod_0_l, Hf; [done|done|].
    pose proof (holds_bounds _ _ _ Hk). pose proof (bpow_le klen p ltac:(lia)). lia.
Qed.

Lemma u64_step l p : u64 (u64 (Z.of_nat l - Z.of_nat p) - 1) = u64 (Z.of_nat l - Z.of_nat (S p)).
Proof. unfold wrapU. rewrite Zminus_mod_idemp_l. f_equal. lia. Qed.

Definition counts (jlen klen p : nat) (c : carries) : Prop :=
  c_jlen c = u64 (Z.of_nat jlen - Z.of_nat p) /\ c_klen c = u64 (Z.of_nat klen - Z.of_nat p).

Lemma dig_mask_b2z b : dig_mask (Z.b2z b) = if b then DIG_MASK else 0.
Proof. by destruct b. Qed.

(** The loop of [mpn_and_neg] and [mpn_or_neg]: [op] on the two's complements
    of the operands, and the two's complement of the result. *)
Lemma neg_loop op f dst j jlen jv k klen kv (ni nj nk : bool) :
  f false false = false -> bitwise op f ->
  Forall is_dig dst -> holds (contents j dst) jlen jv -> holds (contents k dst) klen kv ->
  (klen <= jlen <= length dst)%nat -> Z.of_nat jlen < 2 ^ 63 ->
  let r := op (signed nj jv) (signed nk kv) in
  exists c dst', digits_up (neg_step op (dig_mask (Z.b2z ni)) (dig_mask (Z.b2z nj)) (dig_mask (Z.b2z nk)) j k)
      jlen 0 {| ci := Z.b2z ni; cj := Z.b2z nj; ck := Z.b2z nk;
                c_jlen := Z.of_nat jlen; c_klen := Z.of_nat klen |} dst = Some (c, dst') /\
    length dst' = length dst /\ Forall is_dig dst' /\
    dval (take jlen dst') = signed ni r mod bpow jlen /\ ci c = neg_carry ni r jlen.
Proof.
  intros Hf Hop Hd Hj Hk Hlen Hsz r.
  destruct (digits_up_rule
    (neg_step op (dig_mask (Z.b2z ni)) (dig_mask (Z.b2z nj)) (dig_mask (Z.b2z nk)) j k)
    (fun p v c => v = signed ni r mod bpow p /\ ci c = neg_carry ni r p /\
       cj c = neg_carry nj jv p /\ ck c = neg_carry nk kv p /\ counts jlen klen p c)
    dst jlen 0 {| ci := Z.b2z ni; cj := Z.b2z nj; ck := Z.b2z nk;
                  c_jlen := Z.of_nat jlen; c_klen := Z.of_nat klen |} dst)
    as (c & dst2 & E & L & D & _ & Hv & Hc & _); [lia|done|done|done| | |by eauto 10].
  { unfold neg_carry, counts. rewrite bpow_0, !Z.mod_1_r, !andb_true_r. cbn [c_jlen c_klen ci cj ck].
    rewrite Z.sub_0_r, Z.sub_0_r. split_and!; try done; symmetry; apply wrapU_small; lia. }
  intros p v c dst' Hp _ Hdrop _ (-> & Hci & Hcj & Hck & Hc1 & Hc2). unfold neg_step.
  rewrite (get_value j dst' dst p p jlen jv) by (done || lia). cbn [mbind option_bind].
  rewrite Hc1, Hc2, Hci, Hcj, Hck, !dig_mask_b2z.
  rewrite (next_k_spec _ _ k dst' dst klen kv jlen p) by (done || lia). cbn [mbind option_bind].
  pose proof (neg_digit nj jv p) as Nj. pose proof (neg_digit nk kv p) as Nk. cbv zeta in Nj, Nk.
  set (xj := neg_carry nj jv p + _) in *. set (xk := neg_carry nk kv p + _) in *.
  destruct Nj as (Bj & Mj & Sj), Nk as (Bk & Mk & Sk).
  rewrite (wrapU_small 32 xj), (wrapU_small 32 xk) by (unfold DIG_BASE in *; lia).
  assert (Hr : Z.land (Z.lxor (op xj xk) (if ni then DIG_MASK else 0)) DIG_MASK
               = Z.lxor (r / bpow p mod DIG_BASE) (if ni then DIG_MASK else 0)).
  { rewrite land_mask. change DIG_BASE with (2 ^ 16).
    rewrite (bitwise_mod Z.lxor xorb) by (done || apply lxor_bitwise).
    rewrite (bitwise_mod op f) by done. change (2 ^ 16) with DIG_BASE. rewrite Mj, Mk.
    unfold r. rewrite (bitwise_digit op f) by done. f_equal. by destruct ni. }
  rewrite Hr. destruct (neg_digit ni r p) as (Bi & Mi & Si). set (xi := neg_carry ni r p + _) in *.
  rewrite (wrapU_small 32 xi) by (unfold DIG_BASE in *; lia).
  eexists _, _. split; [done|]. split; [auto with gaston|]. unfold counts. cbn [ci cj ck c_jlen c_klen].
  rewrite land_mask, Mi, <- mod_bpow_S, !u64_step. done.
Qed.

Lemma signed_range neg v n : 0 <= v < bpow n -> - bpow n <= signed neg v < bpow n.
Proof. unfold signed. destruct neg; lia. Qed.

Lemma op_range op f a b n : f false false = false -> bitwise op f ->
  - bpow n <= a < bpow n -> - bpow n <= b < bpow n -> - bpow n <= op a b < bpow n.
Proof. intros. rewrite bpow_2 in *. by apply (bitwise_range op f); [lia|..]. Qed.

(** [mpn_and_neg] with the carries of the signs of its operands. *)
Lemma mpn_and_neg_spec dst j jlen k klen jv kv (nj nk : bool) :
  Forall is_dig dst -> holds (contents j dst) jlen jv -> holds (contents k dst) klen kv ->
  (klen <= jlen < length dst)%nat -> Z.of_nat jlen < 2 ^ 63 ->
  (nj = true -> 0 < jv) -> (nk = true -> 0 < kv) ->
  let r := Z.land (signed nj jv) (signed nk kv) in
  exists dst' n, mpn_and_neg dst j jlen k klen (Z.b2z (nj && nk)) (Z.b2z nj) (Z.b2z nk) = Some (dst', n) /\
    result (length dst) dst' n (Z.abs r) /\ (r < 0 <-> nj && nk = true).
Proof.
  intros Hd Hj Hk Hlen Hsz Pj Pk r. pose proof (holds_bounds _ _ _ Hj) as Bj.
  pose proof (holds_bounds _ _ _ Hk) as Bk. pose proof (bpow_le klen jlen ltac:(lia)) as Hp.
  assert (Hr : - bpow jlen <= r < bpow jlen)
    by (apply (op_range _ andb); [done|apply land_bitwise|apply signed_range; lia..]).
  assert (Hneg : r < 0 <-> nj && nk = true).
  { unfold r. rewrite <- Z.nle_gt, Z.land_nonneg. unfold signed.
    destruct nj, nk; cbn [andb]; try specialize (Pj eq_refl); try specialize (Pk eq_refl); split; try done; lia. }
  destruct (neg_loop Z.land andb dst j jlen jv k klen kv (nj && nk) nj nk eq_refl land_bitwise Hd Hj Hk)
    as (c & dst1 & E & L & D & Hv & Hc); [lia|done|]. fold r in Hv, Hc.
  assert (Habs : signed (nj && nk) r = Z.abs r).
  { unfold signed. destruct (nj && nk).
    - assert (r < 0) by by apply Hneg. lia.
    - assert (~ r < 0) by by rewrite Hneg. lia. }
  pose proof (signed_value (nj && nk) r jlen Hr ltac:(rewrite Habs; lia) ltac:(by apply Hneg)) as Hsv.
  rewrite <- Hv, <- Hc, Habs in Hsv.
  unfold mpn_and_neg. rewrite E. cbn [mbind option_bind].
  assert (Hlt : bpow jlen < bpow (length dst1)).
  { pose proof (bpow_le (S jlen) (length dst1) ltac:(lia)) as Hle. rewrite bpow_S in Hle.
    pose proof (bpow_pos jlen). unfold DIG_BASE in Hle. lia. }
  destruct (put_carry_spec dst1 jlen (ci c) (Z.abs r) D ltac:(lia)) as (dst2 & n & E2 & L2 & D2 & Hn & V2 & _);
    [rewrite Hc; pose proof (neg_carry_range (nj && nk) r jlen); unfold is_dig, DIG_BASE; lia|done|lia|].
  rewrite E2. cbn [mbind option_bind].
  destruct (rtz_result dst2 n (Z.abs r) D2 ltac:(lia) V2) as (m & -> & Hres). cbn [mbind option_bind].
  exists dst2, m. split; [done|]. split; [|done]. by replace (length dst) with (length dst2) by lia.
Qed.

(** [mpn_or_neg], with its assert. *)
Lemma mpn_or_neg_spec dst j jlen k klen jv kv (nj nk : bool) :
  Forall is_dig dst -> holds (contents j dst) jlen jv -> holds (contents k dst) klen kv ->
  (klen <= jlen <= length dst)%nat -> Z.of_nat jlen < 2 ^ 63 ->
  (nj = true -> 0 < jv) -> (nk = true -> 0 < kv) -> nj || nk = true ->
  let r := Z.lor (signed nj jv) (signed nk kv) in
  exists dst' n, mpn_or_neg dst j jlen k klen (Z.b2z nj) (Z.b2z nk) = Some (dst', n) /\
    result (length dst) dst' n (- r) /\ r < 0.
Proof.
  intros Hd Hj Hk Hlen Hsz Pj Pk Hnn r. pose proof (holds_bounds _ _ _ Hj) as Bj.
  pose proof (holds_bounds _ _ _ Hk) as Bk. pose proof (bpow_le klen jlen ltac:(lia)) as Hp.
  assert (Hr : - bpow jlen < r).
  { unfold r. destruct nj; cbn [signed].
    - specialize (Pj eq_refl). pose proof (lor_ge (- jv) (signed nk kv) ltac:(lia)). lia.
    - destruct nk; [|done]. cbn [signed]. specialize (Pk eq_refl). rewrite Z.lor_comm.
      pose proof (lor_ge (- kv) jv ltac:(lia)). lia. }
  assert (Hneg : r < 0).
  { unfold r. rewrite <- Z.nle_gt, Z.lor_nonneg. unfold signed.
    destruct nj, nk; try specialize (Pj eq_refl); try specialize (Pk eq_refl); try done; lia. }
  destruct (neg_loop Z.lor orb dst j jlen jv k klen kv true nj nk eq_refl lor_bitwise Hd Hj Hk)
    as (c & dst1 & E & L & D & Hv & Hc); [lia|done|]. fold r in Hv, Hc.
  pose proof (signed_value true r jlen ltac:(pose proof (bpow_pos jlen); lia) ltac:(cbn [signed]; lia) ltac:(done)) as Hsv.
  rewrite <- Hv, <- Hc in Hsv. cbn [signed] in Hsv.
  pose proof (dval_take_bounds dst1 jlen D).
  assert (Hc0 : ci c = 0).
  { rewrite Hc in *. pose proof (neg_carry_range true r jlen). nia. }
  unfold mpn_or_neg. change (neg_step Z.lor DIG_MASK) with (neg_step Z.lor (dig_mask (Z.b2z true))).
  change 1 with (Z.b2z true). rewrite E. cbn [mbind option_bind]. rewrite Hc0. cbn [Z.eqb].
  destruct (rtz_result dst1 jlen (- r) D ltac:(lia) ltac:(lia)) as (m & -> & Hres).
  cbn [mbind option_bind]. exists dst1, m. by rewrite <- L.
Qed.

(** The borrow of [x - 1 + c0], and one digit of it. *)
Definition dec_carry (c0 x : Z) (p : nat) : Z := Z.b2z (negb (x mod bpow p + c0 =? 0)).

Lemma dec_carry_range c0 x p : 0 <= dec_carry c0 x p <= 1.
Proof. unfold dec_carry. by destruct (negb _). Qed.

Lemma dec_digit c0 x p : 0 <= c0 <= 1 -> let a := x / bpow p mod DIG_BASE in
  let c := dec_carry c0 x p + (a + DIG_MASK) in
  0 <= c < 2 * DIG_BASE /\ c mod DIG_BASE = (x - 1 + c0) / bpow p mod DIG_BASE /\
  Z.shiftr c DIG_SIZE = dec_carry c0 x (S p).
Proof.
  intros Hc a c. pose proof (is_dig_mod (x / bpow p)) as Hd. fold a in Hd.
  pose proof (dec_carry_range c0 x p). unfold is_dig in Hd. split; [unfold c, DIG_MASK, DIG_BASE in *; lia|].
  pose proof (bpow_pos p) as Hp. pose proof (Z.mod_pos_bound x (bpow p) Hp) as Hm.
  assert (Hq : (x - 1 + c0) / bpow p = x / bpow p - 1 + dec_carry c0 x p).
  { unfold dec_carry. pose proof (Z.div_mod x (bpow p) ltac:(lia)).
    destruct (Z.eqb_spec (x mod bpow p + c0) 0); cbn [negb Z.b2z]; symmetry.
    - apply (Z.div_unique_pos _ _ _ (bpow p - 1)); nia.
    - apply (Z.div_unique_pos _ _ _ (x mod bpow p - 1 + c0)); nia. }
  split.
  - rewrite Hq. unfold c, a, DIG_MASK, DIG_BASE. zdm.
  - rewrite shr_dig. unfold c, dec_carry. rewrite mod_bpow_S. fold a. unfold DIG_MASK, DIG_BASE in *.
    destruct (Z.eqb_spec (x mod bpow p + c0) 0); destruct (Z.eqb_spec (x mod bpow p + bpow p * a + c0) 0);
      cbn [negb Z.b2z]; try nia.
    + assert (a = 0) by nia. clearbody a. zdm.
    + assert (a <> 0) by nia. clearbody a. zdm.
    + clearbody a. zdm.
Qed.

Lemma xor_neg_loop dst j jlen jv k klen kv c0 j0 k0 :
  Forall is_dig dst -> holds (contents j dst) jlen jv -> holds (contents k dst) klen kv ->
  (klen <= jlen <= length dst)%nat -> Z.of_nat jlen < 2 ^ 63 ->
  0 <= c0 <= 1 -> 0 <= j0 <= 1 -> 0 <= k0 <= 1 ->
  let r := Z.lxor (jv - 1 + j0) (kv - 1 + k0) in
  exists c dst', digits_up (xor_neg_step j k) jlen 0
      {| ci := c0; cj := j0; ck := k0; c_jlen := Z.of_nat jlen; c_klen := Z.of_nat klen |} dst = Some (c, dst') /\
    length dst' = length dst /\ Forall is_dig dst' /\ 0 <= ci c <= 1 /\
    dval (take jlen dst') + bpow jlen * ci c = r mod bpow jlen + c0.
Proof.
  intros Hd Hj Hk Hlen Hsz B0 Bj Bk r.
  destruct (digits_up_rule (xor_neg_step j k)
    (fun p v c => 0 <= ci c <= 1 /\ v + bpow p * ci c = r mod bpow p + c0 /\
       cj c = dec_carry j0 jv p /\ ck c = dec_carry k0 kv p /\ counts jlen klen p c)
    dst jlen 0 {| ci := c0; cj := j0; ck := k0; c_jlen := Z.of_nat jlen; c_klen := Z.of_nat klen |} dst)
    as (c & dst2 & E & L & D & _ & Hc & Hv & _); [lia|done|done|done| | |by eauto 10].
  { unfold dec_carry, counts. rewrite firstn_O, bpow_0, !Z.mod_1_r. cbn [c_jlen c_klen ci cj ck dval].
    rewrite !Z.sub_0_r, !Z.add_0_l. split_and!; try lia; try by rewrite wrapU_small by lia.
    - destruct (Z.eqb_spec j0 0) as [->|]; cbn [negb Z.b2z]; lia.
    - destruct (Z.eqb_spec k0 0) as [->|]; cbn [negb Z.b2z]; lia. }
  intros p v c dst' Hp _ Hdrop _ (Bc & Hci & Hcj & Hck & Hc1 & Hc2). unfold xor_neg_step.
  rewrite (get_value j dst' dst p p jlen jv) by (done || lia). cbn [mbind option_bind].
  rewrite Hc1, Hc2, Hcj, Hck.
  rewrite (next_k_spec _ _ k dst' dst klen kv jlen p) by (done || lia). cbn [mbind option_bind].
  pose proof (dec_digit j0 jv p Bj) as Nj. pose proof (dec_digit k0 kv p Bk) as Nk. cbv zeta in Nj, Nk.
  set (xj := dec_carry j0 jv p + _) in *. set (xk := dec_carry k0 kv p + _) in *.
  destruct Nj as (Rj & Mj & Sj), Nk as (Rk & Mk & Sk).
  rewrite (wrapU_small 32 xj), (wrapU_small 32 xk) by (unfold DIG_BASE in *; lia).
  assert (Hr : Z.land (Z.lxor xj xk) DIG_MASK = r / bpow p mod DIG_BASE).
  { rewrite land_mask. change DIG_BASE with (2 ^ 16) at 1.
    rewrite (bitwise_mod Z.lxor xorb) by (done || apply lxor_bitwise).
    change (2 ^ 16) with DIG_BASE. rewrite Mj, Mk.
    unfold r. by rewrite (bitwise_digit Z.lxor xorb) by (done || apply lxor_bitwise). }
  rewrite Hr. pose proof (is_dig_mod (r / bpow p)) as Hdr. unfold is_dig in Hdr.
  destruct (carry_split 0 (ci c + r / bpow p mod DIG_BASE) ltac:(unfold DIG_BASE in *; lia))
    as (d & c' & Hdd & Hc' & ? & ? & ? & Hle). specialize (Hle ltac:(lia)).
  eexists _, _. split; [done|]. unfold counts. cbn [ci cj ck c_jlen c_klen].
  rewrite Hdd, Hc', !u64_step. split; [done|]. split; [lia|]. split; [|done].
  rewrite mod_bpow_S, bpow_S. nia.
Qed.

(** [mpn_xor_neg]: i = ((j - 1 + jc) ^ (k - 1 + kc)) + ic. *)
Lemma mpn_xor_neg_spec dst j jlen k klen jv kv c0 j0 k0 :
  Forall is_dig dst -> holds (contents j dst) jlen jv -> holds (contents k dst) klen kv ->
  (klen <= jlen <= length dst)%nat -> Z.of_nat jlen < 2 ^ 63 ->
  0 <= c0 <= 1 -> 0 <= j0 <= 1 -> 0 <= k0 <= 1 -> 0 < jv + j0 -> 0 < kv + k0 ->
  c0 = 0 \/ (jlen < length dst)%nat -> (0 < jlen)%nat ->
  let r := Z.lxor (jv - 1 + j0) (kv - 1 + k0) in
  exists dst' n, mpn_xor_neg dst j jlen k klen c0 j0 k0 = Some (dst', n) /\
    result (length dst) dst' n (r + c0).
Proof.
  intros Hd Hj Hk Hlen Hsz B0 Bj Bk Pj Pk Hroom Hpos r.
  pose proof (holds_bounds _ _ _ Hj). pose proof (holds_bounds _ _ _ Hk).
  pose proof (bpow_le klen jlen ltac:(lia)).
  assert (Hr : 0 <= r < bpow jlen).
  { split; [apply Z.lxor_nonneg; lia|].
    apply (op_range _ xorb); [done|apply lxor_bitwise|lia|lia]. }
  destruct (xor_neg_loop dst j jlen jv k klen kv c0 j0 k0 Hd Hj Hk Hlen Hsz B0 Bj Bk)
    as (c & dst1 & E & L & D & Hc & Hv). fold r in Hv. rewrite (Z.mod_small r) in Hv by done.
  unfold mpn_xor_neg. rewrite E. cbn [mbind option_bind].
  assert (Hlt : r + c0 < bpow (length dst1)).
  { pose proof (bpow_le jlen (length dst1) ltac:(lia)). destruct Hroom as [|Hroom]; [lia|].
    pose proof (bpow_le (S jlen) (length dst1) ltac:(lia)) as Hle. rewrite bpow_S in Hle.
    unfold DIG_BASE in Hle. lia. }
  destruct (put_carry_spec dst1 jlen (ci c) (r + c0) D ltac:(lia) ltac:(unfold is_dig, DIG_BASE; lia) Hv Hlt)
    as (dst2 & n & E2 & L2 & D2 & Hn & V2 & _).
  rewrite E2. cbn [mbind option_bind].
  destruct (rtz_result dst2 n (r + c0) D2 ltac:(lia) V2) as (m & -> & Hres). cbn [mbind option_bind].
  exists dst2, m. split; [done|]. by replace (length dst) with (length dst2) by lia.
Qed.
