(* ===== verification/MpnDiv.v ===== *)
(** Long division on digit arrays: mpn_div of py/mpz.c. *)
From S2P Require Import Prelude Digits Mpn.

(** * The routine *)

(** [while ((d & DIG_MSB) == 0) { d <<= 1; ++norm_shift; }]: at most 15
    rounds when the leading digit is not zero. *)
Definition norm_body (s : Z * Z) : Z * Z + Z :=
  let '(d, shift) := s in
  if Z.land d DIG_MSB =? 0 then inl (u16 (Z.shiftl d 1), u16 (shift + 1)) else inr shift.

Definition norm_shift (d : Z) : option Z := loop 16 norm_body (d, 0).

Definition norm_step (shift : Z) (p : nat) (num : list Z) (carry : Z) : option (Z * Z) :=
  n ← num !! p;
  Some (Z.land (Z.lor (Z.shiftl n shift) carry) DIG_MASK, u16 (Z.shiftr n (DIG_SIZE - shift))).

Definition lead_digit (den : list Z) (den_len : nat) (shift : Z) : option Z :=
  d ← den !! (den_len - 1)%nat;
  if (2 <=? den_len)%nat
  then d2 ← den !! (den_len - 2)%nat;
       Some (Z.lor (u32 (Z.shiftl d shift)) (Z.shiftr d2 (DIG_SIZE - shift)))
  else Some (u32 (Z.shiftl d shift)).

(** The next digit of the normalised denominator, with the bits carried
    from the digit before in the high half of [d_norm]. *)
Definition next_norm (d shift d_norm : Z) : Z :=
  Z.lor (u32 (Z.shiftl d shift)) (Z.shiftr d_norm DIG_SIZE).

(** Multiply quo by den and subtract from num; state (d_norm, borrow). *)
Definition div_sub_step (den : list Z) (shift quo : Z) (base p : nat) (num : list Z) (s : Z * Z)
    : option (Z * (Z * Z)) :=
  let '(d_norm, borrow) := s in
  d ← den !! (p - base)%nat;
  n ← num !! p;
  let d_norm := next_norm d shift d_norm in
  let x := u32 (quo * Z.land d_norm DIG_MASK) in
  let low_digs := i32 (Z.land borrow DIG_MASK + n - Z.land x DIG_MASK) in
  let borrow := i32 (u32 (u32 (Z.shiftr borrow DIG_SIZE - Z.shiftr x DIG_SIZE) + Z.shiftr low_digs DIG_SIZE)) in
  Some (Z.land low_digs DIG_MASK, (d_norm, borrow)).

(** Add den back to num; state (d_norm, carry). *)
Definition div_add_step (den : list Z) (shift : Z) (base p : nat) (num : list Z) (s : Z * Z)
    : option (Z * (Z * Z)) :=
  let '(d_norm, carry) := s in
  d ← den !! (p - base)%nat;
  n ← num !! p;
  let d_norm := next_norm d shift d_norm in
  let carry := u32 (carry + (n + Z.land d_norm DIG_MASK)) in
  Some (Z.land carry DIG_MASK, (d_norm, Z.shiftr carry DIG_SIZE)).

(** [for (; borrow != 0; --quo)]; the fuel bounds the corrections. *)
Fixpoint div_correct (fuel : nat) (den : list Z) (den_len : nat) (shift : Z) (base : nat)
    (quo borrow : Z) (num : list Z) : option (Z * list Z) :=
  match fuel with
  | O => None
  | S fuel =>
      if borrow =? 0 then Some (quo, num)
      else
        '((_, carry), num) ← digits_up (div_add_step den shift base) den_len base (0, 0) num;
        div_correct fuel den den_len shift base (u32 (quo - 1)) (i32 (u32 (borrow + carry))) num
  end.

(** One digit of the quotient, for the digits of num from [base] to [top]. *)
Definition div_digit (den : list Z) (den_len : nat) (shift lead : Z) (base : nat) (num : list Z)
    : option (Z * list Z) :=
  let top := (base + den_len)%nat in
  hi ← num !! top;
  lo ← num !! (top - 1)%nat;
  let quo := Z.lor (u32 (Z.shiftl hi DIG_SIZE)) lo / lead in
  '((_, borrow), num) ← digits_up (div_sub_step den shift quo base) den_len base (0, 0) num;
  hi ← num !! top;
  div_correct 3 den den_len shift base quo (i32 (borrow + hi)) num.

(** The main loop, while num_len = den_len + m exceeds den_len. *)
Fixpoint div_loop (den : list Z) (den_len : nat) (shift lead : Z) (m : nat) (num quo_dig : list Z)
    : option (list Z * list Z) :=
  match m with
  | O => Some (num, quo_dig)
  | S m =>
      '(quo, num) ← div_digit den den_len shift lead m num;
      quo_dig ← put quo_dig m (Z.land quo DIG_MASK);
      div_loop den den_len shift lead m num quo_dig
  end.

Definition unnorm_step (shift : Z) (p : nat) (num : list Z) (carry : Z) : option (Z * Z) :=
  n ← num !! p;
  Some (Z.land (Z.lor (Z.shiftr n shift) carry) DIG_MASK, u16 (u32 (Z.shiftl n (DIG_SIZE - shift)))).

(** Returns num, num_len, quo_dig, quo_len. *)
Definition mpn_div (num : list Z) (num_len : nat) (den : list Z) (den_len : nat) (quo_dig : list Z)
    : option (list Z * nat * list Z * nat) :=
  cmp ← mpn_cmp num num_len den den_len;
  if cmp =? 0 then quo_dig ← put quo_dig 0 1; Some (num, 0%nat, quo_dig, 1%nat)
  else if cmp <? 0 then Some (num, num_len, quo_dig, 0%nat)
  else
    d ← den !! (den_len - 1)%nat;
    shift ← norm_shift d;
    num ← put num num_len 0;
    let num_len := S num_len in
    '(_, num) ← digits_up (norm_step shift) num_len 0 0 num;
    lead ← lead_digit den den_len shift;
    let quo_len := (num_len - den_len)%nat in
    '(num, quo_dig) ← div_loop den den_len shift lead quo_len num quo_dig;
    '(_, num) ← digits_down (unnorm_step shift) 0 den_len 0 num;
    qlen ← mpn_remove_trailing_zeros quo_dig quo_len;
    nlen ← mpn_remove_trailing_zeros num den_len;
    Some (num, nlen, quo_dig, qlen).


(** * Normalisation *)

Lemma land_msb d : is_dig d -> (Z.land d DIG_MSB =? 0) = (d <? DIG_MSB).
Proof.
  intros Hd. unfold is_dig, DIG_BASE, DIG_MSB in *. destruct (Z.ltb_spec d 32768).
  - apply Z.eqb_eq. apply Z.bits_inj'. intros i Hi. rewrite Z.land_spec, Z.bits_0.
    rewrite <- (Z.mod_small d (2 ^ 15)) by lia. destruct (Z.ltb_spec i 15).
    + change 32768 with (2 ^ 15). by rewrite (Z.pow2_bits_false 15 i), andb_false_r by lia.
    + by rewrite Z.mod_pow2_bits_high by lia.
  - apply Z.eqb_neq. intros E. apply (f_equal (fun z => Z.testbit z 15)) in E.
    rewrite Z.land_spec, Z.bits_0 in E. change (Z.testbit 32768 15) with true in E.
    rewrite andb_true_r, Z.testbit_odd, Z.shiftr_div_pow2 in E by lia.
    by replace (d / 2 ^ 15) with 1 in E by zdm.
Qed.

Lemma norm_shift_spec d : is_dig d -> d <> 0 ->
  exists s, norm_shift d = Some s /\ 0 <= s < 16 /\ DIG_MSB <= d * 2 ^ s < DIG_BASE.
Proof.
  intros Hd H0. unfold norm_shift.
  apply (loop_rule norm_body
    (fun '(x, s) => 0 <= s <= 15 /\ x = d * 2 ^ s /\ is_dig x)
    (fun '(x, s) => Z.to_nat (15 - s))); [|rewrite Z.mul_1_r; auto with lia|lia].
  intros [x s] (Hs & Hx & Hdx). unfold norm_body. rewrite land_msb by done.
  unfold is_dig in *. destruct (Z.ltb_spec x DIG_MSB) as [Hlt|]; [|unfold DIG_BASE in *; lia].
  assert (s < 15).
  { destruct (decide (s = 15)) as [->|]; [|lia]. unfold DIG_MSB in *. lia. }
  rewrite Z.shiftl_mul_pow2 by lia. unfold DIG_BASE, DIG_MSB in *. rewrite !wrapU_small by lia.
  split; [|lia]. split; [lia|]. rewrite Z.pow_add_r by lia. split; lia.
Qed.

(** The estimate from the leading digit: with a normalised denominator it is
    never too small and at most 2 too large. *)
Lemma quotient_estimate P V u : 0 < P -> DIG_BASE * P <= 2 * V -> V < DIG_BASE * P -> 0 <= u < V * DIG_BASE ->
  let quo := (u / P) / (V / P) in
  u / V <= quo <= u / V + 2 /\ quo <= DIG_BASE + 1.
Proof.
  intros HP H1 H2 Hu. pose proof (Z.div_mod V P ltac:(lia)) as EV.
  pose proof (Z.mod_pos_bound V P HP). pose proof (Z.div_mod u P ltac:(lia)) as Eu.
  pose proof (Z.mod_pos_bound u P HP). set (lead := V / P) in *. set (h := u / P) in *. intros quo.
  assert (Hlead : DIG_BASE <= 2 * lead + 1) by (unfold DIG_BASE in *; nia).
  assert (Hl2 : DIG_BASE <= 2 * lead) by (unfold DIG_BASE in *; lia).
  assert (Hl0 : 0 < lead) by (unfold DIG_BASE in *; lia).
  pose proof (Z.div_mod h lead ltac:(lia)) as Eq. pose proof (Z.mod_pos_bound h lead Hl0). fold quo in Eq.
  assert (Hh : h < (DIG_BASE + 2) * lead).
  { assert (h * P < (lead + 1) * DIG_BASE * P) by nia. assert (h < (lead + 1) * DIG_BASE) by nia. lia. }
  assert (Hq1 : quo <= DIG_BASE + 1) by nia.
  split; [|done]. split.
  - apply Z.div_le_lower_bound; [done|]. apply Z.div_le_lower_bound; [done|].
    pose proof (Z.div_mod u V ltac:(lia)) as E. pose proof (Z.mod_pos_bound u V ltac:(lia)).
    assert (0 <= u / V) by (apply Z.div_pos; lia). nia.
  - enough (quo - 2 <= u / V) by lia. apply Z.div_le_lower_bound; [lia|].
    destruct (Z.leb_spec quo 2); [nia|].
    assert ((quo - 2) * V <= (quo - 2) * ((lead + 1) * P)) by nia.
    assert ((quo - 2) * (lead + 1) <= quo * lead) by nia.
    assert ((quo - 2) * (lead + 1) * P <= quo * lead * P) by nia.
    assert (quo * lead * P <= h * P) by nia. lia.
Qed.

Section normalised.
Context (den : list Z) (den_len : nat) (dv s : Z).
Context (Hden : holds den den_len dv) (Hs : 0 <= s < 16) (Hlen : (0 < den_len)%nat).
Context (Hnorm : bpow den_len <= 2 * (dv * 2 ^ s)) (Hfit : dv * 2 ^ s < bpow den_len).

(** The normalised denominator and the carry into its digit [i]. *)
Definition dnorm : Z := dv * 2 ^ s.
Definition dcarry (i : nat) : Z := (dv mod bpow i * 2 ^ s) / bpow i.

Lemma pow_s : 1 <= 2 ^ s <= DIG_MSB.
Proof. split; [lia|]. change DIG_MSB with (2 ^ 15). apply Z.pow_le_mono_r; lia. Qed.

Lemma dcarry_range i : 0 <= dcarry i < 2 ^ s.
Proof.
  unfold dcarry. pose proof (bpow_pos i). pose proof (Z.mod_pos_bound dv (bpow i) ltac:(lia)).
  pose proof pow_s. split; [apply Z.div_pos; nia|]. apply Z.div_lt_upper_bound; [lia|]. nia.
Qed.

Lemma dcarry_step i : let t := dv / bpow i mod DIG_BASE * 2 ^ s + dcarry i in
  0 <= t < 2 ^ 32 /\ t / DIG_BASE = dcarry (S i) /\ t mod DIG_BASE = dnorm / bpow i mod DIG_BASE.
Proof.
  intros t. pose proof (bpow_pos i) as Hb. pose proof (dcarry_range i). pose proof pow_s.
  pose proof (is_dig_mod (dv / bpow i)) as Hd. unfold is_dig in Hd.
  assert (Ht : t = (dv mod bpow (S i) * 2 ^ s) / bpow i).
  { unfold t, dcarry. rewrite mod_bpow_S.
    replace ((dv mod bpow i + bpow i * (dv / bpow i mod DIG_BASE)) * 2 ^ s)
      with (dv mod bpow i * 2 ^ s + (dv / bpow i mod DIG_BASE * 2 ^ s) * bpow i) by lia.
    rewrite Z.div_add by lia. lia. }
  split; [unfold t, DIG_BASE, DIG_MSB in *; nia|split].
  - rewrite Ht. unfold dcarry. rewrite Z.div_div by (unfold DIG_BASE; lia).
    by rewrite bpow_S, (Z.mul_comm DIG_BASE).
  - rewrite Ht. unfold dnorm. rewrite (Z.div_mod dv (bpow (S i))) at 2 by (pose proof (bpow_pos (S i)); lia).
    rewrite bpow_S. set (q := dv / _). set (r := dv mod _).
    replace ((DIG_BASE * bpow i * q + r) * 2 ^ s) with (r * 2 ^ s + (q * 2 ^ s * DIG_BASE) * bpow i) by lia.
    rewrite Z.div_add, Z.mod_add by (lia || done). done.
Qed.

Lemma dcarry_shift i : dcarry (S i) = dv / bpow i mod DIG_BASE / 2 ^ (16 - s).
Proof.
  destruct (dcarry_step i) as (_ & <- & _). pose proof (dcarry_range i). pose proof pow_s.
  generalize (dv / bpow i mod DIG_BASE). intros x.
  replace DIG_BASE with (2 ^ s * 2 ^ (16 - s)) 
    by (rewrite <- Z.pow_add_r by lia; by replace (s + (16 - s)) with 16 by lia).
  rewrite <- Z.div_div by lia. rewrite Z.add_comm, Z.div_add by lia. by rewrite (Z.div_small (dcarry i)) by lia.
Qed.

Lemma next_norm_spec i d x : d = dv / bpow i mod DIG_BASE -> Z.shiftr x DIG_SIZE = dcarry i ->
  Z.shiftr (next_norm d s x) DIG_SIZE = dcarry (S i) /\
  Z.land (next_norm d s x) DIG_MASK = dnorm / bpow i mod DIG_BASE.
Proof.
  intros Hd Hx. unfold next_norm. rewrite Hx, Z.shiftl_mul_pow2 by lia.
  pose proof (is_dig_mod (dv / bpow i)) as Hdd. rewrite <- Hd in Hdd. unfold is_dig in Hdd.
  pose proof pow_s. pose proof (dcarry_range i).
  rewrite wrapU_small by (unfold DIG_BASE, DIG_MSB in *; nia). rewrite lor_low by lia.
  rewrite shr_dig, land_mask, Hd. apply dcarry_step.
Qed.

Lemma lead_digit_spec : lead_digit den den_len s = Some (dnorm / bpow (den_len - 1)).
Proof.
  unfold lead_digit. rewrite (holds_lookup _ _ _ (den_len - 1) Hden) by lia. cbn [mbind option_bind].
  set (i := (den_len - 1)%nat). pose proof (is_dig_mod (dv / bpow i)) as Hd. unfold is_dig in Hd.
  pose proof pow_s. rewrite Z.shiftl_mul_pow2, wrapU_small by (unfold DIG_BASE, DIG_MSB in *; nia).
  assert (Hv : dnorm / bpow i = dv / bpow i mod DIG_BASE * 2 ^ s + dcarry i).
  { unfold dnorm, dcarry. pose proof (bpow_pos i). pose proof (holds_bounds _ _ _ Hden) as Hb.
    rewrite (Z.mod_small (dv / bpow i)).
    - rewrite (Z.div_mod dv (bpow i)) at 1 by lia.
      replace ((bpow i * (dv / bpow i) + dv mod bpow i) * 2 ^ s)
        with (dv mod bpow i * 2 ^ s + dv / bpow i * 2 ^ s * bpow i) by lia.
      rewrite Z.div_add by lia. lia.
    - split; [apply Z.div_pos; lia|]. apply Z.div_lt_upper_bound; [lia|].
      rewrite (Z.mul_comm (bpow i)), <- bpow_S. replace (S i) with den_len by lia. lia. }
  destruct (Nat.leb_spec 2 den_len).
  - rewrite (holds_lookup _ _ _ (den_len - 2) Hden) by lia. cbn [mbind option_bind].
    rewrite Hv. f_equal. rewrite Z.shiftr_div_pow2 by (unfold DIG_SIZE; lia).
    change (DIG_SIZE - s) with (16 - s). rewrite <- dcarry_shift.
    replace (S (den_len - 2)) with i by lia. apply lor_low; [lia|apply dcarry_range].
  - rewrite Hv. replace i with 0%nat by lia. unfold dcarry. rewrite bpow_0, !Z.mod_1_r.
    f_equal. cbn [Z.mul]. rewrite Z.div_0_l by lia. lia.
Qed.

(** * One digit: multiply and subtract *)

Lemma sub_digit quo b n y : 0 <= quo <= DIG_BASE + 1 -> - quo <= b <= 0 -> is_dig n -> is_dig y ->
  let x := u32 (quo * y) in
  let low := i32 (Z.land b DIG_MASK + n - Z.land x DIG_MASK) in
  let b' := i32 (u32 (u32 (Z.shiftr b DIG_SIZE - Z.shiftr x DIG_SIZE) + Z.shiftr low DIG_SIZE)) in
  is_dig (Z.land low DIG_MASK) /\ - quo <= b' <= 0 /\
  b + n - quo * y = Z.land low DIG_MASK + DIG_BASE * b'.
Proof.
  intros Hq Hb Hn Hy x low b'. unfold is_dig in Hn, Hy.
  assert (Hx : 0 <= quo * y <= 65537 * 65535) by (unfold DIG_BASE in *; nia).
  assert (Hx' : x = quo * y) by (apply wrapU_small; lia).
  assert (Hlow : low = b mod DIG_BASE + n - x mod DIG_BASE).
  { unfold low. rewrite !land_mask. apply i32_small. unfold DIG_BASE in *. zdm. }
  assert (Hb' : b' = b / DIG_BASE - x / DIG_BASE + low / DIG_BASE).
  { unfold b'. rewrite !shr_dig. unfold wrapU. rewrite Zplus_mod_idemp_l. apply i32_u32.
    rewrite Hlow, Hx'. unfold DIG_BASE in *. zdm. }
  split; [auto with gaston|]. rewrite land_mask.
  assert (Heq : b + n - quo * y = low mod DIG_BASE + DIG_BASE * b').
  { rewrite Hb', Hlow, Hx'. unfold DIG_BASE in *. zdm. }
  split; [|done]. pose proof (is_dig_mod low) as Hm. unfold is_dig in Hm.
  assert (0 <= quo * y <= quo * (DIG_BASE - 1)) by nia. unfold DIG_BASE in *. lia.
Qed.

Lemma dnorm_range : 0 <= dnorm < bpow den_len.
Proof. unfold dnorm. pose proof (holds_bounds _ _ _ Hden). split; [nia|done]. Qed.

Lemma div_sub_loop base num quo :
  Forall is_dig num -> (base + den_len <= length num)%nat -> 0 <= quo <= DIG_BASE + 1 ->
  exists x b num', digits_up (div_sub_step den s quo base) den_len base (0, 0) num = Some ((x, b), num') /\
    length num' = length num /\ Forall is_dig num' /\
    drop (base + den_len) num' = drop (base + den_len) num /\ - quo <= b <= 0 /\
    dval (take (base + den_len) num') + bpow (base + den_len) * b =
      dval (take (base + den_len) num) - bpow base * quo * dnorm.
Proof.
  intros Hd Hl Hq.
  destruct (digits_up_rule (div_sub_step den s quo base)
    (fun p v '(x, b) => Z.shiftr x DIG_SIZE = dcarry (p - base) /\ - quo <= b <= 0 /\
       v + bpow p * b = dval (take p num) - bpow base * quo * (dnorm mod bpow (p - base)))
    num den_len base (0, 0) num) as ([x b] & num' & E & L & D & R & _ & Hb & Hv);
    [lia|done|done|done| | |].
  { rewrite Nat.sub_diag. unfold dcarry. rewrite bpow_0, !Z.mod_1_r. cbn [Z.mul].
    rewrite Z.div_0_l by lia. split; [done|]. lia. }
  { intros p v [x b] dst Hp _ Hdrop _ (Hx & Hb & HI). unfold div_sub_step.
    rewrite (holds_lookup _ _ _ (p - base) Hden) by lia. cbn [mbind option_bind].
    destruct (lookup_lt_is_Some_2 num p ltac:(lia)) as [n Hn].
    assert (Hn' : dst !! p = Some n).
    { rewrite <- Hn. by apply (get_later Self dst num p p). }
    rewrite Hn'. cbn [mbind option_bind].
    destruct (next_norm_spec (p - base) _ x eq_refl Hx) as [Hx' Hy].
    set (x' := next_norm _ _ _) in *. rewrite Hy. set (y := dnorm / bpow (p - base) mod DIG_BASE) in *.
    destruct (sub_digit quo b n y Hq Hb) as (Hdig & Hb' & Heq);
      [by apply (Forall_lookup_1 _ _ _ _ Hd Hn)|apply is_dig_mod|]. cbv zeta in Hdig, Hb', Heq.
    eexists _, (x', _). split; [reflexivity|]. split; [done|].
    replace (S p - base)%nat with (S (p - base)) by lia.
    split; [done|]. split; [done|]. set (b' := i32 _) in *. set (lo := Z.land _ DIG_MASK) in *.
    rewrite (dval_take_S _ _ _ Hn), mod_bpow_S, bpow_S. fold y.
    rewrite (bpow_split base p) in HI |- * by lia. nia. }
  exists x, b, num'. replace (base + den_len - base)%nat with den_len in Hv by lia.
  rewrite (Z.mod_small dnorm) in Hv by apply dnorm_range. split_and!; try done; apply Hb.
Qed.

(** * One digit: add back *)

Lemma div_add_loop base num :
  Forall is_dig num -> (base + den_len <= length num)%nat ->
  exists x c num', digits_up (div_add_step den s base) den_len base (0, 0) num = Some ((x, c), num') /\
    length num' = length num /\ Forall is_dig num' /\
    drop (base + den_len) num' = drop (base + den_len) num /\ 0 <= c <= 1 /\
    dval (take (base + den_len) num') + bpow (base + den_len) * c =
      dval (take (base + den_len) num) + bpow base * dnorm.
Proof.
  intros Hd Hl.
  destruct (digits_up_rule (div_add_step den s base)
    (fun p v '(x, c) => Z.shiftr x DIG_SIZE = dcarry (p - base) /\ 0 <= c <= 1 /\
       v + bpow p * c = dval (take p num) + bpow base * (dnorm mod bpow (p - base)))
    num den_len base (0, 0) num) as ([x c] & num' & E & L & D & R & _ & Hc & Hv);
    [lia|done|done|done| | |].
  { rewrite Nat.sub_diag. unfold dcarry. rewrite bpow_0, !Z.mod_1_r. cbn [Z.mul].
    rewrite Z.div_0_l by lia. split; [done|]. lia. }
  { intros p v [x c] dst Hp _ Hdrop _ (Hx & Hc & HI). unfold div_add_step.
    rewrite (holds_lookup _ _ _ (p - base) Hden) by lia. cbn [mbind option_bind].
    destruct (lookup_lt_is_Some_2 num p ltac:(lia)) as [n Hn].
    assert (Hn' : dst !! p = Some n).
    { rewrite <- Hn. by apply (get_later Self dst num p p). }
    rewrite Hn'. cbn [mbind option_bind].
    destruct (next_norm_spec (p - base) _ x eq_refl Hx) as [Hx' Hy].
    set (x' := next_norm _ _ _) in *. rewrite Hy.
    pose proof (is_dig_mod (dnorm / bpow (p - base))) as Hdy.
    pose proof (Forall_lookup_1 _ _ _ _ Hd Hn) as Hdn. unfold is_dig in Hdy, Hdn.
    set (y := dnorm / bpow (p - base) mod DIG_BASE) in *.
    destruct (carry_split 0 (c + (n + y)) ltac:(unfold DIG_BASE in *; lia))
      as (d & c' & Hdd & Hc' & ? & ? & ? & Hle). specialize (Hle ltac:(lia)).
    eexists d, (x', c'). rewrite Hdd, Hc'. split; [reflexivity|]. split; [done|].
    replace (S p - base)%nat with (S (p - base)) by lia.
    split; [done|]. split; [lia|].
    rewrite (dval_take_S _ _ _ Hn), mod_bpow_S, bpow_S. fold y.
    rewrite (bpow_split base p) in HI |- * by lia. nia. }
  exists x, c, num'. replace (base + den_len - base)%nat with den_len in Hv by lia.
  rewrite (Z.mod_small dnorm) in Hv by apply dnorm_range. split_and!; try done; apply Hc.
Qed.

Lemma dnorm_pos : 0 < dnorm.
Proof. unfold dnorm. pose proof (bpow_pos den_len). lia. Qed.

(** The correction loop reaches the true digit [u / dnorm]. *)
Lemma div_correct_spec base low u fuel : 0 <= low < bpow base -> 0 <= u ->
  forall quo b num, quo - u / dnorm < Z.of_nat fuel -> u / dnorm <= quo <= DIG_BASE + 1 ->
  - DIG_BASE - 2 <= b <= 0 -> Forall is_dig num -> (base + den_len <= length num)%nat ->
  dval (take (base + den_len) num) + bpow (base + den_len) * b = low + bpow base * (u - quo * dnorm) ->
  exists num', div_correct fuel den den_len s base quo b num = Some (u / dnorm, num') /\
    length num' = length num /\ Forall is_dig num' /\
    drop (base + den_len) num' = drop (base + den_len) num /\
    dval (take (base + den_len) num') = low + bpow base * (u mod dnorm).
Proof.
  intros Hlow Hu. pose proof dnorm_pos as HV. pose proof (Z.div_mod u dnorm ltac:(lia)) as Eu.
  pose proof (Z.mod_pos_bound u dnorm HV) as Hr. pose proof (bpow_pos base) as Hpb.
  pose proof (Z.div_pos u dnorm Hu HV).
  induction fuel as [|fuel IH]; intros quo b num Hf Hq Hb Hd Hl HW; [lia|].
  pose proof (dval_take_bounds num (base + den_len) Hd) as Hbd. cbn [div_correct].
  destruct (Z.eqb_spec b 0) as [->|Hb0].
  - assert (quo = u / dnorm) as ->.
    { assert (0 <= u - quo * dnorm) by nia. nia. }
    exists num. split_and!; try done. rewrite Z.mul_0_r, Z.add_0_r in HW. rewrite HW. f_equal. f_equal. lia.
  - assert (Hlt : u / dnorm < quo).
    { assert (u - quo * dnorm < 0) by nia. nia. }
    destruct (div_add_loop base num Hd Hl) as (x & c & num1 & E & L & D & R & Hc & Hv).
    rewrite E. cbn [mbind option_bind].
    rewrite (wrapU_small 32 (quo - 1)) by (unfold DIG_BASE in *; lia).
    rewrite i32_u32 by (unfold DIG_BASE in *; lia).
    assert (HW' : dval (take (base + den_len) num1) + bpow (base + den_len) * (b + c)
                  = low + bpow base * (u - (quo - 1) * dnorm)) by lia.
    destruct (IH (quo - 1) (b + c) num1) as (num' & E' & L' & D' & R' & V'); try done; try lia.
    exists num'. split_and!; try done; [lia|congruence].
Qed.

Lemma div_digit_spec base num (top := (base + den_len)%nat) (u := dval (drop base (take (S top) num))) :
  Forall is_dig num -> (top < length num)%nat -> u < dnorm * DIG_BASE ->
  exists num', div_digit den den_len s (dnorm / bpow (den_len - 1)) base num = Some (u / dnorm, num') /\
    length num' = length num /\ Forall is_dig num' /\
    dval (take top num') = dval (take base num) + bpow base * (u mod dnorm).
Proof.
  intros Hd Hl Hu. unfold div_digit. fold top.
  destruct (lookup_lt_is_Some_2 num top Hl) as [hi Hhi].
  destruct (lookup_lt_is_Some_2 num (top - 1) ltac:(lia)) as [lo Hlo].
  rewrite Hhi. cbn [mbind option_bind]. rewrite Hlo. cbn [mbind option_bind].
  pose proof (Forall_lookup_1 _ _ _ _ Hd Hhi) as Hdhi. pose proof (Forall_lookup_1 _ _ _ _ Hd Hlo) as Hdlo.
  unfold is_dig in Hdhi, Hdlo. rewrite shl_dig, wrapU_small by (unfold DIG_BASE in *; lia).
  rewrite (lor_low 16) by (unfold DIG_BASE in *; lia). change (2 ^ 16) with DIG_BASE.
  assert (Htake : take (S top) num = take top num ++ [hi]) by (by apply take_S_r).
  assert (Hdt : Forall is_dig (take (S top) num)) by by apply Forall_take.
  assert (Hu0 : 0 <= u) by (apply dval_bounds; by apply Forall_drop).
  assert (Hest : hi * DIG_BASE + lo = u / bpow (den_len - 1)).
  { unfold u. rewrite <- dval_drop_div by by apply Forall_drop. rewrite drop_drop.
    replace (base + (den_len - 1))%nat with (top - 1)%nat by lia.
    assert (Hlo' : take (S top) num !! (top - 1)%nat = Some lo) by by rewrite lookup_take_lt by lia.
    assert (Hhi' : take (S top) num !! top = Some hi) by by rewrite lookup_take_lt by lia.
    rewrite (drop_S _ _ _ Hlo'). replace (S (top - 1)) with top by lia.
    rewrite (drop_S _ _ _ Hhi'), drop_ge by (rewrite length_take; lia). cbn [dval]. lia. }
  rewrite Hest. pose proof dnorm_pos as HV. pose proof dnorm_range as HVr.
  assert (Hbp : bpow den_len = DIG_BASE * bpow (den_len - 1)).
  { rewrite <- bpow_S. f_equal. lia. }
  destruct (quotient_estimate (bpow (den_len - 1)) dnorm u (bpow_pos _)) as [Hq Hq1];
    [unfold dnorm; lia|lia|lia|].
  set (quo := u / bpow (den_len - 1) / (dnorm / bpow (den_len - 1))) in *.
  pose proof (Z.div_pos u dnorm Hu0 HV).
  destruct (div_sub_loop base num quo Hd ltac:(lia) ltac:(lia)) as (x & b & num1 & E & L & D & R & Hb & Hv).
  rewrite E. cbn [mbind option_bind]. fold top in R, Hv.
  assert (Hhi1 : num1 !! top = Some hi).
  { rewrite <- Hhi, <- (Nat.add_0_r top), <- !lookup_drop. by rewrite R. }
  rewrite Hhi1. cbn [mbind option_bind]. rewrite i32_small by (unfold DIG_BASE in *; lia).
  assert (Hu' : dval (take top num) + bpow top * hi = dval (take base num) + bpow base * u).
  { rewrite <- (dval_take_S _ _ _ Hhi), <- (take_drop base (take (S top) num)), dval_app, take_take, length_take.
    do 2 (rewrite Nat.min_l by lia). done. }
  pose proof (dval_take_bounds num base Hd) as Hlow.
  pose proof (dval_take_bounds num1 top D) as Hb1. pose proof (bpow_pos top). pose proof (bpow_pos base).
  destruct (div_correct_spec base (dval (take base num)) u 3 Hlow Hu0 quo (b + hi) num1)
    as (num2 & E2 & L2 & D2 & _ & V2); try done; try lia.
  - split; [unfold DIG_BASE in *; lia|].
    assert (u - quo * dnorm < dnorm).
    { pose proof (Z.div_mod u dnorm ltac:(lia)). pose proof (Z.mod_pos_bound u dnorm HV). nia. }
    assert (Htop : bpow top = bpow base * bpow den_len) by apply bpow_add.
    assert (bpow top * (b + hi) = dval (take base num) + bpow base * (u - quo * dnorm) - dval (take top num1)) by lia.
    assert (bpow base * (u - quo * dnorm) <= bpow base * (bpow den_len - 1)) by nia. nia.
  - fold top. lia.
  - fold top in V2. exists num2. split; [done|]. split; [lia|]. done.
Qed.

(** The main loop divides [num] by the normalised denominator. *)
Lemma div_loop_spec top m : forall num quo, Forall is_dig num -> Forall is_dig quo ->
  (den_len + m <= length num)%nat -> (m <= top <= length quo)%nat ->
  dval (take (den_len + m) num) < dnorm * bpow m ->
  exists num' quo', div_loop den den_len s (dnorm / bpow (den_len - 1)) m num quo = Some (num', quo') /\
    length num' = length num /\ length quo' = length quo /\ Forall is_dig num' /\ Forall is_dig quo' /\
    dval (take den_len num') < dnorm /\
    dval (take den_len num') + dnorm * dval (take top quo') =
      dval (take (den_len + m) num) + dnorm * bpow m * dval (drop m (take top quo)).
Proof.
  pose proof dnorm_pos as HV.
  induction m as [|m IH]; intros num quo Hdn Hdq Hln Hlq Hlt.
  { exists num, quo. rewrite bpow_0, Nat.add_0_r, drop_0 in *. split_and!; try done; lia. }
  cbn [div_loop]. pose proof (bpow_pos m) as Hpm.
  set (u := dval (drop m (take (S (m + den_len)) num))).
  assert (Hsplit : dval (take (den_len + S m) num) = dval (take m num) + bpow m * u).
  { replace (den_len + S m)%nat with (S (m + den_len)) by lia.
    rewrite <- (take_drop m (take (S (m + den_len)) num)) at 1. rewrite dval_app, take_take, length_take.
    do 2 (rewrite Nat.min_l by lia). done. }
  pose proof (dval_take_bounds num m Hdn).
  assert (Hu : u < dnorm * DIG_BASE) by (rewrite bpow_S in Hlt; nia).
  assert (Hu0 : 0 <= u) by (apply dval_bounds, Forall_drop, Forall_take; done).
  destruct (div_digit_spec m num Hdn ltac:(lia) Hu) as (num1 & E & L & D & Hv). fold u in E, Hv.
  rewrite E. cbn [mbind option_bind]. rewrite land_mask.
  pose proof (Z.div_mod u dnorm ltac:(lia)). pose proof (Z.mod_pos_bound u dnorm HV).
  assert (Hqd : 0 <= u / dnorm < DIG_BASE).
  { split; [apply Z.div_pos; lia|]. apply Z.div_lt_upper_bound; lia. }
  rewrite (Z.mod_small (u / dnorm)) by done. rewrite put_some by (done || lia). cbn [mbind option_bind].
  destruct (IH num1 (<[m := u / dnorm]> quo)) as (num2 & quo2 & E2 & Ln & Lq & Dn & Dq & Hlt2 & Hsum);
    [done|by apply Forall_insert|lia|rewrite length_insert; lia| |].
  { replace (den_len + m)%nat with (m + den_len)%nat by lia. rewrite Hv. nia. }
  exists num2, quo2. rewrite length_insert in Lq. split_and!; try done; [lia|].
  rewrite Hsum, Hsplit. replace (den_len + m)%nat with (m + den_len)%nat by lia. rewrite Hv.
  assert (Hlook : take top (<[m := u / dnorm]> quo) !! m = Some (u / dnorm)).
  { rewrite lookup_take_lt by lia. apply list_lookup_insert_eq. lia. }
  rewrite (drop_S _ _ _ Hlook). cbn [dval]. rewrite take_insert_lt, drop_insert_lt by lia.
  rewrite bpow_S. nia.
Qed.

(** Shifting the remainder back. *)
Lemma unnorm_spec num : Forall is_dig num -> (den_len <= length num)%nat ->
  exists c num', digits_down (unnorm_step s) 0 den_len 0 num = Some (c, num') /\
    length num' = length num /\ Forall is_dig num' /\
    dval (take den_len num') = dval (take den_len num) / 2 ^ s.
Proof.
  intros Hd Hl. set (r := dval (take den_len num)).
  assert (Hh : holds num den_len r) by done. pose proof pow_s.
  assert (Hpow : 2 ^ (16 - s) * 2 ^ s = DIG_BASE).
  { rewrite <- Z.pow_add_r by lia. by replace (16 - s + s) with 16 by lia. }
  destruct (digits_down_rule (unnorm_step s)
    (fun p v c => v = r / bpow p / 2 ^ s /\ c = r / bpow p mod 2 ^ s * 2 ^ (16 - s))
    num den_len 0 den_len 0 num) as (c & num' & E & L & D & _ & _ & Hv & _); [lia|done|done|done| | |].
  { cbn [Nat.add]. rewrite (holds_top _ _ _ Hh), drop_ge by (rewrite length_take; lia).
    rewrite Z.mod_0_l, Z.div_0_l by lia. done. }
  { intros p v c dst Hp _ Htake [-> ->]. unfold unnorm_step.
    assert (Hn : dst !! p = Some (r / bpow p mod DIG_BASE)).
    { rewrite <- (holds_lookup _ _ _ p Hh) by lia. by apply (get_earlier Self dst num (S p) p); [|lia]. }
    rewrite Hn. cbn [mbind option_bind]. rewrite div_bpow_S. set (w := r / bpow p).
    pose proof (is_dig_mod w) as Hdw. unfold is_dig in Hdw.
    eexists _, _. split; [done|]. split; [auto with gaston|].
    rewrite Z.shiftr_div_pow2, Z.shiftl_mul_pow2 by (unfold DIG_SIZE; lia).
    change (DIG_SIZE - s) with (16 - s). set (x := w mod DIG_BASE) in *.
    assert (Hx : 0 <= x / 2 ^ s < 2 ^ (16 - s)).
    { split; [apply Z.div_pos; lia|]. apply Z.div_lt_upper_bound; lia. }
    rewrite Z.lor_comm, lor_low by lia.
    assert (Hw2 : w / 2 ^ s = (w / DIG_BASE) * 2 ^ (16 - s) + x / 2 ^ s).
    { rewrite (Z.div_mod w DIG_BASE) at 1 by done. fold x.
      replace (DIG_BASE * (w / DIG_BASE) + x) with (x + w / DIG_BASE * 2 ^ (16 - s) * 2 ^ s) by lia.
      rewrite Z.div_add by lia. lia. }
    split.
    - rewrite land_mask. rewrite Z.mod_small.
      + rewrite Hw2. pose proof (Z.div_mod (w / DIG_BASE) (2 ^ s) ltac:(lia)). nia.
      + pose proof (Z.mod_pos_bound (w / DIG_BASE) (2 ^ s) ltac:(lia)). unfold is_dig. nia.
    - unfold wrapU. assert (2 ^ (16 - s) <= DIG_BASE) by (change DIG_BASE with (2 ^ 16); apply Z.pow_le_mono_r; lia).
      rewrite (Z.mod_small _ (2 ^ 32)) by (unfold DIG_BASE in *; nia).
      change (2 ^ 16) with DIG_BASE. rewrite <- Hpow, (Z.mul_comm (2 ^ (16 - s)) (2 ^ s)).
      rewrite Z.mul_mod_distr_r by lia. f_equal. unfold x. rewrite <- Hpow, (Z.mul_comm (2 ^ (16 - s))).
      symmetry. rewrite Z.rem_mul_r by lia. rewrite Z.mul_comm, Z.mod_add, Z.mod_mod by lia. done. }
  exists c, num'. cbn [drop] in Hv. rewrite bpow_0, Z.div_1_r in Hv. done.
Qed.
End normalised.

(** * Division *)

Lemma shift_carry n c s : 0 <= s < 16 -> 0 <= c < 2 ^ s -> (n * 2 ^ s + c) / DIG_BASE = n / 2 ^ (16 - s).
Proof.
  intros Hs Hc. replace DIG_BASE with (2 ^ s * 2 ^ (16 - s))
    by (rewrite <- Z.pow_add_r by lia; by replace (s + (16 - s)) with 16 by lia).
  rewrite <- Z.div_div by lia. by rewrite Z.add_comm, Z.div_add, (Z.div_small c) by lia.
Qed.

Lemma norm_loop num n s : Forall is_dig num -> (n <= length num)%nat -> 0 <= s < 16 ->
  dval (take n num) * 2 ^ s < bpow n ->
  exists c num', digits_up (norm_step s) n 0 0 num = Some (c, num') /\
    length num' = length num /\ Forall is_dig num' /\ dval (take n num') = dval (take n num) * 2 ^ s.
Proof.
  intros Hd Hn Hs Hlt.
  destruct (digits_up_rule (norm_step s)
    (fun p v c => 0 <= c < 2 ^ s /\ v + bpow p * c = dval (take p num) * 2 ^ s) num n 0 0 num)
    as (c & num' & E & L & D & _ & Hc & Hv); [lia|done|done|done| | |].
  { rewrite firstn_O. cbn [dval]. lia. }
  { intros p v c dst Hp _ Hdrop _ [Hc HI]. unfold norm_step.
    destruct (lookup_lt_is_Some_2 num p ltac:(lia)) as [x Hx].
    assert (Hx' : dst !! p = Some x) by (rewrite <- Hx; by apply (get_later Self dst num p p)).
    rewrite Hx'. cbn [mbind option_bind].
    pose proof (Forall_lookup_1 _ _ _ _ Hd Hx) as Hdx. unfold is_dig in Hdx.
    rewrite Z.shiftl_mul_pow2, Z.shiftr_div_pow2, lor_low by (lia || (unfold DIG_SIZE; lia)).
    change (DIG_SIZE - s) with (16 - s).
    assert (Hr : 0 <= x / 2 ^ (16 - s) < 2 ^ s).
    { split; [apply Z.div_pos; lia|]. apply Z.div_lt_upper_bound; [lia|].
      rewrite <- Z.pow_add_r by lia. replace (16 - s + s) with 16 by lia. unfold DIG_BASE in Hdx. lia. }
    assert (2 ^ s <= DIG_MSB) by (change DIG_MSB with (2 ^ 15); apply Z.pow_le_mono_r; lia).
    rewrite wrapU_small by (unfold DIG_MSB in *; lia).
    eexists _, _. split; [done|]. split; [auto with gaston|]. split; [done|].
    rewrite land_mask, (dval_take_S _ _ _ Hx), bpow_S, <- (shift_carry x c s Hs Hc).
    pose proof (Z.div_mod (x * 2 ^ s + c) DIG_BASE ltac:(done)). nia. }
  cbn [Nat.add] in Hv. exists c, num'. split_and!; try done.
  pose proof (dval_take_bounds num' n D). pose proof (bpow_pos n). assert (c = 0) as -> by nia. lia.
Qed.

(** What division needs of its operands. *)
Lemma lead_nonzero den den_len dv : holds den den_len dv -> normal (take den_len den) -> 0 < dv ->
  exists d, den !! (den_len - 1)%nat = Some d /\ is_dig d /\ d <> 0 /\ (0 < den_len)%nat /\
    bpow (den_len - 1) * d <= dv < bpow (den_len - 1) * (d + 1).
Proof.
  intros Hh Hn H0. assert (Hl : (0 < den_len)%nat).
  { destruct den_len; [|lia]. pose proof (holds_bounds _ _ _ Hh) as Hb. rewrite bpow_0 in Hb. lia. }
  destruct (holds_digit _ _ _ (den_len - 1) Hh ltac:(lia)) as (d & Hd & Hdd & Hv).
  replace (S (den_len - 1)) with den_len in Hv by lia.
  destruct Hh as (Hl' & HD & <-). exists d. split_and!; try done; try apply Hdd.
  - intros ->. apply Hn. rewrite last_lookup, length_take_le by done.
    rewrite lookup_take_lt by lia. by replace (pred den_len) with (den_len - 1)%nat by lia.
  - pose proof (dval_take_bounds den (den_len - 1) HD). lia.
  - pose proof (dval_take_bounds den (den_len - 1) HD). lia.
Qed.

Lemma normalised_range den_len d dv s : (0 < den_len)%nat -> 0 <= s < 16 ->
  DIG_MSB <= d * 2 ^ s < DIG_BASE ->
  bpow (den_len - 1) * d <= dv < bpow (den_len - 1) * (d + 1) ->
  bpow den_len <= 2 * (dv * 2 ^ s) /\ dv * 2 ^ s < bpow den_len.
Proof.
  intros Hl Hs Hd Hv. pose proof (bpow_pos (den_len - 1)) as Hp.
  assert (Hb : bpow den_len = DIG_BASE * bpow (den_len - 1)) by (rewrite <- bpow_S; f_equal; lia).
  rewrite Hb.
  assert (H1 : 1 <= 2 ^ s) by lia.
  assert ((d + 1) * 2 ^ s <= DIG_BASE).
  { replace DIG_BASE with (2 ^ (16 - s) * 2 ^ s) in *
      by (rewrite <- Z.pow_add_r by lia; by replace (16 - s + s) with 16 by lia).
    apply Z.mul_le_mono_nonneg_r; [lia|]. nia. }
  unfold DIG_MSB, DIG_BASE in *. split.
  - assert (bpow (den_len - 1) * (d * 2 ^ s) <= dv * 2 ^ s) by nia. nia.
  - assert (dv * 2 ^ s < bpow (den_len - 1) * ((d + 1) * 2 ^ s)) by nia. nia.
Qed.

(** The long division proper, for num > den. *)
Lemma mpn_div_long num num_len den den_len quo_dig nv dv :
  holds num num_len nv -> holds den den_len dv -> normal (take den_len den) -> 0 < dv < nv ->
  (num_len < length num)%nat -> (den_len <= num_len)%nat ->
  Forall is_dig quo_dig -> (S num_len - den_len <= length quo_dig)%nat ->
  mpn_cmp num num_len den den_len = Some 1 ->
  exists num' nlen quo' qlen, mpn_div num num_len den den_len quo_dig = Some (num', nlen, quo', qlen) /\
    result (length num) num' nlen (nv mod dv) /\ result (length quo_dig) quo' qlen (nv / dv).
Proof.
  intros Hnum Hden Hdn Hv Hnl Hle Hdq Hql Hcmp. unfold mpn_div. rewrite Hcmp. cbn [mbind option_bind Z.eqb].
  destruct (Z.ltb_spec 1 0); [lia|].
  destruct (lead_nonzero _ _ _ Hden Hdn ltac:(lia)) as (d & Hd & Hdd & Hd0 & Hdl & Hdv).
  rewrite Hd. cbn [mbind option_bind]. destruct (norm_shift_spec d Hdd Hd0) as (s & -> & Hs & Hsd).
  cbn [mbind option_bind]. destruct (normalised_range _ _ _ _ Hdl Hs Hsd Hdv) as [HN HF].
  pose proof (holds_bounds _ _ _ Hnum) as Hnb. destruct Hnum as (_ & HnD & Hnv).
  rewrite put_some by (done || (unfold is_dig, DIG_BASE; lia)). cbn [mbind option_bind].
  set (num0 := <[num_len := 0]> num).
  assert (HV0 : dval (take (S num_len) num0) = nv).
  { unfold num0. rewrite (dval_take_S _ _ 0) by (apply list_lookup_insert_eq; lia).
    rewrite take_insert_ge by lia. lia. }
  assert (Hpow : 1 <= 2 ^ s <= DIG_MSB).
  { split; [lia|]. change DIG_MSB with (2 ^ 15). apply Z.pow_le_mono_r; lia. }
  destruct (norm_loop num0 (S num_len) s) as (c1 & num1 & -> & L1 & D1 & V1).
  { apply Forall_insert; [done|]. unfold is_dig, DIG_BASE. lia. }
  { unfold num0. rewrite length_insert. lia. }
  { done. }
  { rewrite HV0, bpow_S. unfold DIG_BASE, DIG_MSB in *. nia. }
  assert (L1' : length num1 = length num) by (rewrite L1; apply length_insert).
  cbn [mbind option_bind]. rewrite (lead_digit_spec den den_len dv s Hden Hs Hdl). cbn [mbind option_bind].
  rewrite HV0 in V1. set (m := (S num_len - den_len)%nat) in *.
  destruct (div_loop_spec den den_len dv s Hden Hs Hdl HN HF m m num1 quo_dig)
    as (num2 & quo2 & E2 & L2 & Lq & D2 & Dq & Hlt & Hsum); [done|done|lia|lia| |].
  { replace (den_len + m)%nat with (S num_len) by lia. rewrite V1. unfold dnorm.
    assert (bpow den_len * bpow m = DIG_BASE * bpow num_len).
    { rewrite <- bpow_add, <- bpow_S. f_equal. lia. }
    pose proof (bpow_pos m). unfold DIG_BASE, DIG_MSB in *. nia. }
  rewrite E2. cbn [mbind option_bind]. replace (den_len + m)%nat with (S num_len) in Hsum by lia.
  rewrite V1, (drop_ge (take m quo_dig)) in Hsum by (rewrite length_take; lia). cbn [dval] in Hsum.
  unfold dnorm in *. set (q := dval (take m quo2)) in *. set (r := dval (take den_len num2)) in *.
  destruct (unnorm_spec den_len s Hs Hdl num2 D2 ltac:(lia)) as (c3 & num3 & E3 & L3 & D3 & V3).
  rewrite E3. cbn [mbind option_bind]. fold r in V3.
  assert (Hr0 : 0 <= r) by by apply dval_take_bounds.
  assert (Hr : r = (nv - dv * q) * 2 ^ s) by lia.
  assert (Hrv : r / 2 ^ s = nv - dv * q) by (rewrite Hr; apply Z.div_mul; lia).
  assert (Hrem : 0 <= nv - dv * q < dv) by nia.
  destruct (rtz_result quo2 m (nv / dv) Dq ltac:(lia)) as (qlen & -> & Rq).
  { fold q. apply (Z.div_unique_pos _ _ _ (nv - dv * q)); [done|lia]. }
  cbn [mbind option_bind].
  destruct (rtz_result num3 den_len (nv mod dv) D3 ltac:(lia)) as (nlen & -> & Rn).
  { rewrite V3, Hrv. apply (Z.mod_unique_pos _ _ q); [done|lia]. }
  cbn [mbind option_bind]. eexists _, _, _, _. split; [done|].
  rewrite Lq in Rq. replace (length num) with (length num3) by lia. done.
Qed.

Lemma mpn_div_spec num num_len den den_len quo_dig nv dv :
  holds num num_len nv -> normal (take num_len num) ->
  holds den den_len dv -> normal (take den_len den) -> 0 < dv ->
  (num_len < length num)%nat -> Forall is_dig quo_dig -> (S num_len <= length quo_dig)%nat ->
  exists num' nlen quo' qlen, mpn_div num num_len den den_len quo_dig = Some (num', nlen, quo', qlen) /\
    result (length num) num' nlen (nv mod dv) /\ result (length quo_dig) quo' qlen (nv / dv).
Proof.
  intros Hnum Hnn Hden Hdn Hv Hnl Hdq Hql.
  pose proof (mpn_cmp_spec _ _ _ _ _ _ Hnum Hden Hnn Hdn) as Hcmp.
  pose proof (holds_bounds _ _ _ Hnum) as Hnb. destruct Hnum as (Hn1 & HnD & Hnv) eqn:En.
  destruct (Ztrichotomy nv dv) as [Hlt|[->|Hgt]].
  - rewrite Z.sgn_neg in Hcmp by lia. unfold mpn_div. rewrite Hcmp. cbn [mbind option_bind Z.eqb].
    eexists _, _, _, _. split; [done|]. rewrite Z.mod_small, Z.div_small by lia.
    split; split_and!; try done; lia.
  - rewrite Z.sub_diag in Hcmp. unfold mpn_div. rewrite Hcmp. cbn [mbind option_bind Z.sgn Z.eqb].
    rewrite put_some by (unfold is_dig, DIG_BASE; lia). cbn [mbind option_bind].
    eexists _, _, _, _. split; [done|]. rewrite Z_mod_same_full, Z_div_same_full by lia.
    assert (H1 : take 1 (<[0%nat := 1]> quo_dig) = [1]) by (destruct quo_dig; [simpl in Hql; lia|done]).
    split; split_and!; rewrite ?length_insert, ?H1; try done; try lia.
    apply Forall_insert; [done|]. unfold is_dig, DIG_BASE. lia.
  - rewrite Z.sgn_pos in Hcmp by lia. eapply mpn_div_long; try done; [lia| |lia].
    destruct (decide (den_len <= num_len)%nat) as [|Hc]; [done|].
    pose proof (normal_longer (take num_len num) (take den_len den)) as H.
    destruct Hden as (Hd1 & HdD & Hdv). rewrite !length_take_le in H by done.
    specialize (H (Forall_take _ _ _ HnD) (Forall_take _ _ _ HdD) Hdn ltac:(lia)). lia.
Qed.
