(* ===== verification/Mpz.v ===== *)
(** Arbitrary-precision integers, py/mpz.c and py/mpz.h: the mpz object, its
    digit buffer, the store of objects that the routines share through
    pointers, and the assignments. *)
From stdpp Require Import gmap.
From S2P Require Import Prelude Digits Mpn.
#[local] Open Scope Z_scope.

(** * Objects

    [dig = []] is a NULL buffer pointer; sizes are counted in digits. *)

Record mpz := Mpz {
  neg : bool;
  fixed_dig : bool;
  alloc : nat;
  len : nat;
  dig : list Z
}.

Definition set_neg (z : mpz) (b : bool) : mpz := Mpz b (fixed_dig z) (alloc z) (len z) (dig z).
Definition set_dig (z : mpz) (dg : list Z) (n : nat) : mpz := Mpz (neg z) (fixed_dig z) (alloc z) n dg.

Definition mpz_is_zero (z : mpz) : bool := (len z =? 0)%nat.
Definition mpz_is_neg (z : mpz) : bool := neg z.
Definition mpz_max_num_bits (z : mpz) : Z := Z.of_nat (len z) * DIG_SIZE.

(** The allocator of py/malloc.c behind m_renew: a block grown to [n] digits
    keeps its contents; what the new digits hold is its own business. *)
Class Renew := m_renew : list Z -> nat -> list Z.
Class RenewLaws `{Renew} : Prop := {
  renew_length l n : length (m_renew l n) = n;
  renew_keeps l n : (length l <= n)%nat -> take (length l) (m_renew l n) = l;
  renew_digs l n : Forall is_dig l -> Forall is_dig (m_renew l n)
}.

(** Objects by address. *)
Notation store := (gmap nat mpz).

(** The digits of object [i] as seen by a routine that writes object [d]. *)
Definition digits_of (d i : nat) (z : mpz) : operand := if decide (i = d) then Self else Buf (dig z).

(** The address of a new object. *)
Definition fresh_id (σ : store) : nat := S (map_fold (fun k _ m => Nat.max k m) 0%nat σ).

Section mpz.
  Context {renew : Renew}.

Definition MIN_ALLOC : nat := 2.
Definition MPZ_NUM_DIG_FOR_INT : nat := 4.
Definition MPZ_NUM_DIG_FOR_LL : nat := 4.

Definition zero_mpz : mpz := Mpz false false 0 0 [].

Definition mpz_init_zero (σ : store) (i : nat) : store := <[i := zero_mpz]> σ.

(** A new object on the heap or the stack, and its end. *)
Definition new (σ : store) (z : mpz) : store * nat := (<[fresh_id σ := z]> σ, fresh_id σ).

Definition mpz_deinit (σ : store) (i : nat) : store := delete i σ.

Definition mpz_free (σ : store) (z : option nat) : store :=
  match z with
  | Some i => delete i σ
  | None => σ
  end.

Definition need_dig (z : mpz) (need : nat) : option mpz :=
  let need := if (need <? MIN_ALLOC)%nat then MIN_ALLOC else need in
  if bool_decide (dig z = []) || (alloc z <? need)%nat then
    if fixed_dig z then None
    else Some (Mpz (neg z) (fixed_dig z) need (len z) (m_renew (dig z) need))
  else Some z.

Definition mpz_need_dig (σ : store) (i : nat) (need : nat) : option store :=
  z ← σ !! i;
  z ← need_dig z need;
  Some (<[i := z]> σ).

Definition mpz_clone (σ : store) (src : nat) : option (store * nat) :=
  z ← σ !! src;
  if (alloc z =? 0)%nat then None
  else if decide (alloc z = length (dig z)) then
    Some (new σ (Mpz (neg z) false (alloc z) (len z) (dig z)))
  else None.

Definition mpz_set (σ : store) (dest src : nat) : option store :=
  zs ← σ !! src;
  σ ← mpz_need_dig σ dest (len zs);
  zs ← σ !! src;
  zd ← σ !! dest;
  dg ← copy (dig zd) (dig zs) (len zs);
  Some (<[dest := Mpz (neg zs) (fixed_dig zd) (alloc zd) (len zs) dg]> σ).

(** [while (uval > 0) { z->dig[z->len++] = uval & DIG_MASK; uval >>= DIG_SIZE; }] *)
Fixpoint set_uval (fuel : nat) (uval : Z) (n : nat) (dg : list Z) : option (list Z * nat) :=
  match fuel with
  | O => None
  | S fuel =>
      if uval <=? 0 then Some (dg, n)
      else dg ← put dg n (Z.land uval DIG_MASK); set_uval fuel (Z.shiftr uval DIG_SIZE) (S n) dg
  end.

Definition mpz_set_from_int (σ : store) (i : nat) (val : Z) : option store :=
  if val =? 0 then
    z ← σ !! i;
    Some (<[i := Mpz false (fixed_dig z) (alloc z) 0 (dig z)]> σ)
  else
    σ ← mpz_need_dig σ i MPZ_NUM_DIG_FOR_INT;
    z ← σ !! i;
    let uval := if val <? 0 then u64 (i64 (- val)) else u64 val in
    '(dg, n) ← set_uval 5 uval 0 (dig z);
    Some (<[i := Mpz (val <? 0) (fixed_dig z) (alloc z) n dg]> σ).

Definition mpz_set_from_ll (σ : store) (i : nat) (val : Z) (is_signed : bool) : option store :=
  σ ← mpz_need_dig σ i MPZ_NUM_DIG_FOR_LL;
  z ← σ !! i;
  let minus := is_signed && (val <? 0) in
  let uval := if minus then u64 (- u64 val) else u64 val in
  '(dg, n) ← set_uval 5 uval 0 (dig z);
  Some (<[i := Mpz minus (fixed_dig z) (alloc z) n dg]> σ).

Definition mpz_init_from_int (σ : store) (i : nat) (val : Z) : option store :=
  mpz_set_from_int (mpz_init_zero σ i) i val.

Definition mpz_init_fixed_from_int (σ : store) (i : nat) (dg : list Z) (val : Z) : option store :=
  mpz_set_from_int (<[i := Mpz false true (length dg) 0 dg]> σ) i val.

Definition mpz_cmp (z1 z2 : mpz) : option Z :=
  let cmp := Z.b2z (neg z2) - Z.b2z (neg z1) in
  if negb (cmp =? 0) then Some cmp
  else
    cmp ← mpn_cmp (dig z1) (len z1) (dig z2) (len z2);
    Some (if neg z1 then - cmp else cmp).

(** The conversions to machine integers run down the digits. *)
Fixpoint hash_loop (dg : list Z) (n : nat) (val : Z) : option Z :=
  match n with
  | O => Some val
  | S n => d ← dg !! n; hash_loop dg n (Z.lor (u64 (Z.shiftl val DIG_SIZE)) d)
  end.

Definition mpz_hash (z : mpz) : option Z :=
  val ← hash_loop (dig z) (len z) 0;
  Some (i64 (if neg z then u64 (- val) else val)).

(** [Some None] is the return value false. *)
Fixpoint checked_loop (limit : Z) (dg : list Z) (n : nat) (val : Z) : option (option Z) :=
  match n with
  | O => Some (Some val)
  | S n =>
      if limit <? val then Some None
      else d ← dg !! n; checked_loop limit dg n (Z.lor (u64 (Z.shiftl val DIG_SIZE)) d)
  end.

Definition WORD_MSBIT_HIGH : Z := 2 ^ 63.
Definition not_msbit : Z := u64 (Z.lnot WORD_MSBIT_HIGH).

Definition mpz_as_int_checked (z : mpz) : option (option Z) :=
  val ← checked_loop (Z.shiftr not_msbit DIG_SIZE) (dig z) (len z) 0;
  Some (val ← val; Some (i64 (if neg z then u64 (- val) else val))).

Definition mpz_as_uint_checked (z : mpz) : option (option Z) :=
  if neg z then Some None
  else checked_loop (Z.shiftr not_msbit (DIG_SIZE - 1)) (dig z) (len z) 0.

End mpz.

(** * Values and well-formedness *)

Definition magnitude (z : mpz) : Z := dval (take (len z) (dig z)).
Definition zval (z : mpz) : Z := if neg z then - magnitude z else magnitude z.

(** The buffer is as large as recorded and holds digits; the digits in use
    are normalised; zero is not negative. *)
Record wf (z : mpz) : Prop := {
  wf_alloc : alloc z = length (dig z);
  wf_len : (len z <= length (dig z))%nat;
  wf_digs : Forall is_dig (dig z);
  wf_normal : normal (take (len z) (dig z));
  wf_zero : len z = 0%nat -> neg z = false
}.

Lemma wf_holds z : wf z -> holds (dig z) (len z) (magnitude z).
Proof. intros []. by split_and!. Qed.

Lemma magnitude_nonneg z : wf z -> 0 <= magnitude z.
Proof. intros Hz. apply (holds_bounds _ _ _ (wf_holds z Hz)). Qed.

Lemma len_zero z : wf z -> len z = 0%nat <-> magnitude z = 0.
Proof.
  intros []. unfold magnitude. rewrite normal_zero by (done || by apply Forall_take). split.
  - intros ->. apply firstn_O.
  - intros E. apply (f_equal length) in E. rewrite length_take_le in E by done. done.
Qed.

(** More digits, greater magnitude. *)
Lemma magnitude_len a b : wf a -> wf b -> magnitude b <= magnitude a -> (len b <= len a)%nat.
Proof.
  intros Ha Hb Hle. destruct (decide (len b <= len a)%nat) as [|Hc]; [done|].
  pose proof (normal_longer (take (len a) (dig a)) (take (len b) (dig b))) as Hl.
  rewrite !length_take_le in Hl by (apply Ha || apply Hb).
  specialize (Hl (Forall_take _ _ _ (wf_digs a Ha)) (Forall_take _ _ _ (wf_digs b Hb)) (wf_normal b Hb) ltac:(lia)).
  unfold magnitude in *. lia.
Qed.

Lemma zval_abs z : wf z -> Z.abs (zval z) = magnitude z.
Proof. intros Hz. pose proof (magnitude_nonneg z Hz). unfold zval. destruct (neg z); lia. Qed.

Lemma neg_iff z : wf z -> neg z = true <-> zval z < 0.
Proof.
  intros Hz. pose proof (magnitude_nonneg z Hz). unfold zval. pose proof (len_zero z Hz) as H0.
  destruct (neg z) eqn:E; [|split; [done|lia]]. split; [|done]. intros _.
  destruct (decide (magnitude z = 0)) as [E0|]; [|lia].
  apply H0 in E0. apply (wf_zero z Hz) in E0. congruence.
Qed.

Lemma neg_ltb z : wf z -> neg z = (zval z <? 0).
Proof.
  intros Hz. pose proof (neg_iff z Hz) as H. destruct (Z.ltb_spec (zval z) 0); [by apply H|].
  destruct (neg z); [|done]. assert (zval z < 0) by by apply H. lia.
Qed.

(** An object made of the result of a routine. *)
Lemma result_wf size dg n v b f : result size dg n v -> (v = 0 -> b = false) ->
  wf (Mpz b f size n dg) /\ magnitude (Mpz b f size n dg) = v.
Proof.
  intros (<- & Hd & Hn & Hv & Hnorm) Hb. split; [|done].
  constructor; cbn [alloc dig len neg]; try done.
  intros ->. apply Hb. by rewrite <- Hv.
Qed.

Lemma zval_mpz b f a n dg : zval (Mpz b f a n dg) = if b then - dval (take n dg) else dval (take n dg).
Proof. done. Qed.

(** * Buffers *)

Section buffers.
Context {renew : Renew} {laws : RenewLaws}.

(** A destination: well formed and free to grow. *)
Definition growable (z : mpz) : Prop := wf z /\ fixed_dig z = false.

Lemma need_dig_take (l l' : list Z) n : take (length l) l' = l -> (n <= length l)%nat -> take n l' = take n l.
Proof. intros E Hl. transitivity (take n (take (length l) l')); [|by rewrite E]. rewrite take_take. f_equal. lia. Qed.

Lemma need_dig_spec z n : wf z -> fixed_dig z = false \/ (MIN_ALLOC <= alloc z /\ n <= alloc z)%nat ->
  exists z', need_dig z n = Some z' /\ wf z' /\ (n <= length (dig z'))%nat /\
    neg z' = neg z /\ len z' = len z /\ fixed_dig z' = fixed_dig z /\
    take (length (dig z)) (dig z') = dig z.
Proof.
  intros [Ha Hl Hd Hn Hz] Hf. unfold need_dig. set (n' := if (n <? MIN_ALLOC)%nat then MIN_ALLOC else n).
  assert (Hn' : (n <= n')%nat /\ (MIN_ALLOC <= n')%nat /\ (n' = n \/ n' = MIN_ALLOC)).
  { unfold n'. destruct (Nat.ltb_spec n MIN_ALLOC); lia. }
  destruct (bool_decide (dig z = []) || (alloc z <? n')%nat) eqn:E.
  - assert (Hf' : fixed_dig z = false).
    { destruct Hf as [|[Hm Hn2]]; [done|]. apply orb_prop in E as [E|E].
      - apply bool_decide_eq_true in E. rewrite E in Ha. unfold MIN_ALLOC in *. simpl in Ha. lia.
      - apply Nat.ltb_lt in E. lia. }
    assert (Hle : (length (dig z) <= n')%nat).
    { apply orb_prop in E as [E|E]; [apply bool_decide_eq_true in E; rewrite E; simpl; lia|].
      apply Nat.ltb_lt in E. lia. }
    rewrite Hf'. eexists. split; [done|]. cbn [dig neg len fixed_dig].
    assert (Ht : take (len z) (m_renew (dig z) n') = take (len z) (dig z)).
    { apply (need_dig_take (dig z)); [by apply renew_keeps|done]. }
    split_and!; try done.
    + constructor; cbn [alloc len dig neg]; rewrite ?Ht; try done; rewrite ?renew_length; [done|lia|].
      by apply renew_digs.
    + rewrite renew_length. lia.
    + by apply renew_keeps.
  - apply orb_false_elim in E as [E1 E2]. apply Nat.ltb_ge in E2.
    exists z. split_and!; try done; [lia|apply firstn_all].
Qed.

Lemma need_dig_spec_take z z' : take (length (dig z)) (dig z') = dig z -> (len z <= length (dig z))%nat ->
  take (len z) (dig z') = take (len z) (dig z).
Proof. intros. by apply need_dig_take. Qed.

(** After the destination has grown, an operand still holds its value,
    whether it is the destination or another object. *)
Lemma operand_spec (σ : store) d i zd zd' zi : σ !! d = Some zd -> σ !! i = Some zi -> wf zi -> wf zd ->
  neg zd' = neg zd -> len zd' = len zd -> wf zd' -> take (length (dig zd)) (dig zd') = dig zd ->
  exists zi', (<[d := zd']> σ : store) !! i = Some zi' /\ neg zi' = neg zi /\ len zi' = len zi /\ wf zi' /\
    magnitude zi' = magnitude zi /\ contents (digits_of d i zi') (dig zd') = dig zi' /\
    holds (contents (digits_of d i zi') (dig zd')) (len zi') (magnitude zi) /\
    normal (take (len zi') (contents (digits_of d i zi') (dig zd'))).
Proof.
  intros Hd Hi Hwi Hwd En El Hwd' Et. destruct (decide (i = d)) as [->|Hne].
  - rewrite Hd in Hi. injection Hi as <-. exists zd'. rewrite lookup_insert_eq.
    unfold digits_of. rewrite decide_True by done. cbn [contents].
    assert (Hm : magnitude zd' = magnitude zd).
    { unfold magnitude. rewrite El. f_equal. apply need_dig_spec_take; [done|apply Hwd]. }
    rewrite <- Hm. split_and!; try done; [by apply wf_holds|apply Hwd'].
  - exists zi. rewrite lookup_insert_ne by done. unfold digits_of. rewrite decide_False by done.
    cbn [contents]. split_and!; try done; [by apply wf_holds|apply Hwi].
Qed.

(** Object [i] stands for the integer [v]; object [i] may be written; a
    routine leaves [v] in object [d] and touches no other object. *)
Definition represents (σ : store) (i : nat) (v : Z) : Prop :=
  exists z, σ !! i = Some z /\ wf z /\ zval z = v.
Definition owns (σ : store) (i : nat) : Prop := exists z, σ !! i = Some z /\ growable z.
Definition computes (σ : store) (res : option store) (d : nat) (v : Z) : Prop :=
  exists z, res = Some (<[d := z]> σ) /\ growable z /\ zval z = v.

Lemma computes_represents σ res d v : computes σ res d v ->
  exists σ', res = Some σ' /\ represents σ' d v /\ owns σ' d /\ forall i, i <> d -> σ' !! i = σ !! i.
Proof.
  intros (z & -> & Hg & Hv). eexists. split; [done|]. unfold represents, owns.
  rewrite lookup_insert_eq. split_and!; [exists z; split_and!; [done|apply Hg|done]|by exists z|].
  intros i Hi. by rewrite lookup_insert_ne.
Qed.

Lemma mpz_need_dig_spec (σ : store) d n zd : σ !! d = Some zd -> growable zd ->
  exists zd', mpz_need_dig σ d n = Some (<[d := zd']> σ) /\ growable zd' /\ (n <= length (dig zd'))%nat /\
    neg zd' = neg zd /\
    forall i zi, σ !! i = Some zi -> wf zi ->
      exists zi', (<[d := zd']> σ : store) !! i = Some zi' /\ neg zi' = neg zi /\ len zi' = len zi /\
        wf zi' /\ magnitude zi' = magnitude zi /\ contents (digits_of d i zi') (dig zd') = dig zi' /\
        holds (contents (digits_of d i zi') (dig zd')) (len zi') (magnitude zi) /\
        normal (take (len zi') (contents (digits_of d i zi') (dig zd'))).
Proof.
  intros Hd [Hw Hf]. unfold mpz_need_dig. rewrite Hd. cbn [mbind option_bind].
  destruct (need_dig_spec zd n Hw ltac:(auto)) as (z1 & -> & Hw1 & Hl1 & Hn1 & Hlen1 & Hf1 & Ht1).
  cbn [mbind option_bind]. exists z1. unfold growable. split_and!; try done; [congruence|].
  intros i zi Hi Hwi. by apply (operand_spec σ d i zd z1 zi).
Qed.
End buffers.

(** * Assignments *)

Lemma set_uval_spec k fuel uval n dg : (k < fuel)%nat -> 0 <= uval < bpow k -> (n + k <= length dg)%nat ->
  Forall is_dig dg -> (uval = 0 -> normal (take n dg)) ->
  exists dg' m, set_uval fuel uval n dg = Some (dg', m) /\
    result (length dg) dg' m (dval (take n dg) + bpow n * uval).
Proof.
  revert fuel uval n dg. induction k as [|k IH]; intros [|fuel] uval n dg Hf Hu Hn Hd Hnorm; [lia| |lia|];
    cbn [set_uval]; pose proof (bpow_0) as B0; destruct (Z.leb_spec uval 0) as [Hz|Hz].
  1, 3: assert (uval = 0) as -> by lia; exists dg, n; split; [done|]; rewrite Z.mul_0_r, Z.add_0_r;
        split_and!; try done; [lia|by apply Hnorm].
  { rewrite B0 in Hu. lia. }
  rewrite land_mask, shr_dig, put_some by (auto with gaston || lia). cbn [mbind option_bind].
  assert (Hlook : <[n := uval mod DIG_BASE]> dg !! n = Some (uval mod DIG_BASE))
    by (apply list_lookup_insert_eq; lia).
  pose proof (Z.div_mod uval DIG_BASE ltac:(done)) as E. rewrite bpow_S in Hu.
  destruct (IH fuel (uval / DIG_BASE) (S n) (<[n := uval mod DIG_BASE]> dg)) as (dg' & m & H1 & H2).
  - lia.
  - split; [apply Z.div_pos; unfold DIG_BASE; lia|]. apply Z.div_lt_upper_bound; [done|lia].
  - rewrite length_insert. lia.
  - apply Forall_insert; auto with gaston.
  - intros Hz2. rewrite (take_S_r _ _ _ Hlook). apply normal_snoc. lia.
  - exists dg', m. split; [done|]. rewrite length_insert in H2.
    rewrite (dval_take_S _ _ _ Hlook), take_insert_ge, bpow_S in H2 by lia.
    replace (dval (take n dg) + bpow n * uval) with
      (dval (take n dg) + bpow n * (uval mod DIG_BASE) + DIG_BASE * bpow n * (uval / DIG_BASE)) by nia.
    done.
Qed.

Section assignments.
Context {renew : Renew} {laws : RenewLaws}.

(** Room for a machine word: a growable object or a big enough fixed one. *)
Definition room_for (z : mpz) (n : nat) : Prop :=
  wf z /\ (fixed_dig z = false \/ (MIN_ALLOC <= alloc z /\ n <= alloc z)%nat).

Lemma growable_room z n : growable z -> room_for z n.
Proof. intros [? ?]. split; auto. Qed.

Lemma mpz_set_from_int_spec σ i z val : σ !! i = Some z -> room_for z MPZ_NUM_DIG_FOR_INT ->
  - 2 ^ 63 <= val < 2 ^ 63 ->
  exists z', mpz_set_from_int σ i val = Some (<[i := z']> σ) /\ wf z' /\ zval z' = val /\
    fixed_dig z' = fixed_dig z.
Proof.
  intros Hi [Hw Hf] Hv. unfold mpz_set_from_int. destruct (Z.eqb_spec val 0) as [->|H0].
  { rewrite Hi. eexists. split; [done|]. destruct Hw. split_and!; try done. constructor; cbn; try done; lia. }
  unfold mpz_need_dig. rewrite Hi. cbn [mbind option_bind].
  destruct (need_dig_spec z MPZ_NUM_DIG_FOR_INT Hw Hf) as (z1 & -> & Hw1 & Hl1 & _ & _ & Hf1 & _).
  cbn [mbind option_bind]. rewrite lookup_insert_eq. cbn [mbind option_bind].
  assert (Hu : (if val <? 0 then u64 (i64 (- val)) else u64 val) = Z.abs val).
  { destruct (Z.ltb_spec val 0); [|rewrite wrapU_small; lia].
    unfold wrapU. rewrite wrapS_mod by lia. rewrite Z.mod_small; lia. }
  rewrite Hu. destruct (set_uval_spec 4 5 (Z.abs val) 0 (dig z1)) as (dg & n & -> & Hr).
  - lia.
  - unfold bpow, DIG_BASE. lia.
  - unfold MPZ_NUM_DIG_FOR_INT in Hl1. lia.
  - apply Hw1.
  - lia.
  - cbn [mbind option_bind]. rewrite insert_insert_eq. eexists. split; [done|].
    rewrite firstn_O, bpow_0 in Hr. cbn [dval] in Hr. rewrite Z.add_0_l, Z.mul_1_l in Hr.
    rewrite (wf_alloc z1 Hw1). destruct (result_wf _ _ _ _ (val <? 0) (fixed_dig z1) Hr ltac:(lia)) as [W M].
    split; [done|]. split; [|done]. unfold zval. rewrite M. cbn [neg]. destruct (Z.ltb_spec val 0); lia.
Qed.

Lemma mpz_set_spec σ d s zd zs : σ !! d = Some zd -> growable zd -> σ !! s = Some zs -> wf zs ->
  exists z', mpz_set σ d s = Some (<[d := z']> σ) /\ growable z' /\ neg z' = neg zs /\ len z' = len zs /\
    magnitude z' = magnitude zs /\ (length (dig zd) <= length (dig z'))%nat.
Proof.
  intros Hd [Hwd Hfd] Hs Hws. unfold mpz_set, mpz_need_dig. rewrite Hs. cbn [mbind option_bind].
  rewrite Hd. cbn [mbind option_bind].
  destruct (need_dig_spec zd (len zs) Hwd ltac:(auto)) as (z1 & -> & Hw1 & Hl1 & Hn1 & Hlen1 & Hf1 & Ht1).
  cbn [mbind option_bind].
  destruct (operand_spec σ d s zd z1 zs Hd Hs Hws Hwd Hn1 Hlen1 Hw1 Ht1)
    as (zs' & -> & Hns & Hls & Hws' & Hms & _).
  cbn [mbind option_bind]. rewrite lookup_insert_eq. cbn [mbind option_bind].
  unfold copy. rewrite decide_True by (split; [lia|apply Hws']). cbn [mbind option_bind].
  rewrite insert_insert_eq. eexists. split; [done|].
  assert (Htk : take (len zs') (take (len zs') (dig zs') ++ drop (len zs') (dig z1)) = take (len zs') (dig zs')).
  { apply take_app_length'. rewrite length_take_le; [done|apply Hws']. }
  unfold growable, magnitude in *. cbn [neg len fixed_dig dig]. rewrite Htk. split_and!; try done.
  - destruct Hws', Hw1. constructor; cbn [alloc dig len neg]; rewrite ?Htk; try done.
    + rewrite length_app, length_take, length_drop. lia.
    + rewrite length_app, length_take, length_drop. lia.
    + apply Forall_app_2; [by apply Forall_take|by apply Forall_drop].
  - congruence.
  - rewrite length_app, length_take, length_drop.
    destruct Hws', Hw1. apply (f_equal length) in Ht1. rewrite length_take in Ht1. lia.
Qed.

(** * New objects *)

Lemma fresh_id_max (σ : store) i z : σ !! i = Some z ->
  (i <= map_fold (fun k _ m => Nat.max k m) 0%nat σ)%nat.
Proof.
  revert i z. apply (map_fold_weak_ind (fun r (m : store) => forall i z, m !! i = Some z -> (i <= r)%nat)).
  - intros i z. by rewrite lookup_empty.
  - intros k x m r _ IH i z. rewrite lookup_insert_Some. intros [[<- _]|[_ Hi]]; [lia|].
    apply IH in Hi. lia.
Qed.

Lemma fresh_id_fresh (σ : store) : σ !! fresh_id σ = None.
Proof.
  destruct (σ !! fresh_id σ) eqn:E; [|done]. apply fresh_id_max in E. unfold fresh_id in E. lia.
Qed.

(** Object [i] may be written and stands for [v]. *)
Definition holds_val (σ : store) (i : nat) (v : Z) : Prop :=
  exists z, σ !! i = Some z /\ growable z /\ zval z = v.

Lemma holds_val_owns σ i v : holds_val σ i v -> owns σ i.
Proof. intros (z & ? & ? & _). by exists z. Qed.

Lemma holds_val_represents σ i v : holds_val σ i v -> represents σ i v.
Proof. intros (z & ? & [] & ?). by exists z. Qed.

Lemma holds_val_insert σ i z v : growable z -> zval z = v -> holds_val (<[i := z]> σ) i v.
Proof. intros. exists z. by rewrite lookup_insert_eq. Qed.

Lemma holds_val_other σ σ' i v : σ' !! i = σ !! i -> holds_val σ i v -> holds_val σ' i v.
Proof. intros E (z & Hz & ?). exists z. by rewrite E. Qed.

Lemma represents_other σ σ' i v : σ' !! i = σ !! i -> represents σ i v -> represents σ' i v.
Proof. intros E (z & Hz & ?). exists z. by rewrite E. Qed.

Lemma computes_val σ res d v : computes σ res d v ->
  exists σ', res = Some σ' /\ holds_val σ' d v /\ forall i, i <> d -> σ' !! i = σ !! i.
Proof.
  intros (z & -> & Hg & Hv). eexists. split; [done|]. split; [by apply holds_val_insert|].
  intros. by rewrite lookup_insert_ne.
Qed.

Lemma mpz_clone_spec σ i v : represents σ i v -> v <> 0 ->
  exists z t, mpz_clone σ i = Some (<[t := z]> σ, t) /\ σ !! t = None /\ growable z /\ zval z = v.
Proof.
  intros (z & Hi & Hw & Hv) H0. unfold mpz_clone. rewrite Hi. cbn [mbind option_bind].
  assert (Hl : len z <> 0%nat).
  { intros E. apply (len_zero z Hw) in E. unfold zval in Hv. rewrite E in Hv. by destruct (neg z). }
  pose proof (wf_alloc z Hw) as Ha. pose proof (wf_len z Hw). destruct (Nat.eqb_spec (alloc z) 0); [lia|].
  rewrite decide_True by done. eexists _, _. split; [done|]. split; [apply fresh_id_fresh|].
  split; [|done]. split; [|done]. destruct Hw. by constructor.
Qed.

Lemma set_int_val σ d val : owns σ d -> - 2 ^ 63 <= val < 2 ^ 63 ->
  computes σ (mpz_set_from_int σ d val) d val.
Proof.
  intros (z & Hd & Hg) Hv.
  destruct (mpz_set_from_int_spec σ d z val Hd (growable_room z _ Hg) Hv) as (z' & -> & W & V & F).
  exists z'. split; [done|]. split; [|done]. split; [done|]. rewrite F. apply Hg.
Qed.

Lemma zero_growable : growable zero_mpz.
Proof. split; [|done]. by constructor. Qed.
End assignments.
