(* ===== verification/MpzAdd.v ===== *)
(** Sign changes, sums, differences and shifts of mpz objects (py/mpz.c).
    Every routine writes the object [d] and may be given [d] again among its
    operands. *)
From stdpp Require Import gmap.
From S2P Require Import Prelude Digits Mpn MpnBits Mpz.
#[local] Open Scope Z_scope.

Section mpz_add.
  Context {renew : Renew}.

(** [dest->len = mpn_f(dest->dig, lhs->dig, lhs->len, rhs->dig, rhs->len)] *)
Definition call_mpn (f : list Z -> operand -> nat -> operand -> nat -> option (list Z * nat))
    (σ : store) (d l r : nat) : option store :=
  zd ← σ !! d;
  zl ← σ !! l;
  zr ← σ !! r;
  '(dg, n) ← f (dig zd) (digits_of d l zl) (len zl) (digits_of d r zr) (len zr);
  Some (<[d := set_dig zd dg n]> σ).

Definition mpz_abs_inpl (σ : store) (d z : nat) : option store :=
  σ ← (if decide (d = z) then Some σ else mpz_set σ d z);
  zd ← σ !! d;
  Some (<[d := set_neg zd false]> σ).

Definition mpz_neg_inpl (σ : store) (d z : nat) : option store :=
  σ ← (if decide (d = z) then Some σ else mpz_set σ d z);
  zd ← σ !! d;
  if (len zd =? 0)%nat then Some σ else Some (<[d := set_neg zd (negb (neg zd))]> σ).

Definition mpz_not_inpl (σ : store) (d z : nat) : option store :=
  σ ← (if decide (d = z) then Some σ else mpz_set σ d z);
  zd ← σ !! d;
  if (len zd =? 0)%nat then
    σ ← mpz_need_dig σ d 1;
    zd ← σ !! d;
    dg ← put (dig zd) 0 1;
    Some (<[d := Mpz true (fixed_dig zd) (alloc zd) 1 dg]> σ)
  else if neg zd then
    '(dg, n) ← mpn_sub (dig zd) Self (len zd) (Buf [1]) 1;
    Some (<[d := Mpz false (fixed_dig zd) (alloc zd) n dg]> σ)
  else
    σ ← mpz_need_dig σ d (len zd + 1);
    zd ← σ !! d;
    '(dg, n) ← mpn_add (dig zd) Self (len zd) (Buf [1]) 1;
    Some (<[d := Mpz true (fixed_dig zd) (alloc zd) n dg]> σ).

Definition mpz_shl_inpl (σ : store) (d l : nat) (rhs : Z) : option store :=
  zl ← σ !! l;
  if (len zl =? 0)%nat || (rhs =? 0) then mpz_set σ d l
  else
    σ ← mpz_need_dig σ d (len zl + Z.to_nat (u64 (rhs + DIG_SIZE - 1) / DIG_SIZE));
    zd ← σ !! d;
    zl ← σ !! l;
    '(dg, n) ← mpn_shl (dig zd) (digits_of d l zl) (len zl) rhs;
    Some (<[d := Mpz (neg zl) (fixed_dig zd) (alloc zd) n dg]> σ).

(** The digits shifted out, read from lhs as it is after the shift. *)
Fixpoint any_nonzero (dg : list Z) (n : nat) : option bool :=
  match n with
  | O => Some false
  | S n =>
      rest ← any_nonzero dg n;
      if (rest : bool) then Some true else d ← dg !! n; Some (negb (d =? 0))
  end.

Definition shr_round_up (z : mpz) (rhs : Z) : option bool :=
  let n_whole := Z.to_nat (rhs / DIG_SIZE) in
  let n_part := rhs mod DIG_SIZE in
  up ← any_nonzero (dig z) (Nat.min (len z) n_whole);
  if (n_whole <? len z)%nat then
    d ← dig z !! n_whole;
    Some (up || negb (Z.land d (Z.shiftl 1 n_part - 1) =? 0))
  else Some up.

Definition mpz_shr_inpl (σ : store) (d l : nat) (rhs : Z) : option store :=
  zl ← σ !! l;
  if (len zl =? 0)%nat || (rhs =? 0) then mpz_set σ d l
  else
    σ ← mpz_need_dig σ d (len zl);
    zd ← σ !! d;
    zl ← σ !! l;
    '(dg, n) ← mpn_shr (dig zd) (digits_of d l zl) (len zl) rhs;
    let zd := Mpz (neg zl) (fixed_dig zd) (alloc zd) n dg in
    let σ := <[d := zd]> σ in
    if neg zd then
      zl ← σ !! l;
      up ← shr_round_up zl rhs;
      if (up : bool) then
        if (len zd =? 0)%nat then
          dg ← put (dig zd) 0 1;
          Some (<[d := set_dig zd dg 1]> σ)
        else
          '(dg, n) ← mpn_add (dig zd) Self (len zd) (Buf [1]) 1;
          Some (<[d := set_dig zd dg n]> σ)
      else Some σ
    else Some σ.

(** [if (mpn_cmp(lhs, rhs) < 0) swap], with whether they were swapped. *)
Definition larger_first (σ : store) (l r : nat) : option (nat * nat * bool) :=
  zl ← σ !! l;
  zr ← σ !! r;
  cmp ← mpn_cmp (dig zl) (len zl) (dig zr) (len zr);
  Some (if cmp <? 0 then (r, l, true) else (l, r, false)).

Definition mpz_add_inpl (σ : store) (d l r : nat) : option store :=
  '(l, r, _) ← larger_first σ l r;
  zl ← σ !! l;
  zr ← σ !! r;
  σ ← (if Bool.eqb (neg zl) (neg zr)
       then σ ← mpz_need_dig σ d (len zl + 1); call_mpn mpn_add σ d l r
       else σ ← mpz_need_dig σ d (len zl); call_mpn mpn_sub σ d l r);
  zd ← σ !! d;
  zl ← σ !! l;
  Some (<[d := set_neg zd (neg zl && negb (len zd =? 0)%nat)]> σ).

Definition mpz_sub_inpl (σ : store) (d l r : nat) : option store :=
  '(l, r, swapped) ← larger_first σ l r;
  zl ← σ !! l;
  zr ← σ !! r;
  σ ← (if negb (Bool.eqb (neg zl) (neg zr))
       then σ ← mpz_need_dig σ d (len zl + 1); call_mpn mpn_add σ d l r
       else σ ← mpz_need_dig σ d (len zl); call_mpn mpn_sub σ d l r);
  zd ← σ !! d;
  zl ← σ !! l;
  Some (<[d := set_neg zd (if (len zd =? 0)%nat then false
                           else if (swapped : bool) then negb (neg zl) else neg zl)]> σ).

End mpz_add.

(** * Sums and differences *)

Section theorems.
Context {renew : Renew} {laws : RenewLaws}.

Lemma larger_first_spec σ l r zl zr : σ !! l = Some zl -> wf zl -> σ !! r = Some zr -> wf zr ->
  larger_first σ l r = Some (if magnitude zl <? magnitude zr then (r, l, true) else (l, r, false)).
Proof.
  intros Hl Hwl Hr Hwr. unfold larger_first. rewrite Hl. cbn [mbind option_bind]. rewrite Hr.
  cbn [mbind option_bind].
  rewrite (mpn_cmp_spec _ _ _ _ _ _ (wf_holds zl Hwl) (wf_holds zr Hwr)) by (apply Hwl || apply Hwr).
  cbn [mbind option_bind]. f_equal.
  destruct (Z.ltb_spec (Z.sgn (magnitude zl - magnitude zr)) 0), (Z.ltb_spec (magnitude zl) (magnitude zr));
    try done; lia.
Qed.

(** The two branches of addition and subtraction, on magnitudes. *)
Lemma add_sub_core σ d l r zd zl zr (b : bool) :
  σ !! d = Some zd -> growable zd -> σ !! l = Some zl -> wf zl -> σ !! r = Some zr -> wf zr ->
  magnitude zr <= magnitude zl ->
  exists z1, (if b then σ ← mpz_need_dig σ d (len zl + 1); call_mpn mpn_add σ d l r
              else σ ← mpz_need_dig σ d (len zl); call_mpn mpn_sub σ d l r) = Some (<[d := z1]> σ) /\
    fixed_dig z1 = false /\ neg z1 = neg zd /\ alloc z1 = length (dig z1) /\
    result (length (dig z1)) (dig z1) (len z1)
      (if b then magnitude zl + magnitude zr else magnitude zl - magnitude zr).
Proof.
  intros Hd Hg Hl Hwl Hr Hwr Hle. pose proof (magnitude_len zl zr Hwl Hwr Hle) as Hlen.
  destruct (mpz_need_dig_spec σ d (if b then len zl + 1 else len zl) zd Hd Hg)
    as (zd' & Hn & [Hw' Hf'] & Hroom & Hneg & Hops).
  destruct (Hops l zl Hl Hwl) as (zl' & El & _ & Ell & Wl & Ml & _ & Hhl & Hnl).
  destruct (Hops r zr Hr Hwr) as (zr' & Er & _ & Elr & _ & _ & _ & Hhr & _).
  assert (Hcall : forall f dg n, f (dig zd') (digits_of d l zl') (len zl') (digits_of d r zr') (len zr') = Some (dg, n) ->
    call_mpn f (<[d := zd']> σ) d l r = Some (<[d := set_dig zd' dg n]> σ)).
  { intros f dg n Hf. unfold call_mpn. rewrite lookup_insert_eq. cbn [mbind option_bind]. rewrite El.
    cbn [mbind option_bind]. rewrite Er. cbn [mbind option_bind]. rewrite Hf. cbn [mbind option_bind].
    by rewrite insert_insert_eq. }
  pose proof (wf_alloc zd' Hw') as Ha.
  destruct b; rewrite Hn; cbn [mbind option_bind].
  - destruct (mpn_add_spec (dig zd') _ _ _ _ _ _ (wf_digs _ Hw') Hhl Hhr) as (dg & n & E & R); [lia|done| |].
    { pose proof (holds_bounds _ _ _ Hhl). pose proof (holds_bounds _ _ _ Hhr).
      pose proof (bpow_le (S (len zl')) (length (dig zd')) ltac:(lia)) as Hp. rewrite bpow_S in Hp.
      unfold DIG_BASE in Hp. lia. }
    exists (set_dig zd' dg n). rewrite (Hcall _ _ _ E). unfold set_dig. cbn [fixed_dig neg alloc dig len].
    destruct R as (HL & R). rewrite HL. split_and!; try done.
  - destruct (mpn_sub_spec (dig zd') _ _ _ _ _ _ (wf_digs _ Hw') Hhl Hhr) as (dg & n & E & R & _); [lia|done|].
    exists (set_dig zd' dg n). rewrite (Hcall _ _ _ E). unfold set_dig. cbn [fixed_dig neg alloc dig len].
    destruct R as (HL & R). rewrite HL. split_and!; try done.
Qed.

(** The object written last, with its sign. *)
Lemma finish z v b : fixed_dig z = false -> alloc z = length (dig z) ->
  result (length (dig z)) (dig z) (len z) v -> (v = 0 -> b = false) ->
  growable (set_neg z b) /\ zval (set_neg z b) = if b then - v else v.
Proof.
  intros Hf Ha Hr Hb. unfold growable, set_neg. rewrite Hf, Ha.
  destruct (result_wf _ _ _ _ b false Hr Hb) as [W M]. split; [done|].
  unfold zval. rewrite M. done.
Qed.

Lemma result_len size dg n v : result size dg n v -> (n =? 0)%nat = (v =? 0).
Proof.
  intros (<- & Hd & Hn & <- & Hnorm). destruct (Z.eqb_spec (dval (take n dg)) 0) as [E|E].
  - apply normal_zero in E; [|by apply Forall_take|done]. apply (f_equal length) in E.
    rewrite length_take_le in E by done. by apply Nat.eqb_eq.
  - apply Nat.eqb_neq. intros ->. done.
Qed.

Lemma lookup_after σ d z1 i zi zd : σ !! d = Some zd -> neg z1 = neg zd -> σ !! i = Some zi ->
  exists zi', (<[d := z1]> σ : store) !! i = Some zi' /\ neg zi' = neg zi.
Proof.
  intros Hd Hn Hi. destruct (decide (i = d)) as [->|].
  - exists z1. rewrite lookup_insert_eq. split; [done|]. congruence.
  - exists zi. by rewrite lookup_insert_ne by done.
Qed.

(** [mpz_add_inpl] adds, whichever of its three pointers are equal. *)
Lemma mpz_add_spec σ d l r a b : owns σ d -> represents σ l a -> represents σ r b ->
  computes σ (mpz_add_inpl σ d l r) d (a + b).
Proof.
  intros (zd & Hd & Hg) (zl & Hl & Hwl & <-) (zr & Hr & Hwr & <-).
  unfold mpz_add_inpl. rewrite (larger_first_spec _ _ _ _ _ Hl Hwl Hr Hwr).
  cbn [mbind option_bind].
  assert (Hsym : forall l r zl zr, σ !! l = Some zl -> wf zl -> σ !! r = Some zr -> wf zr ->
    magnitude zr <= magnitude zl ->
    computes σ (zl ← σ !! l; zr ← σ !! r;
      σ ← (if Bool.eqb (neg zl) (neg zr)
           then σ ← mpz_need_dig σ d (len zl + 1); call_mpn mpn_add σ d l r
           else σ ← mpz_need_dig σ d (len zl); call_mpn mpn_sub σ d l r);
      zd ← σ !! d; zl ← σ !! l;
      Some (<[d := set_neg zd (neg zl && negb (len zd =? 0)%nat)]> σ)) d (zval zl + zval zr)).
  { clear dependent l r zl zr. intros l r zl zr Hl Hwl Hr Hwr Hle. unfold computes.
    rewrite Hl. cbn [mbind option_bind]. rewrite Hr. cbn [mbind option_bind].
    destruct (add_sub_core σ d l r zd zl zr (Bool.eqb (neg zl) (neg zr)) Hd Hg Hl Hwl Hr Hwr Hle)
      as (z1 & -> & Hf1 & Hn1 & Ha1 & R1).
    cbn [mbind option_bind]. rewrite lookup_insert_eq. cbn [mbind option_bind].
    destruct (lookup_after σ d z1 l zl zd Hd Hn1 Hl) as (zl' & -> & Hnl). cbn [mbind option_bind].
    rewrite Hnl, insert_insert_eq, (result_len _ _ _ _ R1). eexists. split; [done|].
    destruct (finish z1 _ (neg zl && negb ((if Bool.eqb (neg zl) (neg zr) then magnitude zl + magnitude zr
      else magnitude zl - magnitude zr) =? 0)) Hf1 Ha1 R1) as [G V].
    { intros ->. by rewrite andb_false_r. }
    split; [done|]. rewrite V. unfold zval. destruct (neg zl), (neg zr); cbn [Bool.eqb andb];
      try destruct (Z.eqb_spec (magnitude zl - magnitude zr) 0);
      try destruct (Z.eqb_spec (magnitude zl + magnitude zr) 0); cbn [negb]; lia. }
  destruct (Z.ltb_spec (magnitude zl) (magnitude zr)).
  - rewrite Z.add_comm. by apply Hsym; try done; lia.
  - by apply Hsym.
Qed.

Lemma mpz_sub_spec σ d l r a b : owns σ d -> represents σ l a -> represents σ r b ->
  computes σ (mpz_sub_inpl σ d l r) d (a - b).
Proof.
  intros (zd & Hd & Hg) (zl & Hl & Hwl & <-) (zr & Hr & Hwr & <-).
  unfold mpz_sub_inpl. rewrite (larger_first_spec _ _ _ _ _ Hl Hwl Hr Hwr).
  cbn [mbind option_bind].
  assert (Hsym : forall (swapped : bool) l r zl zr, σ !! l = Some zl -> wf zl -> σ !! r = Some zr -> wf zr ->
    magnitude zr <= magnitude zl ->
    computes σ (zl ← σ !! l; zr ← σ !! r;
      σ ← (if negb (Bool.eqb (neg zl) (neg zr))
           then σ ← mpz_need_dig σ d (len zl + 1); call_mpn mpn_add σ d l r
           else σ ← mpz_need_dig σ d (len zl); call_mpn mpn_sub σ d l r);
      zd ← σ !! d; zl ← σ !! l;
      Some (<[d := set_neg zd (if (len zd =? 0)%nat then false
                               else if swapped then negb (neg zl) else neg zl)]> σ)) d
      (if swapped then zval zr - zval zl else zval zl - zval zr)).
  { clear dependent l r zl zr. intros swapped l r zl zr Hl Hwl Hr Hwr Hle. unfold computes.
    rewrite Hl. cbn [mbind option_bind]. rewrite Hr. cbn [mbind option_bind].
    destruct (add_sub_core σ d l r zd zl zr (negb (Bool.eqb (neg zl) (neg zr))) Hd Hg Hl Hwl Hr Hwr Hle)
      as (z1 & -> & Hf1 & Hn1 & Ha1 & R1).
    cbn [mbind option_bind]. rewrite lookup_insert_eq. cbn [mbind option_bind].
    destruct (lookup_after σ d z1 l zl zd Hd Hn1 Hl) as (zl' & -> & Hnl). cbn [mbind option_bind].
    rewrite Hnl, insert_insert_eq, (result_len _ _ _ _ R1). eexists. split; [done|].
    set (v := if negb _ then _ else _) in *.
    destruct (finish z1 v (if v =? 0 then false else if swapped then negb (neg zl) else neg zl) Hf1 Ha1 R1) as [G V].
    { by intros ->. }
    split; [done|]. rewrite V. unfold zval, v. destruct swapped, (neg zl), (neg zr); cbn [Bool.eqb negb];
      match goal with |- context [?x =? 0] => destruct (Z.eqb_spec x 0) end; lia. }
  destruct (Z.ltb_spec (magnitude zl) (magnitude zr)).
  - apply (Hsym true); try done; lia.
  - by apply (Hsym false).
Qed.

(** * Sign changes *)

Lemma copy_first σ d s v : owns σ d -> represents σ s v ->
  exists z, (if decide (d = s) then Some σ else mpz_set σ d s) = Some (<[d := z]> σ) /\ growable z /\ zval z = v.
Proof.
  intros (zd & Hd & Hg) (zs & Hs & Hws & <-). destruct (decide (d = s)) as [->|].
  - exists zd. rewrite Hd in Hs. injection Hs as <-. by rewrite insert_id.
  - destruct (mpz_set_spec σ d s zd zs Hd Hg Hs Hws) as (z & -> & Hgz & Hn & Hl & Hm & _).
    exists z. split_and!; try done. unfold zval. by rewrite Hn, Hm.
Qed.

Lemma mpz_abs_spec σ d s v : owns σ d -> represents σ s v ->
  computes σ (mpz_abs_inpl σ d s) d (Z.abs v).
Proof.
  intros Hd Hs. unfold mpz_abs_inpl, computes. destruct (copy_first σ d s v Hd Hs) as (z & -> & [Hw Hf] & <-).
  cbn [mbind option_bind]. rewrite lookup_insert_eq. cbn [mbind option_bind]. rewrite insert_insert_eq.
  eexists. split; [done|]. rewrite zval_abs by done. split; [|done]. split; [|done].
  destruct Hw. constructor; done.
Qed.

Lemma mpz_neg_spec σ d s v : owns σ d -> represents σ s v ->
  computes σ (mpz_neg_inpl σ d s) d (- v).
Proof.
  intros Hd Hs. unfold mpz_neg_inpl, computes. destruct (copy_first σ d s v Hd Hs) as (z & -> & [Hw Hf] & <-).
  cbn [mbind option_bind]. rewrite lookup_insert_eq. cbn [mbind option_bind].
  pose proof (len_zero z Hw) as Hz. destruct (Nat.eqb_spec (len z) 0) as [E|E].
  - exists z. split; [done|]. split; [done|]. apply Hz in E. unfold zval. rewrite E. by destruct (neg z).
  - rewrite insert_insert_eq. eexists. split; [done|]. split.
    + split; [|done]. destruct Hw. by constructor.
    + unfold zval. cbn [neg set_neg]. unfold magnitude. cbn [len dig set_neg]. destruct (neg z); cbn [negb]; lia.
Qed.

Lemma one_holds : holds [1] 1 1.
Proof. split_and!; [done| |done]. by repeat constructor; unfold DIG_BASE; lia. Qed.

Lemma mpz_not_spec σ d s v : owns σ d -> represents σ s v ->
  computes σ (mpz_not_inpl σ d s) d (Z.lnot v).
Proof.
  intros Hd Hs. unfold mpz_not_inpl, computes. destruct (copy_first σ d s v Hd Hs) as (z & -> & Hg & <-).
  cbn [mbind option_bind]. rewrite lookup_insert_eq. cbn [mbind option_bind].
  assert (Hgd : (<[d := z]> σ : store) !! d = Some z) by apply lookup_insert_eq.
  pose proof Hg as [Hw Hf]. pose proof (magnitude_nonneg z Hw). unfold Z.lnot.
  destruct (Nat.eqb_spec (len z) 0) as [E|E].
  - destruct (mpz_need_dig_spec _ d 1 z Hgd Hg) as (z1 & -> & [W1 F1] & Hroom & _ & _).
    cbn [mbind option_bind]. rewrite lookup_insert_eq. cbn [mbind option_bind].
    rewrite put_some by (unfold is_dig, DIG_BASE; lia). cbn [mbind option_bind].
    rewrite !insert_insert_eq. eexists. split; [done|].
    apply (len_zero z Hw) in E. unfold zval at 2. rewrite E.
    assert (H1 : take 1 (<[0%nat := 1]> (dig z1)) = [1]) by (destruct (dig z1); [simpl in Hroom; lia|done]).
    split; [|unfold zval, magnitude; cbn [neg len dig]; rewrite H1; by destruct (neg z)].
    split; [|done]. constructor; cbn [alloc dig len neg]; rewrite ?length_insert, ?H1; try done.
    + apply W1.
    + apply Forall_insert; [apply W1|]. unfold is_dig, DIG_BASE. lia.
  - destruct (neg z) eqn:En.
    + assert (Hp : 1 <= magnitude z) by (rewrite (len_zero z Hw) in E; lia).
      destruct (mpn_sub_spec (dig z) Self (len z) (Buf [1]) 1 _ _ (wf_digs z Hw) (wf_holds z Hw) one_holds)
        as (dg & n & -> & R & _); [split; [lia|apply Hw]|done|].
      cbn [mbind option_bind]. rewrite insert_insert_eq, Hf, (wf_alloc z Hw). eexists. split; [done|].
      destruct (result_wf _ _ _ _ false false R ltac:(done)) as [W M]. split; [done|].
      unfold zval. rewrite M, En. cbn [neg]. lia.
    + destruct (mpz_need_dig_spec _ d (len z + 1) z Hgd Hg) as (z1 & -> & [W1 F1] & Hroom & _ & Hops).
      destruct (Hops d z Hgd Hw) as (zi & Hzi & _ & Hli & _ & _ & Hc & Hh & Hnm).
      cbn [mbind option_bind]. rewrite Hzi.         cbn [mbind option_bind]. rewrite lookup_insert_eq in Hzi. injection Hzi as <-.
      unfold digits_of in Hc, Hh, Hnm. rewrite decide_True in Hc, Hh, Hnm by done.
      destruct (mpn_add_spec (dig z1) Self (len z1) (Buf [1]) 1 _ _ (wf_digs z1 W1) Hh one_holds)
        as (dg & n & -> & R); [lia|done| |].
      { pose proof (holds_bounds _ _ _ Hh).
        pose proof (bpow_le (S (len z1)) (length (dig z1)) ltac:(lia)) as Hp. rewrite bpow_S in Hp.
        unfold DIG_BASE in Hp. lia. }
      cbn [mbind option_bind]. rewrite !insert_insert_eq, F1, (wf_alloc z1 W1). eexists. split; [done|].
      destruct (result_wf _ _ _ _ true false R ltac:(lia)) as [W M]. split; [done|].
      unfold zval. rewrite M, En. cbn [neg]. lia.
Qed.

(** * Shifts *)

Lemma set_computes σ d s v : owns σ d -> represents σ s v -> computes σ (mpz_set σ d s) d v.
Proof.
  intros (zd & Hd & Hg) (zs & Hs & Hws & <-).
  destruct (mpz_set_spec σ d s zd zs Hd Hg Hs Hws) as (z & -> & Hgz & Hn & Hl & Hm & _).
  exists z. split_and!; try done. unfold zval. by rewrite Hn, Hm.
Qed.

Lemma mpz_shl_spec σ d l v n : owns σ d -> represents σ l v -> 0 <= n < 2 ^ 64 - 16 ->
  computes σ (mpz_shl_inpl σ d l n) d (v * 2 ^ n).
Proof.
  intros Hd Hl Hn. pose proof (set_computes σ d l v Hd Hl) as Hset.
  destruct Hl as (zl & Hl & Hwl & <-). unfold mpz_shl_inpl. rewrite Hl. cbn [mbind option_bind].
  pose proof (len_zero zl Hwl) as Hz. destruct (Nat.eqb_spec (len zl) 0) as [E|E]; cbn [orb].
  { apply Hz in E. assert (zval zl = 0) as E0 by (unfold zval; rewrite E; by destruct (neg zl)).
    by rewrite E0 in *. }
  destruct (Z.eqb_spec n 0) as [->|Hn0]; [by rewrite Z.mul_1_r|].
  rewrite wrapU_small by (unfold DIG_SIZE; lia). unfold DIG_SIZE.
  replace (n + 16 - 1) with (n + 15) by lia. destruct Hd as (zd & Hd & Hg). unfold computes.
  destruct (mpz_need_dig_spec σ d (len zl + Z.to_nat ((n + 15) / 16)) zd Hd Hg) as (z1 & -> & [W1 F1] & Hroom & _ & Hops).
  cbn [mbind option_bind]. rewrite lookup_insert_eq. cbn [mbind option_bind].
  destruct (Hops l zl Hl Hwl) as (zl' & -> & Hnl & Hll & _ & _ & _ & Hh & _). cbn [mbind option_bind].
  destruct (mpn_shl_spec (dig z1) _ _ _ n (wf_digs z1 W1) Hh) as (dg & m & -> & R); [lia|lia|].
  cbn [mbind option_bind]. rewrite insert_insert_eq, F1, (wf_alloc z1 W1). eexists. split; [done|].
  pose proof (magnitude_nonneg zl Hwl).
  destruct (result_wf _ _ _ _ (neg zl') false R) as [W M].
  { intros Hm0. exfalso. apply E, Hz. assert (0 < 2 ^ n) by lia. nia. }
  split; [done|]. unfold zval. rewrite M. cbn [neg]. rewrite Hnl. destruct (neg zl); lia.
Qed.

Lemma any_nonzero_spec dg n : Forall is_dig dg -> (n <= length dg)%nat ->
  any_nonzero dg n = Some (negb (dval (take n dg) =? 0)).
Proof.
  intros Hd. induction n as [|n IH]; intros Hn; [by rewrite firstn_O|]. cbn [any_nonzero].
  rewrite IH by lia. cbn [mbind option_bind].
  destruct (lookup_lt_is_Some_2 dg n ltac:(lia)) as [x Hx]. rewrite Hx. cbn [mbind option_bind].
  rewrite (dval_take_S _ _ _ Hx). pose proof (dval_take_bounds dg n Hd). pose proof (bpow_pos n).
  pose proof (Forall_lookup_1 _ _ _ _ Hd Hx) as Hdx. unfold is_dig in Hdx.
  destruct (Z.eqb_spec (dval (take n dg)) 0), (Z.eqb_spec x 0),
    (Z.eqb_spec (dval (take n dg) + bpow n * x) 0); cbn [negb]; try done; nia.
Qed.

Lemma shr_round_up_spec z n : wf z -> 0 <= n ->
  shr_round_up z n = Some (negb (magnitude z mod 2 ^ n =? 0)).
Proof.
  intros Hw Hn. unfold shr_round_up. pose proof (shift_parts n Hn) as Hp.
  set (nw := Z.to_nat (n / DIG_SIZE)) in *. set (np := n mod DIG_SIZE) in *.
  assert (Hnp : 0 <= np < 16) by (unfold np, DIG_SIZE; zdm).
  pose proof (wf_digs z Hw) as Hd. pose proof (wf_len z Hw) as Hl. pose proof (bpow_pos nw).
  rewrite any_nonzero_spec by (done || lia). cbn [mbind option_bind].
  pose proof (holds_bounds _ _ _ (wf_holds z Hw)) as Hb. rewrite Hp.
  destruct (Nat.ltb_spec nw (len z)) as [Hlt|Hge].
  - destruct (holds_digit _ _ _ nw (wf_holds z Hw) Hlt) as (x & Hx & Hdx & _).
    rewrite Hx. cbn [mbind option_bind]. rewrite Nat.min_r by lia. f_equal.
    change (Z.shiftl 1 np - 1) with (Z.pred (Z.shiftl 1 np)). change (Z.pred (Z.shiftl 1 np)) with (Z.ones np).
    rewrite Z.land_ones by lia.
    assert (Hx' : x = magnitude z / bpow nw mod DIG_BASE).
    { pose proof (holds_lookup _ _ _ nw (wf_holds z Hw) Hlt) as E. congruence. }
    assert (Htk : dval (take nw (dig z)) = magnitude z mod bpow nw).
    { unfold magnitude. rewrite <- dval_take_mod by by apply Forall_take. rewrite take_take. f_equal. f_equal. lia. }
    rewrite Htk, Z.rem_mul_r by lia.
    assert (Hm : magnitude z / bpow nw mod 2 ^ np = x mod 2 ^ np).
    { rewrite Hx'. replace DIG_BASE with (2 ^ np * 2 ^ (16 - np))
        by (rewrite <- Z.pow_add_r by lia; by replace (np + (16 - np)) with 16 by lia).
      rewrite Z.rem_mul_r by lia. by rewrite Z.mul_comm, Z.mod_add, Z.mod_mod by lia. }
    rewrite Hm. pose proof (Z.mod_pos_bound (magnitude z) (bpow nw) ltac:(lia)).
    pose proof (Z.mod_pos_bound x (2 ^ np) ltac:(lia)).
    destruct (Z.eqb_spec (magnitude z mod bpow nw) 0), (Z.eqb_spec (x mod 2 ^ np) 0),
      (Z.eqb_spec (magnitude z mod bpow nw + bpow nw * (x mod 2 ^ np)) 0); cbn [negb orb]; try done; nia.
  - rewrite Nat.min_l by lia. fold (magnitude z). do 3 f_equal. symmetry. apply Z.mod_small.
    pose proof (bpow_le _ _ Hge). assert (1 <= 2 ^ np) by lia. nia.
Qed.

(** Rounding the magnitude up gives the floor of a negative number. *)
Lemma floor_shift m p : 0 < p -> (- m) / p = - (m / p + Z.b2z (negb (m mod p =? 0))).
Proof.
  intros Hp. destruct (Z.eqb_spec (m mod p) 0) as [E|E]; cbn [negb Z.b2z].
  - rewrite Z.div_opp_l_z by lia. lia.
  - rewrite Z.div_opp_l_nz by lia. lia.
Qed.

(** Adding the rounding bit to the shifted magnitude. *)
Lemma shr_round dg m size q n : result size dg m q -> 0 < q -> (0 < n) -> q * 2 ^ n < bpow size ->
  exists dg' m', mpn_add dg Self m (Buf [1]) 1 = Some (dg', m') /\ result size dg' m' (q + 1).
Proof.
  intros (HL & HD & Hm & HV & HN) Hq Hn Hlt. subst size.
  assert (Hh : holds dg m q) by done. assert (m <> 0%nat) by (intros ->; rewrite firstn_O in HV; cbn [dval] in HV; lia).
  apply mpn_add_spec; [done|done|apply one_holds|lia|done|].
  assert (2 <= 2 ^ n) by (change 2 with (2 ^ 1) at 1; apply Z.pow_le_mono_r; lia). nia.
Qed.

Lemma mpz_shr_spec σ d l v n : owns σ d -> represents σ l v -> 0 <= n -> d <> l \/ 0 <= v ->
  computes σ (mpz_shr_inpl σ d l n) d (v / 2 ^ n).
Proof.
  intros Hd Hl Hn Hal. pose proof (set_computes σ d l v Hd Hl) as Hset.
  destruct Hl as (zl & Hl & Hwl & Hv). unfold mpz_shr_inpl. rewrite Hl. cbn [mbind option_bind].
  pose proof (len_zero zl Hwl) as Hz. destruct (Nat.eqb_spec (len zl) 0) as [E|E]; cbn [orb].
  { apply Hz in E. assert (v = 0) as -> by (rewrite <- Hv; unfold zval; rewrite E; by destruct (neg zl)).
    by rewrite Z.div_0_l by lia. }
  destruct (Z.eqb_spec n 0) as [->|Hn0]; [by rewrite Z.div_1_r|]. clear Hset.
  destruct Hd as (zd & Hd & Hg). unfold computes.
  destruct (mpz_need_dig_spec σ d (len zl) zd Hd Hg) as (z1 & -> & [W1 F1] & Hroom & _ & Hops).
  cbn [mbind option_bind]. rewrite lookup_insert_eq. cbn [mbind option_bind].
  destruct (Hops l zl Hl Hwl) as (zl' & El & Hnl & Hll & _ & _ & _ & Hh & Hnm). rewrite El. cbn [mbind option_bind].
  destruct (mpn_shr_spec (dig z1) _ _ _ n (wf_digs z1 W1) Hh ltac:(lia) Hnm Hn) as (dg & m & -> & R & Hm).
  cbn [mbind option_bind]. rewrite insert_insert_eq, F1, (wf_alloc z1 W1), Hnl. cbn [neg].
  pose proof (magnitude_nonneg zl Hwl) as Hmz. pose proof (result_len _ _ _ _ R) as Hlen.
  set (q := magnitude zl / 2 ^ n) in *. assert (Hq : 0 <= q) by (apply Z.div_pos; lia).
  destruct (neg zl) eqn:En.
  2: { eexists. split; [done|]. destruct (result_wf _ _ _ _ false false R ltac:(done)) as [W M].
       split; [done|]. unfold zval in Hv |- *. rewrite En in Hv. rewrite M, <- Hv. done. }
  assert (Hneg : v < 0) by (rewrite <- Hv; by apply neg_iff).
  assert (Hdl : l <> d) by lia.
  rewrite lookup_insert_ne in El |- * by done. rewrite Hl. cbn [mbind option_bind].
  rewrite (shr_round_up_spec zl n Hwl Hn). cbn [mbind option_bind len dig].
  assert (Hv' : v / 2 ^ n = - (q + Z.b2z (negb (magnitude zl mod 2 ^ n =? 0)))).
  { unfold q. rewrite <- floor_shift by lia. f_equal. rewrite <- Hv. unfold zval. by rewrite En. }
  pose proof (Z.div_mod (magnitude zl) (2 ^ n) ltac:(lia)) as Hdm. fold q in Hdm.
  destruct (Z.eqb_spec (magnitude zl mod 2 ^ n) 0) as [E0|E0]; cbn [negb Z.b2z] in *.
  - eexists. split; [done|]. destruct (result_wf _ _ _ _ true false R) as [W M].
    { intros Hq0. rewrite Hq0, E0 in Hdm. lia. }
    split; [done|]. unfold zval. rewrite M. cbn [neg]. lia.
  - rewrite Hlen. destruct (Z.eqb_spec q 0) as [Hq0|Hq0].
    + destruct R as (HL & HD & _ & _ & _). rewrite put_some by (unfold is_dig, DIG_BASE; lia).
      cbn [mbind option_bind]. rewrite insert_insert_eq. eexists. split; [done|].
      assert (H1 : take 1 (<[0%nat := 1]> dg) = [1]) by (destruct dg; [simpl in HL; lia|done]).
      unfold set_dig. cbn [neg fixed_dig alloc]. split.
      * split; [|done]. constructor; cbn [alloc dig len neg]; rewrite ?length_insert, ?H1; try done; [lia|].
        apply Forall_insert; [done|]. unfold is_dig, DIG_BASE. lia.
      * unfold zval, magnitude. cbn [neg len dig]. rewrite H1. cbn [dval]. lia.
    + destruct (shr_round dg m _ q n R ltac:(lia) ltac:(lia)) as (dg' & m' & E' & R').
      { pose proof (holds_bounds _ _ _ Hh). pose proof (bpow_le (len zl') (length (dig z1)) ltac:(lia)).
        pose proof (Z.mod_pos_bound (magnitude zl) (2 ^ n) ltac:(lia)). lia. }
      rewrite E'. cbn [mbind option_bind]. rewrite insert_insert_eq. eexists. split; [done|].
      unfold set_dig. cbn [neg fixed_dig alloc].
      destruct (result_wf _ _ _ _ true false R' ltac:(lia)) as [W M]. split; [done|].
      unfold zval. rewrite M. cbn [neg]. lia.
Qed.
End theorems.
