(* ===== verification/MpzLogic.v ===== *)
(** Bitwise and, or and exclusive or of mpz objects (py/mpz.c, built with
    MICROPY_OPT_MPZ_BITWISE as the unix variants are): Python's infinite
    two's complement on sign and magnitude. *)
From stdpp Require Import gmap.
From S2P Require Import Prelude Digits Mpn MpnBits Mpz MpzAdd.
#[local] Open Scope Z_scope.

Section mpz_logic.
  Context {renew : Renew}.

(** Make sure lhs has the most digits. *)
Definition longer_first (σ : store) (l r : nat) : option (nat * nat) :=
  zl ← σ !! l;
  zr ← σ !! r;
  Some (if (len zl <? len zr)%nat then (r, l) else (l, r)).

(** [dest->len = mpn_f(...)] followed by [dest->neg = b]. *)
Definition call_neg (f : list Z -> operand -> nat -> operand -> nat -> option (list Z * nat))
    (σ : store) (d l r : nat) (b : bool) : option store :=
  σ ← call_mpn f σ d l r;
  zd ← σ !! d;
  Some (<[d := set_neg zd b]> σ).

Definition mpz_and_inpl (σ : store) (d l r : nat) : option store :=
  '(l, r) ← longer_first σ l r;
  zl ← σ !! l;
  zr ← σ !! r;
  if negb (neg zl) && negb (neg zr) then
    σ ← mpz_need_dig σ d (len zl);
    call_neg (fun dst j _ k klen => mpn_and dst j k klen) σ d l r false
  else
    σ ← mpz_need_dig σ d (len zl + 1);
    call_neg (fun dst j jlen k klen =>
                mpn_and_neg dst j jlen k klen (Z.b2z (Bool.eqb (neg zl) (neg zr))) (Z.b2z (neg zl)) (Z.b2z (neg zr)))
             σ d l r (neg zl && neg zr).

Definition mpz_or_inpl (σ : store) (d l r : nat) : option store :=
  '(l, r) ← longer_first σ l r;
  zl ← σ !! l;
  zr ← σ !! r;
  if negb (neg zl) && negb (neg zr) then
    σ ← mpz_need_dig σ d (len zl);
    call_neg mpn_or σ d l r false
  else
    σ ← mpz_need_dig σ d (len zl + 1);
    call_neg (fun dst j jlen k klen =>
                mpn_or_neg dst j jlen k klen (Z.b2z (neg zl)) (Z.b2z (neg zr)))
             σ d l r true.

Definition mpz_xor_inpl (σ : store) (d l r : nat) : option store :=
  '(l, r) ← longer_first σ l r;
  zl ← σ !! l;
  zr ← σ !! r;
  if Bool.eqb (neg zl) (neg zr) then
    σ ← mpz_need_dig σ d (len zl);
    if negb (neg zl) then call_neg mpn_xor σ d l r false
    else call_neg (fun dst j jlen k klen => mpn_xor_neg dst j jlen k klen 0 0 0) σ d l r false
  else
    σ ← mpz_need_dig σ d (len zl + 1);
    call_neg (fun dst j jlen k klen =>
                mpn_xor_neg dst j jlen k klen 1 (Z.b2z (negb (neg zl))) (Z.b2z (negb (neg zr))))
             σ d l r true.

End mpz_logic.

(** * Correctness *)

(** The numbers whose digits a signed machine word can count. *)
Definition fits (v : Z) : bool := Z.log2 (Z.abs v) <? 2 ^ 67 - 32.

Lemma fits_len z : wf z -> fits (zval z) = true -> Z.of_nat (len z) < 2 ^ 63.
Proof.
  intros Hw Hf. apply Z.ltb_lt in Hf. rewrite (zval_abs z Hw) in Hf. unfold magnitude in Hf.
  destruct (len z) as [|n] eqn:En; [lia|].
  pose proof (wf_len z Hw) as Hl.
  assert (Hlow : bpow n <= dval (take (len z) (dig z))).
  { pose proof (normal_lower (take (len z) (dig z))) as H. rewrite length_take_le, En in H by lia. rewrite En.
    apply H; [apply Forall_take, Hw|rewrite <- En; apply Hw|]. intros E.
    apply (f_equal length) in E. rewrite length_take_le in E by lia. done. }
  rewrite En in Hlow. apply Z.log2_le_mono in Hlow.
  assert (E : bpow n = 2 ^ (16 * Z.of_nat n)) by (unfold bpow, DIG_BASE; rewrite Z.pow_mul_r by lia; done).
  rewrite E, Z.log2_pow2 in Hlow by lia. lia.
Qed.

Section theorems.
Context {renew : Renew} {laws : RenewLaws}.

(** One call into mpn after the destination has grown: what [f] does on
    the operands' magnitudes is what the object gets. *)
Lemma call_neg_spec f σ d l r zl zr n b v :
  owns σ d -> σ !! l = Some zl -> wf zl -> σ !! r = Some zr -> wf zr -> (v = 0 -> b = false) ->
  (forall dst j k, Forall is_dig dst -> (n <= length dst)%nat ->
     holds (contents j dst) (len zl) (magnitude zl) -> normal (take (len zl) (contents j dst)) ->
     holds (contents k dst) (len zr) (magnitude zr) ->
     exists dst' m, f dst j (len zl) k (len zr) = Some (dst', m) /\ result (length dst) dst' m v) ->
  computes σ (σ ← mpz_need_dig σ d n; call_neg f σ d l r b) d (if b then - v else v).
Proof.
  intros (zd & Hd & Hg) Hl Hwl Hr Hwr Hb Hf. unfold computes, call_neg, call_mpn.
  destruct (mpz_need_dig_spec σ d n zd Hd Hg) as (z1 & -> & [W1 F1] & Hroom & _ & Hops).
  cbn [mbind option_bind]. rewrite lookup_insert_eq. cbn [mbind option_bind].
  destruct (Hops l zl Hl Hwl) as (zl' & -> & _ & Ell & _ & _ & _ & Hhl & Hnl). cbn [mbind option_bind].
  destruct (Hops r zr Hr Hwr) as (zr' & -> & _ & Elr & _ & _ & _ & Hhr & _). cbn [mbind option_bind].
  rewrite Ell, Elr in *.
  destruct (Hf (dig z1) _ _ (wf_digs z1 W1) Hroom Hhl Hnl Hhr) as (dg & m & -> & R).
  cbn [mbind option_bind]. rewrite lookup_insert_eq. cbn [mbind option_bind]. rewrite !insert_insert_eq.
  eexists. split; [done|]. unfold set_neg, set_dig. cbn [fixed_dig alloc len dig].
  rewrite F1, (wf_alloc z1 W1). destruct (result_wf _ _ _ _ b false R Hb) as [W M].
  split; [done|]. unfold zval. by rewrite M.
Qed.

(** The operands in either order: the routines are symmetric. *)
Lemma longer_first_spec σ l r a b : represents σ l a -> represents σ r b ->
  exists l' r' zl zr, longer_first σ l r = Some (l', r') /\ σ !! l' = Some zl /\ wf zl /\
    σ !! r' = Some zr /\ wf zr /\ (len zr <= len zl)%nat /\
    (zval zl = a /\ zval zr = b \/ zval zl = b /\ zval zr = a).
Proof.
  intros (zl & Hl & Hwl & <-) (zr & Hr & Hwr & <-). unfold longer_first. rewrite Hl. cbn [mbind option_bind].
  rewrite Hr. cbn [mbind option_bind]. destruct (Nat.ltb_spec (len zl) (len zr)).
  - exists r, l, zr, zl. split_and!; try done; [lia|]. by right.
  - exists l, r, zl, zr. split_and!; try done. by left.
Qed.

Lemma zval_signed z : zval z = signed (neg z) (magnitude z).
Proof. done. Qed.

Lemma neg_pos z : wf z -> neg z = true -> 0 < magnitude z.
Proof. intros Hw Hn. apply (neg_iff z Hw) in Hn. pose proof (zval_abs z Hw). lia. Qed.

Lemma mpz_and_spec σ d l r a b : owns σ d -> represents σ l a -> represents σ r b ->
  fits a = true -> fits b = true ->
  computes σ (mpz_and_inpl σ d l r) d (Z.land a b).
Proof.
  intros Hd Hl Hr Hfa Hfb. unfold mpz_and_inpl.
  destruct (longer_first_spec σ l r a b Hl Hr) as (l' & r' & zl & zr & -> & El & Wl & Er & Wr & Hlen & Hab).
  cbn [mbind option_bind]. rewrite El. cbn [mbind option_bind]. rewrite Er. cbn [mbind option_bind].
  assert (E : Z.land a b = Z.land (zval zl) (zval zr)).
  { destruct Hab as [[-> ->]|[-> ->]]; [done|apply Z.land_comm]. }
  assert (Hsz : Z.of_nat (len zl) < 2 ^ 63).
  { apply fits_len; [done|]. by destruct Hab as [[-> _]|[-> _]]. }
  rewrite E, !zval_signed. clear E Hab Hl Hr.
  pose proof (neg_pos zl Wl) as Pl. pose proof (neg_pos zr Wr) as Pr.
  set (v := Z.land (signed (neg zl) (magnitude zl)) (signed (neg zr) (magnitude zr))).
  destruct (negb (neg zl) && negb (neg zr)) eqn:En.
  - apply andb_prop in En as [Nl Nr]. apply negb_true_iff in Nl, Nr. unfold v. rewrite Nl, Nr. cbn [signed].
    apply (call_neg_spec _ σ d l' r' zl zr _ false (Z.land (magnitude zl) (magnitude zr))); try done.
    intros dst j k Hdd Hroom Hj _ Hk. eapply mpn_and_spec; try done; lia.
  - assert (Eb : Bool.eqb (neg zl) (neg zr) = neg zl && neg zr) by (by destruct (neg zl), (neg zr)).
    rewrite Eb. clear Eb.
    assert (Hv : v < 0 <-> neg zl && neg zr = true).
    { unfold v. rewrite <- Z.nle_gt, Z.land_nonneg. unfold signed.
      pose proof (magnitude_nonneg zl Wl). pose proof (magnitude_nonneg zr Wr).
      destruct (neg zl), (neg zr); cbn [andb]; try specialize (Pl eq_refl); try specialize (Pr eq_refl);
        split; intros; try done; lia. }
    assert (Hs : neg zl && neg zr = (v <? 0)).
    { apply eq_true_iff_eq. rewrite Z.ltb_lt. by symmetry. }
    replace v with (if neg zl && neg zr then - Z.abs v else Z.abs v)
      by (rewrite Hs; destruct (Z.ltb_spec v 0); lia).
    apply (call_neg_spec _ σ d l' r' zl zr); try done; [rewrite Hs; lia|].
    intros dst j k Hdd Hroom Hj _ Hk.
    destruct (mpn_and_neg_spec dst j (len zl) k (len zr) _ _ (neg zl) (neg zr) Hdd Hj Hk) as (dst' & m & E & R & _);
      try done; [lia|]. eauto.
Qed.

Lemma mpz_or_spec σ d l r a b : owns σ d -> represents σ l a -> represents σ r b ->
  fits a = true -> fits b = true ->
  computes σ (mpz_or_inpl σ d l r) d (Z.lor a b).
Proof.
  intros Hd Hl Hr Hfa Hfb. unfold mpz_or_inpl.
  destruct (longer_first_spec σ l r a b Hl Hr) as (l' & r' & zl & zr & -> & El & Wl & Er & Wr & Hlen & Hab).
  cbn [mbind option_bind]. rewrite El. cbn [mbind option_bind]. rewrite Er. cbn [mbind option_bind].
  assert (E : Z.lor a b = Z.lor (zval zl) (zval zr)).
  { destruct Hab as [[-> ->]|[-> ->]]; [done|apply Z.lor_comm]. }
  assert (Hsz : Z.of_nat (len zl) < 2 ^ 63).
  { apply fits_len; [done|]. by destruct Hab as [[-> _]|[-> _]]. }
  rewrite E, !zval_signed. clear E Hab Hl Hr.
  pose proof (neg_pos zl Wl) as Pl. pose proof (neg_pos zr Wr) as Pr.
  set (v := Z.lor (signed (neg zl) (magnitude zl)) (signed (neg zr) (magnitude zr))).
  destruct (negb (neg zl) && negb (neg zr)) eqn:En.
  - apply andb_prop in En as [Nl Nr]. apply negb_true_iff in Nl, Nr. unfold v. rewrite Nl, Nr. cbn [signed].
    apply (call_neg_spec _ σ d l' r' zl zr _ false (Z.lor (magnitude zl) (magnitude zr))); try done.
    intros dst j k Hdd Hroom Hj Hn Hk. eapply mpn_or_spec; try done; lia.
  - assert (Eb : neg zl || neg zr = true) by (by destruct (neg zl), (neg zr)).
    assert (Hv : v < 0).
    { unfold v. rewrite <- Z.nle_gt, Z.lor_nonneg. unfold signed.
      destruct (neg zl), (neg zr); try done; try specialize (Pl eq_refl); try specialize (Pr eq_refl); lia. }
    replace v with (if true then - - v else - v) by lia.
    apply (call_neg_spec _ σ d l' r' zl zr _ true (- v)); try done; [lia|].
    intros dst j k Hdd Hroom Hj _ Hk.
    destruct (mpn_or_neg_spec dst j (len zl) k (len zr) _ _ (neg zl) (neg zr) Hdd Hj Hk) as (dst' & m & E & R & _);
      try done; [lia|]. eauto.
Qed.

(** Exclusive or, through [- x = lnot (x - 1)]. *)
Lemma lxor_neg_neg x y : Z.lxor (- x) (- y) = Z.lxor (x - 1) (y - 1).
Proof.
  replace (- x) with (Z.lnot (x - 1)) by (unfold Z.lnot; lia).
  replace (- y) with (Z.lnot (y - 1)) by (unfold Z.lnot; lia). apply Z.lxor_lnot_lnot.
Qed.

Lemma lxor_pos_neg x y : Z.lxor x (- y) = - (Z.lxor x (y - 1) + 1).
Proof.
  replace (- y) with (Z.lnot (y - 1)) by (unfold Z.lnot; lia). rewrite <- Z.lnot_lxor_r.
  unfold Z.lnot. lia.
Qed.

Lemma mpz_xor_spec σ d l r a b : owns σ d -> represents σ l a -> represents σ r b ->
  fits a = true -> fits b = true ->
  computes σ (mpz_xor_inpl σ d l r) d (Z.lxor a b).
Proof.
  intros Hd Hl Hr Hfa Hfb. unfold mpz_xor_inpl.
  destruct (longer_first_spec σ l r a b Hl Hr) as (l' & r' & zl & zr & -> & El & Wl & Er & Wr & Hlen & Hab).
  cbn [mbind option_bind]. rewrite El. cbn [mbind option_bind]. rewrite Er. cbn [mbind option_bind].
  assert (E : Z.lxor a b = Z.lxor (zval zl) (zval zr)).
  { destruct Hab as [[-> ->]|[-> ->]]; [done|apply Z.lxor_comm]. }
  assert (Hsz : Z.of_nat (len zl) < 2 ^ 63).
  { apply fits_len; [done|]. by destruct Hab as [[-> _]|[-> _]]. }
  rewrite E, !zval_signed. clear E Hab Hl Hr.
  pose proof (neg_pos zl Wl) as Pl. pose proof (neg_pos zr Wr) as Pr.
  pose proof (magnitude_nonneg zl Wl). pose proof (magnitude_nonneg zr Wr).
  assert (Hpos : forall j0 k0, (0 <= j0 <= 1) -> (0 <= k0 <= 1) -> (neg zl = false -> j0 = 1) -> (neg zr = false -> k0 = 1) ->
    0 < magnitude zl + j0 /\ 0 < magnitude zr + k0).
  { intros j0 k0 ? ? H1 H2. split.
    - destruct (neg zl); [specialize (Pl eq_refl)|specialize (H1 eq_refl)]; lia.
    - destruct (neg zr); [specialize (Pr eq_refl)|specialize (H2 eq_refl)]; lia. }
  assert (Hlen0 : neg zl = true \/ neg zr = true -> (0 < len zl)%nat).
  { intros Hn. pose proof (len_zero zl Wl). pose proof (len_zero zr Wr).
    destruct Hn as [Hn|Hn]; [specialize (Pl Hn)|specialize (Pr Hn)]; destruct (len zl), (len zr); try lia; naive_solver lia. }
  destruct (Bool.eqb (neg zl) (neg zr)) eqn:En.
  - apply eqb_prop in En. rewrite <- En in *. destruct (neg zl) eqn:Nl; cbn [negb signed].
    + rewrite lxor_neg_neg.
      replace (Z.lxor (magnitude zl - 1) (magnitude zr - 1)) with (Z.lxor (magnitude zl - 1 + 0) (magnitude zr - 1 + 0) + 0)
        by (by rewrite !Z.add_0_r).
      apply (call_neg_spec _ σ d l' r' zl zr _ false); try done.
      intros dst j k Hdd Hroom Hj _ Hk. destruct (Hpos 0 0); try done; try lia.
      apply mpn_xor_neg_spec; try done; try lia; auto.
    + apply (call_neg_spec _ σ d l' r' zl zr _ false (Z.lxor (magnitude zl) (magnitude zr))); try done.
      intros dst j k Hdd Hroom Hj _ Hk. eapply mpn_xor_spec; try done; lia.
  - destruct (Hpos (Z.b2z (negb (neg zl))) (Z.b2z (negb (neg zr)))) as [P1 P2];
      [by destruct (neg zl)|by destruct (neg zr)|by intros -> |by intros -> |].
    set (x := Z.lxor (magnitude zl - 1 + Z.b2z (negb (neg zl))) (magnitude zr - 1 + Z.b2z (negb (neg zr)))).
    assert (Hx0 : 0 <= x) by (apply Z.lxor_nonneg; lia).
    assert (Hx : Z.lxor (signed (neg zl) (magnitude zl)) (signed (neg zr) (magnitude zr)) = if true then - (x + 1) else x + 1).
    { unfold x. destruct (neg zl), (neg zr); try done; cbn [signed negb Z.b2z]; rewrite Z.add_0_r, Z.sub_add.
      - rewrite Z.lxor_comm, lxor_pos_neg. by rewrite Z.lxor_comm.
      - apply lxor_pos_neg. }
    rewrite Hx. apply (call_neg_spec _ σ d l' r' zl zr _ true (x + 1)); try done; [lia|].
    intros dst j k Hdd Hroom Hj _ Hk.
    apply mpn_xor_neg_spec; try done; try lia; [by destruct (neg zl)|by destruct (neg zr)|].
    apply Hlen0. destruct (neg zl), (neg zr); try done; auto.
Qed.
End theorems.
