(* ===== verification/MpzMul.v ===== *)
(** Products, powers and division of mpz objects (py/mpz.c), with the
    temporary objects they clone and free. *)
From stdpp Require Import gmap.
From S2P Require Import Prelude Digits Mpn MpnDiv Mpz MpzAdd.
#[local] Open Scope Z_scope.

Section mpz_mul.
  Context {renew : Renew}.

(** The operands of a product, cloned when they are the destination. *)
Definition separate (σ : store) (d l r : nat) : option (store * nat * nat * option nat) :=
  if decide (l = d) then
    '(σ, t) ← mpz_clone σ l;
    Some (σ, t, if decide (r = d) then t else r, Some t)
  else if decide (r = d) then
    '(σ, t) ← mpz_clone σ r;
    Some (σ, l, t, Some t)
  else Some (σ, l, r, None).

Definition mpz_mul_inpl (σ : store) (d l r : nat) : option store :=
  zl ← σ !! l;
  zr ← σ !! r;
  if (len zl =? 0)%nat || (len zr =? 0)%nat then mpz_set_from_int σ d 0
  else
    '(σ, l, r, temp) ← separate σ d l r;
    zl ← σ !! l;
    zr ← σ !! r;
    σ ← mpz_need_dig σ d (len zl + len zr);
    zd ← σ !! d;
    dg ← clear (dig zd) (alloc zd);
    '(dg, n) ← mpn_mul dg (dig zl) (len zl) (dig zr) (len zr);
    let σ := <[d := Mpz (if Bool.eqb (neg zl) (neg zr) then false else true) (fixed_dig zd) (alloc zd) n dg]> σ in
    Some (mpz_free σ temp).

(** The square-and-multiply loop, [while (n->len > 0)]; [fuel] bounds the
    bits of the exponent. *)
Fixpoint pow_loop (fuel : nat) (σ : store) (d x n : nat) : option store :=
  match fuel with
  | O => None
  | S fuel =>
      zn ← σ !! n;
      if (len zn =? 0)%nat then Some σ
      else
        d0 ← dig zn !! 0%nat;
        σ ← (if negb (Z.land d0 1 =? 0) then mpz_mul_inpl σ d d x else Some σ);
        zn ← σ !! n;
        '(dg, m) ← mpn_shr (dig zn) Self (len zn) 1;
        let σ := <[n := set_dig zn dg m]> σ in
        if (m =? 0)%nat then Some σ
        else
          σ ← mpz_mul_inpl σ x x x;
          pow_loop fuel σ d x n
  end.

Definition mpz_pow_inpl (σ : store) (d l r : nat) : option store :=
  zl ← σ !! l;
  zr ← σ !! r;
  if (len zl =? 0)%nat || neg zr then mpz_set_from_int σ d 0
  else if (len zr =? 0)%nat then mpz_set_from_int σ d 1
  else
    '(σ, x) ← mpz_clone σ l;
    '(σ, n) ← mpz_clone σ r;
    σ ← mpz_set_from_int σ d 1;
    σ ← pow_loop (16 * len zr) σ d x n;
    Some (mpz_free (mpz_free σ (Some x)) (Some n)).

(** Division.  First the quotient is zeroed and the remainder becomes a copy
    of lhs, both with room for one digit more. *)
Definition divmod_copy (σ : store) (q r l : nat) : option store :=
  zl ← σ !! l;
  σ ← mpz_need_dig σ q (len zl + 1);
  zq ← σ !! q;
  zl ← σ !! l;
  qd ← clear (dig zq) (len zl + 1);
  let σ := <[q := Mpz false (fixed_dig zq) (alloc zq) 0 qd]> σ in
  zl ← σ !! l;
  σ ← mpz_need_dig σ r (len zl + 1);
  mpz_set σ r l.

(** Check signs and do Python style modulo; [s] says that lhs->neg and
    rhs->neg are equal. *)
Definition divmod_signs (σ : store) (q r rhs : nat) (s : bool) : option store :=
  if s then Some σ
  else
    zq ← σ !! q;
    let σ := <[q := set_neg zq (negb (len zq =? 0)%nat)]> σ in
    zr ← σ !! r;
    if mpz_is_zero zr then Some σ
    else
      let '(σ, one) := new σ zero_mpz in
      σ ← mpz_init_from_int σ one (-1);
      σ ← mpz_add_inpl σ q q one;
      σ ← mpz_add_inpl σ r r rhs;
      Some (delete one σ).

(** The divisor's buffer is read while both destinations are written, so it
    must be another object. *)
Definition mpz_divmod_inpl (σ : store) (q r l rhs : nat) : option store :=
  zrhs ← σ !! rhs;
  if mpz_is_zero zrhs then None
  else
    σ ← divmod_copy σ q r l;
    if decide (q = r \/ rhs = q \/ rhs = r) then None
    else
      zr ← σ !! r;
      zrhs ← σ !! rhs;
      zq ← σ !! q;
      '(rd, rlen, qd, qlen) ← mpn_div (dig zr) (len zr) (dig zrhs) (len zrhs) (dig zq);
      let σ := <[q := set_dig zq qd qlen]> σ in
      let σ := <[r := Mpz (neg zr && negb (rlen =? 0)%nat) (fixed_dig zr) (alloc zr) rlen rd]> σ in
      zl ← σ !! l;
      zrhs ← σ !! rhs;
      divmod_signs σ q r rhs (Bool.eqb (neg zl) (neg zrhs)).

Fixpoint pow3_loop (fuel : nat) (σ : store) (d x n quo md : nat) : option store :=
  match fuel with
  | O => None
  | S fuel =>
      zn ← σ !! n;
      if (len zn =? 0)%nat then Some σ
      else
        d0 ← dig zn !! 0%nat;
        σ ← (if negb (Z.land d0 1 =? 0)
             then σ ← mpz_mul_inpl σ d d x; mpz_divmod_inpl σ quo d d md
             else Some σ);
        zn ← σ !! n;
        '(dg, m) ← mpn_shr (dig zn) Self (len zn) 1;
        let σ := <[n := set_dig zn dg m]> σ in
        if (m =? 0)%nat then Some σ
        else
          σ ← mpz_mul_inpl σ x x x;
          σ ← mpz_divmod_inpl σ quo x x md;
          pow3_loop fuel σ d x n quo md
  end.

(** [mod->len == 1 && mod->dig[0] == 1] *)
Definition is_one (z : mpz) : option bool :=
  if (len z =? 1)%nat then d ← dig z !! 0%nat; Some (d =? 1) else Some false.

Definition mpz_pow3_inpl (σ : store) (d l r md : nat) : option store :=
  zl ← σ !! l;
  zr ← σ !! r;
  zm ← σ !! md;
  one ← is_one zm;
  if (len zl =? 0)%nat || neg zr || one then mpz_set_from_int σ d 0
  else
    σ ← mpz_set_from_int σ d 1;
    zr ← σ !! r;
    if (len zr =? 0)%nat then Some σ
    else
      '(σ, x) ← mpz_clone σ l;
      '(σ, n) ← mpz_clone σ r;
      let '(σ, quo) := new σ zero_mpz in
      σ ← pow3_loop (16 * len zr) σ d x n quo md;
      Some (mpz_free (mpz_free (mpz_deinit σ quo) (Some x)) (Some n)).

End mpz_mul.

(** * Multiplication *)

Section theorems.
Context {renew : Renew} {laws : RenewLaws}.

Lemma nonzero_len σ i v : represents σ i v -> forall z, σ !! i = Some z -> (len z =? 0)%nat = (v =? 0).
Proof.
  intros (z' & Hz & Hw & <-) z Hi. rewrite Hz in Hi. injection Hi as ->. pose proof (len_zero z Hw) as H0.
  pose proof (zval_abs z Hw). destruct (Nat.eqb_spec (len z) 0) as [E|E].
  - apply H0 in E. symmetry. apply Z.eqb_eq. lia.
  - symmetry. apply Z.eqb_neq. intros E0. apply E, H0. lia.
Qed.

(** With the operands out of the way, the product is written to [d]. *)
Lemma mul_core σ d l r a b : owns σ d -> represents σ l a -> represents σ r b -> l <> d -> r <> d ->
  a <> 0 -> b <> 0 ->
  computes σ (zl ← σ !! l; zr ← σ !! r;
    σ ← mpz_need_dig σ d (len zl + len zr);
    zd ← σ !! d;
    dg ← clear (dig zd) (alloc zd);
    '(dg, n) ← mpn_mul dg (dig zl) (len zl) (dig zr) (len zr);
    Some (<[d := Mpz (if Bool.eqb (neg zl) (neg zr) then false else true) (fixed_dig zd) (alloc zd) n dg]> σ))
    d (a * b).
Proof.
  intros (zd & Hd & Hg) Hl Hr Hld Hrd Ha Hb. pose proof (nonzero_len _ _ _ Hl) as L0.
  pose proof (nonzero_len _ _ _ Hr) as R0. destruct Hl as (zl & Hl & Wl & Vl), Hr as (zr & Hr & Wr & Vr).
  specialize (L0 _ Hl). specialize (R0 _ Hr).
  unfold computes. rewrite Hl. cbn [mbind option_bind]. rewrite Hr. cbn [mbind option_bind].
  destruct (mpz_need_dig_spec σ d (len zl + len zr) zd Hd Hg) as (z1 & -> & [W1 F1] & Hroom & _ & _).
  cbn [mbind option_bind]. rewrite lookup_insert_eq. cbn [mbind option_bind].
  rewrite (wf_alloc z1 W1). unfold clear. rewrite decide_True by done. cbn [mbind option_bind].
  rewrite drop_all, app_nil_r. set (zeros := replicate _ 0).
  destruct (Z.eqb_spec a 0) as [|_]; [done|]. destruct (Z.eqb_spec b 0) as [|_]; [done|].
  apply Nat.eqb_neq in L0, R0.
  destruct (mpn_mul_spec zeros (dig zl) (len zl) (dig zr) (len zr) _ _ (wf_holds zl Wl) (wf_holds zr Wr)
    (wf_normal zl Wl) (wf_normal zr Wr)) as (dg & n & -> & R);
    [lia|lia|unfold zeros; rewrite length_replicate; lia|by apply Forall_replicate|].
  cbn [mbind option_bind]. rewrite insert_insert_eq, F1. eexists. split; [done|].
  unfold zeros in R. rewrite length_replicate in R.
  pose proof (magnitude_nonneg zl Wl). pose proof (magnitude_nonneg zr Wr).
  rewrite (len_zero zl Wl) in L0. rewrite (len_zero zr Wr) in R0.
  destruct (result_wf _ _ _ _ (if Bool.eqb (neg zl) (neg zr) then false else true) false R ltac:(nia)) as [W M].
  split; [done|]. unfold zval in *. rewrite M. cbn [neg]. destruct (neg zl), (neg zr); cbn [Bool.eqb]; nia.
Qed.

Lemma mpz_mul_spec σ d l r a b : owns σ d -> represents σ l a -> represents σ r b ->
  computes σ (mpz_mul_inpl σ d l r) d (a * b).
Proof.
  intros Hd Hl Hr. pose proof (nonzero_len _ _ _ Hl) as L0. pose proof (nonzero_len _ _ _ Hr) as R0.
  unfold mpz_mul_inpl. destruct Hl as (zl & El & Wl), Hr as (zr & Er & Wr). rewrite El, Er.
  cbn [mbind option_bind]. rewrite (L0 _ El), (R0 _ Er).
  assert (Hl : represents σ l a) by by exists zl. assert (Hr : represents σ r b) by by exists zr.
  clear El Wl Er Wr L0 R0 zl zr.
  destruct (Z.eqb_spec a 0) as [->|Ha]; [by apply set_int_val; [done|lia]|].
  destruct (Z.eqb_spec b 0) as [->|Hb]; [rewrite Z.mul_0_r; by apply set_int_val; [done|lia]|].
  cbn [orb]. unfold separate.
  (* a clone keeps everything and is dropped at the end *)
  assert (Hclone : forall i v l' r' (t : nat) z, represents σ i v -> σ !! t = None -> growable z -> zval z = v ->
    (l' = t \/ l' <> d) -> (r' = t \/ r' <> d) ->
    represents (<[t := z]> σ) l' a -> represents (<[t := z]> σ) r' b ->
    computes σ (let σ := <[t := z]> σ in zl ← σ !! l'; zr ← σ !! r';
      σ ← mpz_need_dig σ d (len zl + len zr); zd ← σ !! d; dg ← clear (dig zd) (alloc zd);
      '(dg, n) ← mpn_mul dg (dig zl) (len zl) (dig zr) (len zr);
      let σ := <[d := Mpz (if Bool.eqb (neg zl) (neg zr) then false else true) (fixed_dig zd) (alloc zd) n dg]> σ in
      Some (mpz_free σ (Some t))) d (a * b)).
  { intros i v l' r' t z Hi Ht Hg Hz Hl' Hr' Rl Rr.
    assert (Htd : t <> d) by (intros ->; destruct Hd as (? & E & _); congruence).
    assert (Hd' : owns (<[t := z]> σ) d) by (destruct Hd as (zd & E & ?); exists zd; by rewrite lookup_insert_ne).
    destruct (mul_core _ d l' r' a b Hd' Rl Rr) as (z' & E & Hg' & Hv'); [by destruct Hl' as [-> |]|by destruct Hr' as [-> |]|done|done|].
    exists z'. split; [|done]. revert E. cbv zeta.
    destruct (<[t := z]> σ !! l') as [zl|]; cbn [mbind option_bind]; [|done].
    destruct (<[t := z]> σ !! r') as [zr|]; cbn [mbind option_bind]; [|done].
    destruct (mpz_need_dig _ _ _) as [σ1|]; cbn [mbind option_bind]; [|done].
    destruct (σ1 !! d) as [zd|]; cbn [mbind option_bind]; [|done].
    destruct (clear _ _) as [dg|]; cbn [mbind option_bind]; [|done].
    destruct (mpn_mul _ _ _ _ _) as [[dg' n]|]; cbn [mbind option_bind]; [|done].
    intros [= ->]. cbn [mpz_free]. f_equal. rewrite delete_insert_ne by done. f_equal.
    by apply delete_insert_id. }
  destruct (decide (l = d)) as [->|Hld]; [|destruct (decide (r = d)) as [->|Hrd]].
  - destruct (mpz_clone_spec σ d a Hl Ha) as (z & t & -> & Ht & Hg & Hz). cbn [mbind option_bind].
    assert (Rt : represents (<[t := z]> σ) t a) by (exists z; rewrite lookup_insert_eq; split; [done|split; [apply Hg|done]]).
    apply (Hclone d a); try done; [by left|destruct (decide (r = d)); auto|].
    destruct (decide (r = d)) as [->|]; [|].
    + assert (a = b) as <-; [|done]. destruct Hl as (z1 & E1 & _ & <-), Hr as (z2 & E2 & _ & <-). congruence.
    + destruct Hr as (zr & Er & ?). exists zr. rewrite lookup_insert_ne; [done|]. intros ->. congruence.
  - destruct (mpz_clone_spec σ d b Hr Hb) as (z & t & -> & Ht & Hg & Hz). cbn [mbind option_bind].
    apply (Hclone d b); try done; [by right|by left| |].
    + destruct Hl as (zl & El & ?). exists zl. rewrite lookup_insert_ne; [done|]. intros ->. congruence.
    + exists z. rewrite lookup_insert_eq. split; [done|]. split; [apply Hg|done].
  - cbn [mbind option_bind mpz_free]. by apply mul_core.
Qed.

(** * Powers *)

(** One step of the exponent: its lowest bit and its half. *)
Lemma exponent_step (σ : store) n m zn : σ !! n = Some zn -> growable zn -> zval zn = m -> 0 < m ->
  exists d0 dg k, dig zn !! 0%nat = Some d0 /\ negb (Z.land d0 1 =? 0) = Z.odd m /\
    mpn_shr (dig zn) Self (len zn) 1 = Some (dg, k) /\ (k =? 0)%nat = (m / 2 =? 0) /\
    growable (set_dig zn dg k) /\ zval (set_dig zn dg k) = m / 2 /\ (len zn =? 0)%nat = false.
Proof.
  intros Hn [Hw Hf] Hv Hm.
  assert (Hneg : neg zn = false) by (rewrite neg_ltb, Hv by done; apply Z.ltb_ge; lia).
  assert (Hmag : magnitude zn = m) by (unfold zval in Hv; by rewrite Hneg in Hv).
  assert (Hl : (0 < len zn)%nat) by (pose proof (len_zero zn Hw); lia).
  pose proof (holds_lookup _ _ _ 0 (wf_holds zn Hw) Hl) as E. rewrite bpow_0, Z.div_1_r, Hmag in E.
  destruct (mpn_shr_spec (dig zn) Self (len zn) _ 1 (wf_digs zn Hw) (wf_holds zn Hw) (wf_len zn Hw)
    (wf_normal zn Hw) ltac:(lia)) as (dg & k & Es & R & _).
  rewrite Hmag in R. change (2 ^ 1) with 2 in R.
  eexists _, dg, k. split; [done|]. split_and!.
  - change 1 with (Z.ones 1) at 1. rewrite Z.land_ones by lia. change (2 ^ 1) with 2.
    rewrite Zmod_odd. replace (Z.odd (m mod DIG_BASE)) with (Z.odd m); [by destruct (Z.odd m)|].
    rewrite (Z.div_mod m DIG_BASE) at 1 by done. rewrite Z.add_comm, Z.odd_add_mul_even; [done|].
    by exists 32768.
  - done.
  - by apply result_len in R.
  - unfold growable, set_dig. rewrite Hneg, Hf, (wf_alloc zn Hw). split; [|done].
    by apply (result_wf _ _ _ _ false false R).
  - unfold set_dig. rewrite Hneg. unfold zval. cbn [neg].
    by apply (result_wf (length (dig zn)) dg k _ false (fixed_dig zn) R).
  - apply Nat.eqb_neq. lia.
Qed.

Lemma holds_val_insert_ne σ i j z v : i <> j -> holds_val σ i v -> holds_val (<[j := z]> σ) i v.
Proof. intros Hne. apply holds_val_other. by rewrite lookup_insert_ne. Qed.

Lemma pow_half w m : 0 <= m -> w ^ m = (if Z.odd m then w else 1) * (w * w) ^ (m / 2).
Proof.
  intros Hm. rewrite <- Z.pow_2_r, <- Z.pow_mul_r by (lia || apply Z.div_pos; lia).
  rewrite (Z.div_mod m 2) at 1 by lia. rewrite Zmod_odd.
  assert (0 <= m / 2) by (apply Z.div_pos; lia).
  destruct (Z.odd m); [rewrite Z.pow_add_r, Z.pow_1_r by lia; lia|]. rewrite Z.add_0_r. lia.
Qed.

Lemma pow_loop_spec fuel : forall σ d x n v w m, d <> x -> d <> n -> x <> n ->
  holds_val σ d v -> holds_val σ x w -> holds_val σ n m -> 0 < m < 2 ^ Z.of_nat fuel ->
  exists σ', pow_loop fuel σ d x n = Some σ' /\ holds_val σ' d (v * w ^ m) /\
    forall i, i <> d -> i <> x -> i <> n -> σ' !! i = σ !! i.
Proof.
  induction fuel as [|fuel IH]; intros σ d x n v w m Hdx Hdn Hxn Hd Hx Hn Hm; [cbn in Hm; lia|].
  cbn [pow_loop]. destruct Hn as (zn & En & Gn & Vn).
  destruct (exponent_step σ n m zn En Gn Vn ltac:(lia)) as (d0 & dg & k & E0 & Eodd & Eshr & Ek & G' & V' & El).
  rewrite En. cbn [mbind option_bind]. rewrite El, E0. cbn [mbind option_bind]. rewrite Eodd.
  assert (Hstep : exists σ1, (if Z.odd m then mpz_mul_inpl σ d d x else Some σ) = Some σ1 /\
    holds_val σ1 d (v * (if Z.odd m then w else 1)) /\ forall i, i <> d -> σ1 !! i = σ !! i).
  { destruct (Z.odd m).
    - apply computes_val, mpz_mul_spec; [by eapply holds_val_owns|by apply holds_val_represents..].
    - exists σ. by rewrite Z.mul_1_r. }
  destruct Hstep as (σ1 & -> & Hd1 & F1). cbn [mbind option_bind]. rewrite F1, En by done.
  cbn [mbind option_bind]. rewrite Eshr. cbn [mbind option_bind]. rewrite Ek.
  rewrite (pow_half w m) by lia.
  destruct (Z.eqb_spec (m / 2) 0) as [Hz|Hnz].
  { eexists. split; [done|]. rewrite Hz, Z.pow_0_r, Z.mul_1_r. split; [by apply holds_val_insert_ne|].
    intros i ? ? ?. rewrite lookup_insert_ne by done. by apply F1. }
  set (σ2 := <[n := set_dig zn dg k]> σ1).
  assert (Hx2 : holds_val σ2 x w).
  { apply holds_val_insert_ne; [done|]. by apply (holds_val_other σ); [apply F1|]. }
  destruct (computes_val σ2 _ x (w * w) (mpz_mul_spec σ2 x x x w w (holds_val_owns _ _ _ Hx2)
    (holds_val_represents _ _ _ Hx2) (holds_val_represents _ _ _ Hx2))) as (σ3 & -> & Hx3 & F3).
  cbn [mbind option_bind].
  destruct (IH σ3 d x n (v * (if Z.odd m then w else 1)) (w * w) (m / 2)) as (σ' & E & Hd' & F'); try done.
  - apply (holds_val_other σ2); [by apply F3|]. by apply holds_val_insert_ne.
  - apply (holds_val_other σ2); [by apply F3|]. by apply holds_val_insert.
  - rewrite Nat2Z.inj_succ, Z.pow_succ_r in Hm by lia. split; [pose proof (Z.div_pos m 2); lia|].
    apply Z.div_lt_upper_bound; lia.
  - exists σ'. split; [done|]. rewrite Z.mul_assoc. split; [done|].
    intros i ? ? ?. rewrite F', F3 by done. unfold σ2. rewrite lookup_insert_ne by done. by apply F1.
Qed.

(** The fuel covers every bit of the exponent. *)
Lemma exponent_bits z : wf z -> magnitude z < 2 ^ Z.of_nat (16 * len z).
Proof.
  intros Hw. pose proof (holds_bounds _ _ _ (wf_holds z Hw)) as [_ H]. rewrite bpow_2 in H.
  by replace (Z.of_nat (16 * len z)) with (16 * Z.of_nat (len z)) by lia.
Qed.

(** Two temporaries, dropped at the end. *)
Lemma drop_temps (σ σ' : store) d x n v : σ !! x = None -> σ !! n = None -> d <> x -> d <> n ->
  holds_val σ' d v -> (forall i, i <> d -> i <> x -> i <> n -> σ' !! i = σ !! i) ->
  computes σ (Some (mpz_free (mpz_free σ' (Some x)) (Some n))) d v.
Proof.
  intros Hx Hn Hdx Hdn (z & Hz & Hg & Hv) F. exists z. split; [|done]. f_equal. cbn [mpz_free].
  apply map_eq. intros i. destruct (decide (i = n)) as [->|]; [|destruct (decide (i = x)) as [->|]].
  - rewrite lookup_delete_eq, lookup_insert_ne by done. done.
  - rewrite lookup_delete_ne, lookup_delete_eq, lookup_insert_ne by done. done.
  - rewrite !lookup_delete_ne by done. destruct (decide (i = d)) as [->|].
    + by rewrite lookup_insert_eq.
    + rewrite lookup_insert_ne by done. by apply F.
Qed.

Lemma mpz_pow_spec σ d l r a b : owns σ d -> represents σ l a -> represents σ r b ->
  computes σ (mpz_pow_inpl σ d l r) d (if (a =? 0) || (b <? 0) then 0 else a ^ b).
Proof.
  intros Hd Hl Hr. pose proof (nonzero_len _ _ _ Hl) as L0. pose proof (nonzero_len _ _ _ Hr) as R0.
  pose proof Hl as (zl & El & Wl & Vl). pose proof Hr as (zr & Er & Wr & Vr).
  unfold mpz_pow_inpl. rewrite El. cbn [mbind option_bind]. rewrite Er. cbn [mbind option_bind].
  rewrite (L0 _ El), (neg_ltb zr Wr), Vr. destruct ((a =? 0) || (b <? 0)) eqn:E; [by apply set_int_val; [done|lia]|].
  apply orb_false_elim in E as [Ha Hb]. apply Z.eqb_neq in Ha. apply Z.ltb_ge in Hb.
  rewrite (R0 _ Er). destruct (Z.eqb_spec b 0) as [->|Hb0]; [by apply set_int_val; [done|lia]|].
  destruct (mpz_clone_spec σ l a Hl Ha) as (zx & x & -> & Fx & Gx & Vx). cbn [mbind option_bind].
  assert (Hr1 : represents (<[x := zx]> σ) r b).
  { apply (represents_other σ); [|done]. rewrite lookup_insert_ne; [done|]. intros ->. congruence. }
  destruct (mpz_clone_spec _ r b Hr1 Hb0) as (zn & n & -> & Fn & Gn & Vn). cbn [mbind option_bind].
  assert (Hnx : x <> n) by (intros ->; by rewrite lookup_insert_eq in Fn).
  rewrite lookup_insert_ne in Fn by done.
  assert (Hdx : d <> x) by (intros ->; destruct Hd as (? & ? & _); congruence).
  assert (Hdn : d <> n) by (intros ->; destruct Hd as (? & ? & _); congruence).
  set (σ2 := <[n := zn]> (<[x := zx]> σ)).
  assert (Hd2 : owns σ2 d).
  { destruct Hd as (zd & Ed & ?). exists zd. unfold σ2. by rewrite !lookup_insert_ne by done. }
  destruct (computes_val σ2 _ d 1 (set_int_val σ2 d 1 Hd2 ltac:(lia))) as (σ3 & -> & Hd3 & F3).
  cbn [mbind option_bind].
  destruct (pow_loop_spec (16 * len zr) σ3 d x n 1 a b) as (σ4 & -> & Hd4 & F4); try done.
  - apply (holds_val_other σ2); [by apply F3|]. unfold σ2. apply holds_val_insert_ne; [done|].
    by apply holds_val_insert.
  - apply (holds_val_other σ2); [by apply F3|]. by apply holds_val_insert.
  - split; [lia|]. pose proof (exponent_bits zr Wr). pose proof (zval_abs zr Wr). lia.
  - cbn [mbind option_bind]. rewrite Z.mul_1_l in Hd4. apply drop_temps; try done.
    intros i ? ? ?. rewrite F4, F3 by done. unfold σ2. by rewrite !lookup_insert_ne by done.
Qed.

(** * Division *)

(** Python's quotient and remainder from those of the magnitudes. *)
Lemma floor_divmod a b : b <> 0 ->
  let Q := Z.abs a / Z.abs b in let R := Z.abs a mod Z.abs b in
  let r0 := if a <? 0 then - R else R in
  a / b = (if Bool.eqb (a <? 0) (b <? 0) then Q else if R =? 0 then - Q else - Q + -1) /\
  a mod b = (if Bool.eqb (a <? 0) (b <? 0) then r0 else if R =? 0 then 0 else r0 + b).
Proof.
  intros Hb Q R r0. pose proof (Z.div_mod (Z.abs a) (Z.abs b) ltac:(lia)) as E. fold Q R in E.
  pose proof (Z.mod_pos_bound (Z.abs a) (Z.abs b) ltac:(lia)) as HR. fold R in HR. unfold r0.
  assert (U : forall q r, a = b * q + r -> (0 <= r < b \/ b < r <= 0) -> a / b = q /\ a mod b = r).
  { intros q r H1 H2. split; [symmetry; by apply (Z.div_unique a b q r)|symmetry; by apply (Z.mod_unique a b q r)]. }
  clearbody Q R. assert (Ea : Z.abs a = if a <? 0 then - a else a) by (destruct (Z.ltb_spec a 0); lia).
  assert (Eb : Z.abs b = if b <? 0 then - b else b) by (destruct (Z.ltb_spec b 0); lia).
  rewrite Ea, Eb in E. rewrite Eb in HR. clear Ea Eb.
  destruct (Z.ltb_spec a 0), (Z.ltb_spec b 0); cbn [Bool.eqb]; try destruct (Z.eqb_spec R 0); apply U; lia.
Qed.

(** The destinations as they are when the digits are divided: quotient
    zeroed, remainder a copy of lhs, both with room. *)
Lemma divmod_prepare σ q r l a : q <> r -> l <> q -> owns σ q -> owns σ r -> represents σ l a ->
  exists zq zr zl, σ !! l = Some zl /\ wf zl /\ zval zl = a /\
    divmod_copy σ q r l = Some (<[r := zr]> (<[q := zq]> σ)) /\
    growable zq /\ neg zq = false /\ growable zr /\ neg zr = neg zl /\ magnitude zr = magnitude zl /\
    (len zr < length (dig zr))%nat /\ (S (len zr) <= length (dig zq))%nat.
Proof.
  intros Hqr Hlq (zq & Hq & Gq) Or (zl & Hl & Wl & Vl).
  destruct (mpz_need_dig_spec σ q (len zl + 1) zq Hq Gq) as (zq1 & Eq1 & [Wq1 Fq1] & Rq & _ & _).
  destruct (clear_spec (dig zq1) (len zl + 1) Rq (wf_digs zq1 Wq1)) as (qd & Eqd & Lqd & Dqd & _).
  set (zq2 := Mpz false (fixed_dig zq1) (alloc zq1) 0 qd).
  assert (Gq2 : growable zq2).
  { split; [|done]. constructor; cbn [alloc dig len neg zq2]; try done; [rewrite Lqd; apply Wq1|lia]. }
  set (σ2 := <[q := zq2]> σ).
  assert (Hr2 : exists zr, σ2 !! r = Some zr /\ growable zr).
  { destruct Or as (zr & Hr & Gr). exists zr. unfold σ2. by rewrite lookup_insert_ne. }
  assert (Hl2 : σ2 !! l = Some zl) by (unfold σ2; by rewrite lookup_insert_ne).
  destruct Hr2 as (zr & Hr2 & Gr).
  destruct (mpz_need_dig_spec σ2 r (len zl + 1) zr Hr2 Gr) as (zr3 & Er3 & Gr3 & Rr & _ & Hops).
  destruct (Hops l zl Hl2 Wl) as (zl3 & El3 & Nl3 & Ll3 & Wl3 & Ml3 & _).
  destruct (mpz_set_spec (<[r := zr3]> σ2) r l zr3 zl3 (lookup_insert_eq _ _ _) Gr3 El3 Wl3)
    as (zr4 & Es & Gr4 & Nr4 & Lr4 & Mr4 & Lenr4).
  exists zq2, zr4, zl. split; [done|]. split; [done|]. split; [done|]. split.
  { unfold divmod_copy. rewrite Hl. cbn [mbind option_bind]. rewrite Eq1. cbn [mbind option_bind].
    rewrite lookup_insert_eq. cbn [mbind option_bind]. rewrite lookup_insert_ne, Hl by done.
    cbn [mbind option_bind]. rewrite Eqd. cbn [mbind option_bind].
    rewrite insert_insert_eq. fold zq2 σ2. rewrite Hl2. cbn [mbind option_bind]. rewrite Er3.
    cbn [mbind option_bind]. by rewrite Es, insert_insert_eq. }
  split_and!; try done; try apply Gq2; try apply Gr4; try congruence; cbn [dig zq2]; lia.
Qed.

(** The signs: [s] is the sign of lhs as the routine sees it after the
    remainder has been written. *)
Lemma divmod_signs_spec (σ : store) q r rhs zq zr zb b (s : bool) Q R : q <> r -> rhs <> q -> rhs <> r ->
  σ !! q = Some zq -> growable zq -> neg zq = false -> zval zq = Q -> 0 <= Q ->
  σ !! r = Some zr -> growable zr -> zval zr = R ->
  σ !! rhs = Some zb -> wf zb -> zval zb = b ->
  exists σ', divmod_signs σ q r rhs (Bool.eqb s (neg zb)) = Some σ' /\
    holds_val σ' q (if Bool.eqb s (b <? 0) then Q else if R =? 0 then - Q else - Q + -1) /\
    holds_val σ' r (if Bool.eqb s (b <? 0) then R else if R =? 0 then 0 else R + b) /\
    forall i, i <> q -> i <> r -> σ' !! i = σ !! i.
Proof.
  intros Hqr Hbq Hbr Eq [Wq Fq] Nq Vq HQ Er Gr Vr Eb Wb Vb. rewrite (neg_ltb zb Wb), Vb.
  unfold divmod_signs. destruct (Bool.eqb s (b <? 0)).
  { exists σ. split_and!; try done; eexists; split_and!; done. }
  rewrite Eq. cbn [mbind option_bind]. set (zq' := set_neg zq _).
  assert (Gq' : growable zq' /\ zval zq' = - Q).
  { unfold zq', set_neg, growable. split.
    - split; [|done]. destruct Wq. constructor; cbn [alloc dig len neg]; try done.
      intros ->. done.
    - unfold zval in *. rewrite Nq in Vq. unfold magnitude in *. cbn [neg len dig].
      destruct (Nat.eqb_spec (len zq) 0) as [E0|]; cbn [negb]; [|lia].
      rewrite E0 in *. rewrite firstn_O in *. cbn [dval] in *. lia. }
  set (σ1 := <[q := zq']> σ). assert (E1 : σ1 !! r = Some zr) by (unfold σ1; by rewrite lookup_insert_ne).
  rewrite E1. cbn [mbind option_bind]. unfold mpz_is_zero.
  assert (Rr : represents σ r R) by (exists zr; split; [done|]; split; [apply Gr|done]).
  rewrite (nonzero_len _ _ _ Rr _ Er). destruct Gq' as [Gq' Vq'].
  assert (Hq1 : holds_val σ1 q (- Q)) by by apply holds_val_insert.
  assert (Hr1 : holds_val σ1 r R) by (exists zr; done).
  destruct (Z.eqb_spec R 0) as [->|HR0].
  { exists σ1. split; [done|]. split; [done|]. split; [done|]. intros i ? ?. unfold σ1. by rewrite lookup_insert_ne. }
  cbn [new]. set (one := fresh_id σ1). pose proof (fresh_id_fresh σ1) as Fone. fold one in Fone.
  assert (Hq_one : q <> one) by (intros E; destruct Hq1 as (? & E' & _); congruence).
  assert (Hr_one : r <> one) by (intros E; destruct Hr1 as (? & E' & _); congruence).
  assert (Hb_one : rhs <> one).
  { intros E. unfold σ1 in Fone. rewrite <- E, lookup_insert_ne in Fone by done. congruence. }
  unfold mpz_init_from_int, mpz_init_zero. rewrite insert_insert_eq.
  assert (Oone : owns (<[one := zero_mpz]> σ1) one).
  { exists zero_mpz. rewrite lookup_insert_eq. split; [done|apply zero_growable]. }
  destruct (computes_val _ _ one (-1) (set_int_val (<[one := zero_mpz]> σ1) one (-1) Oone ltac:(lia)))
    as (σ2 & -> & Hone & F2). cbn [mbind option_bind].
  assert (Hq2 : holds_val σ2 q (- Q)).
  { apply (holds_val_other σ1); [|done]. rewrite F2 by done. by rewrite lookup_insert_ne. }
  destruct (computes_val σ2 _ q (- Q + -1) (mpz_add_spec σ2 q q one _ _ (holds_val_owns _ _ _ Hq2)
    (holds_val_represents _ _ _ Hq2) (holds_val_represents _ _ _ Hone))) as (σ3 & -> & Hq3 & F3).
  cbn [mbind option_bind].
  assert (F13 : forall i, i <> q -> i <> one -> σ3 !! i = σ1 !! i).
  { intros i ? ?. rewrite F3, F2 by done. by rewrite lookup_insert_ne. }
  assert (Hr3 : holds_val σ3 r R) by (apply (holds_val_other σ1); [by apply F13|done]).
  assert (Hb3 : represents σ3 rhs b).
  { exists zb. rewrite F13 by done. unfold σ1. by rewrite lookup_insert_ne. }
  destruct (computes_val σ3 _ r (R + b) (mpz_add_spec σ3 r r rhs _ _ (holds_val_owns _ _ _ Hr3)
    (holds_val_represents _ _ _ Hr3) Hb3)) as (σ4 & -> & Hr4 & F4).
  cbn [mbind option_bind]. eexists. split; [done|]. split_and!.
  - apply (holds_val_other σ4); [by rewrite lookup_delete_ne|]. apply (holds_val_other σ3); [by apply F4|done].
  - apply (holds_val_other σ4); [by rewrite lookup_delete_ne|done].
  - intros i Hiq Hir. destruct (decide (i = one)) as [->|Hio].
    + rewrite lookup_delete_eq. unfold σ1 in Fone. by rewrite lookup_insert_ne in Fone.
    + rewrite lookup_delete_ne, F4, F13 by done. unfold σ1. by rewrite lookup_insert_ne.
Qed.

(** Floor division.  The remainder may be written over the dividend; the
    quotient is then only promised when the remainder is not zero. *)
Lemma mpz_divmod_spec σ q r l rhs a b : q <> r -> l <> q -> rhs <> q -> rhs <> r ->
  owns σ q -> owns σ r -> represents σ l a -> represents σ rhs b -> b <> 0 ->
  exists σ' vq, mpz_divmod_inpl σ q r l rhs = Some σ' /\ holds_val σ' r (a mod b) /\ holds_val σ' q vq /\
    (l <> r \/ a mod b <> 0 -> vq = a / b) /\ forall i, i <> q -> i <> r -> σ' !! i = σ !! i.
Proof.
  intros Hqr Hlq Hbq Hbr Oq Or Rl Rb Hb0.
  destruct (divmod_prepare σ q r l a Hqr Hlq Oq Or Rl)
    as (zq & zr & zl & El & Wl & Vl & Eprep & Gq & Nq & Gr & Nr & Mr & Lr & Lq).
  pose proof (nonzero_len _ _ _ Rb) as B0. destruct Rb as (zb & Eb & Wb & Vb).
  unfold mpz_divmod_inpl. rewrite Eb. cbn [mbind option_bind]. unfold mpz_is_zero at 1.
  rewrite (B0 _ Eb). destruct (Z.eqb_spec b 0) as [|_]; [done|].
  set (σ1 := <[r := zr]> (<[q := zq]> σ)) in *.
  rewrite Eprep. cbn [mbind option_bind].
  rewrite decide_False by (intros [?|[?|?]]; done).
  assert (Er1 : σ1 !! r = Some zr) by apply lookup_insert_eq.
  assert (Eb1 : σ1 !! rhs = Some zb) by (unfold σ1; by rewrite !lookup_insert_ne).
  assert (Eq1 : σ1 !! q = Some zq) by (unfold σ1; rewrite lookup_insert_ne by done; apply lookup_insert_eq).
  rewrite Er1. cbn [mbind option_bind]. rewrite Eb1. cbn [mbind option_bind]. rewrite Eq1. cbn [mbind option_bind].
  destruct Gq as [Wq Fq], Gr as [Wr Fr].
  assert (Hmb : 0 < magnitude zb) by (pose proof (zval_abs zb Wb); lia).
  destruct (mpn_div_spec (dig zr) (len zr) (dig zb) (len zb) (dig zq) _ _ (wf_holds zr Wr) (wf_normal zr Wr)
    (wf_holds zb Wb) (wf_normal zb Wb) Hmb Lr (wf_digs zq Wq) Lq) as (rd & rlen & qd & qlen & -> & Rr & Rq).
  cbn [mbind option_bind]. rewrite Mr in Rr, Rq.
  pose proof (zval_abs zl Wl) as Al. pose proof (zval_abs zb Wb) as Ab. rewrite Vl in Al. rewrite Vb in Ab.
  rewrite <- Al, <- Ab in Rr, Rq. set (Q := Z.abs a / Z.abs b) in *. set (R := Z.abs a mod Z.abs b) in *.
  rewrite (result_len _ _ _ _ Rr), Nr, (neg_ltb zl Wl), Vl.
  set (zq1 := set_dig zq qd qlen). set (zr1 := Mpz _ _ _ rlen rd).
  set (σ2 := <[r := zr1]> (<[q := zq1]> σ1)).
  assert (Gq1 : growable zq1 /\ zval zq1 = Q).
  { unfold zq1, set_dig, growable. rewrite Nq, Fq, (wf_alloc zq Wq).
    destruct (result_wf _ _ _ _ false false Rq ltac:(done)) as [W M]. split; [done|]. unfold zval. by rewrite M. }
  assert (Gr1 : growable zr1 /\ zval zr1 = (if a <? 0 then - R else R)).
  { unfold zr1, growable. rewrite Fr, (wf_alloc zr Wr).
    destruct (result_wf _ _ _ _ ((a <? 0) && negb (R =? 0)) false Rr) as [W M].
    { intros ->. by rewrite andb_false_r. }
    split; [done|]. unfold zval. rewrite M. cbn [neg].
    destruct (Z.ltb_spec a 0), (Z.eqb_spec R 0); cbn [negb andb]; lia. }
  destruct Gq1 as [Gq1 Vq1], Gr1 as [Gr1 Vr1].
  assert (HQ : 0 <= Q) by (apply Z.div_pos; lia).
  assert (El2 : exists zl2, σ2 !! l = Some zl2 /\
    neg zl2 = (a <? 0) && (if decide (l = r) then negb (R =? 0) else true)).
  { unfold σ2, σ1. destruct (decide (l = r)) as [->|].
    - exists zr1. by rewrite lookup_insert_eq.
    - exists zl. rewrite !lookup_insert_ne by done. split; [done|]. rewrite (neg_ltb zl Wl), Vl. by destruct (a <? 0). }
  destruct El2 as (zl2 & -> & Nl2). cbn [mbind option_bind].
  assert (Eb2 : σ2 !! rhs = Some zb) by (unfold σ2; by rewrite !lookup_insert_ne).
  rewrite Eb2. cbn [mbind option_bind]. rewrite Nl2.
  destruct (divmod_signs_spec σ2 q r rhs zq1 zr1 zb b ((a <? 0) && (if decide (l = r) then negb (R =? 0) else true)) Q
    (if a <? 0 then - R else R) Hqr Hbq Hbr) as (σ' & -> & HvQ & HvR & F); try done.
  { unfold σ2. rewrite lookup_insert_ne by done. apply lookup_insert_eq. }
  { unfold σ2. apply lookup_insert_eq. }
  destruct (floor_divmod a b Hb0) as [Dq Dr]. fold Q R in Dq, Dr.
  eexists σ', _. split; [done|]. split; [|split; [done|split]].
  - revert HvR. rewrite Dr. destruct (Z.eqb_spec R 0) as [->|]; [|].
    + replace (if a <? 0 then - 0 else 0) with 0 by by destruct (a <? 0). cbn [Z.eqb].
      by destruct (Bool.eqb _ _), (Bool.eqb _ _).
    + cbn [negb]. replace (if decide (l = r) then true else true) with true by by destruct (decide (l = r)).
      rewrite andb_true_r. destruct (Z.eqb_spec (if a <? 0 then - R else R) 0) as [E|]; [|done].
      destruct (a <? 0); lia.
  - intros Hnz. rewrite Dq. destruct (Z.eqb_spec R 0) as [ER|]; cbn [negb].
    + rewrite decide_False.
      * rewrite andb_true_r, ER. by destruct (a <? 0).
      * intros ->. destruct Hnz as [|Hnz]; [done|]. apply Hnz. rewrite Dr, ER. cbn [Z.eqb].
        by destruct (Bool.eqb (a <? 0) (b <? 0)); [destruct (a <? 0)|].
    + replace (if decide (l = r) then true else true) with true by by destruct (decide (l = r)).
      rewrite andb_true_r. destruct (Z.eqb_spec (if a <? 0 then - R else R) 0) as [E|]; [|done].
      destruct (a <? 0); lia.
  - intros i Hiq Hir. rewrite F by done. unfold σ2, σ1. by rewrite !lookup_insert_ne.
Qed.

(** * Modular powers *)

(** Multiply object [t] by object [x] and reduce it, as the loop does. *)
Lemma mul_mod_step σ t x quo md v w M : t <> quo -> x <> quo -> md <> quo -> md <> t ->
  holds_val σ t v -> represents σ x w -> owns σ quo -> represents σ md M -> M <> 0 ->
  exists σ', (σ ← mpz_mul_inpl σ t t x; mpz_divmod_inpl σ quo t t md) = Some σ' /\
    holds_val σ' t ((v * w) mod M) /\ owns σ' quo /\ forall i, i <> t -> i <> quo -> σ' !! i = σ !! i.
Proof.
  intros Htq Hxq Hmq Hmt Ht Hx Hq Hm HM.
  destruct (computes_val σ _ t (v * w) (mpz_mul_spec σ t t x v w (holds_val_owns _ _ _ Ht)
    (holds_val_represents _ _ _ Ht) Hx)) as (σ1 & -> & Ht1 & F1). cbn [mbind option_bind].
  assert (Hq1 : owns σ1 quo) by (destruct Hq as (z & Hz & ?); exists z; by rewrite F1).
  destruct (mpz_divmod_spec σ1 quo t t md (v * w) M) as (σ2 & vq & -> & Ht2 & Hq2 & _ & F2); try done.
  - by eapply holds_val_owns.
  - by apply holds_val_represents.
  - apply (represents_other σ); [by apply F1|done].
  - exists σ2. split; [done|]. split; [done|]. split; [by eapply holds_val_owns|].
    intros i ? ?. by rewrite F2, F1.
Qed.

Lemma pow3_loop_spec fuel : forall σ d x n quo md v w m M, d <> x -> d <> n -> d <> quo -> x <> n -> x <> quo ->
  n <> quo -> md <> d -> md <> x -> md <> n -> md <> quo ->
  holds_val σ d v -> holds_val σ x w -> holds_val σ n m -> owns σ quo -> represents σ md M -> M <> 0 ->
  0 < m < 2 ^ Z.of_nat fuel ->
  exists σ', pow3_loop fuel σ d x n quo md = Some σ' /\ holds_val σ' d ((v * w ^ m) mod M) /\
    forall i, i <> d -> i <> x -> i <> n -> i <> quo -> σ' !! i = σ !! i.
Proof.
  induction fuel as [|fuel IH];
    intros σ d x n quo md v w m M Hdx Hdn Hdq Hxn Hxq Hnq Hmd Hmx Hmn Hmq Hd Hx Hn Hq HM HM0 Hm; [cbn in Hm; lia|].
  cbn [pow3_loop]. destruct Hn as (zn & En & Gn & Vn).
  destruct (exponent_step σ n m zn En Gn Vn ltac:(lia)) as (d0 & dg & k & E0 & Eodd & Eshr & Ek & G' & V' & El).
  rewrite En. cbn [mbind option_bind]. rewrite El, E0. cbn [mbind option_bind]. rewrite Eodd.
  assert (Hstep : exists σ1 v1, (if Z.odd m then σ ← mpz_mul_inpl σ d d x; mpz_divmod_inpl σ quo d d md
                                 else Some σ) = Some σ1 /\ holds_val σ1 d v1 /\ owns σ1 quo /\
    v1 = (if Z.odd m then (v * w) mod M else v) /\ forall i, i <> d -> i <> quo -> σ1 !! i = σ !! i).
  { destruct (Z.odd m); [|by exists σ, v].
    destruct (mul_mod_step σ d x quo md v w M) as (σ1 & E & ? & ? & ?); try done; [by apply holds_val_represents|].
    by exists σ1, ((v * w) mod M). }
  destruct Hstep as (σ1 & v1 & -> & Hd1 & Hq1 & Hv1 & F1). cbn [mbind option_bind]. rewrite F1, En by done.
  cbn [mbind option_bind]. rewrite Eshr. cbn [mbind option_bind]. rewrite Ek.
  destruct (Z.eqb_spec (m / 2) 0) as [Hz|Hnz].
  { assert (m = 1) as -> by (pose proof (Z.div_mod m 2 ltac:(lia)); pose proof (Z.mod_pos_bound m 2 ltac:(lia)); lia).
    change (Z.odd 1) with true in Hv1. cbv iota in Hv1. rewrite Z.pow_1_r, <- Hv1. eexists. split; [done|].
    split; [by apply holds_val_insert_ne|].
    intros i ? ? ? ?. rewrite lookup_insert_ne by done. by apply F1. }
  set (σ2 := <[n := set_dig zn dg k]> σ1).
  assert (F2 : forall i, i <> d -> i <> quo -> i <> n -> σ2 !! i = σ !! i).
  { intros. unfold σ2. rewrite lookup_insert_ne by done. by apply F1. }
  assert (Hx2 : holds_val σ2 x w) by (apply (holds_val_other σ); [by apply F2|done]).
  assert (Hq2 : owns σ2 quo).
  { destruct Hq1 as (z & Hz & ?). exists z. unfold σ2. by rewrite lookup_insert_ne. }
  assert (HM2 : represents σ2 md M) by (apply (represents_other σ); [by apply F2|done]).
  destruct (mul_mod_step σ2 x x quo md w w M) as (σ3 & E3 & Hx3 & Hq3 & F3); try done; [by apply holds_val_represents|].
  destruct (mpz_mul_inpl σ2 x x x) as [σ2'|]; [|done]. cbn [mbind option_bind] in E3 |- *. rewrite E3.
  cbn [mbind option_bind].
  destruct (IH σ3 d x n quo md v1 ((w * w) mod M) (m / 2) M) as (σ' & E & Hd' & F'); try done.
  - apply (holds_val_other σ2); [by apply F3|]. by apply holds_val_insert_ne.
  - apply (holds_val_other σ2); [by apply F3|]. by apply holds_val_insert.
  - apply (represents_other σ2); [by apply F3|done].
  - rewrite Nat2Z.inj_succ, Z.pow_succ_r in Hm by lia. split; [pose proof (Z.div_pos m 2); lia|].
    apply Z.div_lt_upper_bound; lia.
  - exists σ'. split; [done|]. split; [|intros i ? ? ? ?; rewrite F', F3 by done; by apply F2].
    replace ((v * w ^ m) mod M) with ((v1 * ((w * w) mod M) ^ (m / 2)) mod M); [done|].
    rewrite <- Zmult_mod_idemp_r, Z.mod_pow_l, Zmult_mod_idemp_r, (pow_half w m), Z.mul_assoc by lia. rewrite Hv1.
    destruct (Z.odd m); [by rewrite Zmult_mod_idemp_l|by rewrite Z.mul_1_r].
Qed.

Lemma is_one_spec z : wf z -> is_one z = Some (Z.abs (zval z) =? 1).
Proof.
  intros Hw. rewrite zval_abs by done. unfold is_one. pose proof (wf_holds z Hw) as Hh.
  destruct (Nat.eqb_spec (len z) 1) as [E|E].
  - pose proof (holds_lookup _ _ _ 0 Hh ltac:(lia)) as H0. pose proof (holds_bounds _ _ _ Hh) as Hb.
    rewrite H0, E, bpow_1 in *. cbn [mbind option_bind]. rewrite bpow_0, Z.div_1_r, Z.mod_small by done. done.
  - f_equal. symmetry. apply Z.eqb_neq. intros E1. pose proof (holds_bounds _ _ _ Hh) as Hb.
    destruct (len z) as [|[|n]] eqn:El; [rewrite bpow_0 in Hb; lia|done|].
    pose proof (normal_take_lower (dig z) (len z) (wf_digs z Hw)) as Hn. rewrite El in Hn.
    pose proof (wf_len z Hw) as Hl. rewrite El in Hl. specialize (Hn ltac:(lia)).
    pose proof (wf_normal z Hw) as Hnm. rewrite El in Hnm. specialize (Hn Hnm).
    unfold magnitude in E1. rewrite El in E1. cbn [pred] in Hn. rewrite bpow_S in Hn.
    pose proof (bpow_pos n). unfold DIG_BASE in Hn. lia.
Qed.

Lemma mpz_pow3_spec σ d l r md a b M : owns σ d -> represents σ l a -> represents σ r b -> represents σ md M ->
  d <> l -> d <> r -> d <> md -> M <> 0 ->
  computes σ (mpz_pow3_inpl σ d l r md) d
    (if (a =? 0) || (b <? 0) || (Z.abs M =? 1) then 0 else if b =? 0 then 1 else a ^ b mod M).
Proof.
  intros Hd Hl Hr Hm Hdl Hdr Hdm HM. pose proof (nonzero_len _ _ _ Hl) as L0. pose proof (nonzero_len _ _ _ Hr) as R0.
  pose proof Hl as (zl & El & Wl & Vl). pose proof Hr as (zr & Er & Wr & Vr). pose proof Hm as (zm & Em & Wm & Vm).
  unfold mpz_pow3_inpl. rewrite El. cbn [mbind option_bind]. rewrite Er. cbn [mbind option_bind].
  rewrite Em. cbn [mbind option_bind]. rewrite (is_one_spec zm Wm), Vm. cbn [mbind option_bind].
  rewrite (L0 _ El), (neg_ltb zr Wr), Vr.
  pose proof (exponent_bits zr Wr) as Hbits. rewrite <- zval_abs, Vr in Hbits by done.
  destruct ((a =? 0) || (b <? 0) || (Z.abs M =? 1)) eqn:E; [by apply set_int_val; [done|lia]|].
  apply orb_false_elim in E as [E _]. apply orb_false_elim in E as [Ha Hb].
  apply Z.eqb_neq in Ha. apply Z.ltb_ge in Hb.
  destruct (set_int_val σ d 1 Hd ltac:(lia)) as (z1 & -> & G1 & V1). cbn [mbind option_bind].
  set (σ1 := <[d := z1]> σ). assert (F1 : forall i, i <> d -> σ1 !! i = σ !! i).
  { intros. unfold σ1. by rewrite lookup_insert_ne. }
  rewrite F1, Er by done. cbn [mbind option_bind]. rewrite (R0 _ Er).
  destruct (Z.eqb_spec b 0) as [->|Hb0]; [by exists z1|].
  assert (Hl1 : represents σ1 l a) by (apply (represents_other σ); [by apply F1|done]).
  assert (Hexp : 0 < b < 2 ^ Z.of_nat (16 * len zr)) by lia.
  destruct (mpz_clone_spec σ1 l a Hl1 Ha) as (zx & x & -> & Fx & Gx & Vx). cbn [mbind option_bind].
  assert (Dx : forall i z, σ1 !! i = Some z -> i <> x) by (intros i z Hi ->; congruence).
  assert (Hrx : r <> x) by (apply (Dx _ zr); by rewrite F1).
  assert (Hmx : md <> x) by (apply (Dx _ zm); by rewrite F1).
  assert (Hdx : d <> x) by (apply (Dx _ z1); apply lookup_insert_eq).
  assert (Hr2 : represents (<[x := zx]> σ1) r b).
  { apply (represents_other σ); [|done]. rewrite lookup_insert_ne by done. by apply F1. }
  destruct (mpz_clone_spec _ r b Hr2 Hb0) as (zn & n & -> & Fn & Gn & Vn). cbn [mbind option_bind].
  assert (Dn : forall i z, <[x := zx]> σ1 !! i = Some z -> i <> n) by (intros i z Hi ->; congruence).
  assert (Hxn : x <> n) by (apply (Dn _ zx), lookup_insert_eq).
  assert (Hmn : md <> n) by (apply (Dn _ zm); rewrite lookup_insert_ne, F1; done).
  assert (Hdn : d <> n) by (apply (Dn _ z1); rewrite lookup_insert_ne by done; apply lookup_insert_eq).
  cbn [new]. set (σ2 := <[n := zn]> (<[x := zx]> σ1)). set (quo := fresh_id σ2).
  pose proof (fresh_id_fresh σ2) as Fq. fold quo in Fq.
  assert (Dq : forall i z, σ2 !! i = Some z -> i <> quo) by (intros i z Hi ->; congruence).
  assert (Hnq : n <> quo) by (apply (Dq _ zn), lookup_insert_eq).
  assert (Hxq : x <> quo) by (apply (Dq _ zx); unfold σ2; rewrite lookup_insert_ne by done; apply lookup_insert_eq).
  assert (Hmq : md <> quo) by (apply (Dq _ zm); unfold σ2; rewrite !lookup_insert_ne, F1; done).
  assert (Hdq : d <> quo) by (apply (Dq _ z1); unfold σ2; rewrite !lookup_insert_ne by done; apply lookup_insert_eq).
  destruct (pow3_loop_spec (16 * len zr) (<[quo := zero_mpz]> σ2) d x n quo md 1 a b M) as (σ4 & -> & Hd4 & F4);
    try done.
  - exists z1. unfold σ2. rewrite !lookup_insert_ne by done. split; [apply lookup_insert_eq|done].
  - apply holds_val_insert_ne; [done|]. unfold σ2. apply holds_val_insert_ne; [done|]. by apply holds_val_insert.
  - apply holds_val_insert_ne; [done|]. by apply holds_val_insert.
  - exists zero_mpz. rewrite lookup_insert_eq. split; [done|apply zero_growable].
  - apply (represents_other σ); [|done]. unfold σ2. rewrite !lookup_insert_ne by done. by apply F1.
  - cbn [mbind option_bind]. rewrite Z.mul_1_l in Hd4.
    assert (Hx0 : σ !! x = None) by (rewrite <- F1 by done; done).
    assert (Hn0 : σ !! n = None) by (rewrite lookup_insert_ne, F1 in Fn by done; done).
    assert (Hq0 : σ !! quo = None).
    { unfold σ2 in Fq. by rewrite !lookup_insert_ne, F1 in Fq by done. }
    apply drop_temps; try done.
    + unfold mpz_deinit. apply (holds_val_other σ4); [by rewrite lookup_delete_ne|done].
    + intros i ? ? ?. unfold mpz_deinit. destruct (decide (i = quo)) as [->|].
      * by rewrite lookup_delete_eq.
      * rewrite lookup_delete_ne, F4 by done. unfold σ2. rewrite !lookup_insert_ne by done. by apply F1.
Qed.
End theorems.
