(* ===== verification/MpzInt.v ===== *)
(** Comparison of mpz objects, and their conversions from and to machine
    integers (py/mpz.c): lemmas on the definitions of Mpz.v. *)
From stdpp Require Import gmap.
From S2P Require Import Prelude Digits Mpn Mpz.
#[local] Open Scope Z_scope.

(** * Comparison *)

Lemma mpz_cmp_spec z1 z2 : wf z1 -> wf z2 -> mpz_cmp z1 z2 = Some (Z.sgn (zval z1 - zval z2)).
Proof.
  intros W1 W2. unfold mpz_cmp. pose proof (neg_ltb z1 W1) as N1. pose proof (neg_ltb z2 W2) as N2.
  pose proof (magnitude_nonneg z1 W1). pose proof (magnitude_nonneg z2 W2).
  rewrite (mpn_cmp_spec _ _ _ _ _ _ (wf_holds z1 W1) (wf_holds z2 W2)) by (apply W1 || apply W2).
  unfold zval in *. destruct (neg z1), (neg z2); cbn [Z.b2z Z.sub Z.eqb negb mbind option_bind];
    repeat match goal with H : _ = (_ <? 0) |- _ => symmetry in H end;
    rewrite ?Z.ltb_lt, ?Z.ltb_ge in *; f_equal; lia.
Qed.

(** * Machine integers *)

Lemma lor_dig v d : 0 <= v -> is_dig d -> Z.lor (v * DIG_BASE) d = v * DIG_BASE + d.
Proof. intros Hv Hd. apply (lor_low 16); [lia|done]. Qed.

Lemma hash_loop_spec dg n val : Forall is_dig dg -> (n <= length dg)%nat -> 0 <= val ->
  hash_loop dg n (u64 val) = Some (u64 (val * bpow n + dval (take n dg))).
Proof.
  intros Hd. revert val. induction n as [|n IH]; intros val Hn Hv; cbn [hash_loop].
  { rewrite firstn_O, bpow_0. cbn [dval]. do 2 f_equal. lia. }
  destruct (lookup_lt_is_Some_2 dg n ltac:(lia)) as [d Hl]. rewrite Hl. cbn [mbind option_bind].
  pose proof (Forall_lookup_1 _ _ _ _ Hd Hl) as Hdd. unfold is_dig in Hdd.
  assert (E : Z.lor (u64 (Z.shiftl (u64 val) DIG_SIZE)) d = u64 (val * DIG_BASE + d)).
  { rewrite shl_dig. unfold wrapU. rewrite Z.mul_mod_idemp_l by done.
    change (2 ^ 64) with (2 ^ 48 * DIG_BASE). rewrite Z.mul_mod_distr_r by done.
    rewrite lor_dig by (done || apply Z.mod_pos_bound; lia).
    pose proof (Z.div_mod val (2 ^ 48) ltac:(lia)). pose proof (Z.mod_pos_bound val (2 ^ 48) ltac:(lia)).
    apply (Z.mod_unique_pos _ _ (val / 2 ^ 48)); unfold DIG_BASE in *; lia. }
  rewrite E, IH by (lia || (unfold DIG_BASE in *; lia)).
  rewrite (dval_take_S _ _ _ Hl), bpow_S. do 2 f_equal. lia.
Qed.

(** The hash is the value reduced to a machine word. *)
Lemma mpz_hash_spec z : wf z -> mpz_hash z = Some (i64 (zval z)).
Proof.
  intros W. unfold mpz_hash. change 0 with (u64 0) at 1.
  rewrite (hash_loop_spec (dig z) (len z) 0 (wf_digs z W) (wf_len z W)) by lia. cbn [mbind option_bind].
  rewrite Z.mul_0_l, Z.add_0_l. fold (magnitude z). f_equal. unfold zval.
  destruct (neg z); apply wrapS_cong; unfold wrapU; rewrite ?Z.mod_mod by done; [|done].
  rewrite <- !Z.sub_0_l. apply Zminus_mod_idemp_r.
Qed.

(** The overflow test: the loop gets through exactly when the value stays
    below [bound] = (limit + 1) * 2^16. *)
Lemma checked_loop_spec limit dg n val : Forall is_dig dg -> (n <= length dg)%nat ->
  0 <= val -> 0 <= limit < 2 ^ 48 -> val <= limit * DIG_BASE + (DIG_BASE - 1) ->
  normal (take n dg) \/ 0 < val ->
  let v := val * bpow n + dval (take n dg) in
  checked_loop limit dg n val = Some (if v <=? limit * DIG_BASE + (DIG_BASE - 1) then Some v else None).
Proof.
  intros Hd. revert val. induction n as [|n IH]; intros val Hn Hv Hl Hb Hnorm v; cbn [checked_loop].
  { unfold v. rewrite firstn_O, bpow_0. cbn [dval]. rewrite Z.mul_1_r, Z.add_0_r.
    by destruct (Z.leb_spec val (limit * DIG_BASE + (DIG_BASE - 1))); [|lia]. }
  destruct (lookup_lt_is_Some_2 dg n ltac:(lia)) as [d Hlook].
  pose proof (Forall_lookup_1 _ _ _ _ Hd Hlook) as Hdd. unfold is_dig in Hdd.
  pose proof (dval_take_bounds dg n Hd) as Hlow. pose proof (bpow_pos n).
  assert (Hveq : v = (val * DIG_BASE + d) * bpow n + dval (take n dg)).
  { unfold v. rewrite (dval_take_S _ _ _ Hlook), bpow_S. lia. }
  destruct (Z.ltb_spec limit val) as [Hlt|Hge].
  - destruct (Z.leb_spec v (limit * DIG_BASE + (DIG_BASE - 1))); [|done].
    set (x := val * DIG_BASE + d) in *. assert (Hx : limit * DIG_BASE + DIG_BASE <= x) by (unfold x, DIG_BASE in *; lia).
    assert (x <= x * bpow n) by (unfold DIG_BASE in *; nia). lia.
  - rewrite Hlook. cbn [mbind option_bind].
    rewrite shl_dig, wrapU_small by (unfold DIG_BASE in *; lia). rewrite lor_dig by done.
    rewrite IH; [by rewrite Hveq|lia|unfold DIG_BASE in *; lia|done|unfold DIG_BASE in *; lia|].
    destruct (decide (0 < val * DIG_BASE + d)) as [|Hz]; [by right|left].
    assert (val = 0 /\ d = 0) as [-> ->] by (unfold DIG_BASE in *; lia).
    destruct Hnorm as [Hnorm|]; [|lia]. rewrite (take_S_r _ _ _ Hlook) in Hnorm. by apply normal_snoc in Hnorm.
Qed.

(** The conversion succeeds exactly on the magnitudes below 2^63: the least
    machine integer is refused. *)
Lemma mpz_as_int_checked_spec z : wf z ->
  mpz_as_int_checked z = Some (if Z.abs (zval z) <? 2 ^ 63 then Some (zval z) else None).
Proof.
  intros W. unfold mpz_as_int_checked.
  assert (L : Z.shiftr not_msbit DIG_SIZE = 2 ^ 47 - 1) by reflexivity. rewrite L.
  rewrite (checked_loop_spec _ (dig z) (len z) 0 (wf_digs z W) (wf_len z W)) by (lia || (unfold DIG_BASE; lia) || (left; apply W)).
  cbn [mbind option_bind]. rewrite Z.mul_0_l, Z.add_0_l. fold (magnitude z). f_equal.
  pose proof (magnitude_nonneg z W). rewrite (zval_abs z W).
  replace ((2 ^ 47 - 1) * DIG_BASE + (DIG_BASE - 1)) with (2 ^ 63 - 1) by done.
  destruct (Z.leb_spec (magnitude z) (2 ^ 63 - 1)), (Z.ltb_spec (magnitude z) (2 ^ 63)); try lia; [|done].
  cbn [mbind option_bind]. f_equal. unfold zval. destruct (neg z).
  - transitivity (i64 (- magnitude z)); [|apply i64_small; lia].
    apply wrapS_cong. unfold wrapU. apply Z.mod_mod. lia.
  - apply i64_small. lia.
Qed.

Lemma mpz_as_uint_checked_spec z : wf z ->
  mpz_as_uint_checked z = Some (if (0 <=? zval z) && (zval z <? 2 ^ 64) then Some (zval z) else None).
Proof.
  intros W. unfold mpz_as_uint_checked. pose proof (neg_ltb z W) as N. destruct (neg z) eqn:E.
  { by destruct (Z.leb_spec 0 (zval z)), (Z.ltb_spec (zval z) 0); try lia. }
  assert (L : Z.shiftr not_msbit (DIG_SIZE - 1) = 2 ^ 48 - 1) by reflexivity. rewrite L.
  rewrite (checked_loop_spec _ (dig z) (len z) 0 (wf_digs z W) (wf_len z W)) by (lia || (unfold DIG_BASE; lia) || (left; apply W)).
  rewrite Z.mul_0_l, Z.add_0_l. fold (magnitude z). unfold zval. rewrite E. f_equal.
  pose proof (magnitude_nonneg z W).
  replace ((2 ^ 48 - 1) * DIG_BASE + (DIG_BASE - 1)) with (2 ^ 64 - 1) by done.
  destruct (Z.leb_spec 0 (magnitude z)); [|lia]. cbn [andb].
  by destruct (Z.leb_spec (magnitude z) (2 ^ 64 - 1)), (Z.ltb_spec (magnitude z) (2 ^ 64)); try lia.
Qed.

Section theorems.
Context {renew : Renew} {laws : RenewLaws}.

(** [mpz_set_from_ll] on a signed or an unsigned long long. *)
Lemma mpz_set_from_ll_spec σ i val (is_signed : bool) : owns σ i -> - 2 ^ 63 <= val < 2 ^ 63 ->
  computes σ (mpz_set_from_ll σ i val is_signed) i (if is_signed then val else u64 val).
Proof.
  intros (z & Hi & Hg) Hv. unfold mpz_set_from_ll, computes.
  destruct (mpz_need_dig_spec σ i MPZ_NUM_DIG_FOR_LL z Hi Hg) as (z1 & -> & [W1 F1] & Hroom & _).
  cbn [mbind option_bind]. rewrite lookup_insert_eq. cbn [mbind option_bind].
  set (minus := is_signed && (val <? 0)).
  set (uval := if minus then u64 (- u64 val) else u64 val).
  assert (Hu : 0 <= uval < bpow 4).
  { change (bpow 4) with (2 ^ 64). unfold uval. destruct minus; apply wrapU_range; lia. }
  assert (Huv : (if minus then - uval else uval) = if is_signed then val else u64 val).
  { unfold uval, minus. destruct is_signed; cbn [andb]; [|done]. destruct (Z.ltb_spec val 0).
    - unfold wrapU. rewrite <- (Z.sub_0_l (val mod 2 ^ 64)), Zminus_mod_idemp_r, Z.mod_small by lia. lia.
    - by rewrite wrapU_small by lia. }
  destruct (set_uval_spec 4 5 uval 0 (dig z1)) as (dg & n & E & R);
    [lia|done|unfold MPZ_NUM_DIG_FOR_LL in Hroom; lia|apply W1|done|].
  rewrite E. cbn [mbind option_bind]. rewrite insert_insert_eq, F1, (wf_alloc z1 W1). eexists. split; [done|].
  rewrite firstn_O, bpow_0 in R. cbn [dval] in R. rewrite Z.add_0_l, Z.mul_1_l in R.
  destruct (result_wf _ _ _ _ minus false R) as [W M].
  { intros H0. rewrite H0 in Huv. unfold minus in *. destruct is_signed; cbn [andb] in *; [|done].
    destruct (Z.ltb_spec val 0); [lia|done]. }
  split; [done|]. unfold zval. rewrite M. cbn [neg]. done.
Qed.
End theorems.
