(* ===== verification/MpzText.v ===== *)
(** Numerals and byte strings of mpz objects (py/mpz.c): parsing and printing
    in any base, and the two's complement encodings. *)
From stdpp Require Import gmap.
From S2P Require Import Prelude Digits Mpn MpnBits Mpz.
#[local] Open Scope Z_scope.

Section mpz_text.
  Context {renew : Renew}.

(** * Parsing *)

(** The value of a character as a digit, before it is checked against the
    base. *)
Definition str_digit (c : Z) : option Z :=
  if (48 <=? c) && (c <=? 57) then Some (c - 48)
  else if (65 <=? c) && (c <=? 90) then Some (c - (65 - 10))
  else if (97 <=? c) && (c <=? 122) then Some (c - (97 - 10))
  else None.

Fixpoint set_str_loop (base : Z) (s : list Z) (cur : nat) (dg : list Z) (n : nat)
    : option (nat * list Z * nat) :=
  match s with
  | [] => Some (cur, dg, n)
  | c :: s =>
      match str_digit c with
      | None => Some (cur, dg, n)
      | Some v =>
          if base <=? v then Some (cur, dg, n)
          else '(dg, n) ← mpn_mul_dig_add_dig dg n base v; set_str_loop base s (S cur) dg n
      end
  end.

(** Returns the number of characters that were processed. *)
Definition mpz_set_from_str (σ : store) (i : nat) (str : list Z) (ng : bool) (base : Z)
    : option (store * nat) :=
  if 36 <? base then None
  else
    σ ← mpz_need_dig σ i (length str * 8 / 16 + 1);
    z ← σ !! i;
    '(cur, dg, n) ← set_str_loop base str 0 (dig z) 0;
    Some (<[i := Mpz ng (fixed_dig z) (alloc z) n dg]> σ, cur).

(** * Printing *)

(** One digit of the division of the number by the base, from the top. *)
Definition base_step (base : Z) (p : nat) (dg : list Z) (a : Z) : option (Z * Z) :=
  d ← dg !! p;
  let a := Z.lor (u32 (Z.shiftl a DIG_SIZE)) d in
  Some (u16 (a / base), a mod base).

Definition str_char (base_char a : Z) : Z :=
  let a := a + 48 in
  if 57 <? a then a + (base_char - 57 - 1) else a.

(** The do-while loop; [str] is the text so far and [last] the length of
    the text up to the last comma. *)
Fixpoint str_loop (fuel : nat) (base base_char comma : Z) (dg : list Z) (ilen : nat)
    (str : list Z) (last : nat) : option (list Z) :=
  match fuel with
  | O => None
  | S fuel =>
      '(a, dg) ← digits_down (base_step base) 0 ilen 0 dg;
      let str := str ++ [str_char base_char a] in
      if forallb (fun d => d =? 0) dg then Some str
      else if negb (comma =? 0) && (length str - last =? 3)%nat then
        str_loop fuel base base_char comma dg ilen (str ++ [comma]) (length str + 1)
      else str_loop fuel base base_char comma dg ilen str last
  end.

(** [for (u = str, v = s - 1; u < v; ++u, --v) swap] *)
Fixpoint reverse_loop (n : nat) (u v : nat) (str : list Z) : list Z :=
  match n with
  | O => str
  | S n =>
      if (u <? v)%nat then
        match str !! u, str !! v with
        | Some x, Some y => reverse_loop n (S u) (pred v) (<[v := x]> (<[u := y]> str))
        | _, _ => str
        end
      else str
  end.

Definition mpz_as_str_inpl (z : mpz) (base : Z) (prefix : option (list Z)) (base_char comma : Z)
    : option (list Z) :=
  if (base <? 2) || (32 <? base) then None
  else if (len z =? 0)%nat then Some (default [] prefix ++ [48])
  else
    dg ← copy (replicate (len z) 0) (dig z) (len z);
    str ← str_loop (16 * len z) base base_char comma dg (len z) [] 0;
    let str := str ++ rev (default [] prefix) in
    let str := if neg z then str ++ [45] else str in
    Some (reverse_loop (length str) 0 (length str - 1) str).

(** * Bytes *)

(** Byte [k] in the order of its weight. *)
Definition byte_pos (big_endian : bool) (n k : nat) : nat := if big_endian then (n - 1 - k)%nat else k.

(** [while (len && num_bits < DIG_SIZE)]: gather the bytes of a digit. *)
Fixpoint gather (big_endian : bool) (buf : list Z) (rem : nat) (d num_bits : Z) : option (Z * Z * nat) :=
  match rem with
  | O => Some (d, num_bits, O)
  | S rem' =>
      if num_bits <? DIG_SIZE then
        b ← buf !! byte_pos big_endian (length buf) (length buf - rem);
        gather big_endian buf rem' (u16 (Z.lor d (Z.shiftl b num_bits))) (num_bits + 8)
      else Some (d, num_bits, rem)
  end.

Fixpoint set_bytes_loop (fuel : nat) (big_endian : bool) (buf : list Z) (rem : nat) (num_bits : Z)
    (dg : list Z) (n : nat) : option (list Z * nat) :=
  match rem with
  | O => Some (dg, n)
  | S _ =>
      match fuel with
      | O => None
      | S fuel =>
          '(d, num_bits, rem) ← gather big_endian buf rem 0 num_bits;
          dg ← put dg n (Z.land d DIG_MASK);
          set_bytes_loop fuel big_endian buf rem (num_bits - DIG_SIZE) dg (S n)
      end
  end.

Definition mpz_set_from_bytes (σ : store) (i : nat) (big_endian : bool) (buf : list Z) : option store :=
  σ ← mpz_need_dig σ i ((length buf * 8 + 16 - 1) / 16);
  z ← σ !! i;
  '(dg, n) ← set_bytes_loop (length buf) big_endian buf (length buf) 0 (dig z) 0;
  n ← mpn_remove_trailing_zeros dg n;
  Some (<[i := Mpz false (fixed_dig z) (alloc z) n dg]> σ).

(** The output of [mpz_as_bytes]: the buffer, the bytes written so far, the
    carry of the two's complement and the verdict. *)
Record out := Out { o_buf : list Z; o_done : nat; o_carry : Z; o_ok : bool }.

(** The inner loop on the bytes of a digit. *)
Fixpoint emit (k : nat) (ng big_endian : bool) (d : Z) (o : out) : option out :=
  match k with
  | O => Some o
  | S k =>
      let val := if ng then u16 (Z.land (Z.lnot (u16 d)) 255 + o_carry o) else u16 d in
      let carry := if ng then Z.shiftr val 8 else o_carry o in
      let n := length (o_buf o) in
      let o := if (n <=? o_done o)%nat
               then Out (o_buf o) (o_done o) carry (o_ok o && (u8 val =? 0))
               else Out (<[byte_pos big_endian n (o_done o) := u8 val]> (o_buf o)) (S (o_done o)) carry (o_ok o) in
      emit k ng big_endian (Z.shiftr d 8) o
  end.

Fixpoint as_bytes_loop (zlen : nat) (ng big_endian : bool) (dg : list Z) (d bits : Z) (o : out) : option out :=
  match zlen with
  | O => Some o
  | S zlen =>
      match dg with
      | [] => None
      | x :: dg =>
          let bits := bits + DIG_SIZE in
          let d := Z.lor (u32 (Z.shiftl d DIG_SIZE)) x in
          o ← emit (Z.to_nat (bits / 8)) ng big_endian d o;
          as_bytes_loop zlen ng big_endian dg (Z.shiftr d (8 * (bits / 8))) (bits mod 8) o
      end
  end.

(** memset of the bytes from weight [k] on. *)
Fixpoint fill_rest (n : nat) (k : nat) (big_endian : bool) (v : Z) (buf : list Z) : list Z :=
  match n with
  | O => buf
  | S n => fill_rest n (S k) big_endian v (<[byte_pos big_endian (length buf) k := v]> buf)
  end.

Definition mpz_as_bytes (z : mpz) (big_endian as_signed : bool) (buf : list Z) : option (bool * list Z) :=
  o ← as_bytes_loop (len z) (neg z) big_endian (dig z) 0 0 (Out buf 0 1 true);
  let len := length buf in
  if as_signed && (o_done o =? len)%nat && (0 <? len)%nat then
    most_sig ← o_buf o !! byte_pos big_endian len (len - 1);
    Some (o_ok o && Bool.eqb (negb (Z.land most_sig 128 =? 0)) (neg z), o_buf o)
  else
    Some (o_ok o, fill_rest (len - o_done o) (o_done o) big_endian (if neg z then 255 else 0) (o_buf o)).

End mpz_text.

(** * Parsing is exact *)

(** The digits at the front of a string. *)
Fixpoint digit_prefix (base : Z) (s : list Z) : list Z :=
  match s with
  | [] => []
  | c :: s =>
      match str_digit c with
      | Some v => if base <=? v then [] else v :: digit_prefix base s
      | None => []
      end
  end.

Lemma str_digit_nonneg c v : str_digit c = Some v -> 0 <= v.
Proof. unfold str_digit. intros H. repeat case_match; simplify_eq; lia. Qed.

Lemma digit_prefix_range base s : Forall (fun d => 0 <= d < base) (digit_prefix base s).
Proof.
  induction s as [|c s IH]; cbn [digit_prefix]; [constructor|].
  destruct (str_digit c) as [v|] eqn:E; [|constructor]. apply str_digit_nonneg in E.
  destruct (Z.leb_spec base v); constructor; [lia|done].
Qed.

Lemma set_str_loop_spec base s : 2 <= base <= 36 -> forall cur dg n v, holds dg n v -> normal (take n dg) ->
  (v + 1) * base ^ Z.of_nat (length s) <= bpow (length dg) ->
  exists dg' m, set_str_loop base s cur dg n = Some ((cur + length (digit_prefix base s))%nat, dg', m) /\
    result (length dg) dg' m (v * base ^ Z.of_nat (length (digit_prefix base s)) + digits_value base (digit_prefix base s)).
Proof.
  intros Hb. induction s as [|c s IH]; intros cur dg n v Hh Hn Hroom.
  1: assert (Hstop : result (length dg) dg n (v * base ^ 0 + 0))
       by (destruct Hh as (? & ? & ?); split_and!; try done; lia).
  2: assert (Hstop : result (length dg) dg n (v * base ^ 0 + 0))
       by (destruct Hh as (? & ? & ?); split_and!; try done; lia).
  { exists dg, n. split; [|done]. cbn [set_str_loop digit_prefix length]. by rewrite Nat.add_0_r. }
  cbn [set_str_loop digit_prefix]. destruct (str_digit c) as [w|] eqn:E.
  2: { exists dg, n. cbn [length]. by rewrite Nat.add_0_r. }
  destruct (Z.leb_spec base w); [exists dg, n; cbn [length]; by rewrite Nat.add_0_r|].
  apply str_digit_nonneg in E. pose proof (holds_bounds _ _ _ Hh) as Hv.
  cbn [length] in Hroom. rewrite Nat2Z.inj_succ, Z.pow_succ_r in Hroom by lia.
  assert (Hp : 1 <= base ^ Z.of_nat (length s)) by lia.
  assert (Hroom' : (v * base + w + 1) * base ^ Z.of_nat (length s) <= bpow (length dg)) by nia.
  destruct (mpn_mul_dig_add_dig_spec dg n base w v Hh) as (dg1 & n1 & -> & R);
    [unfold is_dig, DIG_BASE; lia|unfold is_dig, DIG_BASE; lia|nia|lia|done|].
  cbn [mbind option_bind]. destruct R as (L & D & Hn1 & V & N).
  destruct (IH (S cur) dg1 n1 (v * base + w)) as (dg' & m & E' & R'); [split_and!; [lia|done|done]|done|by rewrite L|].
  exists dg', m. split.
  - rewrite E'. do 3 f_equal. cbn [length]. lia.
  - rewrite L in R'. rewrite digits_value_cons. cbn [length]. rewrite Nat2Z.inj_succ, Z.pow_succ_r by lia.
    match goal with |- result _ _ _ ?x => match type of R' with result _ _ _ ?y => replace x with y by lia end end. done.
Qed.

Section parsing.
Context {renew : Renew} {laws : RenewLaws}.

Lemma mpz_set_from_str_spec σ i str (ng : bool) base : owns σ i -> 2 <= base <= 36 ->
  let v := digits_value base (digit_prefix base str) in
  (v = 0 -> ng = false) ->
  exists z, mpz_set_from_str σ i str ng base = Some (<[i := z]> σ, length (digit_prefix base str)) /\
    growable z /\ zval z = if ng then - v else v.
Proof.
  intros (z & Hi & Hg) Hb v Hv0. unfold mpz_set_from_str. destruct (Z.ltb_spec 36 base); [lia|].
  destruct (mpz_need_dig_spec σ i (length str * 8 / 16 + 1) z Hi Hg) as (z1 & -> & [W1 F1] & Hroom & _).
  cbn [mbind option_bind]. rewrite lookup_insert_eq. cbn [mbind option_bind].
  destruct (set_str_loop_spec base str Hb 0 (dig z1) 0 0) as (dg & n & -> & R).
  - split_and!; [lia|apply W1|done].
  - done.
  - rewrite Z.mul_1_l. pose proof (bpow_le _ _ Hroom) as Hle. rewrite bpow_2 in Hle.
    pose proof (Z.pow_le_mono_l base (2 ^ 8) (Z.of_nat (length str)) ltac:(lia)) as H36.
    rewrite <- Z.pow_mul_r in H36 by lia.
    assert (2 ^ (8 * Z.of_nat (length str)) <= 2 ^ (16 * Z.of_nat (length str * 8 / 16 + 1))).
    { apply Z.pow_le_mono_r; [lia|]. rewrite Nat2Z.inj_add, Nat2Z.inj_div, Nat2Z.inj_mul. zdm. }
    lia.
  - cbn [mbind option_bind Nat.add]. rewrite insert_insert_eq, F1, (wf_alloc z1 W1). eexists. split; [done|].
    rewrite Z.mul_0_l, Z.add_0_l in R. destruct (result_wf _ _ _ _ ng false R Hv0) as [W M].
    split; [done|]. unfold zval. by rewrite M.
Qed.
End parsing.

(** * Printing is exact *)

Lemma base_loop base dg N : 2 <= base <= 32 -> Forall is_dig dg -> dval dg = N ->
  exists dg', digits_down (base_step base) 0 (length dg) 0 dg = Some (N mod base, dg') /\
    length dg' = length dg /\ Forall is_dig dg' /\ dval dg' = N / base.
Proof.
  intros Hb Hd HN. assert (Hh : holds dg (length dg) N) by (split_and!; [done|done|by rewrite firstn_all]).
  destruct (digits_down_rule (base_step base)
    (fun p v a => v = N / bpow p / base /\ a = N / bpow p mod base) dg (length dg) 0 (length dg) 0 dg)
    as (a & dg' & E & L & D & _ & _ & Hv & ->); [lia|done|done|done| | |].
  { cbn [Nat.add]. rewrite (holds_top _ _ _ Hh), drop_ge by (rewrite length_take; lia).
    by rewrite Z.mod_0_l, Z.div_0_l by lia. }
  { intros p v a dst Hp _ Htake [-> ->]. unfold base_step.
    assert (Hl : dst !! p = Some (N / bpow p mod DIG_BASE)).
    { rewrite <- (holds_lookup _ _ _ p Hh) by lia. by apply (get_earlier Self dst dg (S p) p); [|lia]. }
    rewrite Hl. cbn [mbind option_bind]. rewrite div_bpow_S. set (w := N / bpow p).
    pose proof (is_dig_mod w) as Hw. unfold is_dig in Hw.
    pose proof (Z.mod_pos_bound (w / DIG_BASE) base ltac:(lia)) as Ha.
    pose proof (Z.div_mod w DIG_BASE ltac:(done)) as E1.
    pose proof (Z.div_mod (w / DIG_BASE) base ltac:(lia)) as E2.
    set (q := w / DIG_BASE / base) in *. set (a := w / DIG_BASE mod base) in *. set (x := w mod DIG_BASE) in *.
    assert (Hwx : w = base * DIG_BASE * q + (a * DIG_BASE + x)) by lia. clear E1 E2.
    clearbody q a x w.
    rewrite shl_dig, (wrapU_small 32) by (unfold DIG_BASE in *; lia).
    rewrite (lor_low 16) by (unfold DIG_BASE in *; lia). change (2 ^ 16) with DIG_BASE.
    assert (Hq : 0 <= (a * DIG_BASE + x) / base < DIG_BASE).
    { split; [apply Z.div_pos; unfold DIG_BASE in *; lia|]. apply Z.div_lt_upper_bound; unfold DIG_BASE in *; nia. }
    rewrite wrapU_small by (unfold DIG_BASE in *; lia). eexists _, _. split; [done|]. split; [done|].
    rewrite Hwx. replace (base * DIG_BASE * q + (a * DIG_BASE + x))
      with (a * DIG_BASE + x + DIG_BASE * q * base) by lia.
    split; [rewrite Z.div_add by lia; lia|by rewrite Z.mod_add by lia]. }
  rewrite drop_0, bpow_0, Z.div_1_r, firstn_all2 in Hv by lia. rewrite bpow_0, Z.div_1_r in E. eauto 10.
Qed.

Lemma forallb_zero dg : Forall is_dig dg -> forallb (fun d => d =? 0) dg = (dval dg =? 0).
Proof.
  induction 1 as [|d dg Hd HD IH]; [done|]. cbn [forallb dval]. rewrite IH.
  pose proof (dval_bounds dg HD). unfold is_dig, DIG_BASE in *.
  destruct (Z.eqb_spec d 0), (Z.eqb_spec (dval dg) 0), (Z.eqb_spec (d + 65536 * dval dg) 0); cbn [andb]; try done; lia.
Qed.

(** Without separators the loop prints the digits in reverse. *)
Lemma str_loop_spec base base_char ilen : 2 <= base <= 32 -> forall fuel N dg str last,
  length dg = ilen -> Forall is_dig dg -> dval dg = N -> (0 < fuel)%nat -> N < 2 ^ Z.of_nat fuel ->
  str_loop fuel base base_char 0 dg ilen str last =
    Some (str ++ rev (str_char base_char <$> to_digits base N)).
Proof.
  intros Hb. induction fuel as [|fuel IH]; intros N dg str last Hl Hd HN Hf Hlt; [lia|].
  pose proof (dval_bounds dg Hd) as HN0. cbn [str_loop].
  destruct (base_loop base dg N Hb Hd HN) as (dg' & E & L & D & V). rewrite Hl in E. rewrite E.
  cbn [mbind option_bind Z.eqb negb andb]. rewrite forallb_zero, V by done.
  destruct (Z.eqb_spec (N / base) 0) as [H0|H0].
  - assert (N < base) by (apply Z.div_small_iff in H0; lia).
    rewrite to_digits_small, Z.mod_small by lia. done.
  - assert (base <= N) by (destruct (Z.ltb_spec N base); [|done]; by rewrite Z.div_small in H0 by lia).
    rewrite Nat2Z.inj_succ, Z.pow_succ_r in Hlt by lia.
    assert (N / base < 2 ^ Z.of_nat fuel) by (apply Z.div_lt_upper_bound; nia).
    assert (1 <= N / base) by (pose proof (Z.div_pos N base); lia).
    rewrite (IH (N / base) dg'); try done; [|congruence|destruct fuel; [cbn in *; lia|lia]].
    rewrite (to_digits_step base N) by lia. rewrite fmap_app, rev_app_distr. by rewrite <- app_assoc.
Qed.

Lemma reverse_loop_spec n : forall u v (a m b : list Z), length a = u -> (length m <= n)%nat ->
  (m <> [] -> v = u + length m - 1)%nat -> (m = [] -> (v <= u)%nat) ->
  reverse_loop n u v (a ++ m ++ b) = a ++ rev m ++ b.
Proof.
  induction n as [|n IH]; intros u v a m b Hu Hm Hv H0; cbn [reverse_loop]; [by destruct m; [|simpl in Hm; lia]|].
  destruct (Nat.ltb_spec u v) as [Hlt|Hge].
  - destruct m as [|x m]; [specialize (H0 eq_refl); lia|]. specialize (Hv ltac:(done)).
    destruct m as [|y m _] using rev_ind; [simpl in Hv; lia|].
    cbn [length] in *. rewrite length_app in *. cbn [length] in *.
    assert (Lu : (a ++ (x :: m ++ [y]) ++ b) !! u = Some x) by (rewrite lookup_app_r, Hu, Nat.sub_diag by lia; done).
    assert (Lv : (a ++ (x :: m ++ [y]) ++ b) !! v = Some y).
    { rewrite lookup_app_r by lia. cbn [app]. rewrite lookup_cons_ne_0 by lia. rewrite <- app_assoc.
      rewrite lookup_app_r by lia. by replace (pred (v - length a) - length m)%nat with 0%nat by lia. }
    rewrite Lu, Lv.
    assert (Hswap : <[v := x]> (<[u := y]> (a ++ (x :: m ++ [y]) ++ b)) = (a ++ [y]) ++ m ++ ([x] ++ b)).
    { assert (Hi : <[length m := x]> ((m ++ [y]) ++ b) = m ++ [x] ++ b).
      { rewrite <- app_assoc, insert_app_r_alt by lia. by rewrite Nat.sub_diag. }
      rewrite (insert_app_r_alt a _ u), (insert_app_r_alt a _ v) by lia.
      replace (u - length a)%nat with 0%nat by lia. replace (v - length a)%nat with (S (length m)) by lia.
      rewrite <- app_assoc. f_equal. cbn [app]. change (<[0%nat := y]> (x :: (m ++ [y]) ++ b)) with (y :: (m ++ [y]) ++ b).
      change (<[S (length m) := x]> (y :: (m ++ [y]) ++ b)) with (y :: <[length m := x]> ((m ++ [y]) ++ b)).
      by rewrite Hi. }
    rewrite Hswap, IH.
    + cbn [rev]. rewrite rev_app_distr. cbn [rev app]. by rewrite <- !app_assoc.
    + rewrite length_app. simpl. lia.
    + lia.
    + intros _. lia.
    + intros ->. simpl in *. lia.
  - destruct m as [|x [|y m]]; [done|done|]. specialize (Hv ltac:(done)). simpl in Hv. lia.
Qed.

Lemma reverse_rev str : reverse_loop (length str) 0 (length str - 1) str = rev str.
Proof.
  pose proof (reverse_loop_spec (length str) 0 (length str - 1) [] str []) as H.
  rewrite !app_nil_r in H. cbn [app] in H. apply H; [done|lia|lia|intros ->; done].
Qed.

(** The text of an integer. *)
Definition numeral (base base_char : Z) (prefix : list Z) (v : Z) : list Z :=
  (if v <? 0 then [45] else []) ++ prefix ++ (str_char base_char <$> to_digits base (Z.abs v)).

Lemma mpz_as_str_spec z base prefix base_char : wf z -> 2 <= base <= 32 ->
  mpz_as_str_inpl z base prefix base_char 0 = Some (numeral base base_char (default [] prefix) (zval z)).
Proof.
  intros W Hb. unfold mpz_as_str_inpl, numeral. rewrite (zval_abs z W).
  destruct (Z.ltb_spec base 2); [lia|]. destruct (Z.ltb_spec 32 base); [lia|]. cbn [orb].
  pose proof (len_zero z W) as Hlz. pose proof (neg_ltb z W) as Hn.
  destruct (Nat.eqb_spec (len z) 0) as [El|El].
  - pose proof (wf_zero z W El) as Hz. rewrite <- Hn, Hz. apply Hlz in El. rewrite El, to_digits_small by lia. done.
  - unfold copy. rewrite decide_True by (rewrite length_replicate; split; [lia|apply W]). cbn [mbind option_bind].
    rewrite drop_ge, app_nil_r by (rewrite length_replicate; lia).
    rewrite (str_loop_spec base base_char (len z) Hb (16 * len z) (magnitude z)); try done.
    + cbn [mbind option_bind app]. rewrite <- Hn, reverse_rev.
      destruct (neg z); rewrite !rev_app_distr, !rev_involutive; done.
    + apply length_take_le, W.
    + apply Forall_take, W.
    + lia.
    + pose proof (holds_bounds _ _ _ (wf_holds z W)) as [_ Hlt]. rewrite bpow_2 in Hlt.
      by replace (Z.of_nat (16 * len z)) with (16 * Z.of_nat (len z)) by lia.
Qed.

(** Printed digits parse back. *)
Lemma str_digit_char d : 0 <= d < 36 -> str_digit (str_char 97 d) = Some d.
Proof.
  intros Hd. unfold str_char. destruct (Z.ltb_spec 57 (d + 48)).
  - unfold str_digit. zcase. f_equal. lia.
  - unfold str_digit. zcase. f_equal. lia.
Qed.

Lemma digit_prefix_numeral base ds : base <= 36 -> Forall (fun d => 0 <= d < base) ds ->
  digit_prefix base (str_char 97 <$> ds) = ds.
Proof.
  intros Hb. induction 1 as [|d ds Hd _ IH]; [done|]. cbn [fmap list_fmap digit_prefix].
  rewrite str_digit_char by lia. destruct (Z.leb_spec base d); [lia|]. by rewrite IH.
Qed.

(** * Bytes *)

Definition is_byte (b : Z) : Prop := 0 <= b < 256.

(** The value of a byte string, least significant byte first. *)
Fixpoint bval (l : list Z) : Z :=
  match l with
  | [] => 0
  | b :: l => b + 256 * bval l
  end.

Definition p256 (n : nat) : Z := 256 ^ Z.of_nat n.

(** The bytes of a buffer in the order of their weight. *)
Definition by_weight (big_endian : bool) (buf : list Z) : list Z :=
  if big_endian then reverse buf else buf.

Lemma p256_S n : p256 (S n) = 256 * p256 n.
Proof. unfold p256. rewrite Nat2Z.inj_succ, Z.pow_succ_r; lia. Qed.

Lemma p256_pos n : 0 < p256 n.
Proof. unfold p256. lia. Qed.

Lemma p256_bpow n : bpow n = p256 (2 * n).
Proof.
  unfold bpow, p256, DIG_BASE. rewrite Nat2Z.inj_mul, Z.pow_mul_r by lia. done.
Qed.

Lemma p256_le n m : (n <= m)%nat -> p256 n <= p256 m.
Proof. intros. unfold p256. apply Z.pow_le_mono_r; lia. Qed.

Lemma bval_app l1 l2 : bval (l1 ++ l2) = bval l1 + p256 (length l1) * bval l2.
Proof.
  induction l1 as [|b l1 IH]; cbn [bval app length]; [unfold p256; lia|]. rewrite IH, p256_S. lia.
Qed.

Lemma bval_bounds l : Forall is_byte l -> 0 <= bval l < p256 (length l).
Proof.
  induction 1 as [|b l Hb _ IH]; cbn [bval length]; [unfold p256; lia|]. rewrite p256_S. unfold is_byte in Hb. lia.
Qed.

Lemma bval_take_S l k b : l !! k = Some b -> bval (take (S k) l) = bval (take k l) + p256 k * b.
Proof.
  intros Hl. rewrite (take_S_r _ _ _ Hl), bval_app. cbn [bval].
  apply lookup_lt_Some in Hl. rewrite length_take_le by lia. lia.
Qed.

Lemma by_weight_length be buf : length (by_weight be buf) = length buf.
Proof. unfold by_weight. destruct be; [apply length_reverse|done]. Qed.

Lemma by_weight_lookup be buf k : (k < length buf)%nat ->
  buf !! byte_pos be (length buf) k = by_weight be buf !! k.
Proof.
  intros Hk. unfold by_weight, byte_pos. destruct be; [|done].
  rewrite reverse_lookup by done. f_equal. lia.
Qed.

Lemma by_weight_insert be buf k b : (k < length buf)%nat ->
  by_weight be (<[byte_pos be (length buf) k := b]> buf) = <[k := b]> (by_weight be buf).
Proof.
  intros Hk. unfold by_weight, byte_pos. destruct be; [|done]. apply list_eq. intros i.
  destruct (decide (i < length buf)%nat) as [Hi|Hi].
  - rewrite reverse_lookup by (rewrite length_insert; done). rewrite length_insert.
    destruct (decide (i = k)) as [->|].
    + rewrite list_lookup_insert_eq by (rewrite length_reverse; lia).
      replace (length buf - S k)%nat with (length buf - 1 - k)%nat by lia. apply list_lookup_insert_eq. lia.
    + rewrite !list_lookup_insert_ne by lia. by rewrite reverse_lookup.
  - rewrite !lookup_ge_None_2; [done|..]; rewrite ?length_insert, ?length_reverse, ?length_insert; lia.
Qed.

Lemma by_weight_bytes be buf : Forall is_byte buf -> Forall is_byte (by_weight be buf).
Proof.
  intros Hb. unfold by_weight. destruct be; [|done]. unfold reverse. rewrite <- rev_alt. by apply Forall_rev.
Qed.

Section from_bytes.
Context (be : bool) (buf : list Z).
Context (Hbytes : Forall is_byte buf).
Notation w := (by_weight be buf).

(** One digit is made of two bytes, or of one at the end. *)
Lemma gather_spec k rem : (k + rem = length buf)%nat -> (0 < rem)%nat ->
  let j := Nat.min 2 rem in
  exists d nb, gather be buf rem 0 0 = Some (d, nb, (rem - j)%nat) /\ is_dig d /\
    d = bval (take j (drop k w)) /\ ((rem - j)%nat <> 0%nat -> nb = 16).
Proof.
  intros Hk Hr. cbv zeta. assert (Hw : forall i, (i < length buf)%nat -> exists b,
    buf !! byte_pos be (length buf) i = Some b /\ w !! i = Some b /\ is_byte b).
  { intros i Hi. destruct (lookup_lt_is_Some_2 w i) as [b Hb]; [by rewrite by_weight_length|].
    exists b. rewrite by_weight_lookup by done. split_and!; try done;
    apply (Forall_lookup_1 _ _ _ _ (by_weight_bytes be buf Hbytes) Hb). }
  destruct rem as [|[|rem]]; [lia| |]; cbn [gather Nat.min Nat.sub].
  - change (0 <? DIG_SIZE) with true. cbv iota. replace (length buf - 1)%nat with k by lia.
    destruct (Hw k ltac:(lia)) as (b & E & Ew & Hb). rewrite E. cbn [mbind option_bind].
    rewrite Z.shiftl_0_r, Z.lor_0_l. unfold is_byte in Hb. rewrite wrapU_small by lia.
    eexists _, _. split; [done|]. rewrite (drop_S _ _ _ Ew). cbn [firstn]. rewrite firstn_O. cbn [bval].
    unfold is_dig, DIG_BASE. split; [lia|]. split; [lia|done].
  - change (0 <? DIG_SIZE) with true. cbv iota. replace (length buf - S (S rem))%nat with k by lia.
    destruct (Hw k ltac:(lia)) as (b & E & Ew & Hb). rewrite E. cbn [mbind option_bind].
    change (0 + 8 <? DIG_SIZE) with true. cbv iota. replace (length buf - S rem)%nat with (S k) by lia.
    destruct (Hw (S k) ltac:(lia)) as (b2 & E2 & Ew2 & Hb2). rewrite E2. cbn [mbind option_bind].
    rewrite Z.shiftl_0_r, Z.lor_0_l. unfold is_byte in Hb, Hb2. rewrite (wrapU_small 16 b) by lia.
    change (0 + 8) with 8. rewrite Z.shiftl_mul_pow2, Z.lor_comm, (lor_low 8) by lia.
    rewrite wrapU_small by lia.
    exists (b2 * 2 ^ 8 + b), 16. split; [by destruct rem|].
    rewrite (drop_S _ _ _ Ew), (drop_S _ _ _ Ew2). cbn [firstn]. rewrite firstn_O. cbn [bval]. unfold is_dig, DIG_BASE.
    split; [lia|]. split; [lia|done].
Qed.

Lemma set_bytes_loop_spec fuel : forall k rem n dg, (k + rem = length buf)%nat -> (rem <= fuel)%nat ->
  (rem <> 0%nat -> k = (2 * n)%nat) -> (n + (rem + 1) / 2 <= length dg)%nat -> Forall is_dig dg ->
  dval (take n dg) = bval (take k w) ->
  exists dg' m, set_bytes_loop fuel be buf rem 0 dg n = Some (dg', m) /\ length dg' = length dg /\
    Forall is_dig dg' /\ (m <= length dg)%nat /\ dval (take m dg') = bval w.
Proof.
  induction fuel as [|fuel IH]; intros k rem n dg Hk Hf Hkn Hroom Hd Hv.
  1: assert (rem = 0%nat) as -> by lia.
  2: destruct rem as [|rem'] eqn:Er; [|rewrite <- Er in *; assert (0 < rem)%nat by lia].
  1-2: exists dg, n; split; [done|]; split_and!; try done; [lia|]; rewrite Hv; f_equal;
       apply firstn_all2; rewrite by_weight_length; lia.
  specialize (Hkn ltac:(lia)).
  destruct (gather_spec k rem Hk ltac:(lia)) as (d & nb & E & Hdd & Hdv & Hnb).
  set (j := Nat.min 2 rem) in *.
  assert (Hhalf : ((rem + 1) / 2 = S ((rem - j + 1) / 2))%nat).
  { destruct rem as [|[|r]]; [lia|done|]. unfold j. cbn [Nat.min Nat.sub].
    replace (S (S r) + 1)%nat with (r - 0 + 1 + 1 * 2)%nat by lia. rewrite Nat.div_add by lia. lia. }
  clear Er. cbn [set_bytes_loop]. destruct rem as [|rem]; [lia|]. rewrite E. cbn [mbind option_bind].
  set (rm := S rem) in *.
  rewrite land_mask, (Z.mod_small d) by done. rewrite put_some by (done || lia). cbn [mbind option_bind].
  assert (Hlook : <[n := d]> dg !! n = Some d) by (apply list_lookup_insert_eq; lia).
  assert (Hj : (j <= rm)%nat) by (unfold j; lia).
  assert (Hstep : dval (take (S n) (<[n := d]> dg)) = bval (take (k + j) w)).
  { rewrite (dval_take_S _ _ _ Hlook), take_insert_ge, Hv, Hdv by lia.
    rewrite <- (take_drop k (take (k + j) w)), bval_app, take_take, Nat.min_l by lia.
    rewrite length_take_le by (rewrite by_weight_length; lia).
    rewrite skipn_firstn_comm. replace (k + j - k)%nat with j by lia.
    by rewrite p256_bpow, Hkn. }
  assert (Hnext : forall nb', set_bytes_loop fuel be buf (rm - j) nb' (<[n := d]> dg) (S n) =
                              set_bytes_loop fuel be buf (rm - j) 0 (<[n := d]> dg) (S n) \/ (rm - j <> 0)%nat).
  { intros nb'. destruct (rm - j)%nat; [left; by destruct fuel|by right]. }
  assert (E0 : set_bytes_loop fuel be buf (rm - j) (nb - DIG_SIZE) (<[n := d]> dg) (S n) =
               set_bytes_loop fuel be buf (rm - j) 0 (<[n := d]> dg) (S n)).
  { destruct (Hnext (nb - DIG_SIZE)) as [|Hn]; [done|]. by rewrite (Hnb Hn). }
  rewrite E0. destruct (IH (k + j)%nat (rm - j)%nat (S n) (<[n := d]> dg)) as (dg' & m & E' & L' & D' & M' & V').
  - lia.
  - unfold j. lia.
  - intros Hnz. unfold j in *. lia.
  - rewrite length_insert. lia.
  - by apply Forall_insert.
  - done.
  - rewrite length_insert in *. eauto 10.
Qed.
End from_bytes.

Section bytes.
Context {renew : Renew} {laws : RenewLaws}.

Lemma mpz_set_from_bytes_spec σ i be buf : owns σ i -> Forall is_byte buf ->
  computes σ (mpz_set_from_bytes σ i be buf) i (bval (by_weight be buf)).
Proof.
  intros (z & Hi & Hg) Hb. unfold mpz_set_from_bytes, computes.
  destruct (mpz_need_dig_spec σ i ((length buf * 8 + 16 - 1) / 16) z Hi Hg) as (z1 & -> & [W1 F1] & Hroom & _).
  cbn [mbind option_bind]. rewrite lookup_insert_eq. cbn [mbind option_bind].
  destruct (set_bytes_loop_spec be buf Hb (length buf) 0 (length buf) 0 (dig z1)) as (dg & n & -> & L & D & N & V);
    [lia|lia|lia| |apply W1|done|].
  { cbn [Nat.add]. replace (length buf * 8 + 16 - 1)%nat with ((length buf + 1) * 8 + 7)%nat in Hroom by lia.
    assert ((length buf + 1) / 2 <= ((length buf + 1) * 8 + 7) / 16)%nat; [|lia].
    apply Nat.div_le_lower_bound; [lia|]. pose proof (Nat.div_mod (length buf + 1) 2 ltac:(lia)). lia. }
  cbn [mbind option_bind].
  destruct (rtz_result dg n _ D ltac:(lia) V) as (m & -> & R). cbn [mbind option_bind].
  rewrite insert_insert_eq, F1, (wf_alloc z1 W1), <- L. eexists. split; [done|].
  destruct (result_wf _ _ _ _ false false R ltac:(done)) as [W M]. split; [done|]. unfold zval. by rewrite M.
Qed.
End bytes.

(** * Encoding *)

(** The carry into byte [k] of the two's complement. *)
Definition byte_carry (ng : bool) (m : Z) (k : nat) : Z := if ng then Z.b2z (m mod p256 k =? 0) else 1.

Lemma mod_p256_S v k : v mod p256 (S k) = v mod p256 k + p256 k * (v / p256 k mod 256).
Proof. pose proof (p256_pos k). rewrite p256_S, Z.mul_comm. apply Z.rem_mul_r; lia. Qed.

Lemma neg_byte (ng : bool) m k y : y mod 256 = m / p256 k mod 256 -> 0 <= y < 2 ^ 16 ->
  let val := if ng then u16 (Z.land (Z.lnot y) 255 + byte_carry ng m k) else y in
  u8 val = signed ng m / p256 k mod 256 /\
  (if ng then Z.shiftr val 8 else byte_carry ng m k) = byte_carry ng m (S k).
Proof.
  intros Hy Hr val. pose proof (p256_pos k) as Hp. unfold val, signed. destruct ng; [|done].
  assert (El : Z.land (Z.lnot y) 255 = 255 - y mod 256).
  { change 255 with (Z.ones 8) at 1. rewrite Z.land_ones by lia. unfold Z.lnot. change (2 ^ 8) with 256. zdm. }
  rewrite El, Hy. unfold byte_carry. rewrite mod_p256_S. set (d := m / p256 k mod 256).
  assert (Hd : 0 <= d < 256) by (apply Z.mod_pos_bound; lia).
  pose proof (Z.mod_pos_bound m (p256 k) Hp).
  rewrite Z.shiftr_div_pow2 by lia. unfold wrapU at 1. change (2 ^ 8) with 256.
  destruct (Z.eqb_spec (m mod p256 k) 0) as [E|E]; cbn [Z.b2z]; rewrite wrapU_small by lia; split.
  - rewrite Z.div_opp_l_z by lia. unfold d. zdm.
  - rewrite E. destruct (Z.eqb_spec (0 + p256 k * d) 0); cbn [Z.b2z].
    + assert (d = 0) as -> by nia. done.
    + assert (d <> 0) by nia. clearbody d. zdm.
  - rewrite Z.div_opp_l_nz by lia. unfold d. zdm.
  - destruct (Z.eqb_spec (m mod p256 k + p256 k * d) 0); cbn [Z.b2z]; [nia|]. clearbody d. zdm.
Qed.

Section to_bytes.
Context (ng be : bool) (m : Z) (L : nat).
Notation X := (signed ng m).

(** After [k] bytes: those that fit are in place, the verdict is that the
    others are zero. *)
Definition emitted (k : nat) (o : out) : Prop :=
  (length (o_buf o) = L /\ Forall is_byte (o_buf o)) /\ o_done o = Nat.min k L /\ o_carry o = byte_carry ng m k /\
  bval (take (Nat.min k L) (by_weight be (o_buf o))) = X mod p256 (Nat.min k L) /\
  o_ok o = (X / p256 L mod p256 (k - L) =? 0).

Lemma emit_one k d o : emitted k o -> d mod 256 = m / p256 k mod 256 -> 0 <= d < 2 ^ 16 ->
  exists o', emit 1 ng be d o = Some o' /\ emitted (S k) o'.
Proof.
  intros ([HL HB] & Hdone & Hc & Hv & Hok) Hd Hr. cbn [emit]. rewrite !(wrapU_small 16 d) by lia.
  destruct (neg_byte ng m k d Hd Hr) as [Hb Hcar]. rewrite Hc. rewrite Hcar. set (val := if ng then _ else _) in *.
  eexists. split; [done|]. rewrite HL, Hdone. destruct (Nat.leb_spec L (Nat.min k L)) as [Hfull|Hfit].
  - unfold emitted. cbn [o_buf o_done o_carry o_ok]. replace (Nat.min (S k) L) with (Nat.min k L) by lia.
    split_and!; try done. rewrite Hok, Hb. replace (S k - L)%nat with (S (k - L)) by lia. rewrite mod_p256_S.
    assert (E : X / p256 L / p256 (k - L) = X / p256 k).
    { rewrite Z.div_div by (pose proof (p256_pos L); pose proof (p256_pos (k - L)); lia). f_equal.
      unfold p256. rewrite <- Z.pow_add_r by lia. f_equal. lia. }
    rewrite E. pose proof (p256_pos (k - L)) as Hp. pose proof (Z.mod_pos_bound (X / p256 L) (p256 (k - L)) Hp).
    pose proof (Z.mod_pos_bound (X / p256 k) 256 ltac:(lia)).
    destruct (Z.eqb_spec (X / p256 L mod p256 (k - L)) 0), (Z.eqb_spec (X / p256 k mod 256) 0),
      (Z.eqb_spec (X / p256 L mod p256 (k - L) + p256 (k - L) * (X / p256 k mod 256)) 0); cbn [andb]; try done; nia.
  - unfold emitted. cbn [o_buf o_done o_carry o_ok]. replace (Nat.min k L) with k in * by lia.
    replace (Nat.min (S k) L) with (S k) by lia. rewrite length_insert.
    split_and!; try done.
    + apply Forall_insert; [done|]. apply (Z.mod_pos_bound _ (2 ^ 8)). lia.
    + rewrite <- HL, by_weight_insert by lia.
      assert (Hlook : <[k := u8 val]> (by_weight be (o_buf o)) !! k = Some (u8 val)).
      { apply list_lookup_insert_eq. rewrite by_weight_length. lia. }
      rewrite (bval_take_S _ _ _ Hlook), take_insert_ge, Hv, Hb by lia. by rewrite mod_p256_S.
    + rewrite Hok. by replace (S k - L)%nat with (k - L)%nat by lia.
Qed.

Lemma emit_split d o : emit 2 ng be d o = (o ← emit 1 ng be d o; emit 1 ng be (Z.shiftr d 8) o).
Proof. done. Qed.

Lemma as_bytes_loop_spec dg n j o : Forall is_dig dg -> (n <= length dg)%nat ->
  dval (take n dg) = m / p256 (2 * j) mod p256 (2 * n) -> emitted (2 * j) o ->
  exists o', as_bytes_loop n ng be dg 0 0 o = Some o' /\ emitted (2 * (j + n)) o'.
Proof.
  revert dg j o. induction n as [|n IH]; intros dg j o Hd Hn Hv He.
  { exists o. by rewrite Nat.add_0_r. }
  destruct dg as [|x dg]; [simpl in Hn; lia|]. apply Forall_cons_1 in Hd as [Hx Hd]. unfold is_dig, DIG_BASE in Hx.
  cbn [firstn dval] in Hv.
  assert (Hxv : x = m / p256 (2 * j) mod 65536 /\ dval (take n dg) = m / p256 (2 * S j) mod p256 (2 * n)).
  { assert (Hs : p256 (2 * S n) = 65536 * p256 (2 * n)).
    { replace (2 * S n)%nat with (S (S (2 * n))) by lia. rewrite !p256_S. lia. }
    assert (Hs2 : p256 (2 * S j) = p256 (2 * j) * 65536).
    { replace (2 * S j)%nat with (S (S (2 * j))) by lia. rewrite !p256_S. lia. }
    pose proof (p256_pos (2 * n)). pose proof (p256_pos (2 * j)).
    rewrite Hs, Z.rem_mul_r in Hv by lia. rewrite Hs2, <- Z.div_div by lia. unfold DIG_BASE in Hv.
    pose proof (Z.mod_pos_bound (m / p256 (2 * j)) 65536 ltac:(lia)). lia. }
  destruct Hxv as [Hxv Hv']. cbn [as_bytes_loop]. rewrite Z.shiftl_0_l, Z.lor_0_l. change (0 + DIG_SIZE) with 16.
  change (Z.to_nat (16 / 8)) with 2%nat. rewrite emit_split.
  pose proof (p256_pos (2 * j)).
  destruct (emit_one (2 * j) x o He) as (o1 & -> & He1); [|lia|].
  { rewrite Hxv. zdm. }
  cbn [mbind option_bind].
  destruct (emit_one (S (2 * j)) (Z.shiftr x 8) o1 He1) as (o2 & -> & He2).
  { rewrite p256_S, (Z.mul_comm 256), <- Z.div_div, Z.shiftr_div_pow2 by lia. change (2 ^ 8) with 256.
    rewrite Hxv. zdm. }
  { rewrite Z.shiftr_div_pow2 by lia. split; [apply Z.div_pos; lia|]. apply Z.div_lt_upper_bound; lia. }
  cbn [mbind option_bind]. change (16 mod 8) with 0.
  assert (Hsh : Z.shiftr x (8 * (16 / 8)) = 0).
  { rewrite Z.shiftr_div_pow2 by (change (8 * (16 / 8)) with 16; lia). apply Z.div_small. change (8 * (16 / 8)) with 16. lia. }
  rewrite Hsh. destruct (IH dg (S j) o2 Hd) as (o' & E & He'); [simpl in Hn; lia|done| |].
  - by replace (2 * S j)%nat with (S (S (2 * j))) by lia.
  - exists o'. split; [done|]. by replace (j + S n)%nat with (S j + n)%nat by lia.
Qed.
End to_bytes.

Lemma fill_rest_spec be v n : forall k buf, (k + n = length buf)%nat ->
  by_weight be (fill_rest n k be v buf) = take k (by_weight be buf) ++ replicate n v.
Proof.
  induction n as [|n IH]; intros k buf Hk; cbn [fill_rest replicate].
  - rewrite app_nil_r, firstn_all2; [done|]. rewrite by_weight_length. lia.
  - rewrite IH by (rewrite length_insert; lia). rewrite by_weight_insert by lia.
    assert (Hlook : <[k := v]> (by_weight be buf) !! k = Some v).
    { apply list_lookup_insert_eq. rewrite by_weight_length. lia. }
    rewrite (take_S_r _ _ _ Hlook), take_insert_ge by lia. by rewrite <- app_assoc.
Qed.

Lemma fill_rest_length be v n : forall k buf, length (fill_rest n k be v buf) = length buf.
Proof. induction n as [|n IH]; intros; cbn [fill_rest]; [done|]. rewrite IH. apply length_insert. Qed.

Lemma fill_rest_bytes be v n : is_byte v -> forall k buf, Forall is_byte buf -> Forall is_byte (fill_rest n k be v buf).
Proof. intros Hv. induction n as [|n IH]; intros; cbn [fill_rest]; [done|]. by apply IH, Forall_insert. Qed.

Lemma bval_ff n : bval (replicate n 255) = p256 n - 1.
Proof. induction n as [|n IH]; cbn [bval replicate]; [done|]. rewrite IH, p256_S. lia. Qed.

Lemma bval_00 n : bval (replicate n 0) = 0.
Proof. induction n as [|n IH]; cbn [bval replicate]; [done|]. rewrite IH. lia. Qed.

(** The top bit of a byte, by inspection of the 256 cases. *)
Lemma msb_of_byte b : is_byte b -> (Z.land b 128 =? 0) = (b <? 128).
Proof.
  intros Hb. unfold is_byte in Hb.
  assert (H : forallb (fun b => Bool.eqb (Z.land b 128 =? 0) (b <? 128)) (map Z.of_nat (seq 0 256)) = true) by done.
  rewrite forallb_forall in H. apply Bool.eqb_prop, H, in_map_iff. exists (Z.to_nat b). rewrite in_seq. lia.
Qed.

(** The top byte decides the sign. *)
Lemma top_bit w L : (length w = S L)%nat -> Forall is_byte w -> exists b, w !! L = Some b /\
  (Z.land b 128 =? 0) = (2 * bval w <? p256 (S L)).
Proof.
  intros HL Hb. destruct (lookup_lt_is_Some_2 w L) as [b E]; [lia|]. exists b. split; [done|].
  pose proof (Forall_lookup_1 _ _ _ _ Hb E) as Hr. unfold is_byte in Hr.
  assert (Hv : bval w = bval (take L w) + p256 L * b).
  { rewrite <- (bval_take_S _ _ _ E), firstn_all2; [done|lia]. }
  assert (Ht : 0 <= bval (take L w) < p256 L).
  { replace (p256 L) with (p256 (length (take L w))) by (rewrite length_take_le; [done|lia]).
    apply bval_bounds. by apply Forall_take. }
  rewrite (msb_of_byte b Hr), Hv, p256_S.
  destruct (Z.ltb_spec b 128); symmetry; [apply Z.ltb_lt|apply Z.ltb_ge]; nia.
Qed.

Section as_bytes.
Context (z : mpz) (be sg : bool) (buf : list Z).
Context (Hwf : wf z) (Hbytes : Forall is_byte buf).
Notation n := (len z).
Notation L := (length buf).

Lemma magnitude_p256 : 0 <= magnitude z < p256 (2 * n).
Proof. rewrite <- p256_bpow. apply (holds_bounds _ _ _ (wf_holds z Hwf)). Qed.

Lemma emit_all : exists o, as_bytes_loop n (neg z) be (dig z) 0 0 (Out buf 0 1 true) = Some o /\
  emitted (neg z) be (magnitude z) L (2 * n) o.
Proof.
  apply (as_bytes_loop_spec (neg z) be (magnitude z) L (dig z) n 0); [apply Hwf|apply Hwf| |].
  - rewrite Z.div_1_r, Z.mod_small by apply magnitude_p256. done.
  - unfold emitted. cbn [o_buf o_done o_carry o_ok Nat.mul Nat.min Nat.sub]. rewrite firstn_O. cbn [bval].
    split; [done|]. split; [done|]. split; [|split].
    + unfold byte_carry, p256. rewrite Z.mod_1_r. by destruct (neg z).
    + unfold p256. by rewrite Z.mod_1_r.
    + unfold p256 at 2. by rewrite Z.mod_1_r.
Qed.

(** The bytes are the two's complement of the value, modulo the size. *)
Lemma as_bytes_buffer k o : emitted (neg z) be (magnitude z) L (2 * n) o -> k = Nat.min (2 * n) L ->
  bval (by_weight be (fill_rest (L - k) k be (if neg z then 255 else 0) (o_buf o))) = zval z mod p256 L.
Proof.
  intros ([HL _] & _ & _ & Hv & _) Hk. rewrite fill_rest_spec by lia. rewrite <- Hk in Hv.
  rewrite bval_app, Hv, length_take_le by (rewrite by_weight_length; lia).
  change (zval z) with (signed (neg z) (magnitude z)).
  destruct (Nat.leb_spec L (2 * n)) as [Hfull|Hfit].
  { replace (L - k)%nat with 0%nat by lia. cbn [replicate bval]. replace k with L by lia. lia. }
  assert (k = (2 * n)%nat) as -> by lia. pose proof magnitude_p256 as Hm.
  assert (Hs : p256 L = p256 (2 * n) * p256 (L - 2 * n)).
  { unfold p256. rewrite <- Z.pow_add_r by lia. f_equal. lia. }
  pose proof (p256_pos (L - 2 * n)). pose proof (p256_pos (2 * n)).
  unfold signed. destruct (neg z) eqn:En.
  - rewrite bval_ff. assert (Hnz : magnitude z <> 0).
    { intros Hz. apply (len_zero z Hwf) in Hz. rewrite (wf_zero z Hwf Hz) in En. done. }
    rewrite !Z.mod_opp_l_nz by (try rewrite Z.mod_small; nia).
    rewrite !Z.mod_small by nia. lia.
  - rewrite bval_00, !Z.mod_small by nia. lia.
Qed.

Lemma emitted_ok o : emitted (neg z) be (magnitude z) L (2 * n) o -> 0 <= zval z ->
  o_ok o = (zval z <? p256 L).
Proof.
  intros (_ & _ & _ & _ & Hok) Hpos. rewrite Hok. change (signed (neg z) (magnitude z)) with (zval z). pose proof (zval_abs z Hwf) as Habs.
  pose proof magnitude_p256 as Hm. pose proof (p256_pos L). pose proof (p256_pos (2 * n - L)).
  assert (Hq : zval z / p256 L < p256 (2 * n - L)).
  { apply Z.div_lt_upper_bound; [lia|]. unfold p256 at 1 2. rewrite <- Z.pow_add_r by lia.
    apply Z.lt_le_trans with (p256 (2 * n)); [lia|]. apply Z.pow_le_mono_r; lia. }
  rewrite Z.mod_small by (split; [apply Z.div_pos; lia|done]).
  destruct (Z.ltb_spec (zval z) (p256 L)).
  - by rewrite Z.div_small by lia.
  - apply Z.eqb_neq. assert (1 <= zval z / p256 L) by (apply Z.div_le_lower_bound; lia). lia.
Qed.

Definition verdict (ok : bool) : Prop :=
  (0 <= zval z -> ok = (zval z <? p256 L) && implb (sg && (0 <? L)%nat) (2 * zval z <? p256 L)) /\
  (zval z < 0 -> sg = true -> (2 * n <= L)%nat -> ok = (- p256 L <=? 2 * zval z)).

(** The buffer is full: the sign bit is looked at. *)
Lemma full_verdict o most_sig : emitted (neg z) be (magnitude z) L (2 * n) o -> (L <= 2 * n)%nat ->
  sg = true -> (0 < L)%nat ->
  (Z.land most_sig 128 =? 0) = (2 * bval (by_weight be (o_buf o)) <? p256 L) ->
  verdict (o_ok o && Bool.eqb (negb (Z.land most_sig 128 =? 0)) (neg z)).
Proof.
  intros He Hfull Hsg HL Htop. rewrite Htop. pose proof (as_bytes_buffer (Nat.min (2 * n) L) o He eq_refl) as Hb.
  rewrite Nat.min_r, Nat.sub_diag in Hb by lia. cbn [fill_rest] in Hb. rewrite Hb.
  pose proof (p256_pos L) as Hp. pose proof (neg_ltb z Hwf) as Hneg. split.
  - intros Hpos. rewrite (emitted_ok o He Hpos), Hsg, Hneg. cbn [andb].
    rewrite (proj2 (Nat.ltb_lt _ _) HL), (proj2 (Z.ltb_ge _ _) Hpos). cbn [implb].
    destruct (Z.ltb_spec (zval z) (p256 L)); cbn [andb]; [|done]. rewrite Z.mod_small by lia.
    by destruct (2 * zval z <? p256 L).
  - intros Hn _ Hexact. assert (E : L = (2 * n)%nat) by lia. destruct He as (_ & _ & _ & _ & ->).
    rewrite Hneg, (proj2 (Z.ltb_lt _ _) Hn). replace (2 * n - L)%nat with 0%nat by lia.
    replace (p256 0) with 1 by done. rewrite Z.mod_1_r. cbn [andb Z.eqb].
    pose proof (zval_abs z Hwf). pose proof magnitude_p256 as Hm. rewrite <- E in Hm.
    assert (Hmod : zval z mod p256 L = zval z + p256 L) by (symmetry; apply (Z.mod_unique_pos _ _ (-1)); lia).
    rewrite Hmod. destruct (Z.ltb_spec (2 * (zval z + p256 L)) (p256 L)), (Z.leb_spec (- p256 L) (2 * zval z));
      cbn [negb Bool.eqb]; try done; lia.
Qed.

(** There is room, or no sign bit is asked for. *)
Lemma other_verdict o : emitted (neg z) be (magnitude z) L (2 * n) o ->
  sg = false \/ (2 * n < L)%nat \/ L = 0%nat -> verdict (o_ok o).
Proof.
  intros He Hcase. pose proof (zval_abs z Hwf). pose proof magnitude_p256 as Hm.
  assert (Hbig : (2 * n < L)%nat -> 2 * magnitude z < p256 L).
  { intros Hlt. apply Z.lt_le_trans with (p256 (S (2 * n))); [|apply p256_le; lia]. rewrite p256_S. lia. }
  split.
  - intros Hpos. rewrite (emitted_ok o He Hpos). symmetry. rewrite <- andb_true_r. f_equal.
    destruct Hcase as [->|[Hlt|H0]]; [done| |rewrite H0; by rewrite andb_false_r].
    specialize (Hbig Hlt). rewrite (proj2 (Z.ltb_lt (2 * zval z) (p256 L))) by lia. apply implb_true_r.
  - intros Hn Hsg Hfit. destruct He as (_ & _ & _ & _ & ->).
    replace (2 * n - L)%nat with 0%nat by lia. replace (p256 0) with 1 by done. rewrite Z.mod_1_r.
    symmetry. apply Z.leb_le.
    destruct Hcase as [|[Hlt|H0]]; [congruence|specialize (Hbig Hlt); lia|].
    assert (n = 0%nat) by lia. replace (p256 (2 * n)) with 1 in Hm; [lia|]. by replace (2 * n)%nat with 0%nat by lia.
Qed.

Lemma mpz_as_bytes_spec : exists ok buf', mpz_as_bytes z be sg buf = Some (ok, buf') /\
  length buf' = L /\ Forall is_byte buf' /\ bval (by_weight be buf') = zval z mod p256 L /\ verdict ok.
Proof.
  destruct emit_all as (o & E & He). pose proof (as_bytes_buffer _ o He eq_refl) as Hbuf.
  unfold mpz_as_bytes. rewrite E. cbn [mbind option_bind]. pose proof He as ([HL HB] & Hd & _). rewrite Hd.
  destruct (decide (sg = true /\ L <= 2 * n /\ 0 < L)%nat) as [(Hsg & Hfull & Hpos)|Hno].
  - rewrite Nat.min_r in Hbuf |- * by lia. rewrite Nat.eqb_refl, (proj2 (Nat.ltb_lt _ _) Hpos), Hsg. cbn [andb].
    destruct (top_bit (by_weight be (o_buf o)) (L - 1)) as (b & Eb & Htop);
      [rewrite by_weight_length; lia|by apply by_weight_bytes|].
    rewrite <- HL, by_weight_lookup, HL, Eb by lia. cbn [mbind option_bind].
    replace (S (L - 1)) with L in Htop by lia. rewrite Nat.sub_diag in Hbuf.
    eexists _, _. split; [done|]. split; [done|]. split; [done|]. split; [done|].
    by apply (full_verdict o b He Hfull Hsg Hpos).
  - assert (Eif : sg && (Nat.min (2 * n) L =? L)%nat && (0 <? L)%nat = false).
    { destruct sg; [|done]. destruct (Nat.eqb_spec (Nat.min (2 * n) L) L), (Nat.ltb_spec 0 L); try done. lia. }
    rewrite Eif. eexists _, _. split; [done|]. rewrite fill_rest_length. split; [done|].
    split; [apply fill_rest_bytes; [by destruct (neg z)|done]|]. split; [done|].
    apply other_verdict; [done|]. destruct sg; [right|by left]. lia.
Qed.
End as_bytes.
