(* ===== verification/MpzMachine.v ===== *)
(** Programs of mpz calls, and the integers they compute on: the routines
    over a store of objects refine arithmetic over a map of integers. *)
From stdpp Require Import gmap.
From S2P Require Import Prelude Digits Mpn MpnBits MpnDiv Mpz MpzAdd MpzLogic MpzMul MpzText.
#[local] Open Scope Z_scope.

(** One call, on the addresses of its arguments, destinations first. *)
Inductive call :=
  | InitFromInt (d : nat) (val : Z)
  | Deinit (d : nat)
  | Set_ (d s : nat)
  | SetFromInt (d : nat) (val : Z)
  | SetFromBytes (d : nat) (big_endian : bool) (buf : list Z)
  | AbsInpl (d s : nat)
  | NegInpl (d s : nat)
  | NotInpl (d s : nat)
  | ShlInpl (d l : nat) (n : Z)
  | ShrInpl (d l : nat) (n : Z)
  | AddInpl (d l r : nat)
  | SubInpl (d l r : nat)
  | MulInpl (d l r : nat)
  | PowInpl (d l r : nat)
  | Pow3Inpl (d l r md : nat)
  | AndInpl (d l r : nat)
  | OrInpl (d l r : nat)
  | XorInpl (d l r : nat)
  | DivmodInpl (q r l rhs : nat).

Section machine.
Context {renew : Renew}.

(** What the C code does. *)
Definition exec (σ : store) (c : call) : option store :=
  match c with
  | InitFromInt d val => mpz_init_from_int σ d val
  | Deinit d => Some (mpz_deinit σ d)
  | Set_ d s => mpz_set σ d s
  | SetFromInt d val => mpz_set_from_int σ d val
  | SetFromBytes d be buf => mpz_set_from_bytes σ d be buf
  | AbsInpl d s => mpz_abs_inpl σ d s
  | NegInpl d s => mpz_neg_inpl σ d s
  | NotInpl d s => mpz_not_inpl σ d s
  | ShlInpl d l n => mpz_shl_inpl σ d l n
  | ShrInpl d l n => mpz_shr_inpl σ d l n
  | AddInpl d l r => mpz_add_inpl σ d l r
  | SubInpl d l r => mpz_sub_inpl σ d l r
  | MulInpl d l r => mpz_mul_inpl σ d l r
  | PowInpl d l r => mpz_pow_inpl σ d l r
  | Pow3Inpl d l r md => mpz_pow3_inpl σ d l r md
  | AndInpl d l r => mpz_and_inpl σ d l r
  | OrInpl d l r => mpz_or_inpl σ d l r
  | XorInpl d l r => mpz_xor_inpl σ d l r
  | DivmodInpl q r l rhs => mpz_divmod_inpl σ q r l rhs
  end.

Fixpoint exec_all (σ : store) (cs : list call) : option store :=
  match cs with
  | [] => Some σ
  | c :: cs => σ ← exec σ c; exec_all σ cs
  end.
End machine.

(** * The abstract machine: a map of integers *)

Notation ints := (gmap nat Z).

Definition is_int (val : Z) : bool := (- 2 ^ 63 <=? val) && (val <? 2 ^ 63).

(** Write [v] to an existing destination, under a condition. *)
Definition assign (ρ : ints) (d : nat) (guard : bool) (v : Z) : option ints :=
  _ ← ρ !! d;
  if guard then Some (<[d := v]> ρ) else None.

Definition unary (ρ : ints) (d s : nat) (f : Z -> Z) : option ints :=
  a ← ρ !! s; assign ρ d true (f a).

Definition binary (ρ : ints) (d l r : nat) (f : Z -> Z -> Z) : option ints :=
  a ← ρ !! l; b ← ρ !! r; assign ρ d true (f a b).

Definition bitwise_op (ρ : ints) (d l r : nat) (f : Z -> Z -> Z) : option ints :=
  a ← ρ !! l; b ← ρ !! r; assign ρ d (fits a && fits b) (f a b).

(** Python's integers: floor division, powers of a negative exponent left at
    zero, and the cases the routines do not promise left out. *)
Definition apply_call (ρ : ints) (c : call) : option ints :=
  match c with
  | InitFromInt d val => if is_int val then Some (<[d := val]> ρ) else None
  | Deinit d => Some (delete d ρ)
  | Set_ d s => unary ρ d s (fun a => a)
  | SetFromInt d val => assign ρ d (is_int val) val
  | SetFromBytes d be buf =>
      assign ρ d (bool_decide (Forall (fun b => 0 <= b < 256) buf)) (bval (by_weight be buf))
  | AbsInpl d s => unary ρ d s Z.abs
  | NegInpl d s => unary ρ d s Z.opp
  | NotInpl d s => unary ρ d s Z.lnot
  | ShlInpl d l n => a ← ρ !! l; assign ρ d ((0 <=? n) && (n <? 2 ^ 64 - 16)) (a * 2 ^ n)
  | ShrInpl d l n => a ← ρ !! l; assign ρ d ((0 <=? n) && (negb (d =? l)%nat || (0 <=? a))) (a / 2 ^ n)
  | AddInpl d l r => binary ρ d l r Z.add
  | SubInpl d l r => binary ρ d l r Z.sub
  | MulInpl d l r => binary ρ d l r Z.mul
  | PowInpl d l r => binary ρ d l r (fun a b => if (a =? 0) || (b <? 0) then 0 else a ^ b)
  | Pow3Inpl d l r md =>
      a ← ρ !! l; b ← ρ !! r; M ← ρ !! md;
      assign ρ d (negb (d =? l)%nat && negb (d =? r)%nat && negb (d =? md)%nat && negb (M =? 0))
        (if (a =? 0) || (b <? 0) || (Z.abs M =? 1) then 0 else if b =? 0 then 1 else a ^ b mod M)
  | AndInpl d l r => bitwise_op ρ d l r Z.land
  | OrInpl d l r => bitwise_op ρ d l r Z.lor
  | XorInpl d l r => bitwise_op ρ d l r Z.lxor
  | DivmodInpl q r l rhs =>
      a ← ρ !! l; b ← ρ !! rhs;
      ρ ← assign ρ q
            (negb (q =? r)%nat && negb (l =? q)%nat && (negb (l =? r)%nat || negb (a mod b =? 0)) && negb (rhs =? q)%nat &&
             negb (rhs =? r)%nat && negb (b =? 0)) (a / b);
      assign ρ r true (a mod b)
  end.

Fixpoint apply_all (ρ : ints) (cs : list call) : option ints :=
  match cs with
  | [] => Some ρ
  | c :: cs => ρ ← apply_call ρ c; apply_all ρ cs
  end.

(** * Refinement *)

(** The abstraction function, and the invariant of the store. *)
Definition vals (σ : store) : ints := zval <$> σ.
Definition good (σ : store) : Prop := map_Forall (fun _ z => growable z) σ.

Section refinement.
Context {renew : Renew} {laws : RenewLaws}.

Lemma vals_represents σ i v : good σ -> vals σ !! i = Some v -> represents σ i v.
Proof.
  intros Hg Hi. unfold vals in Hi. rewrite lookup_fmap in Hi. apply fmap_Some in Hi as (z & Hz & ->).
  exists z. split; [done|]. split; [apply (Hg i z Hz)|done].
Qed.

Lemma vals_owns σ i : good σ -> is_Some (vals σ !! i) -> owns σ i.
Proof.
  intros Hg [v Hi]. unfold vals in Hi. rewrite lookup_fmap in Hi. apply fmap_Some in Hi as (z & Hz & _).
  exists z. split; [done|]. apply (Hg i z Hz).
Qed.

(** What a call leaves behind when it computes [v] into [d]. *)
Definition lands (σ : store) (res : option store) (d : nat) (v : Z) : Prop :=
  exists σ', res = Some σ' /\ good σ' /\ vals σ' = <[d := v]> (vals σ).

Lemma computes_lands σ res d v : good σ -> computes σ res d v -> lands σ res d v.
Proof.
  intros Hg (z & -> & Hz & <-). eexists. split; [done|]. split; [by apply map_Forall_insert_2|].
  apply fmap_insert.
Qed.

Lemma assign_some ρ d g v ρ' : assign ρ d g v = Some ρ' -> is_Some (ρ !! d) /\ g = true /\ ρ' = <[d := v]> ρ.
Proof.
  unfold assign. destruct (ρ !! d); [|done]. cbn [mbind option_bind]. destruct g; [|done].
  intros [= <-]. eauto.
Qed.

Lemma unary_refines σ d s f op ρ' : good σ ->
  (forall v, owns σ d -> represents σ s v -> computes σ op d (f v)) ->
  unary (vals σ) d s f = Some ρ' -> exists σ', op = Some σ' /\ good σ' /\ vals σ' = ρ'.
Proof.
  intros Hg Hop H. unfold unary in H. destruct (vals σ !! s) as [a|] eqn:Ea; [|done]. cbn [mbind option_bind] in H.
  apply assign_some in H as (Hd & _ & ->). apply computes_lands; [done|].
  apply Hop; [by apply vals_owns|by apply vals_represents].
Qed.

Lemma binary_refines σ d l r f op ρ' : good σ ->
  (forall a b, owns σ d -> represents σ l a -> represents σ r b -> computes σ op d (f a b)) ->
  binary (vals σ) d l r f = Some ρ' -> exists σ', op = Some σ' /\ good σ' /\ vals σ' = ρ'.
Proof.
  intros Hg Hop H. unfold binary in H. destruct (vals σ !! l) as [a|] eqn:Ea; [|done]. cbn [mbind option_bind] in H.
  destruct (vals σ !! r) as [b|] eqn:Eb; [|done]. cbn [mbind option_bind] in H.
  apply assign_some in H as (Hd & _ & ->). apply computes_lands; [done|].
  apply Hop; [by apply vals_owns|by apply vals_represents|by apply vals_represents].
Qed.

Lemma bitwise_refines σ d l r f op ρ' : good σ ->
  (forall a b, owns σ d -> represents σ l a -> represents σ r b -> fits a = true -> fits b = true ->
     computes σ op d (f a b)) ->
  bitwise_op (vals σ) d l r f = Some ρ' -> exists σ', op = Some σ' /\ good σ' /\ vals σ' = ρ'.
Proof.
  intros Hg Hop H. unfold bitwise_op in H.
  destruct (vals σ !! l) as [a|] eqn:Ea; [|done]. cbn [mbind option_bind] in H.
  destruct (vals σ !! r) as [b|] eqn:Eb; [|done]. cbn [mbind option_bind] in H.
  apply assign_some in H as (Hd & Hf & ->). apply andb_prop in Hf as [Hfa Hfb]. apply computes_lands; [done|].
  apply Hop; try done; [by apply vals_owns|by apply vals_represents|by apply vals_represents].
Qed.

Lemma init_refines σ d val ρ' : good σ -> apply_call (vals σ) (InitFromInt d val) = Some ρ' ->
  exists σ', mpz_init_from_int σ d val = Some σ' /\ good σ' /\ vals σ' = ρ'.
Proof.
  intros Hg H. cbn [apply_call] in H. unfold is_int in H.
  destruct (Z.leb_spec (- 2 ^ 63) val), (Z.ltb_spec val (2 ^ 63)); cbn [andb] in H; try done. injection H as <-.
  unfold mpz_init_from_int, mpz_init_zero.
  assert (Hg' : good (<[d := zero_mpz]> σ)) by (apply map_Forall_insert_2; [apply zero_growable|done]).
  destruct (computes_lands _ _ d val Hg' (set_int_val (<[d := zero_mpz]> σ) d val ltac:(exists zero_mpz; rewrite lookup_insert_eq; split; [done|apply zero_growable]) ltac:(lia)))
    as (σ' & -> & G & V).
  exists σ'. split; [done|]. split; [done|]. rewrite V. unfold vals. rewrite fmap_insert. apply insert_insert_eq.
Qed.

Lemma shr_refines σ d l n ρ' : good σ -> apply_call (vals σ) (ShrInpl d l n) = Some ρ' ->
  exists σ', mpz_shr_inpl σ d l n = Some σ' /\ good σ' /\ vals σ' = ρ'.
Proof.
  intros Hg H. cbn [apply_call] in H. destruct (vals σ !! l) as [a|] eqn:Ea; [|done]. cbn [mbind option_bind] in H.
  apply assign_some in H as (Hd & Hf & ->). apply andb_prop in Hf as [Hn Hal]. apply Z.leb_le in Hn.
  apply computes_lands; [done|]. apply mpz_shr_spec; [by apply vals_owns|by apply vals_represents|done|].
  apply orb_prop in Hal as [Hne|Hp]; [left|right; lia]. intros ->. by rewrite Nat.eqb_refl in Hne.
Qed.

Lemma pow3_refines σ d l r md ρ' : good σ -> apply_call (vals σ) (Pow3Inpl d l r md) = Some ρ' ->
  exists σ', mpz_pow3_inpl σ d l r md = Some σ' /\ good σ' /\ vals σ' = ρ'.
Proof.
  intros Hg H. cbn [apply_call] in H. destruct (vals σ !! l) as [a|] eqn:Ea; [|done]. cbn [mbind option_bind] in H.
  destruct (vals σ !! r) as [b|] eqn:Eb; [|done]. cbn [mbind option_bind] in H.
  destruct (vals σ !! md) as [M|] eqn:EM; [|done]. cbn [mbind option_bind] in H.
  apply assign_some in H as (Hd & Hf & ->). rewrite !andb_true_iff, !negb_true_iff, !Nat.eqb_neq, Z.eqb_neq in Hf.
  destruct Hf as [[[H1 H2] H3] H4].
  apply computes_lands; [done|].
  apply mpz_pow3_spec; auto using vals_owns, vals_represents.
Qed.

Lemma divmod_refines σ q r l rhs ρ' : good σ -> apply_call (vals σ) (DivmodInpl q r l rhs) = Some ρ' ->
  exists σ', mpz_divmod_inpl σ q r l rhs = Some σ' /\ good σ' /\ vals σ' = ρ'.
Proof.
  intros Hg H. cbn [apply_call] in H. destruct (vals σ !! l) as [a|] eqn:Ea; [|done]. cbn [mbind option_bind] in H.
  destruct (vals σ !! rhs) as [b|] eqn:Eb; [|done]. cbn [mbind option_bind] in H.
  destruct (assign (vals σ) q _ _) as [ρ1|] eqn:E1; [|done]. cbn [mbind option_bind] in H.
  apply assign_some in E1 as (Hq & Hf & ->). apply assign_some in H as (Hr & _ & ->).
  rewrite !andb_true_iff, !negb_true_iff, !Nat.eqb_neq, Z.eqb_neq, orb_true_iff, !negb_true_iff, Nat.eqb_neq, Z.eqb_neq in Hf.
  destruct Hf as [[[[[H1 H2] H3] H4] H5] H6]. rewrite lookup_insert_ne in Hr by done.
  destruct (mpz_divmod_spec σ q r l rhs a b) as (σ' & vq & E & (zr & Rr & Gr & Vr) & (zq & Rq & Gq & Vq) & Hval & Hfr);
    auto using vals_owns, vals_represents.
  exists σ'. split; [done|]. rewrite (Hval H3) in Vq.
  assert (Eσ : σ' = <[r := zr]> (<[q := zq]> σ)).
  { apply map_eq. intros i. destruct (decide (i = r)) as [->|Hir]; [by rewrite lookup_insert_eq|].
    rewrite lookup_insert_ne by done.
    destruct (decide (i = q)) as [->|Hiq]; [by rewrite lookup_insert_eq|]. rewrite lookup_insert_ne by done.
    by apply Hfr. }
  rewrite Eσ. split; [by repeat (apply map_Forall_insert_2; [done|])|].
  unfold vals. by rewrite !fmap_insert, Vr, Vq.
Qed.

(** One call. *)
Lemma exec_refines σ c ρ' : good σ -> apply_call (vals σ) c = Some ρ' ->
  exists σ', exec σ c = Some σ' /\ good σ' /\ vals σ' = ρ'.
Proof.
  intros Hg. destruct c; cbn [exec]; try (by apply init_refines); try (by apply shr_refines);
    try (by apply pow3_refines); try (by apply divmod_refines); cbn [apply_call]; intros H.
  - injection H as <-. eexists. split; [done|]. split; [by apply map_Forall_delete|]. apply fmap_delete.
  - eapply unary_refines; try done. intros v. apply set_computes.
  - apply assign_some in H as (Hd & Hf & ->). apply computes_lands; [done|]. unfold is_int in Hf.
    apply set_int_val; [by apply vals_owns|lia].
  - apply assign_some in H as (Hd & Hf & ->). apply bool_decide_eq_true_1 in Hf.
    apply computes_lands; [done|]. apply mpz_set_from_bytes_spec; [by apply vals_owns|done].
  - eapply unary_refines; try done. intros v. apply mpz_abs_spec.
  - eapply unary_refines; try done. intros v. apply mpz_neg_spec.
  - eapply unary_refines; try done. intros v. apply mpz_not_spec.
  - destruct (vals σ !! l) as [a|] eqn:Ea; [|done]. cbn [mbind option_bind] in H.
    apply assign_some in H as (Hd & Hf & ->). apply computes_lands; [done|].
    apply mpz_shl_spec; [by apply vals_owns|by apply vals_represents|lia].
  - eapply binary_refines; try done. intros a b. apply mpz_add_spec.
  - eapply binary_refines; try done. intros a b. apply mpz_sub_spec.
  - eapply binary_refines; try done. intros a b. apply mpz_mul_spec.
  - eapply (binary_refines _ _ _ _ (fun a b => if (a =? 0) || (b <? 0) then 0 else a ^ b)); try done.
    intros a b. apply mpz_pow_spec.
  - eapply bitwise_refines; try done. intros a b. apply mpz_and_spec.
  - eapply bitwise_refines; try done. intros a b. apply mpz_or_spec.
  - eapply bitwise_refines; try done. intros a b. apply mpz_xor_spec.
Qed.

Lemma good_empty : good ∅.
Proof. apply map_Forall_empty. Qed.

Lemma exec_all_refines cs : forall σ ρ', good σ -> apply_all (vals σ) cs = Some ρ' ->
  exists σ', exec_all σ cs = Some σ' /\ good σ' /\ vals σ' = ρ'.
Proof.
  induction cs as [|c cs IH]; intros σ ρ' Hg H; cbn [apply_all exec_all] in *.
  - injection H as <-. eauto.
  - destruct (apply_call (vals σ) c) as [ρ|] eqn:E; [|done]. cbn [mbind option_bind] in H.
    destruct (exec_refines σ c ρ Hg E) as (σ1 & -> & G1 & <-). cbn [mbind option_bind]. by apply IH.
Qed.
End refinement.
