(* ===== verification/MpzSpec.v ===== *)
(** What the mpz library promises: the properties of py/mpz.c, for every
    allocator that keeps the contents of the blocks it grows. *)
From stdpp Require Import gmap.
From S2P Require Import Prelude Digits Mpn MpnBits MpnDiv Mpz MpzAdd MpzLogic MpzMul MpzInt MpzText MpzMachine.
#[local] Open Scope Z_scope.

(** * A concrete allocator and some objects *)

(** New digits are zero. *)
#[local] Instance zeroed : Renew := fun l n => take n l ++ replicate (n - length l) 0.

#[local] Instance zeroed_laws : RenewLaws.
Proof.
  constructor; unfold m_renew, zeroed.
  - intros l n. rewrite length_app, length_take, length_replicate. lia.
  - intros l n Hl. rewrite (firstn_all2 l) by done. apply take_app_length.
  - intros l n Hl. apply Forall_app. split; [by apply Forall_take|].
    apply Forall_replicate. unfold is_dig, DIG_BASE. lia.
Qed.

Definition wfb (z : mpz) : bool :=
  (alloc z =? length (dig z))%nat && (len z <=? length (dig z))%nat &&
  forallb (fun d => (0 <=? d) && (d <? DIG_BASE)) (dig z) &&
  bool_decide (list.last (take (len z) (dig z)) <> Some 0) && implb (len z =? 0)%nat (negb (neg z)).

Lemma wfb_wf z : wfb z = true -> wf z.
Proof.
  unfold wfb. rewrite !andb_true_iff, Nat.eqb_eq, Nat.leb_le, bool_decide_eq_true.
  intros [[[[H1 H2] H3] H4] H5]. constructor; try done.
  - apply Forall_forall. intros d Hd. rewrite forallb_forall in H3. specialize (H3 d).
 specialize (H3 Hd). unfold is_dig. lia.
  - intros E. rewrite E in H5. cbn in H5. by destruct (neg z).
Qed.

Lemma concrete_represents (σ : store) i v :
  match σ !! i with Some z => wfb z && (zval z =? v) | None => false end = true -> represents σ i v.
Proof.
  destruct (σ !! i) as [z|] eqn:E; [|done]. intros H. apply andb_prop in H as [Hw Hv]. exists z.
  split; [done|]. split; [by apply wfb_wf|lia].
Qed.

Lemma concrete_owns (σ : store) i :
  match σ !! i with Some z => wfb z && negb (fixed_dig z) | None => false end = true -> owns σ i.
Proof.
  destruct (σ !! i) as [z|] eqn:E; [|done]. intros H. apply andb_prop in H as [Hw Hv]. exists z.
  split; [done|]. split; [by apply wfb_wf|by destruct (fixed_dig z)].
Qed.

(** A zero, 2^40 - 1, -100000 and 7. *)
Definition three : store :=
  <[0%nat := zero_mpz]> (<[1%nat := Mpz false false 4 3 [65535; 65535; 255; 9]]>
  (<[2%nat := Mpz true false 2 2 [34464; 1]]> (<[3%nat := Mpz false false 2 1 [7; 0]]> ∅))).

(** Discharges the hypotheses of a property on [three]. *)
Ltac concrete :=
  match goal with
  | |- represents _ _ _ => apply concrete_represents; vm_compute; reflexivity
  | |- owns _ _ => apply concrete_owns; vm_compute; reflexivity
  | |- wf _ => apply wfb_wf; vm_compute; reflexivity
  | |- ex _ => fail 1
  | |- _ => first [lia|discriminate]
  end.

(** * The promises *)

Section spec.
  Context {renew : Renew} {laws : RenewLaws}.


(** Addition and subtraction.  The destination, which may be any of the
    operands, receives the sum or the difference; no other object changes. *)
Theorem add_sub_correct (σ : store) (d l r : nat) (a b : Z) :
  owns σ d -> represents σ l a -> represents σ r b ->
  computes σ (mpz_add_inpl σ d l r) d (a + b) /\ computes σ (mpz_sub_inpl σ d l r) d (a - b).
Proof. intros. split; [by apply mpz_add_spec|by apply mpz_sub_spec]. Qed.

(** Multiplication and powers.  The products of the digit rows add up to
    the product, whichever objects are shared; repeated squaring gives the
    power, and the power of zero or with a negative exponent is zero. *)
Theorem mul_pow_correct (σ : store) (d l r : nat) (a b : Z) :
  owns σ d -> represents σ l a -> represents σ r b ->
  computes σ (mpz_mul_inpl σ d l r) d (a * b) /\
  computes σ (mpz_pow_inpl σ d l r) d (if (a =? 0) || (b <? 0) then 0 else a ^ b).
Proof. intros. split; [by apply mpz_mul_spec|by apply mpz_pow_spec]. Qed.


(** Modular powers.  Square and multiply, reducing after every step and
    working on copies of base and exponent, gives the power modulo the
    modulus with the modulus' sign; the temporaries are gone afterwards. *)
Theorem pow3_correct (σ : store) (d l r md : nat) (a b M : Z) :
  owns σ d -> represents σ l a -> represents σ r b -> represents σ md M ->
  d <> l -> d <> r -> d <> md -> a <> 0 -> 0 < b -> 1 < Z.abs M ->
  computes σ (mpz_pow3_inpl σ d l r md) d (a ^ b mod M).
Proof.
  intros Od Rl Rr Rm Hl Hr Hm Ha Hb HM.
  pose proof (mpz_pow3_spec σ d l r md a b M Od Rl Rr Rm Hl Hr Hm ltac:(lia)) as H.
  rewrite (proj2 (Z.eqb_neq a 0) Ha), (proj2 (Z.ltb_ge b 0)), (proj2 (Z.eqb_neq (Z.abs M) 1)) in H by lia.
  rewrite (proj2 (Z.eqb_neq b 0)) in H by lia. exact H.
Qed.

(** C32: bitwise operations.  On magnitude and sign, with the two's complement
    formed digit by digit, the results are those of infinitely extended two's
    complement integers. *)
Theorem bitwise_twos_complement (σ : store) (d l r : nat) (a b : Z) :
  owns σ d -> represents σ l a -> represents σ r b -> fits a = true -> fits b = true ->
  computes σ (mpz_and_inpl σ d l r) d (Z.land a b) /\
  computes σ (mpz_or_inpl σ d l r) d (Z.lor a b) /\
  computes σ (mpz_xor_inpl σ d l r) d (Z.lxor a b) /\
  computes σ (mpz_not_inpl σ d l) d (Z.lnot a).
Proof.
  intros. split; [by apply mpz_and_spec|]. split; [by apply mpz_or_spec|].
  split; [by apply mpz_xor_spec|by apply mpz_not_spec].
Qed.

(** Shifts.  A left shift multiplies by the power of two; a right shift
    divides by it rounding down, negative numbers included when the
    destination is another object. *)
Theorem shifts_correct (σ : store) (d l : nat) (v n : Z) :
  owns σ d -> represents σ l v -> 0 <= n < 2 ^ 64 - 16 -> d <> l \/ 0 <= v ->
  computes σ (mpz_shl_inpl σ d l n) d (v * 2 ^ n) /\ computes σ (mpz_shr_inpl σ d l n) d (v / 2 ^ n).
Proof. intros. split; [by apply mpz_shl_spec|apply mpz_shr_spec; done || lia]. Qed.

(** C33: long division of digit arrays.  Dividing digit by digit, with a
    quotient estimated from the leading digits and corrected by adding the
    divisor back, leaves quotient and remainder normalised in their buffers;
    the estimate is at most two too large, and no carry is lost. *)
Theorem long_division (num : list Z) (num_len : nat) (den : list Z) (den_len : nat) (quo : list Z) (nv dv : Z) :
  holds num num_len nv -> normal (take num_len num) -> holds den den_len dv -> normal (take den_len den) ->
  0 < dv -> (num_len < length num)%nat -> Forall is_dig quo -> (S num_len <= length quo)%nat ->
  exists num' nlen quo' qlen, mpn_div num num_len den den_len quo = Some (num', nlen, quo', qlen) /\
    result (length num) num' nlen (nv mod dv) /\ result (length quo) quo' qlen (nv / dv).
Proof. apply mpn_div_spec. Qed.

End spec.

(** Comparison and conversion.  Comparing objects compares their values;
    the hash is the value reduced to a machine word; the checked conversions
    return the value when it fits and refuse it otherwise. *)
Theorem views_of_the_value (z1 z2 : mpz) : wf z1 -> wf z2 ->
  mpz_cmp z1 z2 = Some (Z.sgn (zval z1 - zval z2)) /\
  mpz_hash z1 = Some (i64 (zval z1)) /\
  mpz_as_int_checked z1 = Some (if Z.abs (zval z1) <? 2 ^ 63 then Some (zval z1) else None) /\
  mpz_as_uint_checked z1 = Some (if (0 <=? zval z1) && (zval z1 <? 2 ^ 64) then Some (zval z1) else None).
Proof.
  intros H1 H2. split; [by apply mpz_cmp_spec|]. split; [by apply mpz_hash_spec|].
  split; [by apply mpz_as_int_checked_spec|by apply mpz_as_uint_checked_spec].
Qed.

(** * Round trips *)

Section roundtrips.
  Context {renew : Renew} {laws : RenewLaws}.

(** C34: machine integers.  Every machine integer read into an object comes
    back from it, signed or unsigned, the most negative one excepted: the
    signed conversion refuses it. *)
Theorem machine_integers_roundtrip (σ : store) (i : nat) (val : Z) :
  owns σ i -> - 2 ^ 63 <= val < 2 ^ 63 ->
  exists z zu, mpz_set_from_int σ i val = Some (<[i := z]> σ) /\ zval z = val /\
    mpz_set_from_ll σ i val false = Some (<[i := zu]> σ) /\ zval zu = u64 val /\
    mpz_as_int_checked z = Some (if val =? - 2 ^ 63 then None else Some val) /\
    mpz_as_uint_checked zu = Some (Some (u64 val)).
Proof.
  intros Ho Hv. destruct (set_int_val σ i val Ho Hv) as (z & E & [W _] & V).
  destruct (mpz_set_from_ll_spec σ i val false Ho Hv) as (zu & Eu & [Wu _] & Vu).
  exists z, zu. split; [done|]. split; [done|]. split; [done|]. split; [done|].
  rewrite (mpz_as_int_checked_spec z W), (mpz_as_uint_checked_spec zu Wu), V, Vu.
  pose proof (Z.mod_pos_bound val (2 ^ 64) ltac:(lia)) as Hu. fold (u64 val) in Hu. split.
  - destruct (Z.ltb_spec (Z.abs val) (2 ^ 63)), (Z.eqb_spec val (- 2 ^ 63)); [lia|done|done|lia].
  - by rewrite (proj2 (Z.leb_le 0 (u64 val))), (proj2 (Z.ltb_lt (u64 val) (2 ^ 64))) by lia.
Qed.

(** C35: text.  The numeral printed in any base from 2 to 32, after its sign,
    is read back in full by the parser and gives the object its value. *)
Theorem text_roundtrip (z : mpz) (base : Z) (σ : store) (i : nat) : wf z -> 2 <= base <= 32 -> owns σ i ->
  exists digits z', mpz_as_str_inpl z base None 97 0 = Some ((if zval z <? 0 then [45] else []) ++ digits) /\
    mpz_set_from_str σ i digits (zval z <? 0) base = Some (<[i := z']> σ, length digits) /\
    growable z' /\ zval z' = zval z.
Proof.
  intros W Hb Ho. exists (str_char 97 <$> to_digits base (Z.abs (zval z))).
  pose proof (digit_prefix_numeral base (to_digits base (Z.abs (zval z))) ltac:(lia)
                (to_digits_range base (Z.abs (zval z)) ltac:(lia) ltac:(lia))) as Hp.
  destruct (mpz_set_from_str_spec σ i (str_char 97 <$> to_digits base (Z.abs (zval z))) (zval z <? 0) base Ho ltac:(lia))
    as (z' & E & G & V); rewrite Hp, to_digits_value in * by lia.
  - intros. apply Z.ltb_ge. lia.
  - exists z'. split; [by apply mpz_as_str_spec|]. rewrite length_fmap. split; [done|]. split; [done|].
    rewrite V. destruct (Z.ltb_spec (zval z) 0); lia.
Qed.

(** C36: bytes.  In either byte order and for any buffer size, the bytes
    written are the two's complement of the value modulo the size; for a
    non-negative value, and for a negative one whose digits fit the buffer, the
    verdict says exactly whether it fits, sign bit included; non-negative
    values that fit read back. *)
Theorem bytes_roundtrip (z : mpz) (be sg : bool) (buf : list Z) (σ : store) (i : nat) :
  wf z -> Forall (fun b => 0 <= b < 256) buf -> owns σ i ->
  exists ok buf' z', mpz_as_bytes z be sg buf = Some (ok, buf') /\ length buf' = length buf /\
    bval (by_weight be buf') = zval z mod p256 (length buf) /\
    (0 <= zval z -> ok = (zval z <? p256 (length buf)) &&
                         implb (sg && (0 <? length buf)%nat) (2 * zval z <? p256 (length buf))) /\
    (zval z < 0 -> sg = true -> (2 * len z <= length buf)%nat -> ok = (- p256 (length buf) <=? 2 * zval z)) /\
    mpz_set_from_bytes σ i be buf' = Some (<[i := z']> σ) /\ (0 <= zval z -> ok = true -> zval z' = zval z).
Proof.
  intros W Hbuf Ho. destruct (mpz_as_bytes_spec z be sg buf W Hbuf) as (ok & buf' & E & L & V & B & V2 & V3).
  destruct (mpz_set_from_bytes_spec σ i be buf' Ho V) as (z' & E' & _ & Vz). exists ok, buf', z'.
  split; [done|]. split; [done|]. split; [done|]. split; [done|]. split; [done|]. split; [done|].
  intros Hp Hok. rewrite Vz, B. apply Z.mod_small. rewrite (V2 Hp) in Hok. lia.
Qed.
End roundtrips.

(** * The promises at concrete inputs *)





Lemma add_sub_correct_witness :
  computes three (mpz_add_inpl three 1 1 2) 1 (2 ^ 40 - 1 + -100000) /\
  computes three (mpz_sub_inpl three 1 1 2) 1 (2 ^ 40 - 1 - -100000).
Proof. refine (add_sub_correct three 1 1 2 (2 ^ 40 - 1) (-100000) _ _ _); concrete. Defined.

Lemma mul_pow_correct_witness :
  computes three (mpz_mul_inpl three 2 2 2) 2 (-100000 * -100000) /\
  computes three (mpz_pow_inpl three 2 2 3) 2
    (if (-100000 =? 0) || (7 <? 0) then 0 else (-100000) ^ 7).
Proof.
  split.
  - refine (proj1 (mul_pow_correct three 2 2 2 (-100000) (-100000) _ _ _)); concrete.
  - refine (proj2 (mul_pow_correct three 2 2 3 (-100000) 7 _ _ _)); concrete.
Defined.


Lemma pow3_correct_witness : computes three (mpz_pow3_inpl three 0 1 3 2) 0 ((2 ^ 40 - 1) ^ 7 mod -100000).
Proof. refine (pow3_correct three 0 1 3 2 (2 ^ 40 - 1) 7 (-100000) _ _ _ _ _ _ _ _ _ _); concrete. Defined.

Lemma bitwise_twos_complement_witness :
  computes three (mpz_and_inpl three 0 1 2) 0 (Z.land (2 ^ 40 - 1) (-100000)) /\
  computes three (mpz_or_inpl three 0 1 2) 0 (Z.lor (2 ^ 40 - 1) (-100000)).
Proof.
  destruct (bitwise_twos_complement three 0 1 2 (2 ^ 40 - 1) (-100000)) as (A & O & _);
    [concrete|concrete|concrete|reflexivity|reflexivity|split; [exact A|exact O]].
Defined.

Lemma shifts_correct_witness :
  computes three (mpz_shl_inpl three 0 2 33) 0 (-100000 * 2 ^ 33) /\
  computes three (mpz_shr_inpl three 0 2 33) 0 (-100000 / 2 ^ 33).
Proof. refine (shifts_correct three 0 2 (-100000) 33 _ _ _ _); concrete. Defined.

(** 2^40 - 1 by 2^32 - 2^16, where the first estimate is too large. *)
Lemma long_division_witness : exists num' nlen quo' qlen,
  mpn_div [65535; 65535; 255; 0] 3 [0; 65535] 2 [0; 0; 0; 0] = Some (num', nlen, quo', qlen) /\
  dval (take nlen num') = (2 ^ 40 - 1) mod (2 ^ 32 - 2 ^ 16) /\ dval (take qlen quo') = (2 ^ 40 - 1) / (2 ^ 32 - 2 ^ 16).
Proof.
  assert (D : forall l, forallb (fun d => (0 <=? d) && (d <? DIG_BASE)) l = true -> Forall is_dig l).
  { intros l H. apply Forall_forall. intros d Hd. rewrite forallb_forall in H. specialize (H d Hd). unfold is_dig. lia. }
  destruct (long_division [65535; 65535; 255; 0] 3 [0; 65535] 2 [0; 0; 0; 0] (2 ^ 40 - 1) (2 ^ 32 - 2 ^ 16))
    as (num' & nlen & quo' & qlen & E & (_ & _ & _ & V & _) & (_ & _ & _ & Q & _)).
  - split; [simpl; lia|]. split; [by apply D|reflexivity].
  - discriminate.
  - split; [simpl; lia|]. split; [by apply D|reflexivity].
  - discriminate.
  - lia.
  - simpl. lia.
  - by apply D.
  - simpl. lia.
  - exists num', nlen, quo', qlen. split; [exact E|]. split; [exact V|exact Q].
Defined.

Lemma views_of_the_value_witness :
  mpz_cmp (Mpz false false 4 4 [0; 0; 0; 32768]) (Mpz true false 2 2 [34464; 1]) = Some 1 /\
  mpz_as_int_checked (Mpz false false 4 4 [0; 0; 0; 32768]) = Some None.
Proof.
  destruct (views_of_the_value (Mpz false false 4 4 [0; 0; 0; 32768]) (Mpz true false 2 2 [34464; 1]))
    as (C & _ & I & _); try concrete.
  split; [rewrite C; reflexivity|rewrite I; reflexivity].
Defined.

Lemma machine_integers_roundtrip_witness : exists z,
  mpz_set_from_int three 0 (- (2 ^ 63 - 1)) = Some (<[0%nat := z]> three) /\
  mpz_as_int_checked z = Some (Some (- (2 ^ 63 - 1))).
Proof.
  destruct (machine_integers_roundtrip three 0 (- (2 ^ 63 - 1))) as (z & zu & E & _ & _ & _ & I & _); try concrete.
  exists z. split; [exact E|exact I].
Defined.

Lemma text_roundtrip_witness : exists digits z',
  mpz_as_str_inpl (Mpz true false 2 2 [34464; 1]) 16 None 97 0 = Some (45 :: digits) /\
  mpz_set_from_str three 0 digits true 16 = Some (<[0%nat := z']> three, length digits) /\ zval z' = -100000.
Proof.
  destruct (text_roundtrip (Mpz true false 2 2 [34464; 1]) 16 three 0) as (digits & z' & P & S & _ & V); try concrete.
  exists digits, z'. split; [exact P|]. split; [exact S|exact V].
Defined.

Lemma bytes_roundtrip_witness : exists ok buf',
  mpz_as_bytes (Mpz false false 2 2 [34464; 1]) true true [0; 0; 0] = Some (ok, buf') /\ ok = true.
Proof.
  destruct (bytes_roundtrip (Mpz false false 2 2 [34464; 1]) true true [0; 0; 0] three 0)
    as (ok & buf' & z' & E & _ & _ & V & _); [concrete| |concrete|].
  - repeat constructor; lia.
  - exists ok, buf'. split; [exact E|]. rewrite V; [reflexivity|]. vm_compute. discriminate.
Defined.

(** * Corner cases *)

Definition one_object (z : mpz) : store := <[0%nat := z]> ∅.

(** The comment of [mpz_shr_inpl] allows the destination to be the operand;
    the rounding then looks at digits that were already shifted out: -1
    shifted by one becomes a negative zero, which mpz.h rules out. *)
Lemma shr_in_place_rounds_wrong :
  (σ ← mpz_shr_inpl (one_object (Mpz true false 2 1 [1; 0])) 0 0 1; σ !! 0%nat) =
  Some (Mpz true false 2 0 [0; 0]).
Proof. vm_compute. reflexivity. Qed.

(** The comment of [mpz_pow3_inpl] allows the destination to be the base; it
    is set to one before the base is copied: 2 ** 3 mod 5 in
    place comes out as 1 instead of 3. *)
Lemma pow3_in_place_is_one :
  (σ ← mpz_pow3_inpl (<[1%nat := Mpz false false 2 1 [2; 0]]> (<[2%nat := Mpz false false 2 1 [3; 0]]>
     (<[3%nat := Mpz false false 2 1 [5; 0]]> ∅))) 1 1 2 3; zval <$> σ !! 1%nat) = Some 1.
Proof. vm_compute. reflexivity. Qed.

(** The power with exponent zero is not reduced: 2 ** 0 mod -7 is -6. *)
Lemma pow3_zero_exponent_unreduced :
  (σ ← mpz_pow3_inpl (<[0%nat := zero_mpz]> (<[1%nat := Mpz false false 2 1 [2; 0]]> (<[2%nat := zero_mpz]>
     (<[3%nat := Mpz true false 2 1 [7; 0]]> ∅)))) 0 1 2 3; zval <$> σ !! 0%nat) = Some 1 /\ 1 mod -7 = -6.
Proof. vm_compute. split; reflexivity. Qed.

(** A negative number with more digits than the buffer has bytes: -1 fits one
    signed byte and is refused, -65408 does not and is accepted. *)
Lemma as_bytes_negative_verdict_wrong :
  mpz_as_bytes (Mpz true false 2 1 [1; 0]) false true [0] = Some (false, [255]) /\
  mpz_as_bytes (Mpz true false 2 1 [65408; 0]) false true [0] = Some (true, [128]).
Proof. vm_compute. split; reflexivity. Qed.

(** A zero read with a minus sign is a negative zero. *)
Lemma set_from_str_negative_zero :
  ('(σ, _) ← mpz_set_from_str (one_object zero_mpz) 0 [48] true 10; neg <$> σ !! 0%nat) = Some true.
Proof. vm_compute. reflexivity. Qed.
