(* ===== verification/Arm64Enc.v ===== *)
(** The AArch64 instruction words of the code generator, arm64enc.go: one
    definition per encoder, and a decoder written from the architecture's
    encoding tables to judge them by. *)
From S2P Require Import Prelude.

Declare Scope word_scope.
Delimit Scope word_scope with word.
#[local] Open Scope word_scope.

(** * Encoders

    A Go [int] is an integer, [uint32(x)] its reduction to 32 bits; [a <<. k]
    is the shift of a [uint32]. *)

Definition shl32 (x k : Z) : Z := u32 (Z.shiftl x k).
Notation "a <<. k" := (shl32 a k) (at level 45, left associativity) : word_scope.
Notation "a .| b" := (Z.lor a b) (at level 54, left associativity) : word_scope.

Definition regXZR : Z := 31.
Definition regSP : Z := 31.
Definition regLR : Z := 30.

Definition encMOVZ (rd imm16 shift : Z) : Z :=
  let hw := Z.quot shift 16 in
  0xD2800000 .| u32 hw <<. 21 .| u32 (Z.land imm16 0xFFFF) <<. 5 .| u32 rd.
Definition encMOVK (rd imm16 shift : Z) : Z :=
  let hw := Z.quot shift 16 in
  0xF2800000 .| u32 hw <<. 21 .| u32 (Z.land imm16 0xFFFF) <<. 5 .| u32 rd.
Definition encLDRuoff (rt rn byteOff : Z) : Z :=
  0xF9400000 .| u32 (Z.quot byteOff 8) <<. 10 .| u32 rn <<. 5 .| u32 rt.
Definition encSTRuoff (rt rn byteOff : Z) : Z :=
  0xF9000000 .| u32 (Z.quot byteOff 8) <<. 10 .| u32 rn <<. 5 .| u32 rt.
Definition encLDRQuoff (rt rn byteOff : Z) : Z :=
  0x3DC00000 .| u32 (Z.quot byteOff 16) <<. 10 .| u32 rn <<. 5 .| u32 rt.
Definition encSTRQuoff (rt rn byteOff : Z) : Z :=
  0x3D800000 .| u32 (Z.quot byteOff 16) <<. 10 .| u32 rn <<. 5 .| u32 rt.
Definition encLDRlit (rt imm19 : Z) : Z :=
  0x58000000 .| u32 (Z.land imm19 0x7FFFF) <<. 5 .| u32 rt.
Definition encADDreg (rd rn rm : Z) : Z :=
  0x8B000000 .| u32 rm <<. 16 .| u32 rn <<. 5 .| u32 rd.
Definition encSUBreg (rd rn rm : Z) : Z :=
  0xCB000000 .| u32 rm <<. 16 .| u32 rn <<. 5 .| u32 rd.
Definition encSUBext (rd rn rm : Z) : Z :=
  0xCB200000 .| u32 rm <<. 16 .| (3 <<. 13) .| u32 rn <<. 5 .| u32 rd.
Definition encMUL (rd rn rm : Z) : Z :=
  0x9B000000 .| u32 rm <<. 16 .| u32 regXZR <<. 10 .| u32 rn <<. 5 .| u32 rd.
Definition encMSUB (rd rn rm ra : Z) : Z :=
  0x9B008000 .| u32 rm <<. 16 .| u32 ra <<. 10 .| u32 rn <<. 5 .| u32 rd.
Definition encSDIV (rd rn rm : Z) : Z :=
  0x9AC00C00 .| u32 rm <<. 16 .| u32 rn <<. 5 .| u32 rd.
Definition encUDIV (rd rn rm : Z) : Z :=
  0x9AC00800 .| u32 rm <<. 16 .| u32 rn <<. 5 .| u32 rd.
Definition encCMPreg (rn rm : Z) : Z :=
  0xEB00001F .| u32 rm <<. 16 .| u32 rn <<. 5.
Definition encCMPimm0 (rn : Z) : Z :=
  0xF100001F .| u32 rn <<. 5.
Definition encLSLimm (rd rn shift : Z) : Z :=
  let immr := Z.land (64 - shift) 63 in
  let imms := 63 - shift in
  0xD3400000 .| u32 immr <<. 16 .| u32 imms <<. 10 .| u32 rn <<. 5 .| u32 rd.
Definition encB (imm26 : Z) : Z :=
  0x14000000 .| Z.land (u32 imm26) 0x3FFFFFF.
Definition encBL (imm26 : Z) : Z :=
  0x94000000 .| Z.land (u32 imm26) 0x3FFFFFF.
Definition encBR (rn : Z) : Z :=
  0xD61F0000 .| u32 rn <<. 5.
Definition encBLR (rn : Z) : Z :=
  0xD63F0000 .| u32 rn <<. 5.
Definition encBcond (cond imm19 : Z) : Z :=
  0x54000000 .| u32 (Z.land imm19 0x7FFFF) <<. 5 .| u32 cond.
Definition encRET : Z :=
  0xD65F03C0.
Definition encCSET (rd cond : Z) : Z :=
  let invCond := Z.lxor cond 1 in
  0x9A9F07E0 .| u32 invCond <<. 12 .| u32 rd.
Definition encSTP (rt1 rt2 rn byteOff : Z) : Z :=
  let imm7 := Z.land (Z.quot byteOff 8) 0x7F in
  0xA9000000 .| u32 imm7 <<. 15 .| u32 rt2 <<. 10 .| u32 rn <<. 5 .| u32 rt1.
Definition encLDP (rt1 rt2 rn byteOff : Z) : Z :=
  let imm7 := Z.land (Z.quot byteOff 8) 0x7F in
  0xA9400000 .| u32 imm7 <<. 15 .| u32 rt2 <<. 10 .| u32 rn <<. 5 .| u32 rt1.
Definition encSVC (imm16 : Z) : Z :=
  0xD4000001 .| u32 imm16 <<. 5.
Definition encSTRBuoff (rt rn byteOff : Z) : Z :=
  0x39000000 .| u32 byteOff <<. 10 .| u32 rn <<. 5 .| u32 rt.
Definition encLDRBuoff (rt rn byteOff : Z) : Z :=
  0x39400000 .| u32 byteOff <<. 10 .| u32 rn <<. 5 .| u32 rt.
Definition encLDRSBuoff (rt rn byteOff : Z) : Z :=
  0x39800000 .| u32 byteOff <<. 10 .| u32 rn <<. 5 .| u32 rt.
Definition encCBZ (rt imm19 : Z) : Z :=
  0xB4000000 .| u32 (Z.land imm19 0x7FFFF) <<. 5 .| u32 rt.
Definition encCBNZ (rt imm19 : Z) : Z :=
  0xB5000000 .| u32 (Z.land imm19 0x7FFFF) <<. 5 .| u32 rt.
Definition encNEG (rd rn : Z) : Z :=
  0xCB0003E0 .| u32 rn <<. 16 .| u32 rd.
Definition encMOVreg (rd rn : Z) : Z :=
  0xAA0003E0 .| u32 rn <<. 16 .| u32 rd.
Definition encADDimm (rd rn imm12 : Z) : Z :=
  0x91000000 .| u32 imm12 <<. 10 .| u32 rn <<. 5 .| u32 rd.
Definition encSUBimm (rd rn imm12 : Z) : Z :=
  0xD1000000 .| u32 imm12 <<. 10 .| u32 rn <<. 5 .| u32 rd.
Definition encAND (rd rn rm : Z) : Z :=
  0x8A000000 .| u32 rm <<. 16 .| u32 rn <<. 5 .| u32 rd.
Definition encORR (rd rn rm : Z) : Z :=
  0xAA000000 .| u32 rm <<. 16 .| u32 rn <<. 5 .| u32 rd.
Definition encEOR (rd rn rm : Z) : Z :=
  0xCA000000 .| u32 rm <<. 16 .| u32 rn <<. 5 .| u32 rd.
Definition encMVN (rd rm : Z) : Z :=
  0xAA2003E0 .| u32 rm <<. 16 .| u32 rd.
Definition encLSLV (rd rn rm : Z) : Z :=
  0x9AC02000 .| u32 rm <<. 16 .| u32 rn <<. 5 .| u32 rd.
Definition encASRV (rd rn rm : Z) : Z :=
  0x9AC02800 .| u32 rm <<. 16 .| u32 rn <<. 5 .| u32 rd.
Definition encMOVN (rd imm16 shift : Z) : Z :=
  let hw := Z.quot shift 16 in
  0x92800000 .| u32 hw <<. 21 .| u32 (Z.land imm16 0xFFFF) <<. 5 .| u32 rd.
Definition encADR (rd byteOff : Z) : Z :=
  let immlo := Z.land byteOff 3 in
  let immhi := Z.land (Z.shiftr byteOff 2) 0x7FFFF in
  0x10000000 .| u32 immlo <<. 29 .| u32 immhi <<. 5 .| u32 rd.
Definition encLSRimm (rd rn shift : Z) : Z :=
  0xD3400000 .| u32 shift <<. 16 .| u32 63 <<. 10 .| u32 rn <<. 5 .| u32 rd.
Definition encLSRV (rd rn rm : Z) : Z :=
  0x9AC02400 .| u32 rm <<. 16 .| u32 rn <<. 5 .| u32 rd.
Definition encSTRWuoff (rt rn byteOff : Z) : Z :=
  0xB9000000 .| u32 (Z.quot byteOff 4) <<. 10 .| u32 rn <<. 5 .| u32 rt.
Definition encLDRWuoff (rt rn byteOff : Z) : Z :=
  0xB9400000 .| u32 (Z.quot byteOff 4) <<. 10 .| u32 rn <<. 5 .| u32 rt.
Definition encLDRSWuoff (rt rn byteOff : Z) : Z :=
  0xB9800000 .| u32 (Z.quot byteOff 4) <<. 10 .| u32 rn <<. 5 .| u32 rt.
Definition encSTRH (rt rn byteOff : Z) : Z :=
  0x79000000 .| u32 (Z.quot byteOff 2) <<. 10 .| u32 rn <<. 5 .| u32 rt.
Definition encLDRH (rt rn byteOff : Z) : Z :=
  0x79400000 .| u32 (Z.quot byteOff 2) <<. 10 .| u32 rn <<. 5 .| u32 rt.
Definition encLDRSH (rt rn byteOff : Z) : Z :=
  0x79800000 .| u32 (Z.quot byteOff 2) <<. 10 .| u32 rn <<. 5 .| u32 rt.
Definition encFADDD (rd rn rm : Z) : Z :=
  0x1E602800 .| u32 rm <<. 16 .| u32 rn <<. 5 .| u32 rd.
Definition encFSUBD (rd rn rm : Z) : Z :=
  0x1E603800 .| u32 rm <<. 16 .| u32 rn <<. 5 .| u32 rd.
Definition encFMULD (rd rn rm : Z) : Z :=
  0x1E600800 .| u32 rm <<. 16 .| u32 rn <<. 5 .| u32 rd.
Definition encFDIVD (rd rn rm : Z) : Z :=
  0x1E601800 .| u32 rm <<. 16 .| u32 rn <<. 5 .| u32 rd.
Definition encFNEGD (rd rn : Z) : Z :=
  0x1E614000 .| u32 rn <<. 5 .| u32 rd.
Definition encFABSD (rd rn : Z) : Z :=
  0x1E60C000 .| u32 rn <<. 5 .| u32 rd.
Definition encFMOVDD (rd rn : Z) : Z :=
  0x1E604000 .| u32 rn <<. 5 .| u32 rd.
Definition encFCMPD (rn rm : Z) : Z :=
  0x1E602000 .| u32 rm <<. 16 .| u32 rn <<. 5.
Definition encFCMPDzero (rn : Z) : Z :=
  0x1E602008 .| u32 rn <<. 5.
Definition encSCVTFD (rd rn : Z) : Z :=
  0x9E620000 .| u32 rn <<. 5 .| u32 rd.
Definition encFCVTZSD (rd rn : Z) : Z :=
  0x9E780000 .| u32 rn <<. 5 .| u32 rd.
Definition encFMOVtoGP (rd rn : Z) : Z :=
  0x9E660000 .| u32 rn <<. 5 .| u32 rd.
Definition encFMOVfromGP (rd rn : Z) : Z :=
  0x9E670000 .| u32 rn <<. 5 .| u32 rd.
Definition encLDRDuoff (rt rn byteOff : Z) : Z :=
  0xFD400000 .| u32 (Z.quot byteOff 8) <<. 10 .| u32 rn <<. 5 .| u32 rt.
Definition encSTRDuoff (rt rn byteOff : Z) : Z :=
  0xFD000000 .| u32 (Z.quot byteOff 8) <<. 10 .| u32 rn <<. 5 .| u32 rt.
Definition encLDRSuoff (rt rn byteOff : Z) : Z :=
  0xBD400000 .| u32 (Z.quot byteOff 4) <<. 10 .| u32 rn <<. 5 .| u32 rt.
Definition encSTRSuoff (rt rn byteOff : Z) : Z :=
  0xBD000000 .| u32 (Z.quot byteOff 4) <<. 10 .| u32 rn <<. 5 .| u32 rt.
Definition encFCVTDS (rd rn : Z) : Z :=
  0x1E624000 .| u32 rn <<. 5 .| u32 rd.
Definition encFCVTSD (rd rn : Z) : Z :=
  0x1E22C000 .| u32 rn <<. 5 .| u32 rd.
Definition encLDRDlit (rt imm19 : Z) : Z :=
  0x5C000000 .| u32 (Z.land imm19 0x7FFFF) <<. 5 .| u32 rt.
Definition encSXTB (rd rn : Z) : Z :=
  0x93401C00 .| u32 rn <<. 5 .| u32 rd.
Definition encSXTH (rd rn : Z) : Z :=
  0x93403C00 .| u32 rn <<. 5 .| u32 rd.
Definition encUXTB (rd rn : Z) : Z :=
  0xD3401C00 .| u32 rn <<. 5 .| u32 rd.
Definition encUXTH (rd rn : Z) : Z :=
  0xD3403C00 .| u32 rn <<. 5 .| u32 rd.
Definition encREV16 (rd rn : Z) : Z :=
  0x5AC00400 .| u32 rn <<. 5 .| u32 rd.
Definition encREV32 (rd rn : Z) : Z :=
  0x5AC00800 .| u32 rn <<. 5 .| u32 rd.
Definition encREV64 (rd rn : Z) : Z :=
  0xDAC00C00 .| u32 rn <<. 5 .| u32 rd.
Definition encCLZ (rd rn : Z) : Z :=
  0xDAC01000 .| u32 rn <<. 5 .| u32 rd.
Definition encCLZ32 (rd rn : Z) : Z :=
  0x5AC01000 .| u32 rn <<. 5 .| u32 rd.
Definition encRBIT (rd rn : Z) : Z :=
  0xDAC00000 .| u32 rn <<. 5 .| u32 rd.
Definition encRBIT32 (rd rn : Z) : Z :=
  0x5AC00000 .| u32 rn <<. 5 .| u32 rd.
Definition encCNT8B (vd vn : Z) : Z :=
  0x0E205800 .| u32 vn <<. 5 .| u32 vd.
Definition encADDVb (vd vn : Z) : Z :=
  0x0E31B800 .| u32 vn <<. 5 .| u32 vd.
Definition encUMOVb0 (rd vn : Z) : Z :=
  0x0E013C00 .| u32 vn <<. 5 .| u32 rd.
Definition encADDS (rd rn rm : Z) : Z :=
  0xAB000000 .| u32 rm <<. 16 .| u32 rn <<. 5 .| u32 rd.
Definition encADC (rd rn rm : Z) : Z :=
  0x9A000000 .| u32 rm <<. 16 .| u32 rn <<. 5 .| u32 rd.
Definition encSUBS (rd rn rm : Z) : Z :=
  0xEB000000 .| u32 rm <<. 16 .| u32 rn <<. 5 .| u32 rd.
Definition encSBC (rd rn rm : Z) : Z :=
  0xDA000000 .| u32 rm <<. 16 .| u32 rn <<. 5 .| u32 rd.
Definition encUMULH (rd rn rm : Z) : Z :=
  0x9BC07C00 .| u32 rm <<. 16 .| u32 rn <<. 5 .| u32 rd.
Definition encSMULH (rd rn rm : Z) : Z :=
  0x9B407C00 .| u32 rm <<. 16 .| u32 rn <<. 5 .| u32 rd.
Definition encNEGS (rd rm : Z) : Z :=
  0xEB0003E0 .| u32 rm <<. 16 .| u32 rd.
Definition encNGC (rd rm : Z) : Z :=
  0xDA0003E0 .| u32 rm <<. 16 .| u32 rd.
Definition encUBFM (rd rn immr imms : Z) : Z :=
  0xD3400000 .| u32 immr <<. 16 .| u32 imms <<. 10 .| u32 rn <<. 5 .| u32 rd.
Definition encASR (rd rn n : Z) : Z :=
  0x9340FC00 .| u32 n <<. 16 .| u32 rn <<. 5 .| u32 rd.
Definition encCCMP (rn rm nzcv cond : Z) : Z :=
  0xFA400000 .| u32 rm <<. 16 .| u32 cond <<. 12 .| u32 rn <<. 5 .| u32 nzcv.
Definition encSBCS (rd rn rm : Z) : Z :=
  0xFA000000 .| u32 rm <<. 16 .| u32 rn <<. 5 .| u32 rd.
Definition encCSEL (rd rn rm cond : Z) : Z :=
  0x9A800000 .| u32 rm <<. 16 .| u32 cond <<. 12 .| u32 rn <<. 5 .| u32 rd.

(** * The architecture's decoder *)

(** [n] bits of a word from bit [lo]. *)
Definition field (w lo n : Z) : Z := Z.land (Z.shiftr w lo) (Z.ones n).

Definition sign_extend (n v : Z) : Z := if v <? 2 ^ (n - 1) then v else v - 2 ^ n.

Inductive opcode :=
  | ADD | ADDS | SUB | SUBS | SUB_ext | ADD_imm | SUB_imm | SUBS_imm
  | ADC | SBC | SBCS | AND | ORR | ORN | EOR
  | UDIV | SDIV | LSLV | LSRV | ASRV | MADD | MSUB | SMULH | UMULH
  | SBFM | UBFM | MOVN | MOVZ | MOVK | CSEL | CSINC | CCMP
  | RBIT_W | RBIT_X | REV16_W | REV_W | REV_X | CLZ_W | CLZ_X
  | Br | BL | Bcond | CBZ | CBNZ | BR | BLR | RET | SVC | ADR
  | LDR_lit | LDR_lit_D | LDP | STP
  | LDR_X | STR_X | LDR_W | STR_W | LDRSW | LDRH | STRH | LDRSH | LDRB | STRB | LDRSB
  | LDR_Q | STR_Q | LDR_D | STR_D | LDR_S | STR_S
  | FADD | FSUB | FMUL | FDIV | FMOV | FABS | FNEG | FCVT_SD | FCVT_DS | FCMP | FCMP_zero
  | SCVTF | FCVTZS | FMOV_XD | FMOV_DX | CNT_8B | ADDV_8B | UMOV_B0.

Definition all_opcodes : list opcode :=
  [ADD; ADDS; SUB; SUBS; SUB_ext; ADD_imm; SUB_imm; SUBS_imm; ADC; SBC; SBCS; AND; ORR; ORN; EOR;
   UDIV; SDIV; LSLV; LSRV; ASRV; MADD; MSUB; SMULH; UMULH; SBFM; UBFM; MOVN; MOVZ; MOVK; CSEL; CSINC; CCMP;
   RBIT_W; RBIT_X; REV16_W; REV_W; REV_X; CLZ_W; CLZ_X; Br; BL; Bcond; CBZ; CBNZ; BR; BLR; RET; SVC; ADR;
   LDR_lit; LDR_lit_D; LDP; STP; LDR_X; STR_X; LDR_W; STR_W; LDRSW; LDRH; STRH; LDRSH; LDRB; STRB; LDRSB;
   LDR_Q; STR_Q; LDR_D; STR_D; LDR_S; STR_S; FADD; FSUB; FMUL; FDIV; FMOV; FABS; FNEG; FCVT_SD; FCVT_DS;
   FCMP; FCMP_zero; SCVTF; FCVTZS; FMOV_XD; FMOV_DX; CNT_8B; ADDV_8B; UMOV_B0].

(** The encoding classes of the 64-bit variants: fields as (low bit, width,
    value). *)
Definition addsub_shifted (op s : Z) := [(31,1,1); (30,1,op); (29,1,s); (24,5,0xB); (22,2,0); (21,1,0); (10,6,0)].
Definition addsub_imm (op s : Z) := [(31,1,1); (30,1,op); (29,1,s); (23,6,0x22); (22,1,0)].
Definition with_carry (op s : Z) := [(31,1,1); (30,1,op); (29,1,s); (21,8,0xD0); (10,6,0)].
Definition logical (opc n : Z) := [(31,1,1); (29,2,opc); (24,5,0xA); (22,2,0); (21,1,n); (10,6,0)].
Definition two_source (opc : Z) := [(31,1,1); (30,1,0); (29,1,0); (21,8,0xD6); (10,6,opc)].
Definition one_source (sf opc : Z) := [(31,1,sf); (30,1,1); (29,1,0); (21,8,0xD6); (16,5,0); (10,6,opc)].
Definition three_source (op31 o0 : Z) := [(31,1,1); (29,2,0); (24,5,0x1B); (21,3,op31); (15,1,o0)].
Definition bitfield (opc : Z) := [(31,1,1); (29,2,opc); (23,6,0x26); (22,1,1)].
Definition move_wide (opc : Z) := [(31,1,1); (29,2,opc); (23,6,0x25)].
Definition cond_select (op op2 : Z) := [(31,1,1); (30,1,op); (29,1,0); (21,8,0xD4); (10,2,op2)].
Definition branch_reg (opc : Z) := [(25,7,0x6B); (21,4,opc); (16,5,31); (10,6,0); (0,5,0)].
Definition load_literal (v : Z) := [(30,2,1); (27,3,3); (26,1,v); (24,2,0)].
Definition load_store (size v opc : Z) := [(30,2,size); (27,3,7); (26,1,v); (24,2,1); (22,2,opc)].
Definition pair_offset (l : Z) := [(30,2,2); (27,3,5); (26,1,0); (23,3,2); (22,1,l)].
Definition fp_class (ty : Z) := [(29,3,0); (24,5,0x1E); (22,2,ty); (21,1,1)].
Definition fp_two (opc : Z) := fp_class 1 ++ [(12,4,opc); (10,2,2)].
Definition fp_one (ty opc : Z) := fp_class ty ++ [(15,6,opc); (10,5,0x10)].
Definition fp_compare (op2 : Z) := fp_class 1 ++ [(14,2,0); (10,4,8); (0,5,op2)].
Definition fp_int (rmode opc : Z) :=
  [(29,3,4); (24,5,0x1E); (22,2,1); (21,1,1); (19,2,rmode); (16,3,opc); (10,6,0)].

(** The fixed fields of each instruction. *)
Definition fixed (op : opcode) : list (Z * Z * Z) :=
  match op with
  | ADD => addsub_shifted 0 0 | ADDS => addsub_shifted 0 1
  | SUB => addsub_shifted 1 0 | SUBS => addsub_shifted 1 1
  | SUB_ext => [(31,1,1); (30,1,1); (29,1,0); (24,5,0xB); (22,2,0); (21,1,1); (13,3,3); (10,3,0)]
  | ADD_imm => addsub_imm 0 0 | SUB_imm => addsub_imm 1 0 | SUBS_imm => addsub_imm 1 1
  | ADC => with_carry 0 0 | SBC => with_carry 1 0 | SBCS => with_carry 1 1
  | AND => logical 0 0 | ORR => logical 1 0 | ORN => logical 1 1 | EOR => logical 2 0
  | UDIV => two_source 2 | SDIV => two_source 3
  | LSLV => two_source 8 | LSRV => two_source 9 | ASRV => two_source 10
  | MADD => three_source 0 0 | MSUB => three_source 0 1
  | SMULH => three_source 2 0 ++ [(10,5,31)] | UMULH => three_source 6 0 ++ [(10,5,31)]
  | SBFM => bitfield 0 | UBFM => bitfield 2
  | MOVN => move_wide 0 | MOVZ => move_wide 2 | MOVK => move_wide 3
  | CSEL => cond_select 0 0 | CSINC => cond_select 0 1
  | CCMP => [(31,1,1); (30,1,1); (29,1,1); (21,8,0xD2); (10,2,0); (4,1,0)]
  | RBIT_W => one_source 0 0 | RBIT_X => one_source 1 0 | REV16_W => one_source 0 1
  | REV_W => one_source 0 2 | REV_X => one_source 1 3 | CLZ_W => one_source 0 4 | CLZ_X => one_source 1 4
  | Br => [(31,1,0); (26,5,5)] | BL => [(31,1,1); (26,5,5)]
  | Bcond => [(25,7,0x2A); (24,1,0); (4,1,0)]
  | CBZ => [(31,1,1); (25,6,0x1A); (24,1,0)] | CBNZ => [(31,1,1); (25,6,0x1A); (24,1,1)]
  | BR => branch_reg 0 | BLR => branch_reg 1 | RET => branch_reg 2
  | SVC => [(24,8,0xD4); (21,3,0); (2,3,0); (0,2,1)]
  | ADR => [(31,1,0); (24,5,0x10)]
  | LDR_lit => load_literal 0 | LDR_lit_D => load_literal 1
  | STP => pair_offset 0 | LDP => pair_offset 1
  | STRB => load_store 0 0 0 | LDRB => load_store 0 0 1 | LDRSB => load_store 0 0 2
  | STRH => load_store 1 0 0 | LDRH => load_store 1 0 1 | LDRSH => load_store 1 0 2
  | STR_W => load_store 2 0 0 | LDR_W => load_store 2 0 1 | LDRSW => load_store 2 0 2
  | STR_X => load_store 3 0 0 | LDR_X => load_store 3 0 1
  | STR_Q => load_store 0 1 2 | LDR_Q => load_store 0 1 3
  | STR_S => load_store 2 1 0 | LDR_S => load_store 2 1 1
  | STR_D => load_store 3 1 0 | LDR_D => load_store 3 1 1
  | FMUL => fp_two 0 | FDIV => fp_two 1 | FADD => fp_two 2 | FSUB => fp_two 3
  | FMOV => fp_one 1 0 | FABS => fp_one 1 1 | FNEG => fp_one 1 2
  | FCVT_SD => fp_one 1 4 | FCVT_DS => fp_one 0 5
  | FCMP => fp_compare 0 | FCMP_zero => fp_compare 8 ++ [(16,5,0)]
  | FCVTZS => fp_int 3 0 | SCVTF => fp_int 0 2 | FMOV_XD => fp_int 0 6 | FMOV_DX => fp_int 0 7
  | CNT_8B => [(29,3,0); (24,5,0xE); (22,2,0); (17,5,0x10); (12,5,5); (10,2,2)]
  | ADDV_8B => [(29,3,0); (24,5,0xE); (22,2,0); (17,5,0x18); (12,5,0x1B); (10,2,2)]
  | UMOV_B0 => [(29,3,0); (21,8,0x70); (16,5,1); (15,1,0); (11,4,7); (10,1,1)]
  end.

(** An operand: an unsigned or signed field, scaled, or the split offset of
    ADR. *)
Inductive operand := Uns (lo n scale : Z) | Sgn (lo n scale : Z) | AdrOff.

Definition extract (w : Z) (o : operand) : Z :=
  match o with
  | Uns lo n k => k * field w lo n
  | Sgn lo n k => k * sign_extend n (field w lo n)
  | AdrOff => sign_extend 21 (4 * field w 5 19 + field w 29 2)
  end.

#[local] Notation rd := (Uns 0 5 1).
#[local] Notation rn := (Uns 5 5 1).
#[local] Notation ra := (Uns 10 5 1).
#[local] Notation rm := (Uns 16 5 1).

(** The operands of each instruction, in the order of the assembly syntax;
    shift amounts and offsets in bits and bytes. *)
Definition operands (op : opcode) : list operand :=
  match op with
  | ADD | ADDS | SUB | SUBS | SUB_ext | ADC | SBC | SBCS | AND | ORR | ORN | EOR
  | UDIV | SDIV | LSLV | LSRV | ASRV | SMULH | UMULH | FADD | FSUB | FMUL | FDIV => [rd; rn; rm]
  | MADD | MSUB => [rd; rn; rm; ra]
  | ADD_imm | SUB_imm | SUBS_imm => [rd; rn; Uns 10 12 1]
  | SBFM | UBFM => [rd; rn; Uns 16 6 1; Uns 10 6 1]
  | MOVN | MOVZ | MOVK => [rd; Uns 5 16 1; Uns 21 2 16]
  | CSEL | CSINC => [rd; rn; rm; Uns 12 4 1]
  | CCMP => [rn; rm; Uns 0 4 1; Uns 12 4 1]
  | RBIT_W | RBIT_X | REV16_W | REV_W | REV_X | CLZ_W | CLZ_X
  | FMOV | FABS | FNEG | FCVT_SD | FCVT_DS | SCVTF | FCVTZS | FMOV_XD | FMOV_DX
  | CNT_8B | ADDV_8B | UMOV_B0 => [rd; rn]
  | Br | BL => [Sgn 0 26 4]
  | Bcond => [Uns 0 4 1; Sgn 5 19 4]
  | CBZ | CBNZ | LDR_lit | LDR_lit_D => [rd; Sgn 5 19 4]
  | BR | BLR | RET | FCMP_zero => [rn]
  | FCMP => [rn; rm]
  | SVC => [Uns 5 16 1]
  | ADR => [rd; AdrOff]
  | STP | LDP => [rd; ra; rn; Sgn 15 7 8]
  | STRB | LDRB | LDRSB => [rd; rn; Uns 10 12 1]
  | STRH | LDRH | LDRSH => [rd; rn; Uns 10 12 2]
  | STR_W | LDR_W | LDRSW | STR_S | LDR_S => [rd; rn; Uns 10 12 4]
  | STR_X | LDR_X | STR_D | LDR_D => [rd; rn; Uns 10 12 8]
  | STR_Q | LDR_Q => [rd; rn; Uns 10 12 16]
  end.

Definition insn : Type := opcode * list Z.

Definition matches (op : opcode) (w : Z) : bool := forallb (fun '(lo, n, v) => field w lo n =? v) (fixed op).

Definition decode (w : Z) : option insn :=
  match find (fun op => matches op w) all_opcodes with
  | Some op => Some (op, map (extract w) (operands op))
  | None => None
  end.

(** * The decoder is unambiguous *)

#[export] Instance opcode_eq_dec : EqDecision opcode.
Proof. solve_decision. Defined.

Definition mask (fs : list (Z * Z * Z)) : Z := fold_right (fun '(lo, n, _) m => Z.shiftl (Z.ones n) lo .| m) 0 fs.
Definition pattern (fs : list (Z * Z * Z)) : Z := fold_right (fun '(lo, _, v) m => Z.shiftl v lo .| m) 0 fs.

Definition low_nonneg (fs : list (Z * Z * Z)) : bool := forallb (fun '(lo, _, _) => 0 <=? lo) fs.

Lemma land_field w lo n : 0 <= lo -> Z.land w (Z.shiftl (Z.ones n) lo) = Z.shiftl (field w lo n) lo.
Proof.
  intros Hlo. unfold field. apply Z.bits_inj'. intros i Hi. rewrite Z.land_spec, !Z.shiftl_spec by lia.
  destruct (Z.ltb_spec (i - lo) 0) as [Hn|Hp]; [by rewrite !(Z.testbit_neg_r _ (i - lo)), andb_false_r by lia|].
  rewrite Z.land_spec, Z.shiftr_spec by lia. by replace (i - lo + lo) with i by lia.
Qed.

Lemma matches_pattern w fs : low_nonneg fs = true ->
  forallb (fun '(lo, n, v) => field w lo n =? v) fs = true -> Z.land w (mask fs) = pattern fs.
Proof.
  unfold mask, pattern, low_nonneg. induction fs as [|[[lo n] v] fs IH]; cbn; [by rewrite Z.land_0_r|].
  intros [Hlo Hfs]%andb_prop [Hv Hm]%andb_prop. apply Z.leb_le in Hlo.
  rewrite Z.land_lor_distr_r, land_field, (IH Hfs Hm) by done. apply Z.eqb_eq in Hv. by rewrite Hv.
Qed.

(** Two instructions differ in a bit that both of them fix. *)
Definition conflict (a b : opcode) : bool :=
  negb (Z.land (Z.land (mask (fixed a)) (mask (fixed b))) (Z.lxor (pattern (fixed a)) (pattern (fixed b))) =? 0).

Lemma all_opcodes_complete op : In op all_opcodes.
Proof.
  apply list_elem_of_In, (bool_decide_eq_true_1 (op ∈ all_opcodes)). by destruct op.
Qed.

Lemma all_low_nonneg op : low_nonneg (fixed op) = true.
Proof. by destruct op. Qed.

Lemma all_conflict a b : a <> b -> conflict a b = true.
Proof.
  assert (H : forallb (fun a => forallb (fun b => bool_decide (a = b) || conflict a b) all_opcodes) all_opcodes = true)
    by (vm_compute; reflexivity).
  intros Hab. rewrite forallb_forall in H. specialize (H a (all_opcodes_complete a)).
  rewrite forallb_forall in H. specialize (H b (all_opcodes_complete b)). by rewrite bool_decide_eq_false_2 in H.
Qed.

Lemma matches_unique w a b : matches a w = true -> matches b w = true -> a = b.
Proof.
  intros Ha Hb. destruct (decide (a = b)) as [|Hab]; [done|]. pose proof (all_conflict a b Hab) as Hc.
  apply matches_pattern in Ha; [|apply all_low_nonneg]. apply matches_pattern in Hb; [|apply all_low_nonneg].
  unfold conflict in Hc. rewrite <- Ha, <- Hb in Hc. apply negb_true_iff, Z.eqb_neq in Hc. exfalso. apply Hc.
  apply Z.bits_inj'. intros i Hi. rewrite !Z.land_spec, Z.lxor_spec, !Z.land_spec, Z.bits_0.
  destruct (Z.testbit w i), (Z.testbit (mask (fixed a)) i), (Z.testbit (mask (fixed b)) i); done.
Qed.

Lemma decode_matches op w : matches op w = true -> decode w = Some (op, map (extract w) (operands op)).
Proof.
  intros Hm. unfold decode. destruct (find (fun op => matches op w) all_opcodes) as [op'|] eqn:Hf.
  - apply find_some in Hf as [_ Hm']. by rewrite (matches_unique w op op' Hm Hm').
  - pose proof (find_none _ _ Hf op (all_opcodes_complete op)) as E. cbn in E. by rewrite Hm in E.
Qed.

(** * Fields of words *)

(** [x] fits in [n] bits. *)
Definition fits (n x : Z) : Prop := 0 <= x < 2 ^ n.
Definition fits_signed (n x : Z) : Prop := - 2 ^ (n - 1) <= x < 2 ^ (n - 1).

Lemma field_lor a b lo n : field (a .| b) lo n = field a lo n .| field b lo n.
Proof. unfold field. by rewrite Z.shiftr_lor, Z.land_lor_distr_l. Qed.

Lemma field_hit v lo n : fits n v -> 0 <= lo -> 0 <= n -> field (Z.shiftl v lo) lo n = v.
Proof.
  unfold fits, field. intros Hv Hlo Hn. rewrite Z.shiftr_shiftl_l, Z.sub_diag, Z.shiftl_0_r, Z.land_ones by lia.
  by apply Z.mod_small.
Qed.

Lemma field_above v k lo n : 0 <= lo -> 0 <= n -> lo + n <= k -> field (Z.shiftl v k) lo n = 0.
Proof.
  intros. unfold field. rewrite Z.shiftr_shiftl_l, Z.land_ones, Z.shiftl_mul_pow2 by lia.
  replace (k - lo) with (n + (k - lo - n)) by lia. rewrite Z.pow_add_r by lia.
  rewrite (Z.mul_comm (2 ^ n)), Z.mul_assoc. apply Z.mod_mul. lia.
Qed.

Lemma field_below v s k lo n : fits s v -> 0 <= k -> 0 <= s -> k + s <= lo -> field (Z.shiftl v k) lo n = 0.
Proof.
  unfold fits. intros Hv Hk Hs Hlo. unfold field. rewrite Z.shiftr_shiftl_r by lia.
  rewrite Z.shiftr_div_pow2, Z.div_small, Z.land_0_l; try lia; [].
  split; [lia|]. apply Z.lt_le_trans with (2 ^ s); [lia|]. apply Z.pow_le_mono_r; lia.
Qed.

(** A field inside a shifted operand. *)
Lemma field_shiftl v s k lo n : fits s v -> 0 <= k -> 0 <= s -> 0 <= lo -> 0 <= n ->
  field (Z.shiftl v k) lo n =
  if (k =? lo) && (s <=? n) then v
  else if (lo + n <=? k) || (k + s <=? lo) then 0 else field (Z.shiftl v k) lo n.
Proof.
  intros Hv Hk Hs Hlo Hn. destruct (Z.eqb_spec k lo) as [->|]; cbn [andb].
  - destruct (Z.leb_spec s n); [|by destruct (_ || _) eqn:E; [|]; [apply orb_prop in E as [E|E]; [apply field_above; lia|eapply field_below; try done; lia]|]].
    apply field_hit; [|lia|lia]. unfold fits in *. split; [lia|]. apply Z.lt_le_trans with (2 ^ s); [lia|].
    apply Z.pow_le_mono_r; lia.
  - destruct (Z.leb_spec (lo + n) k); [by apply field_above|]. destruct (Z.leb_spec (k + s) lo); cbn [orb]; [|done].
    by eapply field_below.
Qed.

Lemma shl32_small v s k : fits s v -> 0 <= s -> 0 <= k -> s + k <= 32 -> u32 v <<. k = Z.shiftl v k.
Proof.
  unfold fits, shl32. intros Hv Hs Hk Hle.
  assert (H1 : 2 ^ s <= 2 ^ 32) by (apply Z.pow_le_mono_r; lia).
  rewrite (wrapU_small 32 v) by lia. apply wrapU_small. rewrite Z.shiftl_mul_pow2 by lia.
  assert (H2 : 2 ^ s * 2 ^ k <= 2 ^ 32) by (rewrite <- Z.pow_add_r by lia; apply Z.pow_le_mono_r; lia).
  pose proof (Z.pow_pos_nonneg 2 k ltac:(lia) ltac:(lia)). nia.
Qed.

Lemma u32_fits v s : fits s v -> s <= 32 -> u32 v = Z.shiftl v 0.
Proof.
  unfold fits. intros Hv Hs. rewrite Z.shiftl_0_r. apply wrapU_small.
  assert (H1 : 2 ^ s <= 2 ^ 32) by (apply Z.pow_le_mono_r; lia). lia.
Qed.

(** A signed offset cut to its field. *)
Lemma land_fits v n : 0 <= n -> fits n (Z.land v (Z.ones n)).
Proof. intros. unfold fits. rewrite Z.land_ones by lia. apply Z.mod_pos_bound. lia. Qed.

Lemma sign_extend_land v n : 0 < n -> fits_signed n v -> sign_extend n (Z.land v (Z.ones n)) = v.
Proof.
  unfold fits_signed, sign_extend. intros Hn Hv. rewrite Z.land_ones by lia.
  assert (E : 2 ^ n = 2 * 2 ^ (n - 1)) by (rewrite <- Z.pow_succ_r by lia; f_equal; lia).
  destruct (Z.leb_spec 0 v).
  - rewrite Z.mod_small by lia. by rewrite (proj2 (Z.ltb_lt _ _)) by lia.
  - assert (Em : v mod 2 ^ n = v + 2 ^ n) by (symmetry; apply (Z.mod_unique_pos _ _ (-1)); lia).
    rewrite Em. rewrite (proj2 (Z.ltb_ge _ _)) by lia. lia.
Qed.

Notation reg := (fits 5).

(** What each encoder is documented to encode, operands within their fields;
    aliases stand for the instruction they abbreviate. *)
Inductive encodes : Z -> insn -> Prop :=
  | Enc_ADDreg d n m : reg d -> reg n -> reg m -> encodes (encADDreg d n m) (ADD, [d; n; m])
  | Enc_SUBreg d n m : reg d -> reg n -> reg m -> encodes (encSUBreg d n m) (SUB, [d; n; m])
  | Enc_SUBext d n m : reg d -> reg n -> reg m -> encodes (encSUBext d n m) (SUB_ext, [d; n; m])
  | Enc_SDIV d n m : reg d -> reg n -> reg m -> encodes (encSDIV d n m) (SDIV, [d; n; m])
  | Enc_UDIV d n m : reg d -> reg n -> reg m -> encodes (encUDIV d n m) (UDIV, [d; n; m])
  | Enc_AND d n m : reg d -> reg n -> reg m -> encodes (encAND d n m) (AND, [d; n; m])
  | Enc_ORR d n m : reg d -> reg n -> reg m -> encodes (encORR d n m) (ORR, [d; n; m])
  | Enc_EOR d n m : reg d -> reg n -> reg m -> encodes (encEOR d n m) (EOR, [d; n; m])
  | Enc_LSLV d n m : reg d -> reg n -> reg m -> encodes (encLSLV d n m) (LSLV, [d; n; m])
  | Enc_ASRV d n m : reg d -> reg n -> reg m -> encodes (encASRV d n m) (ASRV, [d; n; m])
  | Enc_LSRV d n m : reg d -> reg n -> reg m -> encodes (encLSRV d n m) (LSRV, [d; n; m])
  | Enc_FADDD d n m : reg d -> reg n -> reg m -> encodes (encFADDD d n m) (FADD, [d; n; m])
  | Enc_FSUBD d n m : reg d -> reg n -> reg m -> encodes (encFSUBD d n m) (FSUB, [d; n; m])
  | Enc_FMULD d n m : reg d -> reg n -> reg m -> encodes (encFMULD d n m) (FMUL, [d; n; m])
  | Enc_FDIVD d n m : reg d -> reg n -> reg m -> encodes (encFDIVD d n m) (FDIV, [d; n; m])
  | Enc_ADDS d n m : reg d -> reg n -> reg m -> encodes (encADDS d n m) (ADDS, [d; n; m])
  | Enc_ADC d n m : reg d -> reg n -> reg m -> encodes (encADC d n m) (ADC, [d; n; m])
  | Enc_SUBS d n m : reg d -> reg n -> reg m -> encodes (encSUBS d n m) (SUBS, [d; n; m])
  | Enc_SBC d n m : reg d -> reg n -> reg m -> encodes (encSBC d n m) (SBC, [d; n; m])
  | Enc_SBCS d n m : reg d -> reg n -> reg m -> encodes (encSBCS d n m) (SBCS, [d; n; m])
  | Enc_UMULH d n m : reg d -> reg n -> reg m -> encodes (encUMULH d n m) (UMULH, [d; n; m])
  | Enc_SMULH d n m : reg d -> reg n -> reg m -> encodes (encSMULH d n m) (SMULH, [d; n; m])
  | Enc_FNEGD d n : reg d -> reg n -> encodes (encFNEGD d n) (FNEG, [d; n])
  | Enc_FABSD d n : reg d -> reg n -> encodes (encFABSD d n) (FABS, [d; n])
  | Enc_FMOVDD d n : reg d -> reg n -> encodes (encFMOVDD d n) (FMOV, [d; n])
  | Enc_SCVTFD d n : reg d -> reg n -> encodes (encSCVTFD d n) (SCVTF, [d; n])
  | Enc_FCVTZSD d n : reg d -> reg n -> encodes (encFCVTZSD d n) (FCVTZS, [d; n])
  | Enc_FMOVtoGP d n : reg d -> reg n -> encodes (encFMOVtoGP d n) (FMOV_XD, [d; n])
  | Enc_FMOVfromGP d n : reg d -> reg n -> encodes (encFMOVfromGP d n) (FMOV_DX, [d; n])
  | Enc_FCVTDS d n : reg d -> reg n -> encodes (encFCVTDS d n) (FCVT_SD, [d; n])
  | Enc_FCVTSD d n : reg d -> reg n -> encodes (encFCVTSD d n) (FCVT_DS, [d; n])
  | Enc_REV16 d n : reg d -> reg n -> encodes (encREV16 d n) (REV16_W, [d; n])
  | Enc_REV32 d n : reg d -> reg n -> encodes (encREV32 d n) (REV_W, [d; n])
  | Enc_REV64 d n : reg d -> reg n -> encodes (encREV64 d n) (REV_X, [d; n])
  | Enc_CLZ d n : reg d -> reg n -> encodes (encCLZ d n) (CLZ_X, [d; n])
  | Enc_CLZ32 d n : reg d -> reg n -> encodes (encCLZ32 d n) (CLZ_W, [d; n])
  | Enc_RBIT d n : reg d -> reg n -> encodes (encRBIT d n) (RBIT_X, [d; n])
  | Enc_RBIT32 d n : reg d -> reg n -> encodes (encRBIT32 d n) (RBIT_W, [d; n])
  | Enc_CNT8B d n : reg d -> reg n -> encodes (encCNT8B d n) (CNT_8B, [d; n])
  | Enc_ADDVb d n : reg d -> reg n -> encodes (encADDVb d n) (ADDV_8B, [d; n])
  | Enc_UMOVb0 d n : reg d -> reg n -> encodes (encUMOVb0 d n) (UMOV_B0, [d; n])
  | Enc_LDRuoff t n off : reg t -> reg n -> fits 12 off -> encodes (encLDRuoff t n (8 * off)) (LDR_X, [t; n; 8 * off])
  | Enc_STRuoff t n off : reg t -> reg n -> fits 12 off -> encodes (encSTRuoff t n (8 * off)) (STR_X, [t; n; 8 * off])
  | Enc_LDRQuoff t n off : reg t -> reg n -> fits 12 off -> encodes (encLDRQuoff t n (16 * off)) (LDR_Q, [t; n; 16 * off])
  | Enc_STRQuoff t n off : reg t -> reg n -> fits 12 off -> encodes (encSTRQuoff t n (16 * off)) (STR_Q, [t; n; 16 * off])
  | Enc_STRBuoff t n off : reg t -> reg n -> fits 12 off -> encodes (encSTRBuoff t n off) (STRB, [t; n; off])
  | Enc_LDRBuoff t n off : reg t -> reg n -> fits 12 off -> encodes (encLDRBuoff t n off) (LDRB, [t; n; off])
  | Enc_LDRSBuoff t n off : reg t -> reg n -> fits 12 off -> encodes (encLDRSBuoff t n off) (LDRSB, [t; n; off])
  | Enc_STRWuoff t n off : reg t -> reg n -> fits 12 off -> encodes (encSTRWuoff t n (4 * off)) (STR_W, [t; n; 4 * off])
  | Enc_LDRWuoff t n off : reg t -> reg n -> fits 12 off -> encodes (encLDRWuoff t n (4 * off)) (LDR_W, [t; n; 4 * off])
  | Enc_LDRSWuoff t n off : reg t -> reg n -> fits 12 off -> encodes (encLDRSWuoff t n (4 * off)) (LDRSW, [t; n; 4 * off])
  | Enc_STRH t n off : reg t -> reg n -> fits 12 off -> encodes (encSTRH t n (2 * off)) (STRH, [t; n; 2 * off])
  | Enc_LDRH t n off : reg t -> reg n -> fits 12 off -> encodes (encLDRH t n (2 * off)) (LDRH, [t; n; 2 * off])
  | Enc_LDRSH t n off : reg t -> reg n -> fits 12 off -> encodes (encLDRSH t n (2 * off)) (LDRSH, [t; n; 2 * off])
  | Enc_LDRDuoff t n off : reg t -> reg n -> fits 12 off -> encodes (encLDRDuoff t n (8 * off)) (LDR_D, [t; n; 8 * off])
  | Enc_STRDuoff t n off : reg t -> reg n -> fits 12 off -> encodes (encSTRDuoff t n (8 * off)) (STR_D, [t; n; 8 * off])
  | Enc_LDRSuoff t n off : reg t -> reg n -> fits 12 off -> encodes (encLDRSuoff t n (4 * off)) (LDR_S, [t; n; 4 * off])
  | Enc_STRSuoff t n off : reg t -> reg n -> fits 12 off -> encodes (encSTRSuoff t n (4 * off)) (STR_S, [t; n; 4 * off])
  | Enc_MOVZ d imm hw : reg d -> fits 16 imm -> fits 2 hw -> encodes (encMOVZ d imm (16 * hw)) (MOVZ, [d; imm; 16 * hw])
  | Enc_MOVK d imm hw : reg d -> fits 16 imm -> fits 2 hw -> encodes (encMOVK d imm (16 * hw)) (MOVK, [d; imm; 16 * hw])
  | Enc_MOVN d imm hw : reg d -> fits 16 imm -> fits 2 hw -> encodes (encMOVN d imm (16 * hw)) (MOVN, [d; imm; 16 * hw])
  | Enc_LDRlit t off : reg t -> fits_signed 19 off -> encodes (encLDRlit t off) (LDR_lit, [t; 4 * off])
  | Enc_LDRDlit t off : reg t -> fits_signed 19 off -> encodes (encLDRDlit t off) (LDR_lit_D, [t; 4 * off])
  | Enc_MUL d n m : reg d -> reg n -> reg m -> encodes (encMUL d n m) (MADD, [d; n; m; 31])
  | Enc_MSUB d n m a : reg d -> reg n -> reg m -> reg a -> encodes (encMSUB d n m a) (MSUB, [d; n; m; a])
  | Enc_CMPreg n m : reg n -> reg m -> encodes (encCMPreg n m) (SUBS, [31; n; m])
  | Enc_CMPimm0 n : reg n -> encodes (encCMPimm0 n) (SUBS_imm, [31; n; 0])
  | Enc_ADDimm d n imm : reg d -> reg n -> fits 12 imm -> encodes (encADDimm d n imm) (ADD_imm, [d; n; imm])
  | Enc_SUBimm d n imm : reg d -> reg n -> fits 12 imm -> encodes (encSUBimm d n imm) (SUB_imm, [d; n; imm])
  | Enc_LSLimm d n sh : reg d -> reg n -> fits 6 sh -> encodes (encLSLimm d n sh) (UBFM, [d; n; (64 - sh) mod 64; 63 - sh])
  | Enc_LSRimm d n sh : reg d -> reg n -> fits 6 sh -> encodes (encLSRimm d n sh) (UBFM, [d; n; sh; 63])
  | Enc_UBFM d n r s : reg d -> reg n -> fits 6 r -> fits 6 s -> encodes (encUBFM d n r s) (UBFM, [d; n; r; s])
  | Enc_ASR d n sh : reg d -> reg n -> fits 6 sh -> encodes (encASR d n sh) (SBFM, [d; n; sh; 63])
  | Enc_SXTB d n : reg d -> reg n -> encodes (encSXTB d n) (SBFM, [d; n; 0; 7])
  | Enc_SXTH d n : reg d -> reg n -> encodes (encSXTH d n) (SBFM, [d; n; 0; 15])
  | Enc_UXTB d n : reg d -> reg n -> encodes (encUXTB d n) (UBFM, [d; n; 0; 7])
  | Enc_UXTH d n : reg d -> reg n -> encodes (encUXTH d n) (UBFM, [d; n; 0; 15])
  | Enc_B off : fits_signed 26 off -> encodes (encB off) (Br, [4 * off])
  | Enc_BL off : fits_signed 26 off -> encodes (encBL off) (BL, [4 * off])
  | Enc_BR n : reg n -> encodes (encBR n) (BR, [n])
  | Enc_BLR n : reg n -> encodes (encBLR n) (BLR, [n])
  | Enc_RET : encodes encRET (RET, [regLR])
  | Enc_Bcond cond off : fits 4 cond -> fits_signed 19 off -> encodes (encBcond cond off) (Bcond, [cond; 4 * off])
  | Enc_CBZ t off : reg t -> fits_signed 19 off -> encodes (encCBZ t off) (CBZ, [t; 4 * off])
  | Enc_CBNZ t off : reg t -> fits_signed 19 off -> encodes (encCBNZ t off) (CBNZ, [t; 4 * off])
  | Enc_CSET d cond : reg d -> fits 4 cond -> encodes (encCSET d cond) (CSINC, [d; regXZR; regXZR; Z.lxor cond 1])
  | Enc_CSEL d n m cond : reg d -> reg n -> reg m -> fits 4 cond -> encodes (encCSEL d n m cond) (CSEL, [d; n; m; cond])
  | Enc_CCMP n m nzcv cond : reg n -> reg m -> fits 4 nzcv -> fits 4 cond -> encodes (encCCMP n m nzcv cond) (CCMP, [n; m; nzcv; cond])
  | Enc_STP t1 t2 n off : reg t1 -> reg t2 -> reg n -> fits_signed 7 off -> encodes (encSTP t1 t2 n (8 * off)) (STP, [t1; t2; n; 8 * off])
  | Enc_LDP t1 t2 n off : reg t1 -> reg t2 -> reg n -> fits_signed 7 off -> encodes (encLDP t1 t2 n (8 * off)) (LDP, [t1; t2; n; 8 * off])
  | Enc_SVC imm : fits 16 imm -> encodes (encSVC imm) (SVC, [imm])
  | Enc_NEG d n : reg d -> reg n -> encodes (encNEG d n) (SUB, [d; regXZR; n])
  | Enc_NEGS d m : reg d -> reg m -> encodes (encNEGS d m) (SUBS, [d; regXZR; m])
  | Enc_NGC d m : reg d -> reg m -> encodes (encNGC d m) (SBC, [d; regXZR; m])
  | Enc_MOVreg d n : reg d -> reg n -> encodes (encMOVreg d n) (ORR, [d; regXZR; n])
  | Enc_MVN d m : reg d -> reg m -> encodes (encMVN d m) (ORN, [d; regXZR; m])
  | Enc_ADR d off : reg d -> fits_signed 21 off -> encodes (encADR d off) (ADR, [d; off])
  | Enc_FCMPD n m : reg n -> reg m -> encodes (encFCMPD n m) (FCMP, [n; m])
  | Enc_FCMPDzero n : reg n -> encodes (encFCMPDzero n) (FCMP_zero, [n]).

(** * Every encoder is right *)

Lemma field_hit_b v s lo n : fits s v -> (s <=? n) && (0 <=? lo) && (0 <=? s) = true -> field (Z.shiftl v lo) lo n = v.
Proof.
  intros Hv H. rewrite !andb_true_iff, !Z.leb_le in H. destruct H as [[H1 H2] H3].
  rewrite (field_shiftl v s lo lo n Hv) by lia. by rewrite Z.eqb_refl, (proj2 (Z.leb_le s n)) by lia.
Qed.

Lemma field_above_b v k lo n : (0 <=? lo) && (0 <=? n) && (lo + n <=? k) = true -> field (Z.shiftl v k) lo n = 0.
Proof. intros H. rewrite !andb_true_iff, !Z.leb_le in H. destruct H as [[H1 H2] H3]. by apply field_above. Qed.

Lemma field_below_b v s k lo n : fits s v -> (0 <=? k) && (0 <=? s) && (k + s <=? lo) = true ->
  field (Z.shiftl v k) lo n = 0.
Proof.
  intros Hv H. rewrite !andb_true_iff, !Z.leb_le in H. destruct H as [[H1 H2] H3]. by apply (field_below v s k).
Qed.

Lemma shl32_small_b v s k : fits s v -> (0 <=? s) && (0 <=? k) && (s + k <=? 32) = true ->
  u32 v <<. k = Z.shiftl v k.
Proof.
  intros Hv H. rewrite !andb_true_iff, !Z.leb_le in H. destruct H as [[H1 H2] H3]. by apply (shl32_small v s).
Qed.

Lemma u32_fits_b v s : fits s v -> (s <=? 32) = true -> u32 v = Z.shiftl v 0.
Proof. intros Hv H. apply Z.leb_le in H. by apply (u32_fits v s). Qed.

(** Words in the normal form: constants and shifted operands. *)
Ltac words :=
  repeat match goal with
  | |- context [u32 regXZR <<. 10] => change (u32 regXZR <<. 10) with 31744
  | |- context [3 <<. 13] => change (3 <<. 13) with 24576
  | H : fits ?s ?v |- context [u32 ?v <<. ?k] => rewrite (shl32_small_b v s k H eq_refl)
  end;
  repeat match goal with
  | H : fits ?s ?v |- context [u32 ?v] => rewrite (u32_fits_b v s H eq_refl)
  end.

(** The fields of such a word. *)
Ltac fields :=
  rewrite ?field_lor;
  repeat match goal with
  | |- context [field (Zpos ?c) ?lo ?n] =>
      let x := eval vm_compute in (field (Zpos c) lo n) in change (field (Zpos c) lo n) with x
  | H : fits ?s ?v |- context [field (Z.shiftl ?v ?k) ?lo ?n] =>
      first [rewrite (field_hit_b v s k n H eq_refl) | rewrite (field_above_b v k lo n eq_refl)
            |rewrite (field_below_b v s k lo n H eq_refl)]
  end;
  rewrite ?Z.lor_0_l, ?Z.lor_0_r.

Lemma decode_as op args w : forallb (fun '(lo, n, v) => field w lo n =? v) (fixed op) = true ->
  map (extract w) (operands op) = args -> decode w = Some (op, args).
Proof. intros Hm <-. by apply decode_matches. Qed.

Ltac decodes :=
  words; apply decode_as;
  [cbn [fixed app forallb addsub_shifted addsub_imm with_carry logical two_source one_source three_source bitfield
        move_wide cond_select branch_reg load_literal load_store pair_offset fp_class fp_two fp_one fp_compare fp_int];
   fields; reflexivity
  |cbn [operands map extract]; fields; rewrite ?Z.mul_1_l; try reflexivity].

Lemma quot_scale k x : k <> 0 -> Z.quot (k * x) k = x.
Proof. intros Hk. rewrite Z.mul_comm. by apply Z.quot_mul. Qed.

Lemma land_low16 x : fits 16 x -> Z.land x 0xFFFF = x.
Proof. intros Hx. change 0xFFFF with (Z.ones 16). rewrite Z.land_ones by lia. by apply Z.mod_small. Qed.

Lemma land_u32 x : Z.land (u32 x) 0x3FFFFFF = Z.land x 0x3FFFFFF.
Proof.
  change 0x3FFFFFF with (Z.ones 26). rewrite !Z.land_ones by lia. unfold wrapU.
  replace (2 ^ 32) with (2 ^ 26 * 2 ^ 6) by lia. rewrite Z.rem_mul_r by lia.
  rewrite Z.mul_comm, Z.add_mod, Z.mod_mul, Z.add_0_r, !Z.mod_mod by lia. done.
Qed.

(** A signed offset: its field, and what the field means. *)
Lemma signed_field n off : 0 < n -> fits_signed n off ->
  exists v, Z.land off (Z.ones n) = v /\ fits n v /\ sign_extend n v = off.
Proof. intros. eexists. split; [done|]. split; [apply land_fits; lia|by apply sign_extend_land]. Qed.

Lemma adr_fields off : fits_signed 21 off -> exists hi lo, Z.land off 3 = lo /\ Z.land (Z.shiftr off 2) 0x7FFFF = hi /\
  fits 2 lo /\ fits 19 hi /\ sign_extend 21 (4 * hi + lo) = off.
Proof.
  intros Ho. eexists _, _. split; [done|]. split; [done|]. change 3 with (Z.ones 2). change 0x7FFFF with (Z.ones 19).
  split; [by apply land_fits|]. split; [by apply land_fits|].
  rewrite <- (sign_extend_land off 21) at 3 by (done || lia). f_equal.
  rewrite !Z.land_ones, Z.shiftr_div_pow2 by lia. change (2 ^ 2) with 4. change (2 ^ 19) with 524288.
  change (2 ^ 21) with 2097152. zdm.
Qed.

Lemma shift_field sh : fits 6 sh -> exists r, Z.land (64 - sh) 63 = r /\ fits 6 r /\ (64 - sh) mod 64 = r /\ fits 6 (63 - sh).
Proof.
  intros Hs. exists ((64 - sh) mod 64). change 63 with (Z.ones 6) at 1. rewrite Z.land_ones by lia.
  unfold fits in *. pose proof (Z.mod_pos_bound (64 - sh) 64 ltac:(lia)). change (2 ^ 6) with 64 in *. repeat split; lia.
Qed.

Lemma flip_fits c : fits 4 c -> fits 4 (Z.lxor c 1).
Proof.
  unfold fits. intros Hc. split; [apply Z.lxor_nonneg; lia|]. destruct (Z.eqb_spec (Z.lxor c 1) 0) as [->|]; [lia|].
  apply Z.log2_lt_pow2; [assert (0 <= Z.lxor c 1) by (apply Z.lxor_nonneg; lia); lia|].
  apply Z.le_lt_trans with (Z.max (Z.log2 c) (Z.log2 1)); [apply Z.log2_lxor; lia|].
  apply Z.max_lub_lt; [|done]. destruct (Z.eqb_spec c 0) as [->|]; [done|]. apply Z.log2_lt_pow2; lia.
Qed.

(** The Go expressions of the immediates. *)
Ltac immediates :=
  rewrite ?quot_scale, ?land_u32 by discriminate;
  repeat match goal with
  | H : fits 16 ?x |- context [Z.land ?x 0xFFFF] => rewrite (land_low16 x H)
  | H : fits_signed 7 ?x |- _ => destruct (signed_field 7 x eq_refl H) as (? & E & ? & ?); change (Z.ones 7) with 0x7F in E; rewrite E; clear H
  | H : fits_signed 19 ?x |- _ => destruct (signed_field 19 x eq_refl H) as (? & E & ? & ?); change (Z.ones 19) with 0x7FFFF in E; rewrite E; clear H
  | H : fits_signed 26 ?x |- _ => destruct (signed_field 26 x eq_refl H) as (v & E & ? & ?); change (Z.ones 26) with 0x3FFFFFF in E;
      rewrite E, <- (Z.shiftl_0_r v); clear H
  | H : fits_signed 21 ?x |- _ => destruct (adr_fields x H) as (? & ? & E1 & E2 & ? & ? & ?); rewrite E1, E2; clear H
  | H : fits 6 ?sh |- context [64 - ?sh] => destruct (shift_field sh H) as (? & E1 & ? & E2 & ?); rewrite E1, E2; clear H
  | H : fits 4 ?c |- context [Z.lxor ?c 1] => apply flip_fits in H; revert H; generalize (Z.lxor c 1); intros ? ?
  end.

Lemma encodes_decode w i : encodes w i -> decode w = Some i.
Proof.
  destruct 1;
  cbv delta [
    encMOVZ encMOVK encLDRuoff encSTRuoff encLDRQuoff encSTRQuoff encLDRlit encADDreg encSUBreg encSUBext
    encMUL encMSUB encSDIV encUDIV encCMPreg encCMPimm0 encLSLimm encB encBL encBR encBLR encBcond encRET
    encCSET encSTP encLDP encSVC encSTRBuoff encLDRBuoff encLDRSBuoff encCBZ encCBNZ encNEG encMOVreg
    encADDimm encSUBimm encAND encORR encEOR encMVN encLSLV encASRV encMOVN encADR encLSRimm encLSRV
    encSTRWuoff encLDRWuoff encLDRSWuoff encSTRH encLDRH encLDRSH encFADDD encFSUBD encFMULD encFDIVD encFNEGD
    encFABSD encFMOVDD encFCMPD encFCMPDzero encSCVTFD encFCVTZSD encFMOVtoGP encFMOVfromGP encLDRDuoff
    encSTRDuoff encLDRSuoff encSTRSuoff encFCVTDS encFCVTSD encLDRDlit encSXTB encSXTH encUXTB encUXTH
    encREV16 encREV32 encREV64 encCLZ encCLZ32 encRBIT encRBIT32 encCNT8B encADDVb encUMOVb0 encADDS encADC
    encSUBS encSBC encUMULH encSMULH encNEGS encNGC encUBFM encASR encCCMP encSBCS encCSEL] beta zeta; immediates.
  all: decodes.
  all: repeat match goal with H : sign_extend _ _ = _ |- _ => rewrite H; clear H end; reflexivity.
Qed.

(** An encoded word is a word. *)
Lemma lor_word a b : 0 <= a < 2 ^ 32 -> 0 <= b < 2 ^ 32 -> 0 <= a .| b < 2 ^ 32.
Proof.
  intros Ha Hb. split; [apply Z.lor_nonneg; lia|]. destruct (Z.eqb_spec (a .| b) 0) as [->|Hn]; [lia|].
  assert (0 <= a .| b) by (apply Z.lor_nonneg; lia). apply Z.log2_lt_pow2; [lia|]. rewrite Z.log2_lor by lia.
  apply Z.max_lub_lt; [destruct (Z.eqb_spec a 0) as [->|]|destruct (Z.eqb_spec b 0) as [->|]]; try done;
    apply Z.log2_lt_pow2; lia.
Qed.

Lemma land_word a m : 0 <= m < 2 ^ 32 -> 0 <= Z.land a m < 2 ^ 32.
Proof.
  intros Hm. split; [apply Z.land_nonneg; lia|]. apply Z.le_lt_trans with m; [|lia].
  apply Z.ldiff_le; [lia|]. apply Z.bits_inj'. intros i Hi. rewrite Z.ldiff_spec, Z.land_spec, Z.bits_0.
  by destruct (Z.testbit a i), (Z.testbit m i).
Qed.

Lemma u32_word x : 0 <= u32 x < 2 ^ 32.
Proof. apply (Z.mod_pos_bound x (2 ^ 32)). lia. Qed.

Lemma encodes_word w i : encodes w i -> 0 <= w < 2 ^ 32.
Proof.
  destruct 1;
  cbv delta [
    encMOVZ encMOVK encLDRuoff encSTRuoff encLDRQuoff encSTRQuoff encLDRlit encADDreg encSUBreg encSUBext
    encMUL encMSUB encSDIV encUDIV encCMPreg encCMPimm0 encLSLimm encB encBL encBR encBLR encBcond encRET
    encCSET encSTP encLDP encSVC encSTRBuoff encLDRBuoff encLDRSBuoff encCBZ encCBNZ encNEG encMOVreg
    encADDimm encSUBimm encAND encORR encEOR encMVN encLSLV encASRV encMOVN encADR encLSRimm encLSRV
    encSTRWuoff encLDRWuoff encLDRSWuoff encSTRH encLDRH encLDRSH encFADDD encFSUBD encFMULD encFDIVD encFNEGD
    encFABSD encFMOVDD encFCMPD encFCMPDzero encSCVTFD encFCVTZSD encFMOVtoGP encFMOVfromGP encLDRDuoff
    encSTRDuoff encLDRSuoff encSTRSuoff encFCVTDS encFCVTSD encLDRDlit encSXTB encSXTH encUXTB encUXTH
    encREV16 encREV32 encREV64 encCLZ encCLZ32 encRBIT encRBIT32 encCNT8B encADDVb encUMOVb0 encADDS encADC
    encSUBS encSBC encUMULH encSMULH encNEGS encNGC encUBFM encASR encCCMP encSBCS encCSEL
    shl32] beta zeta;
  repeat first [apply lor_word | apply land_word | apply u32_word | lia].
Qed.
