(* ===== verification/CodeBuilder.v ===== *)
(** The code builder of elfgen.go: instruction words, labels, branch fixups,
    the literal pool and the peephole optimiser. *)
From stdpp Require Import gmap strings.
From S2P Require Import Prelude Arm64Enc.
#[local] Open Scope Z_scope.
#[local] Open Scope word_scope.

(** * The builder *)

Inductive fixupKind := fixB | fixBL | fixBcond | fixCBZ | fixCBNZ | fixADR.

Record branchFixup := Fixup { at_ : nat; label : string; kind : fixupKind }.

Record codeBuilder := CodeBuilder {
  instrs : list Z;
  labels : gmap string Z;
  fixups : list branchFixup;
  poolIdx : gmap string nat;
  externBLs : list (nat * string);
  peepholeBarrier : bool
}.

(** [cb.instrs[2*k]] and [cb.instrs[2*k+1]] take the halves of a 64-bit
    value; an index out of range panics. *)
Definition set_entry (ws : list Z) (k : nat) (v : Z) : option (list Z) :=
  if (2 * k + 1 <? length ws)%nat
  then Some (<[(2 * k + 1)%nat := u32 (Z.shiftr v 32)]> (<[(2 * k)%nat := u32 v]> ws))
  else None.

(** Pool indices: every name takes the next one, a later use of the name
    overriding an earlier one; function references do not. *)
Definition pool_add (s : gmap string nat * nat) (name : string) : gmap string nat * nat :=
  (<[name := s.2]> s.1, S s.2).

Definition pool_add_new (s : gmap string nat * nat) (name : string) : gmap string nat * nat :=
  match s.1 !! name with
  | Some _ => s
  | None => pool_add s name
  end.

(** [cb.poolIdx[name]]: a missing key reads as zero. *)
Definition pool_index (idx : gmap string nat) (name : string) : nat := default 0%nat (idx !! name).

Definition fill_consts (idx : gmap string nat) (fconsts : list (string * Z)) (ws : list Z) : option (list Z) :=
  foldl (fun ws '(l, bits) => ws ← ws; set_entry ws (pool_index idx l) bits) (Some ws) fconsts.

(** A constant comes as its label and the bits of its IEEE double. *)
Definition newCodeBuilder (globals strLits : list string) (fconsts : list (string * Z)) (funcRefs : list string)
    : option codeBuilder :=
  let s := foldl pool_add (∅, 0%nat) globals in
  let s := foldl pool_add s strLits in
  let s := foldl pool_add s (fconsts.*1) in
  let '(idx, n) := foldl pool_add_new s funcRefs in
  ws ← fill_consts idx fconsts (replicate (2 * n) 0);
  Some (CodeBuilder ws ∅ [] idx [] false).

Definition emit (cb : codeBuilder) (w : Z) : codeBuilder :=
  CodeBuilder (instrs cb ++ [w]) (labels cb) (fixups cb) (poolIdx cb) (externBLs cb) false.

(** One chunk of 16 bits of [emitMOVimm]. *)
Definition mov_chunk (rd uval : Z) (s : codeBuilder * bool) (sh : Z) : codeBuilder * bool :=
  let '(cb, first) := s in
  let chunk := Z.land (Z.shiftr uval sh) 0xFFFF in
  if (chunk =? 0) && negb first then (cb, first)
  else if first then (emit cb (encMOVZ rd chunk sh), false)
  else (emit cb (encMOVK rd chunk sh), first).

Definition emitMOVimm (cb : codeBuilder) (rd val : Z) : codeBuilder :=
  let uval := u64 val in
  let '(cb, first) := foldl (mov_chunk rd uval) (cb, true) [0; 16; 32; 48] in
  if first : bool then emit cb (encMOVZ rd 0 0) else cb.

Definition peepholeElim (cb : codeBuilder) (ldrEnc : Z) : bool :=
  match list.last (instrs cb) with
  | Some prev => if peepholeBarrier cb then false else prev =? Z.lxor ldrEnc (1 <<. 22)
  | None => false
  end.

Definition emitLDRsp (cb : codeBuilder) (rt byteOff : Z) : codeBuilder :=
  let enc := encLDRuoff rt regSP byteOff in
  if peepholeElim cb enc then cb else emit cb enc.

(** The distance from the next instruction to a pool entry, in words. *)
Definition pool_offset (cb : codeBuilder) (name : string) : Z :=
  2 * Z.of_nat (pool_index (poolIdx cb) name) - Z.of_nat (length (instrs cb)).

Definition regX9 : Z := 9.

Definition emitLDRglobal (cb : codeBuilder) (name : string) : codeBuilder :=
  emit cb (encLDRlit regX9 (pool_offset cb name)).

Definition emitLDRFPconst (cb : codeBuilder) (l : string) (fd : Z) : codeBuilder :=
  emit cb (encLDRDlit fd (pool_offset cb l)).

Definition defineLabel (cb : codeBuilder) (name : string) : codeBuilder :=
  CodeBuilder (instrs cb) (<[name := Z.of_nat (length (instrs cb))]> (labels cb)) (fixups cb) (poolIdx cb)
    (externBLs cb) true.

Definition add_fixup (cb : codeBuilder) (l : string) (k : fixupKind) : codeBuilder :=
  CodeBuilder (instrs cb) (labels cb) (fixups cb ++ [Fixup (length (instrs cb)) l k]) (poolIdx cb)
    (externBLs cb) (peepholeBarrier cb).

Definition emitB (cb : codeBuilder) (l : string) : codeBuilder := emit (add_fixup cb l fixB) 0x14000000.
Definition emitBL (cb : codeBuilder) (l : string) : codeBuilder := emit (add_fixup cb l fixBL) 0x94000000.

Definition emitBLextern (cb : codeBuilder) (sym : string) : codeBuilder :=
  emit (CodeBuilder (instrs cb) (labels cb) (fixups cb) (poolIdx cb)
          (externBLs cb ++ [(length (instrs cb), sym)]) (peepholeBarrier cb)) 0x94000000.

Definition emitBcond (cb : codeBuilder) (cond : Z) (l : string) : codeBuilder :=
  emit (add_fixup cb l fixBcond) (u32 (0x54000000 .| cond)).
Definition emitCBZ (cb : codeBuilder) (rt : Z) (l : string) : codeBuilder :=
  emit (add_fixup cb l fixCBZ) (u32 (0xB4000000 .| rt)).
Definition emitCBNZ (cb : codeBuilder) (rt : Z) (l : string) : codeBuilder :=
  emit (add_fixup cb l fixCBNZ) (u32 (0xB5000000 .| rt)).
Definition emitADR (cb : codeBuilder) (rd : Z) (l : string) : codeBuilder :=
  emit (add_fixup cb l fixADR) (0x10000000 .| u32 rd).

(** * Fixups *)

Inductive fixup_error := UndefinedLabel (l : string) | OutOfRange (l : string) (offset : Z).

(** The range of a kind of branch, in words, and the patched word. *)
Definition out_of_range (k : fixupKind) (offset : Z) : bool :=
  match k with
  | fixB | fixBL => (offset <? - 2 ^ 25) || (2 ^ 25 <=? offset)
  | fixBcond | fixCBZ | fixCBNZ => (offset <? - 2 ^ 18) || (2 ^ 18 <=? offset)
  | fixADR => (offset * 4 <? - 2 ^ 20) || (2 ^ 20 <=? offset * 4)
  end.

Definition patched (k : fixupKind) (old offset : Z) : Z :=
  match k with
  | fixB | fixBL => Z.land old 0xFC000000 .| Z.land (u32 offset) 0x3FFFFFF
  | fixBcond | fixCBZ | fixCBNZ => Z.land old 0xFF00001F .| Z.land (u32 offset) 0x7FFFF <<. 5
  | fixADR =>
      let byteOff := offset * 4 in
      let immlo := Z.land byteOff 3 in
      let immhi := Z.land (Z.shiftr byteOff 2) 0x7FFFF in
      Z.land old 0x9000001F .| u32 immlo <<. 29 .| u32 immhi <<. 5
  end.

(** The offset an error reports: in bytes for ADR. *)
Definition reported (k : fixupKind) (offset : Z) : Z := if k is fixADR then offset * 4 else offset.

(** [None] is the panic of an index out of range. *)
Definition apply_fixup (lbls : gmap string Z) (ws : list Z) (fx : branchFixup) : option (fixup_error + list Z) :=
  match lbls !! label fx with
  | None => Some (inl (UndefinedLabel (label fx)))
  | Some tgt =>
      let offset := tgt - Z.of_nat (at_ fx) in
      old ← ws !! at_ fx;
      if out_of_range (kind fx) offset then Some (inl (OutOfRange (label fx) (reported (kind fx) offset)))
      else Some (inr (<[at_ fx := patched (kind fx) old offset]> ws))
  end.

Fixpoint apply_fixups (lbls : gmap string Z) (ws : list Z) (fxs : list branchFixup) : option (fixup_error + list Z) :=
  match fxs with
  | [] => Some (inr ws)
  | fx :: fxs =>
      r ← apply_fixup lbls ws fx;
      match r with
      | inl e => Some (inl e)
      | inr ws => apply_fixups lbls ws fxs
      end
  end.

Definition applyFixups (cb : codeBuilder) : option (fixup_error + list Z) :=
  apply_fixups (labels cb) (instrs cb) (fixups cb).

(** The addresses in any order of the map. *)
Definition patchPool (cb : codeBuilder) (addrs : list (string * Z)) : option (list Z) :=
  foldl (fun ws '(name, addr) => ws ← ws; set_entry ws (pool_index (poolIdx cb) name) addr) (Some (instrs cb)) addrs.

(** * Operations as a language, and what they keep *)

Inductive op :=
  | Emit (w : Z) | EmitMOVimm (rd val : Z) | EmitLDRsp (rt byteOff : Z)
  | EmitLDRglobal (name : string) | EmitLDRFPconst (l : string) (fd : Z)
  | DefineLabel (name : string) | EmitB (l : string) | EmitBL (l : string) | EmitBLextern (sym : string)
  | EmitBcond (cond : Z) (l : string) | EmitCBZ (rt : Z) (l : string) | EmitCBNZ (rt : Z) (l : string)
  | EmitADR (rd : Z) (l : string).

Definition build (cb : codeBuilder) (o : op) : codeBuilder :=
  match o with
  | Emit w => emit cb w
  | EmitMOVimm rd val => emitMOVimm cb rd val
  | EmitLDRsp rt off => emitLDRsp cb rt off
  | EmitLDRglobal name => emitLDRglobal cb name
  | EmitLDRFPconst l fd => emitLDRFPconst cb l fd
  | DefineLabel name => defineLabel cb name
  | EmitB l => emitB cb l
  | EmitBL l => emitBL cb l
  | EmitBLextern sym => emitBLextern cb sym
  | EmitBcond cond l => emitBcond cb cond l
  | EmitCBZ rt l => emitCBZ cb rt l
  | EmitCBNZ rt l => emitCBNZ cb rt l
  | EmitADR rd l => emitADR cb rd l
  end.

(** Register and condition operands in their fields. *)
Definition op_ok (o : op) : Prop :=
  match o with
  | EmitBcond cond _ => fits 4 cond
  | EmitCBZ rt _ | EmitCBNZ rt _ => reg rt
  | EmitADR rd _ => reg rd
  | _ => True
  end.

(** What a fixup's word is before it is patched, and the instruction it is to
    become. *)
Inductive placeholder : fixupKind -> Z -> (Z -> insn) -> Prop :=
  | PhB : placeholder fixB 0x14000000 (fun off => (Br, [4 * off]))
  | PhBL : placeholder fixBL 0x94000000 (fun off => (BL, [4 * off]))
  | PhBcond cond : fits 4 cond -> placeholder fixBcond (u32 (0x54000000 .| cond)) (fun off => (Bcond, [cond; 4 * off]))
  | PhCBZ rt : reg rt -> placeholder fixCBZ (u32 (0xB4000000 .| rt)) (fun off => (CBZ, [rt; 4 * off]))
  | PhCBNZ rt : reg rt -> placeholder fixCBNZ (u32 (0xB5000000 .| rt)) (fun off => (CBNZ, [rt; 4 * off]))
  | PhADR rd : reg rd -> placeholder fixADR (0x10000000 .| u32 rd) (fun off => (ADR, [rd; 4 * off])).

Definition placed (ws : list Z) (fx : branchFixup) : Prop :=
  exists w i, ws !! at_ fx = Some w /\ placeholder (kind fx) w i.

Record builder_ok (cb : codeBuilder) : Prop := {
  ok_placed : Forall (placed (instrs cb)) (fixups cb);
  ok_distinct : NoDup (at_ <$> fixups cb);
  ok_labels : map_Forall (fun _ t => 0 <= t <= Z.of_nat (length (instrs cb))) (labels cb);
  ok_barrier : forall l, labels cb !! l = Some (Z.of_nat (length (instrs cb))) -> peepholeBarrier cb = true
}.

Lemma placed_snoc ws w fx : placed ws fx -> placed (ws ++ [w]) fx.
Proof. intros (x & i & Hx & Hp). exists x, i. split; [|done]. by apply lookup_app_l_Some. Qed.

Lemma placed_lt ws fx : placed ws fx -> (at_ fx < length ws)%nat.
Proof. intros (x & i & Hx & _). by apply lookup_lt_Some in Hx. Qed.

Lemma emit_ok cb w : builder_ok cb -> builder_ok (emit cb w).
Proof.
  intros [H1 H2 H3 H4]. split; cbn [emit instrs labels fixups peepholeBarrier]; rewrite ?length_app; cbn [length].
  - eapply Forall_impl; [|exact H1]. intros. by apply placed_snoc.
  - done.
  - eapply map_Forall_impl; [exact H3|]. cbn. lia.
  - intros l Hl. apply H3 in Hl. lia.
Qed.

Lemma emit_fixup_ok cb l k w i : builder_ok cb -> placeholder k w i -> builder_ok (emit (add_fixup cb l k) w).
Proof.
  intros [H1 H2 H3 H4] Hp. split; cbn [emit add_fixup instrs labels fixups peepholeBarrier];
    rewrite ?length_app; cbn [length].
  - apply Forall_app. split; [eapply Forall_impl; [|exact H1]; intros; by apply placed_snoc|].
    constructor; [|constructor]. exists w, i. split; [|done]. by apply list_lookup_middle.
  - rewrite fmap_app. apply list.NoDup_app. split; [done|]. split; [|apply NoDup_singleton].
    intros x Hx Hx'. apply list_elem_of_singleton in Hx'. cbn in Hx'. subst x.
    apply list_elem_of_fmap in Hx as (fx & E & Hfx). rewrite Forall_forall in H1.
    apply list_elem_of_In in Hfx. apply H1 in Hfx. apply placed_lt in Hfx. lia.
  - eapply map_Forall_impl; [exact H3|]. cbn. lia.
  - intros x Hx. apply H3 in Hx. lia.
Qed.

Lemma mov_chunk_ok rd uval s sh : builder_ok s.1 -> builder_ok (mov_chunk rd uval s sh).1.
Proof. intros H. destruct s as [cb []]; cbn in *; repeat case_match; simpl; auto using emit_ok. Qed.

Lemma define_ok cb name : builder_ok cb -> builder_ok (defineLabel cb name).
Proof.
  intros [H1 H2 H3 H4]. split; cbn [defineLabel instrs labels fixups peepholeBarrier]; try done.
  apply map_Forall_insert_2; [lia|done].
Qed.

Lemma build_ok cb o : op_ok o -> builder_ok cb -> builder_ok (build cb o).
Proof.
  intros Ho Hcb. destruct o; cbn [build op_ok] in *; try (by apply emit_ok).
  - unfold emitMOVimm. cbn [foldl].
    assert (H : builder_ok (foldl (mov_chunk rd (u64 val)) (cb, true) [0; 16; 32; 48]).1)
      by (cbn [foldl]; auto using mov_chunk_ok).
    cbn [foldl] in H. destruct (mov_chunk _ _ _ _) as [cb' []]; cbn in H; auto using emit_ok.
  - unfold emitLDRsp. destruct (peepholeElim _ _); auto using emit_ok.
  - by apply define_ok.
  - apply (emit_fixup_ok cb l fixB _ _ Hcb PhB).
  - apply (emit_fixup_ok cb l fixBL _ _ Hcb PhBL).
  - apply emit_ok. by destruct Hcb.
  - apply (emit_fixup_ok cb l fixBcond _ _ Hcb (PhBcond cond Ho)).
  - apply (emit_fixup_ok cb l fixCBZ _ _ Hcb (PhCBZ rt Ho)).
  - apply (emit_fixup_ok cb l fixCBNZ _ _ Hcb (PhCBNZ rt Ho)).
  - apply (emit_fixup_ok cb l fixADR _ _ Hcb (PhADR rd Ho)).
Qed.

Lemma new_ok globals strLits fconsts funcRefs cb : newCodeBuilder globals strLits fconsts funcRefs = Some cb ->
  builder_ok cb.
Proof.
  unfold newCodeBuilder. destruct (foldl pool_add_new _ _) as [idx n]. intros H.
  destruct (fill_consts _ _ _) as [ws|]; [|done]. injection H as <-.
  split; cbn; try done; constructor.
Qed.

Lemma build_all_ok os : forall cb, Forall op_ok os -> builder_ok cb -> builder_ok (foldl build cb os).
Proof.
  induction os as [|o os IH]; intros cb Hos Hcb; cbn [foldl]; [done|]. inversion Hos. apply IH; [done|]. by apply build_ok.
Qed.

(** * Patching *)

Lemma land_reg x m : reg x -> Z.land 31 m = 31 -> Z.land x m = x.
Proof.
  intros Hx Hm. assert (E : Z.land x 31 = x).
  { change 31 with (Z.ones 5). rewrite Z.land_ones by lia. by apply Z.mod_small. }
  by rewrite <- E, <- Z.land_assoc, Hm at 1.
Qed.

Lemma fits_4_5 c : fits 4 c -> reg c.
Proof. unfold fits. lia. Qed.

Lemma u32_base b x : 0 <= b < 2 ^ 32 -> reg x -> u32 (b .| x) = b .| x.
Proof.
  intros Hb Hx. unfold fits in Hx. apply wrapU_small. apply lor_word; lia.
Qed.

Lemma land_u32_19 x : Z.land (u32 x) 0x7FFFF = Z.land x 0x7FFFF.
Proof.
  change 0x7FFFF with (Z.ones 19). rewrite !Z.land_ones by lia. unfold wrapU.
  replace (2 ^ 32) with (2 ^ 19 * 2 ^ 13) by lia. rewrite Z.rem_mul_r by lia.
  rewrite Z.mul_comm, Z.add_mod, Z.mod_mul, Z.add_0_r, !Z.mod_mod by lia. done.
Qed.

(** The word with a cleared offset, a 19-bit offset put in. *)
Lemma patch_19 base x off : 0 <= base < 2 ^ 32 -> Z.land base 0xFF00001F = base -> reg x ->
  Z.land (u32 (base .| x)) 0xFF00001F .| Z.land (u32 off) 0x7FFFF <<. 5 =
  base .| u32 (Z.land off 0x7FFFF) <<. 5 .| u32 x.
Proof.
  intros Hb Hbm Hx. rewrite u32_base, Z.land_lor_distr_l, Hbm, (land_reg x), land_u32_19 by done.
  assert (Hf : fits 19 (Z.land off 0x7FFFF)) by (change 0x7FFFF with (Z.ones 19); by apply land_fits).
  rewrite (shl32_small_b _ 19 5 Hf eq_refl), (u32_fits_b x 5 Hx eq_refl), Z.shiftl_0_r.
  assert (E : Z.land off 0x7FFFF <<. 5 = Z.shiftl (Z.land off 0x7FFFF) 5).
  { unfold shl32. apply wrapU_small. unfold fits in Hf. rewrite Z.shiftl_mul_pow2 by lia. lia. }
  rewrite E. by rewrite <- !Z.lor_assoc, (Z.lor_comm x).
Qed.

(** A placeholder patched with an offset in range is the instruction it was
    meant to be. *)
Lemma patched_decodes k w i off : placeholder k w i -> out_of_range k off = false -> decode (patched k w off) = Some (i off).
Proof.
  intros Hp Hr. apply encodes_decode. destruct Hp as [| |c Hc|r Hc|r Hc|r Hc]; cbn [out_of_range] in Hr;
    apply orb_false_iff in Hr as [H1 H2]; apply Z.ltb_ge in H1; apply Z.leb_gt in H2; unfold patched.
  - apply (Enc_B off). unfold fits_signed. lia.
  - apply (Enc_BL off). unfold fits_signed. lia.
  - rewrite patch_19; [|lia|done|by apply fits_4_5]. apply (Enc_Bcond c off); [done|]. unfold fits_signed. lia.
  - rewrite patch_19; [|lia|done|done]. apply (Enc_CBZ r off); [done|]. unfold fits_signed. lia.
  - rewrite patch_19; [|lia|done|done]. apply (Enc_CBNZ r off); [done|]. unfold fits_signed. lia.
  - cbv zeta. assert (E : Z.land (0x10000000 .| u32 r) 0x9000001F = 0x10000000 .| u32 r).
    { rewrite (u32_fits_b r 5 Hc eq_refl), Z.shiftl_0_r, Z.land_lor_distr_l. f_equal. by apply land_reg. }
    rewrite E, <- !Z.lor_assoc, (Z.lor_comm (u32 r)), !Z.lor_assoc, (Z.mul_comm 4).
    apply (Enc_ADR r (off * 4)); [done|]. unfold fits_signed. lia.
Qed.

(** Labels in range: the condition under which a fixup goes through. *)
Definition resolvable (lbls : gmap string Z) (fx : branchFixup) : Prop :=
  exists tgt, lbls !! label fx = Some tgt /\ out_of_range (kind fx) (tgt - Z.of_nat (at_ fx)) = false.

#[export] Instance resolvable_dec lbls fx : Decision (resolvable lbls fx).
Proof.
  unfold resolvable, Decision. destruct (lbls !! label fx) as [t|]; [|by right; intros (? & [=] & _)].
  destruct (out_of_range (kind fx) (t - Z.of_nat (at_ fx))) eqn:E; [right|left; eauto].
  intros (? & [= <-] & Ht). congruence.
Defined.

(** The word a fixup leaves: a branch over the distance to its label. *)
Definition resolved (lbls : gmap string Z) (ws ws' : list Z) (fx : branchFixup) : Prop :=
  exists tgt w w' i, lbls !! label fx = Some tgt /\ ws !! at_ fx = Some w /\ placeholder (kind fx) w i /\
    ws' !! at_ fx = Some w' /\ decode w' = Some (i (tgt - Z.of_nat (at_ fx))).

Lemma apply_fixup_spec lbls ws fx : placed ws fx ->
  (resolvable lbls fx -> exists w, apply_fixup lbls ws fx = Some (inr (<[at_ fx := w]> ws)) /\
     resolved lbls ws (<[at_ fx := w]> ws) fx) /\
  (~ resolvable lbls fx -> exists e, apply_fixup lbls ws fx = Some (inl e)).
Proof.
  intros (w & i & Hw & Hp). unfold apply_fixup, resolvable. destruct (lbls !! label fx) as [tgt|] eqn:El.
  2: { split; [intros (? & [=] & _)|eauto]. }
  rewrite Hw. cbn [mbind option_bind]. destruct (out_of_range _ _) eqn:Er; split.
  - intros (t & [= <-] & Ht). congruence.
  - eauto.
  - intros _. eexists. split; [done|]. exists tgt, w, (patched (kind fx) w (tgt - Z.of_nat (at_ fx))), i.
    split; [done|]. split; [done|]. split; [done|]. split; [|by apply patched_decodes].
    apply list_lookup_insert_eq. by apply lookup_lt_Some in Hw.
  - intros Hn. exfalso. apply Hn. eauto.
Qed.

Lemma placed_other ws fx fx' w : at_ fx <> at_ fx' -> placed ws fx' -> placed (<[at_ fx := w]> ws) fx'.
Proof. intros Hne (x & i & Hx & Hp). exists x, i. split; [|done]. by rewrite list_lookup_insert_ne. Qed.

Lemma resolved_other lbls ws ws' fx fx' w : at_ fx <> at_ fx' -> resolved lbls (<[at_ fx := w]> ws) ws' fx' ->
  resolved lbls ws ws' fx'.
Proof.
  intros Hne (t & x & x' & i & H1 & H2 & H3). exists t, x, x', i. rewrite list_lookup_insert_ne in H2 by done. eauto.
Qed.

Lemma apply_fixups_spec lbls fxs : forall ws, Forall (placed ws) fxs -> NoDup (at_ <$> fxs) ->
  (Forall (resolvable lbls) fxs -> exists ws', apply_fixups lbls ws fxs = Some (inr ws') /\
     length ws' = length ws /\ Forall (resolved lbls ws ws') fxs /\
     forall p, p ∉ (at_ <$> fxs) -> ws' !! p = ws !! p) /\
  (~ Forall (resolvable lbls) fxs -> exists e, apply_fixups lbls ws fxs = Some (inl e)).
Proof.
  induction fxs as [|fx fxs IH]; intros ws Hp Hn; cbn [apply_fixups].
  { split; [|intros H; exfalso; apply H; constructor]. intros _. exists ws. split; [done|]. split; [done|]. split; [constructor|done]. }
  apply Forall_cons_1 in Hp as [Hfx Hfxs]. rewrite fmap_cons in Hn. apply list.NoDup_cons in Hn as [Hin Hn].
  assert (Hne : forall fx', fx' ∈ fxs -> at_ fx <> at_ fx').
  { intros fx' Hfx' E. apply Hin. rewrite E. by apply list_elem_of_fmap_2. }
  assert (Hpl : forall w, Forall (placed (<[at_ fx := w]> ws)) fxs).
  { intros w. apply list.Forall_forall. intros fx' Hfx'. apply placed_other; [by apply Hne|].
    by apply (proj1 (list.Forall_forall _ _) Hfxs). }
  destruct (apply_fixup_spec lbls ws fx Hfx) as [Hok Hbad]. split.
  - intros Hr. apply Forall_cons_1 in Hr as [Hr Hrs]. destruct (Hok Hr) as (w & -> & Hres). cbn [mbind option_bind].
    destruct (IH _ (Hpl w) Hn) as [IH1 _]. destruct (IH1 Hrs) as (ws' & -> & HL & HR & HF). exists ws'. split; [done|].
    rewrite HL, length_insert. split; [done|]. split.
    + constructor.
      * destruct Hres as (t & x & x' & i & H1 & H2 & H3 & H4 & H5). exists t, x, x', i. rewrite HF by done. eauto 10.
      * apply list.Forall_forall. intros fx' Hfx'. eapply resolved_other; [by apply Hne|].
        by apply (proj1 (list.Forall_forall _ _) HR).
    + intros p Hpn. rewrite fmap_cons in Hpn. apply not_elem_of_cons in Hpn as [Hp1 Hp2].
      rewrite HF by done. by rewrite list_lookup_insert_ne.
  - intros Hr. destruct (decide (resolvable lbls fx)) as [H1|H1].
    + destruct (Hok H1) as (w & -> & _). cbn [mbind option_bind].
      apply (IH _ (Hpl w) Hn). intros H2. apply Hr. by constructor.
    + destruct (Hbad H1) as (e & ->). cbn [mbind option_bind]. eauto.
Qed.
