(* ===== verification/CodeExec.v ===== *)
(** What the words of the code builder do: an AArch64 machine for the moves
    and the 64-bit loads and stores, and the correctness of immediate loads,
    of the literal pool and of the peephole optimiser. *)
From stdpp Require Import gmap strings.
From S2P Require Import Prelude Arm64Enc CodeBuilder.
#[local] Open Scope Z_scope.
#[local] Open Scope word_scope.

(** * The machine *)

(** General registers X0 to X30, the stack pointer, and memory by byte. *)
Record machine := Machine { regs : Z -> Z; sp : Z; mem : Z -> Z }.

(** Register 31 reads as zero and ignores writes; as a base it is the stack
    pointer. *)
Definition read_reg (m : machine) (r : Z) : Z := if r =? 31 then 0 else regs m r.
Definition write_reg (m : machine) (r v : Z) : machine :=
  if r =? 31 then m else Machine (fun x => if x =? r then v else regs m x) (sp m) (mem m).
Definition base_reg (m : machine) (r : Z) : Z := if r =? 31 then sp m else regs m r.

(** Eight bytes, least significant first, at an address modulo 2^64. *)
Fixpoint load_bytes (m : Z -> Z) (a : Z) (n : nat) : Z :=
  match n with
  | O => 0
  | S n => m (u64 a) + 256 * load_bytes m (a + 1) n
  end.

Fixpoint store_bytes (m : Z -> Z) (a v : Z) (n : nat) : Z -> Z :=
  match n with
  | O => m
  | S n => fun x => if x =? u64 a then v mod 256 else store_bytes m (a + 1) (v / 256) n x
  end.

Definition exec_insn (m : machine) (i : insn) : option machine :=
  match i with
  | (MOVZ, [d; imm; sh]) => Some (write_reg m d (Z.shiftl imm sh))
  | (MOVK, [d; imm; sh]) =>
      Some (write_reg m d (Z.ldiff (read_reg m d) (Z.shiftl 0xFFFF sh) .| Z.shiftl imm sh))
  | (LDR_X, [t; n; off]) => Some (write_reg m t (load_bytes (mem m) (base_reg m n + off) 8))
  | (STR_X, [t; n; off]) =>
      Some (Machine (regs m) (sp m) (store_bytes (mem m) (base_reg m n + off) (read_reg m t) 8))
  | _ => None
  end.

Definition exec_word (m : machine) (w : Z) : option machine := i ← decode w; exec_insn m i.

Definition exec_words (m : machine) (ws : list Z) : option machine :=
  foldl (fun m w => m ← m; exec_word m w) (Some m) ws.

(** Equality of machines, register by register and byte by byte. *)
Definition same (m1 m2 : machine) : Prop :=
  (forall r, regs m1 r = regs m2 r) /\ sp m1 = sp m2 /\ (forall a, mem m1 a = mem m2 a).

Lemma exec_words_snoc m ws w : exec_words m (ws ++ [w]) = (m ← exec_words m ws; exec_word m w).
Proof. unfold exec_words. by rewrite foldl_app. Qed.

Lemma exec_words_app m ws ws' : exec_words m (ws ++ ws') = (m ← exec_words m ws; exec_words m ws').
Proof.
  unfold exec_words. rewrite foldl_app. destruct (foldl _ (Some m) ws) as [m'|]; [done|].
  cbn. induction ws'; cbn; [done|]. done.
Qed.

(** * Immediates *)

Lemma low_bits_above v n i : 0 <= n <= i -> 0 <= v < 2 ^ n -> Z.testbit v i = false.
Proof.
  intros Hi Hv. destruct (Z.eqb_spec v 0) as [->|]; [apply Z.bits_0|].
  apply Z.bits_above_log2; [lia|]. apply Z.lt_le_trans with n; [|lia]. apply Z.log2_lt_pow2; lia.
Qed.

Lemma movk_value old imm sh : 0 <= sh -> 0 <= old < 2 ^ sh ->
  Z.ldiff old (Z.shiftl 0xFFFF sh) .| Z.shiftl imm sh = old + imm * 2 ^ sh.
Proof.
  intros Hsh Ho. replace (Z.ldiff old (Z.shiftl 0xFFFF sh)) with old.
  - rewrite Z.lor_comm, Z.shiftl_mul_pow2, lor_low by lia. lia.
  - symmetry. apply Z.bits_inj'. intros i Hi'. rewrite Z.ldiff_spec.
    destruct (Z.ltb_spec i sh) as [Hlt|Hge].
    + rewrite Z.shiftl_spec_low by lia. apply andb_true_r.
    + by rewrite (low_bits_above old sh i) by lia.
Qed.

(** The low [16 * k] bits. *)
Definition low (v k : Z) : Z := v mod 2 ^ (16 * k).

Definition chunk (v k : Z) : Z := Z.land (Z.shiftr v (16 * k)) 0xFFFF.

Lemma chunk_value v k : chunk v k = v / 2 ^ (16 * k) mod 2 ^ 16 \/ k < 0.
Proof.
  destruct (Z.ltb_spec k 0); [by right|left]. unfold chunk. change 0xFFFF with (Z.ones 16).
  by rewrite Z.land_ones, Z.shiftr_div_pow2 by lia.
Qed.

Lemma chunk_fits v k : fits 16 (chunk v k).
Proof. unfold chunk. change 0xFFFF with (Z.ones 16). by apply land_fits. Qed.

Lemma low_step v k : 0 <= k -> low v (k + 1) = low v k + chunk v k * 2 ^ (16 * k).
Proof.
  intros Hk. destruct (chunk_value v k) as [->|]; [|lia]. unfold low.
  replace (16 * (k + 1)) with (16 * k + 16) by lia. rewrite Z.pow_add_r, Z.rem_mul_r by lia. lia.
Qed.

(** The state after the chunks below [k]: the words so far put the low bits
    into the register. *)
Definition loaded (cb0 : codeBuilder) (rd uval k : Z) (s : codeBuilder * bool) : Prop :=
  s.2 = false /\ exists ws, instrs s.1 = instrs cb0 ++ ws /\ Z.of_nat (length ws) <= k /\
    forall m, exists m', exec_words m ws = Some m' /\ regs m' rd = low uval k /\
      sp m' = sp m /\ mem m' = mem m /\ forall r, r <> rd -> regs m' r = regs m r.

Lemma exec_movz m rd imm hw : reg rd -> fits 16 imm -> fits 2 hw ->
  exec_word m (encMOVZ rd imm (16 * hw)) = Some (write_reg m rd (Z.shiftl imm (16 * hw))).
Proof. intros. unfold exec_word. by rewrite (encodes_decode _ _ (Enc_MOVZ rd imm hw ltac:(done) ltac:(done) ltac:(done))). Qed.

Lemma exec_movk m rd imm hw : reg rd -> fits 16 imm -> fits 2 hw ->
  exec_word m (encMOVK rd imm (16 * hw)) =
  Some (write_reg m rd (Z.ldiff (read_reg m rd) (Z.shiftl 0xFFFF (16 * hw)) .| Z.shiftl imm (16 * hw))).
Proof. intros. unfold exec_word. by rewrite (encodes_decode _ _ (Enc_MOVK rd imm hw ltac:(done) ltac:(done) ltac:(done))). Qed.

Lemma write_reg_at m rd v : rd <> 31 -> regs (write_reg m rd v) rd = v /\ sp (write_reg m rd v) = sp m /\
  mem (write_reg m rd v) = mem m /\ forall r, r <> rd -> regs (write_reg m rd v) r = regs m r.
Proof.
  intros Hr. unfold write_reg. rewrite (proj2 (Z.eqb_neq rd 31) Hr). cbn. rewrite Z.eqb_refl.
  split; [done|]. split; [done|]. split; [done|]. intros r Hne. by rewrite (proj2 (Z.eqb_neq r rd) Hne).
Qed.

Lemma mov_chunk_loaded cb0 rd uval k s : reg rd -> rd <> 31 -> 0 < k < 4 ->
  loaded cb0 rd uval k s -> loaded cb0 rd uval (k + 1) (mov_chunk rd uval s (16 * k)).
Proof.
  intros Hr H31 Hk (Hf & ws & Hi & Hlen & Hx). destruct s as [cb first]. cbn in Hf, Hi. subst first.
  unfold mov_chunk. fold (chunk uval k). cbn [negb]. rewrite andb_true_r.
  pose proof (low_step uval k ltac:(lia)) as Hlow. pose proof (chunk_fits uval k) as Hc.
  destruct (Z.eqb_spec (chunk uval k) 0) as [E|E]; (split; [done|]).
  - exists ws. split; [done|]. split; [lia|]. intros m. destruct (Hx m) as (m' & H1 & H2 & H3).
    exists m'. split; [done|]. split; [|done]. rewrite Hlow, E. lia.
  - exists (ws ++ [encMOVK rd (chunk uval k) (16 * k)]). cbn [emit instrs fst]. rewrite Hi, app_assoc.
    split; [done|]. rewrite length_app. cbn [length]. split; [lia|]. intros m.
    destruct (Hx m) as (m' & H1 & H2 & H3 & H4 & H5). rewrite exec_words_snoc, H1. cbn [mbind option_bind].
    rewrite exec_movk by (done || (unfold fits; lia)). eexists. split; [done|].
    destruct (write_reg_at m' rd (Z.ldiff (read_reg m' rd) (Z.shiftl 0xFFFF (16 * k)) .| Z.shiftl (chunk uval k) (16 * k)) H31)
      as (E1 & -> & -> & E4). rewrite E1. split; [|split; [done|split; [done|]]].
    + unfold read_reg. rewrite (proj2 (Z.eqb_neq rd 31) H31), H2. rewrite movk_value; [by rewrite Hlow|lia|].
      unfold low. apply Z.mod_pos_bound. lia.
    + intros r Hne. by rewrite E4, H5.
Qed.

(** The first chunk always gives a MOVZ. *)
Lemma mov_first_loaded cb rd uval : reg rd -> rd <> 31 -> loaded cb rd uval 1 (mov_chunk rd uval (cb, true) 0).
Proof.
  intros Hr H31. unfold mov_chunk. cbn [negb]. rewrite andb_false_r. split; [done|].
  change (Z.land (Z.shiftr uval 0) 0xFFFF) with (chunk uval 0). pose proof (chunk_fits uval 0) as Hc.
  exists [encMOVZ rd (chunk uval 0) (16 * 0)]. split; [done|]. split; [cbn; lia|]. intros m. unfold exec_words. cbn [foldl mbind option_bind].
  rewrite exec_movz by (done || (unfold fits; lia)). eexists. split; [done|].
  destruct (write_reg_at m rd (Z.shiftl (chunk uval 0) (16 * 0)) H31) as (-> & -> & -> & E). split; [|done].
  rewrite Z.shiftl_0_r. pose proof (low_step uval 0 ltac:(lia)) as Hlow. cbn [Z.mul] in Hlow.
  change (0 + 1) with 1 in Hlow. rewrite Hlow. unfold low. change (2 ^ (16 * 0)) with 1. rewrite Z.mod_1_r. lia.
Qed.

Lemma emitMOVimm_spec cb rd val : reg rd -> rd <> 31 -> exists ws,
  instrs (emitMOVimm cb rd val) = instrs cb ++ ws /\ (length ws <= 4)%nat /\
  forall m, exists m', exec_words m ws = Some m' /\ regs m' rd = u64 val /\
    sp m' = sp m /\ mem m' = mem m /\ forall r, r <> rd -> regs m' r = regs m r.
Proof.
  intros Hr H31. unfold emitMOVimm. cbn [foldl].
  pose proof (mov_first_loaded cb rd (u64 val) Hr H31) as H1.
  pose proof (mov_chunk_loaded cb rd (u64 val) 1 _ Hr H31 ltac:(lia) H1) as H2.
  pose proof (mov_chunk_loaded cb rd (u64 val) 2 _ Hr H31 ltac:(lia) H2) as H3.
  pose proof (mov_chunk_loaded cb rd (u64 val) 3 _ Hr H31 ltac:(lia) H3) as (Hf & ws & Hi & Hl & Hx).
  cbn [Z.mul Z.add] in *. change (16 * 1) with 16 in *. change (16 * 2) with 32 in *. change (16 * 3) with 48 in *.
  destruct (mov_chunk _ _ _ 48) as [cb' first]. cbn in Hf, Hi. subst first.
  exists ws. split; [done|]. split; [lia|]. intros m. destruct (Hx m) as (m' & E & Hv & Hrest). exists m'.
  split; [done|]. split; [|done]. rewrite Hv. unfold low. apply Z.mod_small.
  apply (Z.mod_pos_bound val (2 ^ 64)). lia.
Qed.

(** * Loads after stores *)

Lemma u64_add_ne a i j : 0 <= i < 2 ^ 64 -> 0 <= j < 2 ^ 64 -> i <> j -> u64 (a + i) <> u64 (a + j).
Proof.
  intros Hi Hj Hne E. unfold wrapU in E. assert (H : (i - j) mod 2 ^ 64 = 0).
  { replace (i - j) with (a + i - (a + j)) by lia. by rewrite Zminus_mod, E, Z.sub_diag, Z.mod_0_l by lia. }
  apply Z.mod_divide in H; [|lia]. destruct H as [q Hq]. nia.
Qed.

Lemma store_other m a v n x : (forall i, 0 <= i < Z.of_nat n -> x <> u64 (a + i)) -> store_bytes m a v n x = m x.
Proof.
  revert a v. induction n as [|n IH]; intros a v Hx; cbn [store_bytes]; [done|].
  pose proof (Hx 0 ltac:(lia)) as H0. rewrite Z.add_0_r in H0. rewrite (proj2 (Z.eqb_neq x (u64 a)) H0).
  apply IH. intros i Hi. replace (a + 1 + i) with (a + (1 + i)) by lia. apply Hx. lia.
Qed.

(** Bytes below are not seen by a load above. *)
Lemma load_store m a v n k : Z.of_nat n + k <= 2 ^ 64 -> 0 <= k ->
  load_bytes (store_bytes m a v n) a n = v mod 256 ^ Z.of_nat n.
Proof.
  revert a v k. induction n as [|n IH]; intros a v k Hn Hk; cbn [load_bytes store_bytes]; [by rewrite Z.mod_1_r|].
  rewrite Z.eqb_refl. rewrite Nat2Z.inj_succ, Z.pow_succ_r, Z.rem_mul_r by lia.
  rewrite <- (IH (a + 1) (v / 256) (k + 1)) by lia. f_equal. f_equal.
  assert (G : forall p b, (forall i, 0 <= i < Z.of_nat p -> u64 (b + i) <> u64 a) ->
    load_bytes (fun x => if x =? u64 a then v mod 256 else store_bytes m (a + 1) (v / 256) n x) b p =
    load_bytes (store_bytes m (a + 1) (v / 256) n) b p).
  { induction p as [|p IHp]; intros b Hb; cbn [load_bytes]; [done|].
    pose proof (Hb 0 ltac:(lia)) as H0. rewrite Z.add_0_r in H0. rewrite (proj2 (Z.eqb_neq _ _) H0).
    rewrite IHp; [done|]. intros i Hi. replace (b + 1 + i) with (b + (1 + i)) by lia. apply Hb. lia. }
  apply G. intros i Hi. replace (a + 1 + i) with (a + (1 + i)) by lia.
  rewrite <- (Z.add_0_r a) at 2. apply u64_add_ne; lia.
Qed.

(** Registers hold 64-bit values. *)
Definition regs_ok (m : machine) : Prop := forall r, 0 <= regs m r < 2 ^ 64.

Lemma read_reg_range m r : regs_ok m -> 0 <= read_reg m r < 2 ^ 64.
Proof. intros H. unfold read_reg. destruct (r =? 31); [lia|apply H]. Qed.

Lemma str_is_ldr_flipped rt off : reg rt -> fits 12 off ->
  Z.lxor (encLDRuoff rt regSP (8 * off)) (1 <<. 22) = encSTRuoff rt regSP (8 * off).
Proof.
  intros Hr Ho. unfold encLDRuoff, encSTRuoff. rewrite quot_scale by done.
  change (u32 regSP <<. 5) with 992. change (1 <<. 22) with 0x400000. words.
  rewrite <- !Z.lor_assoc. set (x := Z.shiftl off 10 .| (992 .| Z.shiftl rt 0)).
  assert (Hx : Z.land x 0x400000 = 0).
  { unfold x. rewrite !Z.land_lor_distr_l. change 0x400000 with (Z.shiftl (Z.ones 1) 22).
    rewrite !land_field by lia. fields. done. }
  apply Z.bits_inj'. intros i Hi. rewrite Z.lxor_spec, !Z.lor_spec.
  apply (f_equal (fun z => Z.testbit z i)) in Hx. rewrite Z.land_spec, Z.bits_0 in Hx.
  replace (Z.testbit 0xF9400000 i) with (xorb (Z.testbit 0xF9000000 i) (Z.testbit 0x400000 i))
    by (by rewrite <- Z.lxor_spec).
  assert (Hd : Z.testbit 0xF9000000 i && Z.testbit 0x400000 i = false)
    by (rewrite <- Z.land_spec; apply Z.bits_0).
  destruct (Z.testbit 0xF9000000 i), (Z.testbit 0x400000 i), (Z.testbit x i); done.
Qed.

Lemma exec_ldr m rt rn off : reg rt -> reg rn -> fits 12 off -> exec_word m (encLDRuoff rt rn (8 * off)) =
  Some (write_reg m rt (load_bytes (mem m) (base_reg m rn + 8 * off) 8)).
Proof. intros. unfold exec_word. by rewrite (encodes_decode _ _ (Enc_LDRuoff rt rn off ltac:(done) ltac:(done) ltac:(done))). Qed.

Lemma exec_str m rt rn off : reg rt -> reg rn -> fits 12 off -> exec_word m (encSTRuoff rt rn (8 * off)) =
  Some (Machine (regs m) (sp m) (store_bytes (mem m) (base_reg m rn + 8 * off) (read_reg m rt) 8)).
Proof. intros. unfold exec_word. by rewrite (encodes_decode _ _ (Enc_STRuoff rt rn off ltac:(done) ltac:(done) ltac:(done))). Qed.

(** The load that the optimiser drops would not have changed the machine. *)
Lemma ldr_after_str m rt off : regs_ok m -> reg rt -> fits 12 off -> exists m1 m2,
  exec_word m (encSTRuoff rt regSP (8 * off)) = Some m1 /\
  exec_word m1 (encLDRuoff rt regSP (8 * off)) = Some m2 /\ same m1 m2.
Proof.
  intros Hm Hr Ho. eexists _, _. split; [by apply exec_str|]. split; [by apply exec_ldr|].
  unfold base_reg, regSP. cbn [Z.eqb Pos.eqb sp mem].
  rewrite (load_store _ _ _ 8 0) by lia. change (256 ^ Z.of_nat 8) with (2 ^ 64).
  rewrite Z.mod_small by (by apply read_reg_range). unfold write_reg, read_reg.
  destruct (Z.eqb_spec rt 31); [done|]. split; [|done]. intros r. cbn. by destruct (Z.eqb_spec r rt) as [->|].
Qed.

Lemma peephole_prev cb ldr : peepholeElim cb ldr = true ->
  peepholeBarrier cb = false /\ list.last (instrs cb) = Some (Z.lxor ldr (1 <<. 22)).
Proof.
  unfold peepholeElim. destruct (list.last (instrs cb)) as [p|]; [|done]. destruct (peepholeBarrier cb); [done|].
  intros H. apply Z.eqb_eq in H. by rewrite H.
Qed.

(** * The literal pool *)

(** Distinct names have distinct entries, inside the words reserved. *)
Definition idx_ok (idx : gmap string nat) (n : nat) : Prop :=
  (forall l k, idx !! l = Some k -> (k < n)%nat) /\
  (forall l l' k, idx !! l = Some k -> idx !! l' = Some k -> l = l').

Lemma pool_add_ok s l : idx_ok s.1 s.2 -> idx_ok (pool_add s l).1 (pool_add s l).2.
Proof.
  intros [H1 H2]. cbn. split.
  - intros x k. destruct (decide (x = l)) as [->|Hne].
    + rewrite lookup_insert_eq. intros [= <-]. lia.
    + rewrite lookup_insert_ne by done. intros Hk. apply H1 in Hk. lia.
  - intros x y k. destruct (decide (x = l)) as [->|Hx], (decide (y = l)) as [->|Hy];
      rewrite ?lookup_insert_eq, ?lookup_insert_ne by done; try done.
    + intros [= <-] Hk. apply H1 in Hk. lia.
    + intros Hk [= <-]. apply H1 in Hk. lia.
    + by apply H2.
Qed.

Lemma pool_add_new_ok s l : idx_ok s.1 s.2 -> idx_ok (pool_add_new s l).1 (pool_add_new s l).2.
Proof. intros H. unfold pool_add_new. destruct (s.1 !! l); [done|by apply pool_add_ok]. Qed.

Lemma fold_ok (f : gmap string nat * nat -> string -> gmap string nat * nat) ls :
  (forall s l, idx_ok s.1 s.2 -> idx_ok (f s l).1 (f s l).2) ->
  forall s, idx_ok s.1 s.2 -> idx_ok (foldl f s ls).1 (foldl f s ls).2.
Proof. intros Hf. induction ls as [|l ls IH]; intros s Hs; cbn [foldl]; [done|]. by apply IH, Hf. Qed.

Definition entry (ws : list Z) (k : nat) (v : Z) : Prop :=
  ws !! (2 * k)%nat = Some (u32 v) /\ ws !! (2 * k + 1)%nat = Some (u32 (Z.shiftr v 32)).

Lemma set_entry_spec ws k v : (2 * k + 1 < length ws)%nat -> exists ws', set_entry ws k v = Some ws' /\
  length ws' = length ws /\ entry ws' k v /\
  forall p, p <> (2 * k)%nat -> p <> (2 * k + 1)%nat -> ws' !! p = ws !! p.
Proof.
  intros Hk. unfold set_entry, entry. rewrite (proj2 (Nat.ltb_lt _ _) Hk). eexists. split; [done|].
  rewrite !length_insert. split; [done|]. split; [split|].
  - rewrite list_lookup_insert_ne by lia. apply list_lookup_insert_eq. lia.
  - apply list_lookup_insert_eq. rewrite length_insert. lia.
  - intros p H1 H2. by rewrite !list_lookup_insert_ne.
Qed.

Definition write_all (idx : gmap string nat) (addrs : list (string * Z)) (ws : list Z) : option (list Z) :=
  foldl (fun ws '(l, v) => ws ← ws; set_entry ws (pool_index idx l) v) (Some ws) addrs.

Definition names_of (addrs : list (string * Z)) : list string := addrs.*1.

Definition in_pool (idx : gmap string nat) (p : nat) (l : string) : Prop :=
  exists k, idx !! l = Some k /\ (p = 2 * k \/ p = 2 * k + 1)%nat.

(** Writing the entries of distinct names, in any order. *)
Lemma write_all_spec idx n addrs : idx_ok idx n -> forall ws, (2 * n <= length ws)%nat ->
  Forall (fun l => is_Some (idx !! l)) (names_of addrs) -> exists ws', write_all idx addrs ws = Some ws' /\
  length ws' = length ws /\
  (NoDup (names_of addrs) -> forall l v k, (l, v) ∈ addrs -> idx !! l = Some k -> entry ws' k v) /\
  (forall p, (forall l, l ∈ names_of addrs -> ~ in_pool idx p l) -> ws' !! p = ws !! p).
Proof.
  intros [Hlt Hinj]. unfold write_all, names_of. induction addrs as [|[l v] addrs IH]; intros ws Hn Hin.
  { exists ws. split; [done|]. split; [done|]. split; [|done]. intros _ l v k Hx. by apply not_elem_of_nil in Hx. }
  rewrite fmap_cons in *. cbn [fst] in *. apply Forall_cons_1 in Hin as [[k Hk] Hin].
  pose proof (Hlt _ _ Hk). destruct (set_entry_spec ws k v ltac:(lia)) as (ws1 & E1 & L1 & H1 & F1).
  assert (E1' : set_entry ws (pool_index idx l) v = Some ws1) by (unfold pool_index; by rewrite Hk).
  destruct (IH ws1 ltac:(lia) Hin) as (ws' & E & L & H2 & F2). exists ws'.
  cbn [foldl mbind option_bind]. rewrite E1'.
  split; [done|]. split; [lia|]. split.
  - intros Hnd x y kx Hx Hkx. apply list.NoDup_cons in Hnd as [Hl Hnd]. apply elem_of_cons in Hx as [[= -> ->]|Hx].
    + replace kx with k by congruence.
      assert (Fk : forall p, (p = 2 * k \/ p = 2 * k + 1)%nat -> ws' !! p = ws1 !! p).
      { intros p Hp. apply F2. intros l' Hl' (k' & Hk' & Hp'). assert (k' = k) as -> by lia.
        assert (l' = l) as -> by (eapply Hinj; done). done. }
      unfold entry in *. rewrite !Fk by lia. exact H1.
    + by eapply H2.
  - intros p Hp. rewrite F2.
    + assert (Hno : ~ in_pool idx p l) by (apply Hp; by left).
      apply F1; intros ->; apply Hno; exists k; split; [done|lia|done|lia].
    + intros l' Hl'. apply Hp. by right.
Qed.

(** The builder's calls only append words, and keep the pool's index. *)
Definition extends (cb cb' : codeBuilder) : Prop :=
  (exists ws, instrs cb' = instrs cb ++ ws) /\ poolIdx cb' = poolIdx cb.

Lemma extends_refl cb : extends cb cb.
Proof. split; [|done]. exists []. by rewrite app_nil_r. Qed.

Lemma extends_trans cb1 cb2 cb3 : extends cb1 cb2 -> extends cb2 cb3 -> extends cb1 cb3.
Proof.
  intros [[w1 E1] P1] [[w2 E2] P2]. split; [|congruence]. exists (w1 ++ w2). by rewrite E2, E1, app_assoc.
Qed.

Lemma emit_extends cb w : extends cb (emit cb w).
Proof. split; [by eexists|done]. Qed.

Lemma mov_chunk_extends cb rd uval s sh : extends cb s.1 -> extends cb (mov_chunk rd uval s sh).1.
Proof.
  intros H. destruct s as [cb' []]; cbn in *; repeat case_match; cbn; try done;
    (eapply extends_trans; [exact H|apply emit_extends]).
Qed.

Lemma build_extends cb o : extends cb (build cb o).
Proof.
  destruct o; cbn [build]; try (by apply emit_extends).
  - unfold emitMOVimm. assert (H : extends cb (foldl (mov_chunk rd (u64 val)) (cb, true) [0; 16; 32; 48]).1)
      by (cbn [foldl]; auto using mov_chunk_extends, extends_refl).
    destruct (foldl _ _ _) as [cb' []]; cbn in H; [|done]. eapply extends_trans; [exact H|apply emit_extends].
  - unfold emitLDRsp. destruct (peepholeElim _ _); [apply extends_refl|apply emit_extends].
  - split; [exists []; by rewrite app_nil_r|done].
  - exact (emit_extends (add_fixup cb l fixB) _).
  - exact (emit_extends (add_fixup cb l fixBL) _).
  - split; [by eexists|done].
  - exact (emit_extends (add_fixup cb l fixBcond) _).
  - exact (emit_extends (add_fixup cb l fixCBZ) _).
  - exact (emit_extends (add_fixup cb l fixCBNZ) _).
  - exact (emit_extends (add_fixup cb l fixADR) _).
Qed.

Lemma build_all_extends os : forall cb, extends cb (foldl build cb os).
Proof.
  induction os as [|o os IH]; intros cb; cbn [foldl]; [apply extends_refl|].
  eapply extends_trans; [apply build_extends|apply IH].
Qed.

Lemma pool_add_has s l x : is_Some (s.1 !! x) \/ x = l -> is_Some ((pool_add s l).1 !! x).
Proof.
  cbn. intros H. destruct (decide (x = l)) as [->|Hne]; [by rewrite lookup_insert_eq|].
  rewrite lookup_insert_ne by done. by destruct H.
Qed.

Lemma pool_adds_has ls : forall s x, is_Some (s.1 !! x) \/ x ∈ ls -> is_Some ((foldl pool_add s ls).1 !! x).
Proof.
  induction ls as [|l ls IH]; intros s x H; cbn [foldl].
  - destruct H as [|H]; [done|]. by apply not_elem_of_nil in H.
  - apply IH. destruct H as [H|H]; [left; apply pool_add_has; by left|].
    apply elem_of_cons in H as [->|H]; [left; apply pool_add_has; by right|by right].
Qed.

Lemma pool_news_has ls : forall s x, is_Some (s.1 !! x) -> is_Some ((foldl pool_add_new s ls).1 !! x).
Proof.
  induction ls as [|l ls IH]; intros s x H; cbn [foldl]; [done|]. apply IH. unfold pool_add_new.
  destruct (s.1 !! l); [done|]. apply pool_add_has. by left.
Qed.

(** A new builder: the pool is reserved and holds the constants. *)
Lemma newCodeBuilder_spec globals strLits fconsts funcRefs : exists cb n,
  newCodeBuilder globals strLits fconsts funcRefs = Some cb /\ idx_ok (poolIdx cb) n /\ length (instrs cb) = (2 * n)%nat /\
  builder_ok cb /\
  (NoDup (names_of fconsts) -> forall l bits k, (l, bits) ∈ fconsts -> poolIdx cb !! l = Some k -> entry (instrs cb) k bits).
Proof.
  pose proof (new_ok globals strLits fconsts funcRefs) as Hok. unfold newCodeBuilder in *.
  set (s := foldl pool_add_new (foldl pool_add (foldl pool_add (foldl pool_add (∅, 0%nat) globals) strLits) (fconsts.*1)) funcRefs) in *.
  assert (Hs : idx_ok s.1 s.2).
  { apply fold_ok; [by apply pool_add_new_ok|]. do 3 (apply fold_ok; [by apply pool_add_ok|]).
    split; cbn; [intros l k|intros l l' k]; by rewrite lookup_empty. }
  assert (Hin : Forall (fun l => is_Some (s.1 !! l)) (names_of fconsts)).
  { apply list.Forall_forall. intros l Hl. apply pool_news_has, pool_adds_has. by right. }
  destruct s as [idx n]. cbn [fst snd] in *.
  destruct (write_all_spec idx n fconsts Hs (replicate (2 * n) 0)) as (ws & E & L & H & _);
    [by rewrite length_replicate|done|].
  unfold write_all in E. unfold fill_consts in *. rewrite E in *. cbn [mbind option_bind] in *.
  eexists _, n. split; [done|]. split; [done|]. split; [cbn [instrs]; by rewrite L, length_replicate|]. split; [by apply Hok|done].
Qed.
