(* ===== verification/CodeSpec.v ===== *)
(** What the machine-code back end promises: encoders, immediates, branch
    fixups, the peephole optimiser and the literal pool. *)
From stdpp Require Import gmap strings.
From S2P Require Import Prelude Arm64Enc CodeBuilder CodeExec.
#[local] Open Scope Z_scope.
#[local] Open Scope word_scope.

(** C13: instruction encoding.  Every encoder of arm64enc.go, its operands
    inside their fields, yields a 32-bit word that the architecture's tables
    decode, unambiguously, to the documented instruction with the same
    operands; aliases decode to what they abbreviate. *)
Theorem encoders_decode (w : Z) (i : insn) : encodes w i ->
  0 <= w < 2 ^ 32 /\ decode w = Some i /\ forall j, encodes w j -> j = i.
Proof.
  intros H. pose proof (encodes_decode w i H) as Hd. split; [by eapply encodes_word|]. split; [done|].
  intros j Hj. apply encodes_decode in Hj. congruence.
Qed.

(** Immediates.  [emitMOVimm] appends at most four words that put any
    64-bit value into the register and leave the rest of the machine alone. *)
Theorem mov_imm_loads (cb : codeBuilder) (rd val : Z) : reg rd -> rd <> 31 -> exists ws,
  instrs (emitMOVimm cb rd val) = instrs cb ++ ws /\ (length ws <= 4)%nat /\
  forall m, exists m', exec_words m ws = Some m' /\ regs m' rd = u64 val /\
    sp m' = sp m /\ mem m' = mem m /\ forall r, r <> rd -> regs m' r = regs m r.
Proof. apply emitMOVimm_spec. Qed.

(** C15: branch fixups.  After any sequence of builder calls, [applyFixups]
    succeeds exactly when every label used is defined and within the range of
    its branch; then every recorded branch decodes to a jump over the distance
    to its label, and every other word is unchanged.  It never indexes out of
    the buffer. *)
Theorem fixups_resolve (cb0 : codeBuilder) (os : list op) (globals strLits : list string)
    (fconsts : list (string * Z)) (funcRefs : list string) :
  newCodeBuilder globals strLits fconsts funcRefs = Some cb0 -> Forall op_ok os ->
  let cb := foldl build cb0 os in
  if decide (Forall (resolvable (labels cb)) (fixups cb)) then
    exists ws, applyFixups cb = Some (inr ws) /\ length ws = length (instrs cb) /\
      Forall (resolved (labels cb) (instrs cb) ws) (fixups cb) /\
      forall p, p ∉ (at_ <$> fixups cb) -> ws !! p = instrs cb !! p
  else exists e, applyFixups cb = Some (inl e).
Proof.
  intros Hnew Hos cb. assert (Hok : builder_ok cb) by (apply build_all_ok; [done|by eapply new_ok]).
  destruct (apply_fixups_spec (labels cb) (fixups cb) (instrs cb) (ok_placed cb Hok) (ok_distinct cb Hok)) as [H1 H2].
  destruct (decide _); [by apply H1|by apply H2].
Qed.

(** C27: the peephole optimiser.  When a load from the stack is dropped, the
    word before it stores the same register to the same slot, no label points
    between the two, and executing the load after the store would change
    nothing. *)
Theorem peephole_sound (cb : codeBuilder) (rt off : Z) :
  builder_ok cb -> reg rt -> fits 12 off -> emitLDRsp cb rt (8 * off) = cb ->
  list.last (instrs cb) = Some (encSTRuoff rt regSP (8 * off)) /\
  (forall l, labels cb !! l <> Some (Z.of_nat (length (instrs cb)))) /\
  forall m, regs_ok m -> exists m1 m2, exec_word m (encSTRuoff rt regSP (8 * off)) = Some m1 /\
    exec_word m1 (encLDRuoff rt regSP (8 * off)) = Some m2 /\ same m1 m2.
Proof.
  intros Hok Hr Ho H. unfold emitLDRsp in H. destruct (peepholeElim _ _) eqn:E.
  - apply peephole_prev in E as [Hb Hl]. rewrite str_is_ldr_flipped in Hl by done. split; [done|]. split.
    + intros l Hx. apply (ok_barrier cb Hok) in Hx. congruence.
    + intros m Hm. by apply ldr_after_str.
  - apply (f_equal (fun cb => length (instrs cb))) in H. cbn in H. rewrite length_app in H. cbn in H. lia.
Qed.

(** The literal pool.  Whatever is emitted before and after, once
    [patchPool] has written the addresses, the load emitted for a global is a
    PC-relative load of the entry that holds the global's address. *)
Theorem pool_loads (cb0 : codeBuilder) (before after : list op) (globals strLits : list string)
    (fconsts : list (string * Z)) (funcRefs : list string) (name : string) (k : nat) (addrs : list (string * Z)) (addr : Z) :
  newCodeBuilder globals strLits fconsts funcRefs = Some cb0 ->
  let cb := foldl build cb0 before in
  let final := foldl build (emitLDRglobal cb name) after in
  poolIdx cb0 !! name = Some k -> fits_signed 19 (pool_offset cb name) ->
  NoDup (names_of addrs) -> Forall (fun l => is_Some (poolIdx cb0 !! l)) (names_of addrs) -> (name, addr) ∈ addrs ->
  exists ws w off, patchPool final addrs = Some ws /\ ws !! length (instrs cb) = Some w /\
    decode w = Some (LDR_lit, [regX9; off]) /\ 4 * Z.of_nat (length (instrs cb)) + off = 8 * Z.of_nat k /\
    entry ws k addr.
Proof.
  intros Hnew cb final Hk Hoff Hnd Hin Hel.
  destruct (newCodeBuilder_spec globals strLits fconsts funcRefs) as (cb0' & n & E & Hidx & Hlen & _ & _).
  assert (cb0' = cb0) as -> by congruence.
  destruct (build_all_extends before cb0) as [[w1 E1] P1]. fold cb in E1, P1.
  destruct (build_all_extends after (emitLDRglobal cb name)) as [[w2 E2] P2]. fold final in E2, P2.
  cbn [emitLDRglobal emit instrs poolIdx] in E2, P2. rewrite P1 in P2.
  destruct (write_all_spec (poolIdx cb0) n addrs Hidx (instrs final)) as (ws & Ew & Lw & Hw & Fw); [|done|].
  { rewrite E2, E1, !length_app, Hlen. lia. }
  exists ws, (encLDRlit regX9 (pool_offset cb name)), (4 * pool_offset cb name).
  unfold patchPool. rewrite P2. split; [exact Ew|]. split.
  - rewrite Fw.
    + rewrite E2, <- app_assoc. by apply list_lookup_middle.
    + intros l _ (k' & Hk' & Hp). apply (proj1 Hidx) in Hk'. rewrite E1, length_app, Hlen in Hp. lia.
  - split; [apply encodes_decode, (Enc_LDRlit regX9 (pool_offset cb name)); [unfold fits, regX9; lia|done]|].
    split; [|by apply Hw with name]. unfold pool_offset, pool_index. rewrite P1, Hk. change (default 0%nat (Some k)) with k. lia.
Qed.

(** * Concrete inputs *)

Lemma encoders_decode_witness : decode (encSTP 29 30 31 (8 * -2)) = Some (STP, [29; 30; 31; -16]).
Proof.
  apply (encoders_decode _ _ (Enc_STP 29 30 31 (-2) ltac:(by vm_compute) ltac:(by vm_compute) ltac:(by vm_compute) ltac:(by vm_compute))).
Defined.

Definition empty_builder : codeBuilder := CodeBuilder [] ∅ [] ∅ [] false.

Lemma mov_imm_loads_witness : exists ws,
  instrs (emitMOVimm empty_builder 8 (-2)) = [] ++ ws /\ (length ws <= 4)%nat.
Proof.
  destruct (mov_imm_loads empty_builder 8 (-2)) as (ws & E & L & _); [by vm_compute|discriminate|].
  exists ws. split; [exact E|exact L].
Defined.

(** A loop: a label, a conditional branch out of it and a branch back. *)
Definition loop_code : list op :=
  [DefineLabel "top"; EmitCBZ 0 "end"; EmitLDRsp 1 8; EmitB "top"; DefineLabel "end"; Emit encRET].

Lemma fixups_resolve_witness : exists ws,
  applyFixups (foldl build empty_builder loop_code) = Some (inr ws) /\
  Forall (resolved (labels (foldl build empty_builder loop_code)) (instrs (foldl build empty_builder loop_code)) ws)
    (fixups (foldl build empty_builder loop_code)).
Proof.
  pose proof (fixups_resolve empty_builder loop_code [] [] [] [] eq_refl ltac:(repeat constructor; by vm_compute)) as H.
  cbv zeta in H. destruct (decide _) as [_|Hn] in H.
  - destruct H as (ws & E & _ & R & _). exists ws. split; [exact E|exact R].
  - exfalso. apply Hn. repeat constructor; (eexists; split; [vm_compute; reflexivity|reflexivity]).
Defined.

Definition after_store : codeBuilder := emit empty_builder (encSTRuoff 1 31 (8 * 2)).

Lemma peephole_sound_witness : emitLDRsp after_store 1 (8 * 2) = after_store /\
  list.last (instrs after_store) = Some (encSTRuoff 1 31 (8 * 2)).
Proof.
  split; [vm_compute; reflexivity|].
  apply (peephole_sound after_store 1 2); [|by vm_compute|by vm_compute|by vm_compute].
  apply emit_ok. split; cbn; [constructor|constructor|apply map_Forall_empty|done].
Defined.

Definition with_globals : codeBuilder :=
  default empty_builder (newCodeBuilder ["x"; "y"] ["s0"] [("f0", 4614253070214989087)] ["main"]).

Lemma pool_loads_witness : exists ws w off,
  patchPool (foldl build (emitLDRglobal (foldl build with_globals loop_code) "y") loop_code)
    [("x", 0x500000); ("y", 0x500008)] = Some ws /\
  ws !! length (instrs (foldl build with_globals loop_code)) = Some w /\ decode w = Some (LDR_lit, [regX9; off]) /\
  entry ws 1 0x500008.
Proof.
  destruct (pool_loads with_globals loop_code loop_code ["x"; "y"] ["s0"] [("f0", 4614253070214989087)] ["main"]
    "y" 1 [("x", 0x500000); ("y", 0x500008)] 0x500008) as (ws & w & off & H1 & H2 & H3 & _ & H4).
  - vm_compute. reflexivity.
  - reflexivity.
  - by vm_compute.
  - apply (bool_decide_eq_true_1 (NoDup _)). vm_compute. reflexivity.
  - repeat constructor; vm_compute; eauto.
  - right. left.
  - exists ws, w, off. split; [exact H1|]. split; [exact H2|]. split; [exact H3|exact H4].
Defined.

(** * Corner cases *)

(** The comment of [emitMOVimm] promises the minimum sequence; a value with a
    zero low half takes a MOVZ too many. *)
Lemma mov_imm_not_minimal :
  instrs (emitMOVimm empty_builder 0 0x10000) = [encMOVZ 0 0 0; encMOVK 0 1 16] /\
  decode (encMOVZ 0 1 16) = Some (MOVZ, [0; 1; 16]).
Proof. vm_compute. split; reflexivity. Qed.

(** The offset of a pool load is cut to 19 bits without a check: 2^18 + 1 words
    after its entry, the load points forward. *)
Lemma pool_offset_unchecked : decode (encLDRlit regX9 (- (2 ^ 18 + 1))) = Some (LDR_lit, [regX9; 4 * (2 ^ 18 - 1)]).
Proof. vm_compute. reflexivity. Qed.
