(* ===== verification/Align.v ===== *)
(** Rounding addresses up to a power of two (elfgen.go, linker.go). *)
From S2P Require Import Prelude.

(** [(v + n - 1) &^ (n - 1)] on 64 bits. *)
Definition align_up (v n : Z) : Z := Z.ldiff (u64 (v + n - 1)) (n - 1).

Definition pageSize : Z := 4096.

Definition nextPage (addr : Z) : Z := align_up addr pageSize.

Definition align16 (v : Z) : Z := align_up v 16.

(** [p] is a power of two that fits 64 bits. *)
Definition pow2 (p : Z) : Prop := exists k, 0 <= k < 64 /\ p = 2 ^ k.

Lemma pow2_pos p : pow2 p -> 0 < p.
Proof. intros (k & Hk & ->). lia. Qed.

Lemma pow2_max p q : pow2 p -> pow2 q -> pow2 (Z.max p q).
Proof. intros Hp Hq. destruct (Z.max_spec p q) as [[_ ->]|[_ ->]]; done. Qed.

Lemma ldiff_ones v k : 0 <= k -> Z.ldiff v (2 ^ k - 1) = v / 2 ^ k * 2 ^ k.
Proof.
  intros Hk. replace (2 ^ k - 1) with (Z.ones k) by (rewrite Z.ones_equiv; lia).
  rewrite Z.ldiff_ones_r, Z.shiftl_mul_pow2, Z.shiftr_div_pow2 by done. done.
Qed.

Lemma align_up_spec v p : pow2 p -> 0 <= v -> v + p <= 2 ^ 64 ->
  v <= align_up v p < v + p /\ (p | align_up v p).
Proof.
  intros (k & Hk & ->) Hv Hf. unfold align_up. rewrite wrapU_small by lia. rewrite ldiff_ones by lia.
  pose proof (Z.div_mod (v + 2 ^ k - 1) (2 ^ k) ltac:(lia)). pose proof (Z.mod_pos_bound (v + 2 ^ k - 1) (2 ^ k) ltac:(lia)).
  split; [nia|]. by exists ((v + 2 ^ k - 1) / 2 ^ k).
Qed.

Lemma align_up_shift v p c : pow2 p -> 0 <= v -> 0 <= c -> (p | c) -> v + c + p <= 2 ^ 64 ->
  align_up (v + c) p = align_up v p + c.
Proof.
  intros Hp Hv Hc (d & ->) Hf. destruct (align_up_spec v p Hp Hv) as [H1 (q1 & E1)]; [lia|].
  destruct (align_up_spec (v + d * p) p Hp) as [H2 (q2 & E2)]; [lia|lia|].
  pose proof (pow2_pos p Hp). rewrite E1 in *. rewrite E2 in *.
  assert ((q2 - d - q1) * p < 1 * p) by lia. assert (-1 * p < (q2 - d - q1) * p) by lia.
  assert (q2 - d - q1 < 1) by (eapply Z.mul_lt_mono_pos_r; eauto). assert (-1 < q2 - d - q1) by (eapply Z.mul_lt_mono_pos_r; eauto).
  nia.
Qed.

Lemma pow2_16 : pow2 16. Proof. by exists 4. Qed.
Lemma pow2_page : pow2 pageSize. Proof. by exists 12. Qed.
#[export] Hint Resolve pow2_16 pow2_page : core.

(** The Go test for powers of two. *)
Lemma pow2_test al : 0 < al <= 4096 -> Z.land al (al - 1) = 0 -> pow2 al.
Proof.
  intros Ha Hl. exists (Z.log2 al). pose proof (Z.log2_spec al ltac:(lia)) as Hs. pose proof (Z.log2_nonneg al).
  assert (Z.log2 al < 64) by (apply Z.log2_lt_pow2; lia). split; [lia|].
  destruct (Z.eq_dec al (2 ^ Z.log2 al)) as [|Hne]; [done|]. exfalso.
  assert (He : Z.log2 (al - 1) = Z.log2 al) by (apply Z.log2_unique; lia).
  assert (Hb : Z.testbit (Z.land al (al - 1)) (Z.log2 al) = true).
  { rewrite Z.land_spec. rewrite Z.bit_log2 by lia. rewrite <- He at 1. apply Z.bit_log2.
    destruct (Z.eq_dec al 1) as [->|]; [|lia]. by cbn in Hne. }
  rewrite Hl, Z.bits_0 in Hb. done.
Qed.
