(* ===== verification/Linker.v ===== *)
(** The linker's inputs and the lazy linking of archive members (linker.go). *)
From stdpp Require Import gmap strings.
From S2P Require Import Prelude.
#[local] Open Scope Z_scope.

(** * Results *)

Inductive link_error :=
  | ParseError (member : string)
  | DuplicateDefinition (name path1 path2 : string)
  | NoMain
  | FixupFailed
  | Panic
  | OutOfFuel.

(** A Go function that also returns an error. *)
Inductive res (A : Type) := Ok (a : A) | Err (e : link_error).
Arguments Ok {_} _.
Arguments Err {_} _.

#[export] Instance res_bind : MBind res := fun _ _ f r => match r with Ok a => f a | Err e => Err e end.

(** * Object files *)

Inductive SymBind := STB_LOCAL | STB_GLOBAL | STB_WEAK | STB_OTHER (n : Z).

#[export] Instance SymBind_eq_dec : EqDecision SymBind.
Proof. solve_decision. Defined.

Record lnkSym := LnkSym { name : string; value : Z; size : Z; secName : string; binding : SymBind; typ : Z }.

Record lnkRela := LnkRela { offset : Z; symIdx : Z; rtype : Z; addend : Z }.

(** The fields set while the input is read; the layout is kept apart. *)
Record objFile := ObjFile {
  path : string;
  textData : list Z;
  rodataData : list Z;
  dataData : list Z;
  bssSize : Z;
  syms : list lnkSym;
  relas : list lnkRela;
  dataRelas : list lnkRela;
  fromArchive : bool
}.

Definition set_fromArchive (o : objFile) : objFile :=
  ObjFile (path o) (textData o) (rodataData o) (dataData o) (bssSize o) (syms o) (relas o) (dataRelas o) true.

Definition isLinkableDef (s : lnkSym) : bool :=
  (bool_decide (binding s = STB_GLOBAL) || bool_decide (binding s = STB_WEAK)) &&
  negb (bool_decide (secName s = ""%string)) && negb (bool_decide (name s = ""%string)).

(** * Archives *)

Record arMember := ArMember { arName : string; arData : list Z }.

Record archiveState := ArchiveState { members : list arMember; symMap : gmap string nat }.

Section pull.

(** [loadObjFromBytes]: the object in the bytes of a member. *)
Context (loadObj : string -> list Z -> option objFile).

(** Pull member [mi] of an archive; [used] is the archive's record of the
    members pulled so far. *)
Definition pull_member (a : archiveState) (used : list bool) (mi : nat) : res (list bool * objFile) :=
  match members a !! mi with
  | None => Err Panic
  | Some m =>
      match loadObj (arName m) (arData m) with
      | None => Err (ParseError (arName m))
      | Some o => Ok (<[mi := true]> used, set_fromArchive o)
      end
  end.

(** [mi, ok := symMap[sym]; !ok || used[mi]]: the member to pull, if any. *)
Definition candidate (a : archiveState) (used : list bool) (sym : string) : res (option nat) :=
  match symMap a !! sym with
  | None => Ok None
  | Some mi =>
      match used !! mi with
      | None => Err Panic
      | Some true => Ok None
      | Some false => Ok (Some mi)
      end
  end.

(** Search the archives; the first that can resolve the symbol does. *)
Fixpoint pull_first (sym : string) (ars : list archiveState) (us : list (list bool))
    : res (list (list bool) * option objFile) :=
  match ars, us with
  | a :: ars, u :: us =>
      c ← candidate a u sym;
      match c with
      | Some mi => '(u, o) ← pull_member a u mi; Ok (u :: us, Some o)
      | None => '(us, o) ← pull_first sym ars us; Ok (u :: us, o)
      end
  | _, _ => Ok (us, None)
  end.

(** The symbols that the start code needs are pulled from every archive. *)
Fixpoint force_pull (sym : string) (ars : list archiveState) (us : list (list bool)) (objs : list objFile)
    : res (list (list bool) * list objFile) :=
  match ars, us with
  | a :: ars, u :: us =>
      c ← candidate a u sym;
      match c with
      | Some mi => '(u, o) ← pull_member a u mi; '(us, objs) ← force_pull sym ars us (objs ++ [o]); Ok (u :: us, objs)
      | None => '(us, objs) ← force_pull sym ars us objs; Ok (u :: us, objs)
      end
  | _, _ => Ok (us, objs)
  end.

Definition undefined_ref (s : lnkSym) : bool :=
  bool_decide (binding s = STB_GLOBAL) && bool_decide (secName s = ""%string) && negb (bool_decide (name s = ""%string)).

(** The names with a definition. *)
Definition defined (objs : list objFile) (n : string) : bool :=
  existsb (fun o => existsb (fun s => isLinkableDef s && bool_decide (name s = n)) (syms o)) objs.

(** One symbol of the scan; [known] are the objects loaded when the round
    began, [st] the usage records and the objects pulled in this round. *)
Definition pull_sym (known : list objFile) (ars : list archiveState)
    (st : list (list bool) * list objFile) (s : lnkSym) : res (list (list bool) * list objFile) :=
  let '(us, new) := st in
  if negb (undefined_ref s) || defined known (name s) then Ok st
  else
    '(us, o) ← pull_first (name s) ars us;
    Ok (us, new ++ match o with Some o => [o] | None => [] end).

Definition foldM {A S : Type} (f : S -> A -> res S) : list A -> S -> res S :=
  fix go l s := match l with [] => Ok s | a :: l => s ← f s a; go l s end.

Definition pull_round (ars : list archiveState) (objs : list objFile) (us : list (list bool))
    : res (list (list bool) * list objFile) :=
  foldM (fun st o => foldM (pull_sym objs ars) (syms o) st) objs (us, []).

(** Until a round adds nothing. *)
Fixpoint pull_loop (fuel : nat) (ars : list archiveState) (objs : list objFile) (us : list (list bool))
    : res (list objFile * list (list bool)) :=
  match fuel with
  | O => Err OutOfFuel
  | S fuel =>
      '(us, new) ← pull_round ars objs us;
      match new with
      | [] => Ok (objs, us)
      | _ => pull_loop fuel ars (objs ++ new) us
      end
  end.

(** Members not pulled yet. *)
Definition unused (us : list (list bool)) : nat := sum_list_with (fun u => length (filter (fun b => b = false) u)) us.

#[local] Arguments unused : simpl never.

Definition forced : string := "__posix_stdio_init".

(** Phase 2 of [linkWithObjs]. *)
Definition lazy_link (ars : list archiveState) (objs : list objFile) : res (list objFile) :=
  let us := map (fun a => replicate (length (members a)) false) ars in
  '(us, objs) ← force_pull forced ars us objs;
  '(objs, _) ← pull_loop (S (unused us)) ars objs us;
  Ok objs.

(** * Correctness *)

(** What reading an archive establishes: the index names members that load and
    define the symbol. *)
Definition archive_ok (a : archiveState) : Prop := forall n mi, symMap a !! n = Some mi ->
  exists m o, members a !! mi = Some m /\ loadObj (arName m) (arData m) = Some o /\ defined [o] n = true.

Definition used_ok (a : archiveState) (u : list bool) (objs : list objFile) : Prop :=
  length u = length (members a) /\
  forall mi, u !! mi = Some true ->
    exists m o, members a !! mi = Some m /\ loadObj (arName m) (arData m) = Some o /\ set_fromArchive o ∈ objs.

Definition state_ok (ars : list archiveState) (us : list (list bool)) (objs : list objFile) : Prop :=
  Forall2 (fun a u => used_ok a u objs) ars us.

Lemma defined_app objs1 objs2 n : defined (objs1 ++ objs2) n = defined objs1 n || defined objs2 n.
Proof. apply existsb_app. Qed.

Lemma defined_elem o objs n : o ∈ objs -> defined [o] n = true -> defined objs n = true.
Proof.
  intros Ho Hd. unfold defined in *. cbn in Hd. rewrite orb_false_r in Hd. apply existsb_exists. exists o.
  split; [by apply list_elem_of_In|done].
Qed.

Lemma used_ok_more a u objs objs' : (forall o, o ∈ objs -> o ∈ objs') -> used_ok a u objs -> used_ok a u objs'.
Proof. intros Hs [Hl H]. split; [done|]. intros mi Hmi. destruct (H mi Hmi) as (m & o & ? & ? & ?). eauto 10. Qed.

Lemma state_ok_more ars us objs objs' : (forall o, o ∈ objs -> o ∈ objs') -> state_ok ars us objs -> state_ok ars us objs'.
Proof. intros Hs. apply Forall2_impl. intros. by eapply used_ok_more. Qed.

Lemma candidate_spec a u sym objs : archive_ok a -> used_ok a u objs ->
  (symMap a !! sym = None /\ candidate a u sym = Ok None) \/
  (exists mi, symMap a !! sym = Some mi /\ u !! mi = Some true /\ candidate a u sym = Ok None) \/
  (exists mi m o, symMap a !! sym = Some mi /\ u !! mi = Some false /\ candidate a u sym = Ok (Some mi) /\
     members a !! mi = Some m /\ loadObj (arName m) (arData m) = Some o /\
     pull_member a u mi = Ok (<[mi := true]> u, set_fromArchive o)).
Proof.
  intros Ha [Hl Hu]. unfold candidate, pull_member. destruct (symMap a !! sym) as [mi|] eqn:E; [right|by left].
  destruct (Ha sym mi E) as (m & o & Hm & Ho & _). pose proof (lookup_lt_Some _ _ _ Hm) as Hlt. rewrite <- Hl in Hlt.
  destruct (lookup_lt_is_Some_2 u mi Hlt) as [b Hb]. destruct b.
  - left. exists mi. by rewrite Hb.
  - right. exists mi, m, o. rewrite Hb, Hm, Ho. done.
Qed.

Lemma used_ok_pull a u mi m o objs : used_ok a u objs -> members a !! mi = Some m ->
  loadObj (arName m) (arData m) = Some o -> used_ok a (<[mi := true]> u) (objs ++ [set_fromArchive o]).
Proof.
  intros [Hl Hu] Hm Ho. split; [by rewrite length_insert|]. intros j Hj. destruct (decide (j = mi)) as [->|Hne].
  - exists m, o. split; [done|]. split; [done|]. apply elem_of_app. right. by apply list_elem_of_singleton.
  - rewrite list_lookup_insert_ne in Hj by done. destruct (Hu j Hj) as (m' & o' & ? & ? & ?).
    exists m', o'. split; [done|]. split; [done|]. apply elem_of_app. by left.
Qed.

Lemma unused_pull u mi : u !! mi = Some false ->
  length (filter (fun b => b = false) u) = S (length (filter (fun b => b = false) (<[mi := true]> u))).
Proof.
  revert mi. induction u as [|b u IH]; intros [|mi] H; try done.
  - cbn in H. injection H as ->. done.
  - cbn in H. cbn [insert list_insert]. rewrite !filter_cons. destruct (decide (b = false)); cbn [length]; [|by apply IH].
    by rewrite (IH mi H).
Qed.

Lemma used_ok_app a u objs new : used_ok a u objs -> used_ok a u (objs ++ new).
Proof. apply used_ok_more. intros o Ho. apply elem_of_app. by left. Qed.

Lemma state_ok_app ars us objs new : state_ok ars us objs -> state_ok ars us (objs ++ new).
Proof. apply state_ok_more. intros o Ho. apply elem_of_app. by left. Qed.

(** An object read from a member of one of the archives. *)
Definition member_of (ars : list archiveState) (o : objFile) : Prop := exists a m o',
  a ∈ ars /\ m ∈ members a /\ loadObj (arName m) (arData m) = Some o' /\ o = set_fromArchive o'.

(** [o] defines the forced symbol or one that an object leaves undefined. *)
Definition needed (objs : list objFile) (o : objFile) : Prop := exists n, defined [o] n = true /\
  (n = forced \/ exists o' s, o' ∈ objs /\ s ∈ syms o' /\ undefined_ref s = true /\ name s = n).

Definition in_archive (ars : list archiveState) (n : string) : Prop := exists a, a ∈ ars /\ is_Some (symMap a !! n).

Lemma member_of_cons a ars o : member_of ars o -> member_of (a :: ars) o.
Proof. intros (b & m & o' & ? & H). exists b, m, o'. split; [by right|done]. Qed.

Lemma member_of_head a ars mi m o : members a !! mi = Some m -> loadObj (arName m) (arData m) = Some o ->
  member_of (a :: ars) (set_fromArchive o).
Proof. intros Hm Ho. exists a, m, o. split; [left|]. split; [by eapply list_elem_of_lookup_2|done]. Qed.

Lemma needed_more objs objs' o : (forall o, o ∈ objs -> o ∈ objs') -> needed objs o -> needed objs' o.
Proof. intros Hs (n & Hn & H). exists n. split; [done|]. destruct H as [H|(o' & s & Ho & H)]; [by left|right]. exists o', s. auto. Qed.

Lemma pull_first_spec sym ars us objs : Forall archive_ok ars -> state_ok ars us objs ->
  (pull_first sym ars us = Ok (us, None) /\ (in_archive ars sym -> defined objs sym = true)) \/
  (exists us' o, pull_first sym ars us = Ok (us', Some o) /\ state_ok ars us' (objs ++ [o]) /\
     unused us = S (unused us') /\ member_of ars o /\ defined [o] sym = true).
Proof.
  intros Ha Hs. induction Hs as [|a u ars us Hu Hs IH]; [left; split; [done|]; intros (a & Hin & _); by apply elem_of_nil in Hin|].
  apply Forall_cons_1 in Ha as [Ha Has]. cbn [pull_first].
  destruct (candidate_spec a u sym objs Ha Hu) as [[E ->]|[(mi & E & Hmi & ->)|(mi & m & o & E & Hmi & -> & Hm & Ho & Hp)]];
    cbn [mbind res_bind].
  1, 2: destruct (IH Has) as [[-> Hr]|(us' & o & -> & Hok & Hn & Hmem & Hd)]; [left; split; [done|]|right].
  - intros (b & Hb & Hsome). apply Hr. exists b. split; [|done]. apply elem_of_cons in Hb as [->|Hb]; [|done].
    rewrite E in Hsome. by destruct Hsome.
  - exists (u :: us'), o. split; [done|]. split; [by constructor; [apply used_ok_app|]|].
    split; [unfold unused in *; cbn [sum_list_with]; lia|]. split; [by apply member_of_cons|done].
  - intros _. destruct Hu as [_ Hu]. destruct (Hu mi Hmi) as (m & o & Hm & Ho & Hin).
    destruct (Ha sym mi E) as (m' & o' & Hm' & Ho' & Hd). eapply defined_elem; [done|]. by assert (o' = o) as -> by congruence.
  - exists (u :: us'), o. split; [done|]. split; [by constructor; [apply used_ok_app|]|].
    split; [unfold unused in *; cbn [sum_list_with]; lia|]. split; [by apply member_of_cons|done].
  - right. rewrite Hp. exists (<[mi := true]> u :: us), (set_fromArchive o). split; [done|].
    split; [constructor; [by apply (used_ok_pull _ _ _ m)|by apply state_ok_app]|].
    split; [unfold unused; cbn [sum_list_with]; rewrite (unused_pull u mi Hmi); lia|]. split; [by apply (member_of_head _ _ mi m)|].
    destruct (Ha sym mi E) as (m' & o' & Hm' & Ho' & Hd). by assert (o' = o) as -> by congruence.
Qed.

(** What pulling establishes, [us0] being the usage records it began with. *)
Record pulled (ars : list archiveState) (objs : list objFile) (us0 : list (list bool))
    (st : list (list bool) * list objFile) : Prop := {
  pulled_state : state_ok ars (fst st) (objs ++ snd st);
  pulled_once : (length (snd st) + unused (fst st) = unused us0)%nat;
  pulled_member : Forall (member_of ars) (snd st);
  pulled_needed : Forall (needed (objs ++ snd st)) (snd st)
}.

Lemma pulled_nil ars objs us : state_ok ars us objs -> pulled ars objs us (us, []).
Proof. intros H. constructor; cbn; [by rewrite app_nil_r|lia|constructor|constructor]. Qed.

Lemma pulled_app ars objs us0 us1 new1 us2 new2 : pulled ars objs us0 (us1, new1) ->
  pulled ars (objs ++ new1) us1 (us2, new2) -> pulled ars objs us0 (us2, new1 ++ new2).
Proof.
  intros [_ H1 M1 N1] [S2 H2 M2 N2]. cbn in *. constructor; cbn; rewrite ?app_assoc; [done|rewrite length_app; lia|by apply list.Forall_app|].
  apply Forall_app. split; [|done]. eapply Forall_impl; [|exact N1]. intros o. apply needed_more.
  intros o' Ho. apply elem_of_app. by left.
Qed.

Lemma pulled_one ars objs us us' o n : state_ok ars us' (objs ++ [o]) -> unused us = S (unused us') -> member_of ars o ->
  defined [o] n = true -> (n = forced \/ exists o' s, o' ∈ objs /\ s ∈ syms o' /\ undefined_ref s = true /\ name s = n) ->
  pulled ars objs us (us', [o]).
Proof.
  intros Hs Hu Hm Hd Hn. constructor; cbn; [done|lia|by constructor|]. constructor; [|constructor].
  exists n. split; [done|]. destruct Hn as [|(o' & s & Ho & H)]; [by left|right]. exists o', s. split; [|done].
  apply elem_of_app. by left.
Qed.

Lemma pulled_cons a u ars objs us0 us new : pulled ars objs us0 (us, new) -> used_ok a u objs ->
  pulled (a :: ars) objs (u :: us0) (u :: us, new).
Proof.
  intros [S1 H1 M1 N1] Hu. cbn in *. constructor; cbn; [by constructor; [apply used_ok_app|]|unfold unused in *; cbn [sum_list_with]; lia| |done].
  eapply list.Forall_impl; [exact M1|]. apply member_of_cons.
Qed.

Lemma force_pull_spec ars us objs : Forall archive_ok ars -> state_ok ars us objs ->
  exists us' new, force_pull forced ars us objs = Ok (us', objs ++ new) /\ pulled ars objs us (us', new).
Proof.
  intros Ha Hs. revert objs Hs. revert us. induction ars as [|a ars IH]; intros us objs Hs; inversion Hs as [|? u ? us1 Hu Hs1]; subst.
  - exists [], []. split; [by rewrite app_nil_r|by apply pulled_nil].
  - apply Forall_cons_1 in Ha as [Ha Has]. cbn [force_pull].
    destruct (candidate_spec a u forced objs Ha Hu) as [[E ->]|[(mi & E & Hmi & ->)|(mi & m & o & E & Hmi & -> & Hm & Ho & Hp)]];
      cbn [mbind res_bind].
    1, 2: destruct (IH Has us1 objs Hs1) as (us' & new & -> & Hpl); exists (u :: us'), new; split; [done|by apply pulled_cons].
    rewrite Hp. cbn [mbind res_bind].
    destruct (IH Has us1 (objs ++ [set_fromArchive o]) (state_ok_app _ _ _ _ Hs1)) as (us' & new & -> & Hpl).
    exists (<[mi := true]> u :: us'), (set_fromArchive o :: new). split; [by rewrite <- app_assoc|].
    change (set_fromArchive o :: new) with ([set_fromArchive o] ++ new).
    pose proof (used_ok_pull a u mi m o objs Hu Hm Ho) as Hu'.
    eapply (pulled_app _ _ _ (<[mi := true]> u :: us1)); [|by apply pulled_cons].
    eapply (pulled_one _ _ _ _ _ forced); [| |by apply (member_of_head _ _ mi m)| |by left].
    + constructor; [done|by apply state_ok_app].
    + unfold unused. cbn [sum_list_with]. rewrite (unused_pull u mi Hmi). lia.
    + destruct (Ha forced mi E) as (m' & o' & Hm' & Ho' & Hd). by assert (o' = o) as -> by congruence.
Qed.

(** Folds that may fail. *)
Lemma foldM_ok {A S : Type} (f : S -> A -> res S) (P : S -> Prop) (l : list A) st : P st ->
  (forall a st, a ∈ l -> P st -> exists st', f st a = Ok st' /\ P st') -> exists st', foldM f l st = Ok st' /\ P st'.
Proof.
  revert st. induction l as [|a l IH]; intros st Hp H; [by exists st|].
  destruct (H a st) as (st' & Hf & Hp'); [left|done|]. cbn. rewrite Hf. apply (IH st' Hp').
  intros b st2 Hb. apply H. by right.
Qed.

(** A step of a scan that, when no object has been pulled by its end, has
    pulled none and left the usage records alone. *)
Definition quiet {A U O : Type} (f : U * list O -> A -> res (U * list O)) : Prop :=
  forall us new a us', f (us, new) a = Ok (us', []) -> new = [] /\ us' = us.

Lemma foldM_quiet {A U O : Type} (f : U * list O -> A -> res (U * list O)) : quiet f ->
  forall l us new us', foldM f l (us, new) = Ok (us', []) ->
    new = [] /\ us' = us /\ forall a, a ∈ l -> f (us, []) a = Ok (us, []).
Proof.
  intros Hq l. induction l as [|a l IH]; intros us new us' H.
  - injection H as -> ->. split; [done|]. split; [done|]. intros a Ha. by apply elem_of_nil in Ha.
  - cbn in H. destruct (f (us, new) a) as [[us1 new1]|] eqn:E; [|done]. destruct (IH us1 new1 us' H) as (-> & -> & Hl).
    destruct (Hq _ _ _ _ E) as [-> ->]. split; [done|]. split; [done|]. intros b Hb.
    apply elem_of_cons in Hb as [->|Hb]; [done|by apply Hl].
Qed.

Lemma pull_first_quiet sym ars us us' : pull_first sym ars us = Ok (us', None) -> us' = us.
Proof.
  revert us us'. induction ars as [|a ars IH]; intros [|u us] us' H; cbn in H; try congruence.
  destruct (candidate a u sym) as [[mi|]|]; cbn in H; [|clear - H IH|done].
  - by destruct (pull_member a u mi) as [[u' o]|].
  - destruct (pull_first sym ars us) as [[us1 o]|] eqn:E; [|done]. cbn in H. injection H as <- ->. by rewrite (IH us us1 E).
Qed.

Lemma pull_sym_quiet known ars : quiet (pull_sym known ars).
Proof.
  intros us new s us' H. unfold pull_sym in H. destruct (negb (undefined_ref s) || defined known (name s)); [by injection H as -> ->|].
  destruct (pull_first (name s) ars us) as [[us1 [o|]]|] eqn:E; [| |done]; cbn in H; injection H as -> Hn.
  - by destruct new.
  - rewrite app_nil_r in Hn. split; [done|]. by apply pull_first_quiet in E.
Qed.

Lemma pull_obj_quiet known ars : quiet (fun st o => foldM (pull_sym known ars) (syms o) st).
Proof. intros us new o us' H. destruct (foldM_quiet _ (pull_sym_quiet known ars) _ _ _ _ H) as (? & ? & _). done. Qed.

Lemma pull_sym_ok ars objs us0 st o s : Forall archive_ok ars -> o ∈ objs -> s ∈ syms o -> pulled ars objs us0 st ->
  exists st', pull_sym objs ars st s = Ok st' /\ pulled ars objs us0 st'.
Proof.
  intros Ha Ho Hs Hp. destruct st as [us new]. unfold pull_sym.
  destruct (undefined_ref s) eqn:Eu; cbn [negb orb]; [|by exists (us, new)].
  destruct (defined objs (name s)); [by exists (us, new)|].
  destruct (pull_first_spec (name s) ars us (objs ++ new) Ha (pulled_state _ _ _ _ Hp))
    as [[-> _]|(us' & o1 & -> & Hok & Hn & Hm & Hd)]; cbn [mbind res_bind].
  - exists (us, new ++ []). rewrite app_nil_r. done.
  - exists (us', new ++ [o1]). split; [done|]. eapply pulled_app; [done|]. eapply pulled_one; [done|done|done|done|].
    right. exists o, s. split; [apply elem_of_app; by left|done].
Qed.

Lemma pull_round_spec ars objs us : Forall archive_ok ars -> state_ok ars us objs ->
  exists us' new, pull_round ars objs us = Ok (us', new) /\ pulled ars objs us (us', new).
Proof.
  intros Ha Hs. destruct (foldM_ok (fun st o => foldM (pull_sym objs ars) (syms o) st) (pulled ars objs us) objs (us, []))
    as ([us' new] & H & Hp); [by apply pulled_nil| |by exists us', new].
  intros o st Ho Hst. apply foldM_ok; [done|]. intros s st1 Hin Hst1. by apply (pull_sym_ok _ _ _ _ o).
Qed.

(** Every reference that the archives can resolve is resolved. *)
Definition closed (ars : list archiveState) (objs : list objFile) : Prop := forall o s,
  o ∈ objs -> s ∈ syms o -> undefined_ref s = true -> in_archive ars (name s) -> defined objs (name s) = true.

Lemma pull_round_closed ars objs us us' : Forall archive_ok ars -> state_ok ars us objs ->
  pull_round ars objs us = Ok (us', []) -> closed ars objs.
Proof.
  intros Ha Hs H o s Ho Hin Hu Hr.
  destruct (foldM_quiet _ (pull_obj_quiet objs ars) _ _ _ _ H) as (_ & _ & Hall). specialize (Hall o Ho).
  destruct (foldM_quiet _ (pull_sym_quiet objs ars) _ _ _ _ Hall) as (_ & _ & Hsym). specialize (Hsym s Hin).
  unfold pull_sym in Hsym. rewrite Hu in Hsym. cbn [negb orb] in Hsym. destruct (defined objs (name s)) eqn:Ed; [done|].
  destruct (pull_first_spec (name s) ars us objs Ha Hs) as [[_ Hd]|(us1 & o1 & E & _)]; [rewrite <- Ed; by apply Hd|].
  by rewrite E in Hsym.
Qed.

Lemma pull_loop_spec fuel ars objs us : Forall archive_ok ars -> state_ok ars us objs -> (unused us < fuel)%nat ->
  exists us' new, pull_loop fuel ars objs us = Ok (objs ++ new, us') /\ pulled ars objs us (us', new) /\ closed ars (objs ++ new).
Proof.
  intros Ha. revert objs us. induction fuel as [|fuel IH]; intros objs us Hs Hf; [lia|]. cbn [pull_loop].
  destruct (pull_round_spec ars objs us Ha Hs) as (us' & new & E & Hp). rewrite E. cbn [mbind res_bind].
  destruct new as [|o new].
  - destruct (foldM_quiet _ (pull_obj_quiet objs ars) _ _ _ _ E) as (_ & -> & _).
    exists us, []. rewrite app_nil_r. split; [done|]. split; [done|]. by apply (pull_round_closed _ _ us us).
  - destruct (IH (objs ++ o :: new) us') as (us2 & new2 & -> & Hp2 & Hc).
    + apply (pulled_state _ _ _ _ Hp).
    + pose proof (pulled_once _ _ _ _ Hp) as Ho. cbn in Ho. lia.
    + exists us2, ((o :: new) ++ new2). rewrite app_assoc. split; [done|]. split; [by eapply pulled_app|done].
Qed.

Lemma state_ok_init ars objs : state_ok ars (map (fun a => replicate (length (members a)) false) ars) objs.
Proof.
  unfold state_ok. induction ars as [|a ars IH]; cbn [map]; constructor; [|done]. split; [apply length_replicate|].
  intros mi H. apply lookup_replicate in H as [H _]. done.
Qed.

Lemma unused_init ars : unused (map (fun a => replicate (length (members a)) false) ars) = sum_list_with (fun a => length (members a)) ars.
Proof.
  unfold unused. induction ars as [|a ars IH]; cbn [map sum_list_with]; [done|]. rewrite IH. f_equal.
  generalize (length (members a)) as n. induction n as [|n IHn]; [done|]. cbn [replicate]. rewrite filter_cons_True by done.
  cbn [length]. by rewrite IHn.
Qed.

Lemma lazy_link_spec ars objs : Forall archive_ok ars -> exists new, lazy_link ars objs = Ok (objs ++ new) /\
  (length new <= sum_list_with (fun a => length (members a)) ars)%nat /\
  Forall (member_of ars) new /\ Forall (needed (objs ++ new)) new /\ closed ars (objs ++ new).
Proof.
  intros Ha. unfold lazy_link. rewrite <- unused_init. set (us := map _ ars).
  destruct (force_pull_spec ars us objs Ha (state_ok_init ars objs)) as (us1 & new1 & -> & P1). cbn [mbind res_bind].
  destruct (pull_loop_spec (S (unused us1)) ars (objs ++ new1) us1 Ha (pulled_state _ _ _ _ P1)) as (us2 & new2 & -> & P2 & Hc); [lia|].
  cbn [mbind res_bind]. exists (new1 ++ new2). rewrite app_assoc.
  destruct (pulled_app _ _ _ _ _ _ _ P1 P2) as [_ Ho Hm Hn]. cbn in *. rewrite app_assoc in Hn.
  split; [done|]. split; [lia|]. done.
Qed.
End pull.
