(* ===== verification/LinkSyms.v ===== *)
(** Symbol resolution (linker.go): which definition of a name wins, and the
    merging and allocation of COMMON symbols. *)
From stdpp Require Import gmap strings sorting.
From S2P Require Import Prelude Align Linker.
#[local] Open Scope Z_scope.

(** * The scan of the symbol tables *)

Definition storage (sec : string) : bool := bool_decide (sec ∈ [".text"; ".rodata"; ".data"; ".bss"]%string).

Record commonInfo := CommonInfo { ci_size : Z; ci_align : Z }.

(** [realDef] and [weakDef] hold objects, by their position in the link
    order. *)
Record symScan := SymScan { commons : gmap string commonInfo; realDef : gmap string nat; weakDef : gmap string nat }.

Definition archived (objs : list objFile) (k : nat) : bool := match objs !! k with Some o => fromArchive o | None => false end.
Definition path_of (objs : list objFile) (k : nat) : string := match objs !! k with Some o => path o | None => "" end.

(** ELF convention: the value of a COMMON is its alignment; a zero, an absurd
    one or one that is no power of two is replaced by the default. *)
Definition common_align (al : Z) : Z :=
  if (al =? 0) || negb (Z.land al (al - 1) =? 0) || (4096 <? al) then 8 else al.

Definition add_common (ci : commonInfo) (s : lnkSym) : commonInfo :=
  let sz := if ci_size ci <? size s then size s else ci_size ci in
  let al := common_align (value s) in
  CommonInfo sz (if ci_align ci <? al then al else ci_align ci).

(** A strong definition: two are an error between user objects; a user object
    beats an archive member, and the later of two members wins. *)
Definition define_real (objs : list objFile) (real : gmap string nat) (k : nat) (n : string) : res (gmap string nat) :=
  match real !! n with
  | None => Ok (<[n := k]> real)
  | Some prev =>
      if negb (archived objs prev) && negb (archived objs k)
      then Err (DuplicateDefinition n (path_of objs prev) (path_of objs k))
      else Ok (<[n := if negb (archived objs prev) && archived objs k then prev else k]> real)
  end.

Definition scan_sym (objs : list objFile) (st : symScan) (ks : nat * lnkSym) : res symScan :=
  let '(k, s) := ks in
  if bool_decide (name s = ""%string) then Ok st
  else
    match binding s with
    | STB_GLOBAL =>
        if storage (secName s) then
          real ← define_real objs (realDef st) k (name s);
          Ok (SymScan (commons st) real (weakDef st))
        else if bool_decide (secName s = "COMMON"%string) then
          let ci := add_common (default (CommonInfo 0 0) (commons st !! name s)) s in
          Ok (SymScan (<[name s := ci]> (commons st)) (realDef st) (weakDef st))
        else Ok st
    | STB_WEAK =>
        if storage (secName s) then
          match weakDef st !! name s with
          | Some _ => Ok st
          | None => Ok (SymScan (commons st) (realDef st) (<[name s := k]> (weakDef st)))
          end
        else Ok st
    | _ => Ok st
    end.

(** The symbols of all objects in link order, each with its object. *)
Definition all_syms (objs : list objFile) : list (nat * lnkSym) := concat (imap (fun k o => pair k <$> syms o) objs).

(** A strong definition supersedes the tentative ones, and both the weak. *)
Definition survivors (st : symScan) : symScan :=
  let cs := filter (fun '(n, _) => realDef st !! n = None) (commons st) in
  SymScan cs (realDef st) (filter (fun '(n, _) => realDef st !! n = None /\ cs !! n = None) (weakDef st)).

Definition scan_symbols (objs : list objFile) : res symScan :=
  st ← foldM (scan_sym objs) (all_syms objs) (SymScan ∅ ∅ ∅);
  Ok (survivors st).

(** * Who wins *)

Definition strong_def (n : string) (s : lnkSym) : bool :=
  bool_decide (name s = n) && bool_decide (binding s = STB_GLOBAL) && storage (secName s).
Definition tentative_def (n : string) (s : lnkSym) : bool :=
  bool_decide (name s = n) && bool_decide (binding s = STB_GLOBAL) && bool_decide (secName s = "COMMON"%string).
Definition weak_def (n : string) (s : lnkSym) : bool :=
  bool_decide (name s = n) && bool_decide (binding s = STB_WEAK) && storage (secName s).

(** The objects with a definition of [n] of a kind, in link order, once for
    each. *)
Definition definers (d : lnkSym -> bool) (l : list (nat * lnkSym)) : list nat := (filter (fun x => d x.2 = true) l).*1.

Definition users (objs : list objFile) (ks : list nat) : list nat := filter (fun k => archived objs k = false) ks.

(** The user object among the definers, or else the last member. *)
Definition owner (objs : list objFile) (ks : list nat) : option nat :=
  match users objs ks with u :: _ => Some u | [] => list.last ks end.

Definition tentatives (n : string) (l : list (nat * lnkSym)) : list lnkSym := (filter (fun x => tentative_def n x.2 = true) l).*2.

Definition merged (ss : list lnkSym) : option commonInfo :=
  match ss with
  | [] => None
  | _ => Some (CommonInfo (foldr Z.max 0 (size <$> ss)) (foldr Z.max 0 ((common_align ∘ value) <$> ss)))
  end.

(** The scan has seen [l]. *)
Record scanned (objs : list objFile) (l : list (nat * lnkSym)) (st : symScan) : Prop := {
  scanned_real n : n <> ""%string -> realDef st !! n = owner objs (definers (strong_def n) l);
  scanned_unique n : n <> ""%string -> (length (users objs (definers (strong_def n) l)) <= 1)%nat;
  scanned_common n : n <> ""%string -> commons st !! n = merged (tentatives n l);
  scanned_weak n : n <> ""%string -> weakDef st !! n = head (definers (weak_def n) l);
  scanned_named n : n = ""%string -> realDef st !! n = None /\ commons st !! n = None /\ weakDef st !! n = None
}.

Definition duplicated (objs : list objFile) (l : list (nat * lnkSym)) (n : string) : Prop :=
  n <> ""%string /\ (2 <= length (users objs (definers (strong_def n) l)))%nat.

Lemma definers_app d l x : definers d (l ++ [x]) = definers d l ++ if d x.2 then [x.1] else [].
Proof.
  unfold definers. rewrite list.filter_app, fmap_app. f_equal. rewrite list.filter_cons. destruct (d x.2); [by rewrite decide_True|].
  by rewrite decide_False.
Qed.

Lemma tentatives_app n l x : tentatives n (l ++ [x]) = tentatives n l ++ if tentative_def n x.2 then [x.2] else [].
Proof.
  unfold tentatives. rewrite list.filter_app, fmap_app. f_equal. rewrite list.filter_cons. destruct (tentative_def n x.2); [by rewrite decide_True|].
  by rewrite decide_False.
Qed.

Lemma users_app objs ks k : users objs (ks ++ [k]) = users objs ks ++ if archived objs k then [] else [k].
Proof. unfold users. rewrite list.filter_app. f_equal. rewrite list.filter_cons. by destruct (archived objs k). Qed.

Lemma owner_None objs ks : owner objs ks = None <-> ks = [].
Proof.
  split; [|by intros ->]. unfold owner. destruct (users objs ks); [|done]. apply last_None.
Qed.

Lemma owner_user objs ks k : owner objs ks = Some k ->
  archived objs k = match users objs ks with [] => true | _ => false end.
Proof.
  unfold owner. destruct (users objs ks) as [|u us] eqn:E; intros H.
  - destruct (archived objs k) eqn:Ea; [done|]. assert (Hin : k ∈ users objs ks).
    { apply list_elem_of_filter. split; [done|]. by apply last_Some_elem_of. }
    rewrite E in Hin. by apply elem_of_nil in Hin.
  - injection H as ->. assert (Hin : k ∈ users objs ks) by (rewrite E; left). by apply list_elem_of_filter in Hin as [-> _].
Qed.

Lemma owner_app objs ks k : (length (users objs ks) <= 1)%nat ->
  owner objs (ks ++ [k]) = Some (default k (users objs ks !! 0%nat)).
Proof.
  intros Hl. unfold owner. rewrite users_app. destruct (users objs ks) as [|u us]; [|by destruct (archived objs k)].
  destruct (archived objs k); cbn; [by rewrite last_snoc|done].
Qed.

Lemma define_real_spec objs real k n ks : real !! n = owner objs ks -> (length (users objs ks) <= 1)%nat ->
  match define_real objs real k n with
  | Ok real' => exists w, real' = <[n := w]> real /\ owner objs (ks ++ [k]) = Some w /\ (length (users objs (ks ++ [k])) <= 1)%nat
  | Err e => (2 <= length (users objs (ks ++ [k])))%nat /\ exists p q, e = DuplicateDefinition n p q
  end.
Proof.
  intros Hr Hl. unfold define_real. rewrite owner_app, users_app by done.
  destruct (real !! n) as [prev|] eqn:E.
  - symmetry in Hr. rewrite (owner_user _ _ _ Hr). unfold owner in Hr. destruct (users objs ks) as [|u us].
    + cbn. exists k. split; [done|]. destruct (archived objs k); cbn; (split; [done|lia]).
    + injection Hr as ->. destruct (archived objs k); cbn [negb andb]; rewrite length_app; cbn in *; [|split; [lia|eauto]].
      exists prev. split; [done|]. split; [done|lia].
  - symmetry in Hr. apply owner_None in Hr as ->. exists k. split; [done|]. cbn. by destruct (archived objs k); cbn; (split; [|lia]).
Qed.

Lemma max_snoc l x : foldr Z.max 0 (l ++ [x]) = Z.max (foldr Z.max 0 l) x.
Proof. induction l as [|y l IH]; cbn; lia. Qed.

Lemma merged_snoc ss s : merged (ss ++ [s]) = Some (add_common (default (CommonInfo 0 0) (merged ss)) s).
Proof.
  assert (Hm : forall a b, (if a <? b then b else a) = Z.max a b) by (intros a b; destruct (Z.ltb_spec a b); lia).
  unfold add_common. rewrite !Hm. destruct ss as [|s0 ss].
  - cbn. by rewrite !(Z.max_comm 0).
  - change (merged ((s0 :: ss) ++ [s])) with
      (Some (CommonInfo (foldr Z.max 0 (size <$> (s0 :: ss) ++ [s])) (foldr Z.max 0 ((common_align ∘ value) <$> (s0 :: ss) ++ [s])))).
    rewrite !fmap_app. cbn [fmap list_fmap]. rewrite !max_snoc. done.
Qed.

(** Folds that may fail, by the prefix of the list consumed. *)
Lemma foldM_prefix {A S : Type} (f : S -> A -> res S) (P : list A -> S -> Prop) (Q : list A -> link_error -> Prop) l pre st :
  P pre st ->
  (forall pre a st, P pre st -> match f st a with Ok st' => P (pre ++ [a]) st' | Err e => Q (pre ++ [a]) e end) ->
  match foldM f l st with
  | Ok st' => P (pre ++ l) st'
  | Err e => exists l1 l2, pre ++ l = l1 ++ l2 /\ Q l1 e
  end.
Proof.
  intros Hp Hs. revert pre st Hp. induction l as [|a l IH]; intros pre st Hp; [by rewrite app_nil_r|].
  specialize (Hs pre a st Hp). cbn. destruct (f st a) as [st'|e]; cbn [mbind res_bind].
  - specialize (IH _ _ Hs). rewrite <- app_assoc in IH. exact IH.
  - exists (pre ++ [a]), l. by rewrite <- app_assoc.
Qed.

Lemma def_name n s : strong_def n s = true \/ tentative_def n s = true \/ weak_def n s = true -> name s = n.
Proof.
  unfold strong_def, tentative_def, weak_def. intros [H|[H|H]]; apply andb_prop in H as [H _];
    apply andb_prop in H as [H _]; by apply bool_decide_eq_true in H.
Qed.

Lemma storage_not_common sec : storage sec = true -> sec <> "COMMON"%string.
Proof. intros H ->. by vm_compute in H. Qed.

(** The new symbol defines no name, or only [name s] and in one way. *)
Definition defines (s : lnkSym) (a b c : bool) : Prop :=
  strong_def (name s) s = a /\ tentative_def (name s) s = b /\ weak_def (name s) s = c.

Lemma scanned_other objs l st k s a b c n : defines s a b c -> scanned objs l st -> n <> name s \/ (a = false /\ b = false /\ c = false) ->
  definers (strong_def n) (l ++ [(k, s)]) = definers (strong_def n) l /\
  tentatives n (l ++ [(k, s)]) = tentatives n l /\
  definers (weak_def n) (l ++ [(k, s)]) = definers (weak_def n) l.
Proof.
  intros (Ha & Hb & Hc) Hs Hn. rewrite !definers_app, tentatives_app. cbn [fst snd].
  assert (strong_def n s = false /\ tentative_def n s = false /\ weak_def n s = false) as (-> & -> & ->); [|by rewrite !app_nil_r].
  assert (Hd : strong_def n s = true \/ tentative_def n s = true \/ weak_def n s = true -> False).
  { intros H. pose proof (def_name _ _ H) as <-. destruct Hn as [|(-> & -> & ->)]; [done|]. rewrite Ha, Hb, Hc in H. by intuition. }
  destruct (strong_def n s), (tentative_def n s), (weak_def n s); intuition.
Qed.

Lemma scanned_skip objs l st k s : name s = ""%string \/ defines s false false false -> scanned objs l st -> scanned objs (l ++ [(k, s)]) st.
Proof.
  intros Hd Hs.
  assert (Ho : forall n, n <> ""%string -> definers (strong_def n) (l ++ [(k, s)]) = definers (strong_def n) l /\
    tentatives n (l ++ [(k, s)]) = tentatives n l /\ definers (weak_def n) (l ++ [(k, s)]) = definers (weak_def n) l).
  { intros n Hn. destruct Hd as [Hd|Hd].
    - eapply scanned_other; [done..|]. left. congruence.
    - eapply scanned_other; [done..|]. by right. }
  constructor; intros n Hn; try destruct (Ho n Hn) as (E1 & E2 & E3).
  - rewrite E1. by apply Hs.
  - rewrite E1. by apply Hs.
  - rewrite E2. by apply Hs.
  - rewrite E3. by apply Hs.
  - by eapply scanned_named.
Qed.

Ltac same_name s n := destruct (decide (n = name s)) as [->|?];
  [rewrite ?lookup_insert_eq|rewrite ?lookup_insert_ne by done].

Lemma scanned_strong objs l st k s w : defines s true false false -> name s <> ""%string -> scanned objs l st ->
  owner objs (definers (strong_def (name s)) l ++ [k]) = Some w ->
  (length (users objs (definers (strong_def (name s)) l ++ [k])) <= 1)%nat ->
  scanned objs (l ++ [(k, s)]) (SymScan (commons st) (<[name s := w]> (realDef st)) (weakDef st)).
Proof.
  intros Hd He Hs Ho Hl. constructor; cbn [commons realDef weakDef]; intros n Hn; same_name s n;
    try (destruct (scanned_other _ _ _ k _ _ _ _ n Hd Hs (or_introl ltac:(done))) as (Q1 & Q2 & Q3);
      rewrite ?Q1, ?Q2, ?Q3; by apply Hs).
  all: rewrite ?definers_app, ?tentatives_app; cbn [fst snd]; destruct Hd as (E1 & E2 & E3); rewrite ?E1, ?E2, ?E3, ?app_nil_r; try done.
  all: try by apply Hs.
  all: by eapply scanned_named.
Qed.

Lemma scanned_tentative objs l st k s : defines s false true false -> name s <> ""%string -> scanned objs l st ->
  scanned objs (l ++ [(k, s)])
    (SymScan (<[name s := add_common (default (CommonInfo 0 0) (commons st !! name s)) s]> (commons st)) (realDef st) (weakDef st)).
Proof.
  intros Hd He Hs. constructor; cbn [commons realDef weakDef]; intros n Hn; same_name s n;
    try (destruct (scanned_other _ _ _ k _ _ _ _ n Hd Hs (or_introl ltac:(done))) as (Q1 & Q2 & Q3);
      rewrite ?Q1, ?Q2, ?Q3; by apply Hs).
  all: rewrite ?definers_app, ?tentatives_app; cbn [fst snd]; destruct Hd as (E1 & E2 & E3); rewrite ?E1, ?E2, ?E3, ?app_nil_r; try done.
  all: try by apply Hs.
  by rewrite merged_snoc, (scanned_common _ _ _ Hs).
Qed.

Lemma scanned_weaker objs l st k s : defines s false false true -> name s <> ""%string -> scanned objs l st ->
  scanned objs (l ++ [(k, s)])
    (match weakDef st !! name s with
     | Some _ => st
     | None => SymScan (commons st) (realDef st) (<[name s := k]> (weakDef st))
     end).
Proof.
  intros Hd He Hs. pose proof (scanned_weak _ _ _ Hs (name s) He) as Hw.
  destruct (weakDef st !! name s) as [j|] eqn:E; constructor; cbn [commons realDef weakDef]; intros n Hn; same_name s n;
    try (destruct (scanned_other _ _ _ k _ _ _ _ n Hd Hs (or_introl ltac:(done))) as (Q1 & Q2 & Q3);
      rewrite ?Q1, ?Q2, ?Q3; by apply Hs).
  all: rewrite ?definers_app, ?tentatives_app; cbn [fst snd]; destruct Hd as (E1 & E2 & E3); rewrite ?E1, ?E2, ?E3, ?app_nil_r; try done.
  all: try by apply Hs.
  all: try by eapply scanned_named.
  all: symmetry in Hw.
  - rewrite E. by destruct (definers (weak_def (name s)) l); [done|].
  - by destruct (definers (weak_def (name s)) l).
Qed.

Lemma scan_sym_spec objs l st x : scanned objs l st ->
  match scan_sym objs st x with
  | Ok st' => scanned objs (l ++ [x]) st'
  | Err e => exists n p q, e = DuplicateDefinition n p q /\ duplicated objs (l ++ [x]) n
  end.
Proof.
  intros Hs. destruct x as [k s]. unfold scan_sym. destruct (bool_decide_reflect (name s = ""%string)) as [He|He].
  { apply scanned_skip; [by left|done]. }
  assert (Hself : bool_decide (name s = name s) = true) by by apply bool_decide_eq_true.
  assert (Hd : forall b sec, binding s = b -> storage (secName s) = sec ->
    defines s (bool_decide (b = STB_GLOBAL) && sec) (bool_decide (b = STB_GLOBAL) && bool_decide (secName s = "COMMON"%string))
      (bool_decide (b = STB_WEAK) && sec)).
  { intros b sec <- <-. unfold defines, strong_def, tentative_def, weak_def. by rewrite Hself. }
  destruct (binding s) eqn:Eb; try (apply scanned_skip; [|done]; right; by apply (Hd _ _ eq_refl eq_refl)).
  - destruct (storage (secName s)) eqn:Es.
    + specialize (Hd _ _ eq_refl eq_refl). cbn in Hd. rewrite (bool_decide_false (secName s = "COMMON"%string)) in Hd by by apply storage_not_common.
      pose proof (define_real_spec objs (realDef st) k (name s) _ (scanned_real _ _ _ Hs _ He) (scanned_unique _ _ _ Hs _ He)) as Hr.
      destruct (define_real _ _ _ _) as [real|e]; cbn [mbind res_bind].
      * destruct Hr as (w & -> & Ho & Hl). by apply scanned_strong.
      * destruct Hr as (Hl & p & q & ->). exists (name s), p, q. split; [done|]. split; [done|].
        rewrite definers_app. cbn [fst snd]. by rewrite (proj1 Hd).
    + specialize (Hd _ _ eq_refl eq_refl). cbn in Hd. destruct (bool_decide (secName s = "COMMON"%string)) eqn:Ec.
      * by apply scanned_tentative.
      * apply scanned_skip; [by right|done].
  - destruct (storage (secName s)) eqn:Es; specialize (Hd _ _ eq_refl eq_refl); cbn in Hd.
    + pose proof (scanned_weaker objs l st k s Hd He Hs) as Hw. by destruct (weakDef st !! name s).
    + apply scanned_skip; [by right|done].
Qed.

Lemma duplicated_app objs l1 l2 n : duplicated objs l1 n -> duplicated objs (l1 ++ l2) n.
Proof.
  intros [Hn H]. split; [done|]. unfold definers, users in *. rewrite list.filter_app, fmap_app, list.filter_app, length_app. lia.
Qed.

(** What a name stands for. *)
Inductive winner := Strong (k : nat) | Tentative (ci : commonInfo) | Weak (k : nat) | Nothing.

#[export] Instance commonInfo_eq_dec : EqDecision commonInfo.
Proof. solve_decision. Defined.

#[export] Instance winner_eq_dec : EqDecision winner.
Proof. solve_decision. Defined.

(** The precedence: a strong definition, else the merger of the tentative
    ones, else the first weak definition. *)
Definition wins (objs : list objFile) (n : string) : winner :=
  let l := all_syms objs in
  match owner objs (definers (strong_def n) l), merged (tentatives n l), head (definers (weak_def n) l) with
  | Some k, _, _ => Strong k
  | None, Some ci, _ => Tentative ci
  | None, None, Some k => Weak k
  | None, None, None => Nothing
  end.

Definition recorded (st : symScan) (n : string) (w : winner) : Prop :=
  realDef st !! n = (if w is Strong k then Some k else None) /\
  commons st !! n = (if w is Tentative ci then Some ci else None) /\
  weakDef st !! n = (if w is Weak k then Some k else None).

Lemma survivors_recorded st n :
  recorded (survivors st) n
    match realDef st !! n, commons st !! n, weakDef st !! n with
    | Some k, _, _ => Strong k
    | None, Some ci, _ => Tentative ci
    | None, None, Some k => Weak k
    | None, None, None => Nothing
    end.
Proof.
  unfold recorded, survivors. cbn [realDef commons weakDef].
  set (cs := filter (fun '(n, _) => realDef st !! n = None) (commons st)).
  assert (Hc : cs !! n = match realDef st !! n with Some _ => None | None => commons st !! n end).
  { unfold cs. rewrite map_lookup_filter. destruct (commons st !! n) eqn:Ec; cbn; [|by destruct (realDef st !! n)].
    destruct (realDef st !! n) eqn:Er; cbn; case_guard; done. }
  clearbody cs. rewrite map_lookup_filter. destruct (weakDef st !! n) as [k|] eqn:Ew; cbn [mbind option_bind].
  - case_guard as Hg; pose proof Hg as Hg1; rewrite Hc in Hg1; cbn; rewrite Hc; destruct (realDef st !! n), (commons st !! n); try done; by destruct Hg1.
  - rewrite Hc. by destruct (realDef st !! n), (commons st !! n).
Qed.

Lemma scan_symbols_spec objs :
  match scan_symbols objs with
  | Ok st => (forall n, ~ duplicated objs (all_syms objs) n) /\
      (forall n, n <> ""%string -> recorded st n (wins objs n)) /\ recorded st "" Nothing
  | Err e => exists n p q, e = DuplicateDefinition n p q /\ duplicated objs (all_syms objs) n
  end.
Proof.
  unfold scan_symbols.
  assert (Hi : scanned objs [] (SymScan ∅ ∅ ∅)) by (constructor; intros n _; [done|cbn; lia|done|done|done]).
  pose proof (foldM_prefix (scan_sym objs) (scanned objs)
    (fun l e => exists n p q, e = DuplicateDefinition n p q /\ duplicated objs l n)
    (all_syms objs) [] (SymScan ∅ ∅ ∅) Hi (fun pre a st H => scan_sym_spec objs pre st a H)) as H.
  destruct (foldM _ _ _) as [st|e]; cbn [mbind res_bind].
  - cbn [app] in H. split; [|split].
    + intros n [Hn Hd]. pose proof (scanned_unique _ _ _ H n Hn). lia.
    + intros n Hn. pose proof (survivors_recorded st n) as Hr. unfold wins.
      by rewrite (scanned_real _ _ _ H n Hn), (scanned_common _ _ _ H n Hn), (scanned_weak _ _ _ H n Hn) in Hr.
    + pose proof (survivors_recorded st ""%string) as Hr. destruct (scanned_named _ _ _ H ""%string eq_refl) as (E1 & E2 & E3).
      by rewrite E1, E2, E3 in Hr.
  - destruct H as (l1 & l2 & El & n & p & q & -> & Hd). cbn [app] in El. exists n, p, q. split; [done|]. rewrite El.
    by apply duplicated_app.
Qed.
