(* ===== verification/LinkLayout.v ===== *)
(** The layout of the linked image (linker.go): placement of the merged
    sections, allocation of COMMON symbols, virtual addresses. *)
From stdpp Require Import gmap strings sorting.
From S2P Require Import Prelude Align Linker LinkSyms.
#[local] Open Scope Z_scope.

(** * Placement *)

(** The fields of an object file that are set during layout. *)
Record placement := Placement { textBaseWord : Z; rodataOff : Z; dataOff : Z; bssOff : Z }.

(** The extent of the merged sections so far: words of code, and bytes. *)
Record extent := Extent { textWords : Z; totalRodata : Z; totalData : Z; totalBss : Z }.

Definition bytes_len (l : list Z) : Z := Z.of_nat (length l).

Definition place_obj (t : extent) (o : objFile) : placement * extent :=
  let ro := align16 (totalRodata t) in
  let da := align16 (totalData t) in
  let bs := align16 (totalBss t) in
  (Placement (textWords t) ro da bs,
   Extent (textWords t + bytes_len (textData o) / 4) (u64 (ro + bytes_len (rodataData o)))
     (u64 (da + bytes_len (dataData o))) (u64 (bs + bssSize o))).

Fixpoint place (t : extent) (objs : list objFile) : list placement * extent :=
  match objs with
  | [] => ([], t)
  | o :: objs => let '(p, t) := place_obj t o in let '(ps, t) := place t objs in (p :: ps, t)
  end.

(** * COMMON symbols *)

Definition common_names (cs : gmap string commonInfo) : list string := merge_sort String.le (map_to_list cs).*1.

Definition alloc_common (cs : gmap string commonInfo) (st : gmap string Z * Z) (n : string) : gmap string Z * Z :=
  let ci := default (CommonInfo 0 0) (cs !! n) in
  let b := align_up st.2 (ci_align ci) in
  (<[n := b]> st.1, u64 (b + ci_size ci)).

(** Offsets in BSS of the surviving COMMONs, in sorted order, and its end. *)
Definition alloc_commons (cs : gmap string commonInfo) (bss : Z) : gmap string Z * Z :=
  foldl (alloc_common cs) (∅, bss) (common_names cs).

(** * Addresses *)

Definition linkerLoadBase : Z := 0x400000.
Definition lnkHdrEnd : Z := 64 + 4 * 56.
Definition lnkCodeBase : Z := linkerLoadBase + lnkHdrEnd.

Record bases := Bases { rodataBase : Z; dataBase : Z; bssBase : Z }.

Definition layout_bases (words ro da : Z) : bases :=
  let r := nextPage (u64 (lnkCodeBase + u64 (words * 4))) in
  let d := nextPage (u64 (r + ro)) in
  Bases r d (nextPage (u64 (d + da))).

Definition sectionVA (b : bases) (p : placement) (s : lnkSym) : option Z :=
  if bool_decide (secName s = ".text"%string) then Some (u64 (lnkCodeBase + u64 (textBaseWord p) * 4 + value s))
  else if bool_decide (secName s = ".rodata"%string) then Some (u64 (rodataBase b + rodataOff p + value s))
  else if bool_decide (secName s = ".data"%string) then Some (u64 (dataBase b + dataOff p + value s))
  else if bool_decide (secName s = ".bss"%string) then Some (u64 (bssBase b + bssOff p + value s))
  else None.

(** * The global symbol table *)

(** Whether a definition is the one that counts for its name. *)
Definition counts (st : symScan) (ks : nat * lnkSym) : bool :=
  let '(k, s) := ks in
  negb (bool_decide (name s = ""%string)) &&
  match binding s with
  | STB_GLOBAL => match realDef st !! name s with Some w => bool_decide (w = k) | None => true end
  | STB_WEAK => match weakDef st !! name s with Some w => bool_decide (w = k) | None => false end
  | _ => false
  end.

Definition enter_sym (st : symScan) (b : bases) (ps : list placement) (va : gmap string Z) (ks : nat * lnkSym) : gmap string Z :=
  if counts st ks then
    match ps !! ks.1 ≫= (fun p => sectionVA b p ks.2) with
    | Some v => <[name ks.2 := v]> va
    | None => va
    end
  else va.

(** The labels of the helper code, the winning definitions, the COMMONs. *)
Definition symbol_table (labels : gmap string Z) (objs : list objFile) (st : symScan) (b : bases)
    (ps : list placement) (coff : gmap string Z) : gmap string Z :=
  let va := (fun i => u64 (lnkCodeBase + i * 4)) <$> labels in
  let va := foldl (enter_sym st b ps) va (all_syms objs) in
  ((fun off => u64 (bssBase b + off)) <$> coff) ∪ va.

(** * Runs of pieces of memory *)

(** The pieces, each an address and a length, lie in this order in
    [lo, hi). *)
Fixpoint packed (lo : Z) (l : list (Z * Z)) (hi : Z) : Prop :=
  match l with
  | [] => lo <= hi
  | (a, n) :: l => lo <= a /\ 0 <= n /\ packed (a + n) l hi
  end.

Lemma packed_le lo l hi : packed lo l hi -> lo <= hi.
Proof. revert lo. induction l as [|[a n] l IH]; intros lo H; [done|]. destruct H as (? & ? & H). apply IH in H. lia. Qed.

Lemma packed_weaken lo lo' l hi hi' : lo' <= lo -> hi <= hi' -> packed lo l hi -> packed lo' l hi'.
Proof.
  revert lo lo'. induction l as [|[a n] l IH]; intros lo lo' H1 H2 H; cbn in *; [lia|]. destruct H as (? & ? & H).
  split; [lia|]. split; [done|]. by apply (IH (a + n)); [lia|..].
Qed.

Lemma packed_app lo l1 mid l2 hi : packed lo l1 mid -> packed mid l2 hi -> packed lo (l1 ++ l2) hi.
Proof.
  revert lo. induction l1 as [|[a n] l1 IH]; intros lo H1 H2; cbn in *; [by eapply packed_weaken; [..|exact H2]|].
  destruct H1 as (? & ? & H1). split; [done|]. split; [done|]. by apply IH.
Qed.

Lemma packed_shift c lo l hi : packed lo l hi -> packed (c + lo) ((fun p => (c + p.1, p.2)) <$> l) (c + hi).
Proof.
  revert lo. induction l as [|[a n] l IH]; intros lo H; cbn in *; [lia|]. destruct H as (? & ? & H).
  split; [lia|]. split; [done|]. rewrite <- Z.add_assoc. by apply IH.
Qed.

(** Pieces apart in the list are apart in memory. *)
Lemma packed_disjoint lo l hi i j a n b m : packed lo l hi -> (i < j)%nat -> l !! i = Some (a, n) -> l !! j = Some (b, m) ->
  lo <= a /\ a + n <= b /\ b + m <= hi.
Proof.
  revert lo i j. induction l as [|[c k] l IH]; intros lo i j H Hij Hi Hj; [done|]. destruct H as (H1 & H2 & H).
  destruct j as [|j]; [lia|]. destruct i as [|i].
  - cbn in Hi, Hj. injection Hi as -> ->. split; [done|]. clear IH Hij.
    revert H. generalize (a + n) as lo'. clear -Hj. revert j Hj. induction l as [|[c k] l IH]; intros j Hj lo' H; [done|].
    destruct H as (H1 & H2 & H). destruct j as [|j].
    + cbn in Hj. injection Hj as -> ->. split; [done|]. by apply packed_le in H.
    + cbn in Hj. destruct (IH j Hj _ H). lia.
  - cbn in Hi, Hj. destruct (IH (c + k) i j H ltac:(lia) Hi Hj) as (? & ? & ?). lia.
Qed.

(** * Placement: what it establishes *)

(** One merged section on its own: offsets and final size. *)
Fixpoint pile (up next : Z -> Z) (t : Z) (sizes : list Z) : list Z * Z :=
  match sizes with
  | [] => ([], t)
  | n :: sizes => let off := up t in let '(offs, t) := pile up next (next (off + n)) sizes in (off :: offs, t)
  end.

Lemma place_piles t objs :
  (textBaseWord <$> (place t objs).1, textWords (place t objs).2) =
    pile id id (textWords t) ((fun o => bytes_len (textData o) / 4) <$> objs) /\
  (rodataOff <$> (place t objs).1, totalRodata (place t objs).2) =
    pile align16 (wrapU 64) (totalRodata t) ((fun o => bytes_len (rodataData o)) <$> objs) /\
  (dataOff <$> (place t objs).1, totalData (place t objs).2) =
    pile align16 (wrapU 64) (totalData t) ((fun o => bytes_len (dataData o)) <$> objs) /\
  (bssOff <$> (place t objs).1, totalBss (place t objs).2) = pile align16 (wrapU 64) (totalBss t) (bssSize <$> objs).
Proof.
  revert t. induction objs as [|o objs IH]; intros t; [done|]. cbn [place place_obj fmap list_fmap pile].
  specialize (IH (place_obj t o).2). cbn [place_obj snd] in IH. destruct (place _ objs) as [ps t'].
  cbn [fst snd textWords totalRodata totalData totalBss] in IH. destruct IH as (E1 & E2 & E3 & E4).
  rewrite <- E2, <- E3, <- E4. unfold id in *. rewrite <- E1. done.
Qed.

Definition zsum (l : list Z) : Z := foldr Z.add 0 l.

#[local] Arguments zsum : simpl never.

Lemma zsum_cons x l : zsum (x :: l) = x + zsum l. Proof. done. Qed.

Lemma zsum_nonneg l : Forall (fun n => 0 <= n) l -> 0 <= zsum l.
Proof. induction 1; rewrite ?zsum_cons; [done|lia]. Qed.

Lemma zsum_app l1 l2 : zsum (l1 ++ l2) = zsum l1 + zsum l2.
Proof. induction l1 as [|x l1 IH]; cbn [app]; rewrite ?zsum_cons; [done|lia]. Qed.

Lemma pile_packed up next slack t sizes offs t' : pile up next t sizes = (offs, t') ->
  Forall (fun n => 0 <= n) sizes -> 0 <= t -> 0 <= slack ->
  (forall v, 0 <= v -> v + slack < 2 ^ 64 -> v <= up v <= v + slack) ->
  (forall v, 0 <= v < 2 ^ 64 -> next v = v) ->
  t + zsum ((Z.add slack) <$> sizes) < 2 ^ 64 ->
  packed t (zip offs sizes) t' /\ t' <= t + zsum ((Z.add slack) <$> sizes) /\ length offs = length sizes.
Proof.
  intros H Hs Ht Hk Hup Hnext. revert t offs Ht H. induction Hs as [|n sizes Hn Hs IH]; intros t offs Ht H Hf.
  - injection H as <- <-. unfold zsum. cbn. lia.
  - assert (Hz : 0 <= zsum (Z.add slack <$> sizes)).
    { apply zsum_nonneg. clear -Hs Hk. induction Hs; cbn; constructor; [lia|done]. }
    cbn [fmap list_fmap] in Hf. rewrite zsum_cons in Hf.
    cbn [pile] in H. pose proof (Hup t Ht ltac:(lia)) as Hu. rewrite Hnext in H by lia.
    destruct (pile up next (up t + n) sizes) as [offs1 t1] eqn:E. injection H as <- <-.
    destruct (IH (up t + n) offs1 ltac:(lia) E ltac:(lia)) as (Hp & Hle & Hlen).
    cbn [zip zip_with packed fmap list_fmap length]. rewrite zsum_cons.
    split; [split; [lia|by split]|]. split; [lia|by rewrite Hlen].
Qed.

Lemma pile_up up next t sizes (P : Z -> Prop) : (forall v, P (up v)) -> Forall P (pile up next t sizes).1.
Proof.
  intros Hp. revert t. induction sizes as [|n sizes IH]; intros t; [constructor|]. cbn [pile].
  specialize (IH (next (up t + n))). destruct (pile _ _ _ sizes). by constructor.
Qed.

Lemma align16_range v : 0 <= v -> v + 15 < 2 ^ 64 -> v <= align16 v <= v + 15.
Proof. intros Hv Hf. pose proof (align_up_spec v 16 pow2_16 Hv ltac:(lia)) as [H _]. unfold align16. lia. Qed.

Lemma align16_divides v : (16 | align16 v).
Proof. unfold align16, align_up. change (16 - 1) with (2 ^ 4 - 1). rewrite ldiff_ones by lia. by eexists. Qed.

Lemma nextPage_divides v : (pageSize | nextPage v).
Proof. unfold nextPage, align_up, pageSize. change (4096 - 1) with (2 ^ 12 - 1). rewrite ldiff_ones by lia. by eexists. Qed.

Lemma nextPage_range v : 0 <= v -> v + 4096 <= 2 ^ 64 -> v <= nextPage v < v + 4096.
Proof. intros Hv Hf. exact (proj1 (align_up_spec v 4096 pow2_page Hv Hf)). Qed.

(** * COMMON symbols: what allocation establishes *)

Definition common_ok (ci : commonInfo) : Prop := pow2 (ci_align ci) /\ ci_align ci <= 4096 /\ 0 <= ci_size ci.

Lemma common_align_ok al : 0 <= al -> pow2 (common_align al) /\ common_align al <= 4096.
Proof.
  intros Ha. unfold common_align. destruct (Z.eqb_spec al 0); cbn [orb]; [split; [by exists 3|lia]|].
  destruct (Z.eqb_spec (Z.land al (al - 1)) 0); cbn [orb negb]; [|split; [by exists 3|lia]].
  destruct (Z.ltb_spec 4096 al); [split; [by exists 3|lia]|]. split; [apply pow2_test; [lia|done]|lia].
Qed.

Lemma merged_ok ss ci : Forall (fun s => 0 <= value s) ss -> merged ss = Some ci -> common_ok ci.
Proof.
  intros Hv H. destruct ss as [|s ss]; [done|]. cbn in H. injection H as <-. unfold common_ok. cbn [ci_size ci_align].
  apply Forall_cons_1 in Hv as [Hs Hv]. pose proof (common_align_ok _ Hs) as [H1 H2].
  assert (Hm : forall l, 0 <= foldr Z.max 0 l) by (intros l; induction l; cbn; lia).
  split; [|split; [|specialize (Hm (size <$> ss)); lia]].
  - induction Hv as [|s1 ss1 H3 Hv IH]; cbn; [by rewrite Z.max_l by (pose proof (pow2_pos _ H1); lia)|].
    rewrite Z.max_assoc, (Z.max_comm (common_align (value s))), <- Z.max_assoc. apply pow2_max; [by apply common_align_ok|exact IH].
  - induction Hv as [|s1 ss1 H3 Hv IH]; cbn in *; [lia|]. pose proof (common_align_ok _ H3). lia.
Qed.

Definition info (cs : gmap string commonInfo) (n : string) : commonInfo := default (CommonInfo 0 0) (cs !! n).

(** The slot of a COMMON in the merged BSS. *)
Definition slot (cs : gmap string commonInfo) (off : gmap string Z) (n : string) : Z * Z :=
  (default 0 (off !! n), ci_size (info cs n)).

Lemma alloc_fold cs ns m t m' t' : foldl (alloc_common cs) (m, t) ns = (m', t') -> NoDup ns ->
  Forall (fun n => common_ok (info cs n)) ns -> 0 <= t ->
  t + zsum ((fun n => 4096 + ci_size (info cs n)) <$> ns) < 2 ^ 64 ->
  packed t (slot cs m' <$> ns) t' /\
  (forall n, n ∈ ns -> exists off, m' !! n = Some off /\ (ci_align (info cs n) | off)) /\
  (forall n, n ∉ ns -> m' !! n = m !! n) /\ t' <= t + zsum ((fun n => 4096 + ci_size (info cs n)) <$> ns).
Proof.
  revert m t. induction ns as [|n ns IH]; intros m t H Hnd Hok Ht Hf.
  - injection H as <- <-. unfold zsum. cbn. split; [lia|]. split; [intros n Hn; by apply elem_of_nil in Hn|]. split; [done|lia].
  - apply Forall_cons_1 in Hok as [Hn Hok]. apply list.NoDup_cons in Hnd as [Hnin Hnd]. cbn [foldl] in H.
    cbn [fmap list_fmap] in Hf |- *. rewrite zsum_cons in Hf |- *.
    assert (Hz : 0 <= zsum ((fun n => 4096 + ci_size (info cs n)) <$> ns)).
    { apply zsum_nonneg, list.Forall_fmap. eapply list.Forall_impl; [exact Hok|]. intros x (_ & _ & Hx). cbn. lia. }
    unfold alloc_common in H at 2. cbn [fst snd] in H. fold (info cs n) in H. destruct Hn as (Hp & Ha & Hsz).
    pose proof (pow2_pos _ Hp). destruct (align_up_spec t (ci_align (info cs n)) Hp Ht ltac:(lia)) as [Hr Hd].
    set (b := align_up t (ci_align (info cs n))) in *. rewrite wrapU_small in H by lia.
    destruct (IH _ _ H Hnd Hok ltac:(lia) ltac:(lia)) as (Hpk & Hin & Hout & Hle).
    assert (Hb : m' !! n = Some b) by (rewrite (Hout n Hnin); apply lookup_insert_eq).
    split; [|split; [|split]].
    + cbn [packed]. unfold slot at 1. rewrite Hb. change (default 0 (Some b)) with b. split; [lia|]. split; [done|]. exact Hpk.
    + intros x Hx. apply elem_of_cons in Hx as [->|Hx]; [by exists b|by apply Hin].
    + intros x Hx. apply not_elem_of_cons in Hx as [Hx1 Hx2]. rewrite (Hout x Hx2). by rewrite lookup_insert_ne.
    + lia.
Qed.

Lemma common_names_nodup cs : NoDup (common_names cs).
Proof. unfold common_names. rewrite merge_sort_Permutation. apply NoDup_fst_map_to_list. Qed.

Lemma common_names_elem cs n : n ∈ common_names cs <-> is_Some (cs !! n).
Proof.
  unfold common_names. rewrite merge_sort_Permutation. rewrite list_elem_of_fmap. split.
  - intros ([x ci] & -> & H). apply elem_of_map_to_list in H. by exists ci.
  - intros [ci H]. exists (n, ci). split; [done|]. by apply elem_of_map_to_list.
Qed.

Lemma alloc_commons_spec cs t m t' : alloc_commons cs t = (m, t') ->
  (forall n ci, cs !! n = Some ci -> common_ok ci) -> 0 <= t ->
  t + zsum ((fun n => 4096 + ci_size (info cs n)) <$> common_names cs) < 2 ^ 64 ->
  packed t (slot cs m <$> common_names cs) t' /\
  (forall n ci, cs !! n = Some ci -> exists off, m !! n = Some off /\ (ci_align ci | off)) /\
  (forall n, cs !! n = None -> m !! n = None) /\
  t' <= t + zsum ((fun n => 4096 + ci_size (info cs n)) <$> common_names cs).
Proof.
  intros H Hok Ht Hf. destruct (alloc_fold cs (common_names cs) ∅ t m t' H (common_names_nodup cs)) as (H1 & H2 & H3 & H4); [|done..|].
  - apply list.Forall_forall. intros n Hn. apply common_names_elem in Hn as [ci Hc]. unfold info. rewrite Hc. by apply (Hok n).
  - split; [done|]. split; [|split; [|done]].
    + intros n ci Hc. destruct (H2 n) as (off & Ho & Hd); [apply common_names_elem; by eexists|]. exists off. split; [done|].
      unfold info in Hd. by rewrite Hc in Hd.
    + intros n Hc. rewrite H3; [apply lookup_empty|]. rewrite common_names_elem. rewrite Hc. by intros [? ?].
Qed.

(** * The symbol table *)

Lemma sectionVA_storage b p s : is_Some (sectionVA b p s) <-> storage (secName s) = true.
Proof.
  unfold sectionVA, storage. rewrite bool_decide_eq_true. rewrite !elem_of_cons, elem_of_nil.
  repeat (case_bool_decide; [split; [by intuition|by intros _; eexists]|]). split; [by intros [? ?]|by intuition].
Qed.

(** The symbols of object [k], with a property, among those of all objects. *)
Lemma all_syms_object (d : lnkSym -> bool) objs k :
  filter (fun x => x.1 = k /\ d x.2 = true) (all_syms objs) =
  pair k <$> filter (fun s => d s = true) (default [] (syms <$> objs !! k)).
Proof.
  unfold all_syms.
  assert (Hone : forall j l, filter (fun x => x.1 = k /\ d x.2 = true) (pair j <$> l) =
    if decide (j = k) then pair k <$> filter (fun s => d s = true) l else []).
  { intros j l. induction l as [|s l IH]; cbn [fmap list_fmap]; [by destruct (decide (j = k))|].
    rewrite !list.filter_cons, IH. cbn [fst snd]. destruct (decide (j = k)) as [->|Hne].
    - destruct (decide (d s = true)) as [Hd|Hd]; [by rewrite decide_True|]. rewrite decide_False; [done|]. by intros [_ ?].
    - rewrite decide_False; [done|]. by intros [? _]. }
  assert (Hall : forall objs j, filter (fun x => x.1 = k /\ d x.2 = true) (concat (imap (fun i o => pair (j + i)%nat <$> syms o) objs)) =
    if decide (j <= k)%nat then pair k <$> filter (fun s => d s = true) (default [] (syms <$> objs !! (k - j)%nat)) else []).
  { clear objs. intros objs. induction objs as [|o objs IH]; intros j.
    - cbn. by destruct (decide (j <= k)%nat).
    - cbn [imap concat]. rewrite list.filter_app, Hone, Nat.add_0_r.
      rewrite (imap_ext _ (fun i o => pair (S j + i)%nat <$> syms o)) by (intros i x _; cbn; do 2 f_equal; lia). rewrite IH.
      destruct (decide (j = k)) as [->|Hne].
      + rewrite decide_False by lia. rewrite decide_True by lia. rewrite Nat.sub_diag, app_nil_r. done.
      + cbn [app]. destruct (decide (S j <= k)%nat), (decide (j <= k)%nat); try lia; [|done].
        replace (k - j)%nat with (S (k - S j)) by lia. done. }
  specialize (Hall objs 0%nat). rewrite Nat.sub_0_r in Hall. exact Hall.
Qed.

(** The definition of a kind that object [k] contributes: its last. *)
Definition definition (d : lnkSym -> bool) (objs : list objFile) (k : nat) : option lnkSym :=
  list.last (filter (fun s => d s = true) (default [] (syms <$> objs !! k))).

Definition enters (st : symScan) (n : string) (x : nat * lnkSym) : bool :=
  counts st x && bool_decide (name x.2 = n) && storage (secName x.2).

Lemma enter_fold st b ps l va n : (forall x, x ∈ l -> is_Some (ps !! x.1)) ->
  foldl (enter_sym st b ps) va l !! n =
  match list.last (filter (fun x => enters st n x = true) l) with
  | Some x => ps !! x.1 ≫= (fun p => sectionVA b p x.2)
  | None => va !! n
  end.
Proof.
  revert va. induction l as [|x l IH] using rev_ind; intros va Hps; [done|].
  rewrite foldl_app, list.filter_app. cbn [foldl]. rewrite list.filter_cons.
  destruct (Hps x) as [p Hp]; [apply elem_of_app; right; by apply list_elem_of_singleton|].
  assert (IH' := IH va (fun y Hy => Hps y (proj2 (elem_of_app _ _ _) (or_introl Hy)))). clear IH.
  unfold enter_sym at 1. rewrite Hp. cbn [mbind option_bind]. pose proof (sectionVA_storage b p x.2) as Hst.
  destruct (enters st n x) eqn:Ee; first [rewrite decide_True by done | rewrite decide_False by done];
    change (filter _ []) with (@nil (nat * lnkSym)); unfold enters in Ee.
  - apply andb_prop in Ee as [Ee Es]. apply andb_prop in Ee as [-> En]. apply bool_decide_eq_true in En as <-.
    destruct (proj2 Hst Es) as [v Hv]. rewrite last_snoc, Hp. cbn [mbind option_bind]. rewrite Hv. apply lookup_insert_eq.
  - rewrite app_nil_r, <- IH'. destruct (counts st x); [|done]. destruct (sectionVA b p x.2) as [v|]; [|done].
    rewrite (proj1 Hst ltac:(by eexists)) in Ee. destruct (bool_decide_reflect (name x.2 = n)); [done|]. by rewrite lookup_insert_ne.
Qed.

Lemma all_syms_elem objs x : x ∈ all_syms objs -> exists o, objs !! x.1 = Some o /\ x.2 ∈ syms o.
Proof.
  unfold all_syms. intros H. apply list_elem_of_In, in_concat in H as (l & Hl & Hx).
  apply list_elem_of_In, elem_of_lookup_imap in Hl as (k & o & -> & Ho). apply list_elem_of_In, list_elem_of_fmap in Hx as (s & -> & Hs).
  by exists o.
Qed.

Lemma definers_elem d l k : k ∈ definers d l <-> exists s, (k, s) ∈ l /\ d s = true.
Proof.
  unfold definers. rewrite list_elem_of_fmap. split.
  - intros ([j s] & -> & H). apply list_elem_of_filter in H as [H1 H2]. by exists s.
  - intros (s & Hin & Hd). exists (k, s). split; [done|]. by apply list_elem_of_filter.
Qed.

Lemma filter_ext_in {A} (P Q : A -> Prop) `{!forall x, Decision (P x)} `{!forall x, Decision (Q x)} (l : list A) :
  (forall x, x ∈ l -> P x <-> Q x) -> filter P l = filter Q l.
Proof.
  induction l as [|x l IH]; intros Hpq; [done|]. rewrite !list.filter_cons, (IH (fun y Hy => Hpq y ltac:(by right))).
  pose proof (Hpq x ltac:(left)). destruct (decide (P x)), (decide (Q x)); tauto.
Qed.

Lemma last_fmap_pair {A B} (k : A) (l : list B) : list.last (pair k <$> l) = pair k <$> list.last l.
Proof. apply fmap_last. Qed.

(** The winner's own definition, or the last of several in the object. *)
Lemma enters_winner objs st n k d : n <> ""%string ->
  (forall x, x ∈ all_syms objs -> enters st n x = true <-> x.1 = k /\ d x.2 = true) ->
  list.last (filter (fun x => enters st n x = true) (all_syms objs)) = pair k <$> definition d objs k.
Proof.
  intros Hn H. rewrite (filter_ext_in _ (fun x => x.1 = k /\ d x.2 = true)) by done. rewrite all_syms_object.
  apply fmap_last.
Qed.

Lemma enters_strong st n k : n <> ""%string -> recorded st n (Strong k) ->
  forall x, enters st n x = true <-> x.1 = k /\ strong_def n x.2 = true.
Proof.
  intros Hn (Hr & _ & Hw) [j s]. unfold enters, counts, strong_def. cbn [fst snd].
  rewrite !andb_true_iff, !bool_decide_eq_true, negb_true_iff, bool_decide_eq_false.
  split.
  - intros [[[H1 H2] <-] H3]. destruct (binding s) eqn:Eb; try done.
    + rewrite Hr in H2. apply bool_decide_eq_true in H2 as <-. done.
    + by rewrite Hw in H2.
  - intros (-> & [<- ->] & H3). rewrite Hr. rewrite bool_decide_eq_true. done.
Qed.

Lemma enters_weak objs st n k : n <> ""%string -> recorded st n (Weak k) -> wins objs n = Weak k ->
  forall x, x ∈ all_syms objs -> enters st n x = true <-> x.1 = k /\ weak_def n x.2 = true.
Proof.
  intros Hn (Hr & _ & Hw) Hwin [j s] Hin. unfold enters, counts, weak_def. cbn [fst snd].
  rewrite !andb_true_iff, !bool_decide_eq_true, negb_true_iff, bool_decide_eq_false.
  split.
  - intros [[[H1 H2] <-] H3]. destruct (binding s) eqn:Eb; try done.
    + exfalso. unfold wins in Hwin. destruct (owner _ _) eqn:Eo; [done|]. apply owner_None in Eo.
      assert (Hd : j ∈ definers (strong_def (name s)) (all_syms objs)).
      { apply definers_elem. exists s. split; [done|]. unfold strong_def. rewrite Eb, H3. by rewrite !bool_decide_true by done. }
      rewrite Eo in Hd. by apply elem_of_nil in Hd.
    + rewrite Hw in H2. apply bool_decide_eq_true in H2 as <-. done.
  - intros (-> & [<- ->] & H3). rewrite Hw. rewrite bool_decide_eq_true. done.
Qed.

Lemma enters_nothing objs st n w : n <> ""%string -> recorded st n w -> wins objs n = w ->
  (if w is Tentative _ then true else if w is Nothing then true else false) = true ->
  filter (fun x => enters st n x = true) (all_syms objs) = [].
Proof.
  intros Hn (Hr & _ & Hw) Hwin Hk. rewrite (filter_ext_in _ (fun _ => False)); [by induction (all_syms objs)|].
  intros [j s] Hin. split; [|done]. unfold enters, counts. cbn [fst snd].
  rewrite !andb_true_iff, !bool_decide_eq_true, negb_true_iff, bool_decide_eq_false.
  intros [[[H1 H2] <-] H3]. destruct (binding s) eqn:Eb; try done.
  - unfold wins in Hwin. destruct (owner _ _) eqn:Eo; [by rewrite <- Hwin in Hk|]. apply owner_None in Eo.
    assert (Hd : j ∈ definers (strong_def (name s)) (all_syms objs)).
    { apply definers_elem. exists s. split; [done|]. unfold strong_def. rewrite Eb, H3. by rewrite !bool_decide_true by done. }
    rewrite Eo in Hd. by apply elem_of_nil in Hd.
  - rewrite Hw in H2. by destruct w.
Qed.

(** Where a name leads, in the finished table. *)
Definition resolved_va (labels : gmap string Z) (objs : list objFile) (b : bases) (ps : list placement) (coff : gmap string Z)
    (n : string) : option Z :=
  match wins objs n with
  | Strong k => s ← definition (strong_def n) objs k; p ← ps !! k; sectionVA b p s
  | Tentative _ => (fun off => u64 (bssBase b + off)) <$> coff !! n
  | Weak k => s ← definition (weak_def n) objs k; p ← ps !! k; sectionVA b p s
  | Nothing => (fun i => u64 (lnkCodeBase + i * 4)) <$> labels !! n
  end.

(** The object that wins does define the name. *)
Lemma wins_defines objs n :
  match wins objs n with
  | Strong k => is_Some (definition (strong_def n) objs k)
  | Weak k => is_Some (definition (weak_def n) objs k)
  | _ => True
  end.
Proof.
  assert (H : forall d k, k ∈ definers d (all_syms objs) -> is_Some (definition d objs k)).
  { intros d k Hk. apply definers_elem in Hk as (s & Hin & Hd). apply last_is_Some. intros E.
    assert (Hf : (k, s) ∈ filter (fun x => x.1 = k /\ d x.2 = true) (all_syms objs)) by by apply list_elem_of_filter.
    rewrite all_syms_object, E in Hf. by apply elem_of_nil in Hf. }
  unfold wins. destruct (owner _ _) as [k|] eqn:Eo.
  - apply H. unfold owner in Eo. destruct (users _ _) as [|u us] eqn:Eu; [by apply last_Some_elem_of|]. injection Eo as ->.
    assert (Hk : k ∈ users objs (definers (strong_def n) (all_syms objs))) by (rewrite Eu; left).
    by apply list_elem_of_filter in Hk as [_ Hk].
  - destruct (merged _); [done|]. destruct (head _) as [k|] eqn:Ek; [|done]. apply H. destruct (definers (weak_def n) (all_syms objs)); [by cbn in Ek|].
    injection Ek as ->. left.
Qed.

Lemma symbol_table_spec labels objs st b ps coff n : scan_symbols objs = Ok st -> length ps = length objs -> n <> ""%string ->
  (commons st !! n = None <-> coff !! n = None) ->
  symbol_table labels objs st b ps coff !! n = resolved_va labels objs b ps coff n.
Proof.
  intros Hs Hl Hn Hc. pose proof (scan_symbols_spec objs) as Hsp. rewrite Hs in Hsp. destruct Hsp as (_ & Hr & _).
  specialize (Hr n Hn). unfold symbol_table, resolved_va.
  assert (Hps : forall x, x ∈ all_syms objs -> is_Some (ps !! x.1)).
  { intros x Hx. apply all_syms_elem in Hx as (o & Ho & _). apply lookup_lt_is_Some. rewrite Hl. by eapply lookup_lt_Some. }
  rewrite lookup_union, !lookup_fmap, enter_fold by done. destruct Hr as (Hr1 & Hr2 & Hr3).
  pose proof (wins_defines objs n) as Hd.
  assert (Hu : forall (x : Z) m, Some x ∪ m = Some x) by (by intros x [y|]).
  destruct (wins objs n) as [k|ci|k|] eqn:Ew.
  - rewrite (proj1 Hc Hr2). rewrite (enters_winner _ _ _ k (strong_def n)); [|done|intros x _; by apply enters_strong].
    destruct Hd as [s ->]. cbn. by rewrite (left_id None _).
  - rewrite (enters_nothing _ _ _ (Tentative ci)) by done. cbn [list.last]. destruct (coff !! n) as [off|] eqn:Eo; [|by rewrite (proj2 Hc eq_refl) in Hr2].
    apply Hu.
  - rewrite (proj1 Hc Hr2). rewrite (enters_winner _ _ _ k (weak_def n)); [|done|by apply enters_weak].
    destruct Hd as [s ->]. cbn. by rewrite (left_id None _).
  - rewrite (proj1 Hc Hr2). rewrite (enters_nothing _ _ _ Nothing) by done. cbn [list.last]. rewrite lookup_fmap. cbn.
    by rewrite (left_id None _).
Qed.

(** * The layout as a whole *)

Record imageLayout := ImageLayout {
  il_places : list placement;
  il_extent : extent;
  il_bases : bases;
  il_scan : symScan;
  il_coff : gmap string Z;
  il_sbrk : Z;
  il_symVA : gmap string Z
}.

(** From the helper code, its words and labels, and the loaded objects. *)
Definition lay_out (helperWords : Z) (labels : gmap string Z) (objs : list objFile) : res imageLayout :=
  let '(ps, t) := place (Extent helperWords 0 0 0) objs in
  st ← scan_symbols objs;
  let '(coff, bss) := alloc_commons (commons st) (totalBss t) in
  let b := layout_bases (textWords t) (totalRodata t) (totalData t) in
  let va := symbol_table labels objs st b ps coff in
  match va !! "main"%string with
  | None => Err NoMain
  | Some _ =>
      Ok (ImageLayout ps (Extent (textWords t) (totalRodata t) (totalData t) (u64 (bss + 8))) b st coff (u64 (bssBase b + bss)) va)
  end.

(** Every piece of the image, in address order. *)
Definition regions (helperWords : Z) (objs : list objFile) (il : imageLayout) : list (Z * Z) :=
  let b := il_bases il in
  (lnkCodeBase, 4 * helperWords) ::
  zip_with (fun p o => (lnkCodeBase + 4 * textBaseWord p, 4 * (bytes_len (textData o) / 4))) (il_places il) objs ++
  zip_with (fun p o => (rodataBase b + rodataOff p, bytes_len (rodataData o))) (il_places il) objs ++
  zip_with (fun p o => (dataBase b + dataOff p, bytes_len (dataData o))) (il_places il) objs ++
  zip_with (fun p o => (bssBase b + bssOff p, bssSize o)) (il_places il) objs ++
  ((fun n => (bssBase b + default 0 (il_coff il !! n), ci_size (info (commons (il_scan il)) n))) <$> common_names (commons (il_scan il))) ++
  [(il_sbrk il, 8)].

(** A bound on the address space that the image needs. *)
Definition footprint (helperWords : Z) (objs : list objFile) (cs : gmap string commonInfo) : Z :=
  4 * helperWords +
  zsum ((fun o => bytes_len (textData o) + bytes_len (rodataData o) + bytes_len (dataData o) + bssSize o + 45) <$> objs) +
  zsum ((fun n => 4096 + ci_size (info cs n)) <$> common_names cs).

Definition obj_ok (o : objFile) : Prop := 0 <= bssSize o /\ Forall (fun s => 0 <= value s) (syms o).

Lemma pile_packed16 t sizes offs t' : pile align16 (wrapU 64) t sizes = (offs, t') ->
  Forall (fun n => 0 <= n) sizes -> 0 <= t -> t + zsum ((Z.add 15) <$> sizes) < 2 ^ 64 ->
  packed t (zip offs sizes) t' /\ t' <= t + zsum ((Z.add 15) <$> sizes) /\ length offs = length sizes.
Proof.
  intros H Hs Ht Hf. eapply pile_packed; [exact H|done|done|lia| |intros v; apply wrapU_small|done].
  intros v Hv Hv2. apply align16_range; lia.
Qed.

Lemma pile_packed0 t sizes offs t' : pile id id t sizes = (offs, t') ->
  Forall (fun n => 0 <= n) sizes -> 0 <= t -> t + zsum sizes < 2 ^ 64 ->
  packed t (zip offs sizes) t' /\ t' <= t + zsum sizes /\ length offs = length sizes.
Proof.
  intros H Hs Ht Hf. assert (E : (Z.add 0) <$> sizes = sizes) by (rewrite <- (list_fmap_id sizes) at 2; by apply list_fmap_ext).
  pose proof (pile_packed id id 0 t sizes offs t' H Hs Ht) as Hp. rewrite E in Hp. apply Hp; [lia| |done|lia].
  intros v Hv _. unfold id. lia.
Qed.

Lemma packed_scale4 lo l hi : packed lo l hi -> packed (4 * lo) ((fun p => (4 * p.1, 4 * p.2)) <$> l) (4 * hi).
Proof.
  revert lo. induction l as [|[a n] l IH]; intros lo H; cbn in *; [lia|]. destruct H as (? & ? & H).
  split; [lia|]. split; [lia|]. specialize (IH _ H). by replace (4 * a + 4 * n) with (4 * (a + n)) by lia.
Qed.

Lemma zip_with_zip {A B} (f : A -> Z) (g : B -> Z) (h : Z * Z -> Z * Z) (l : list A) (k : list B) :
  zip_with (fun a b => h (f a, g b)) l k = h <$> zip (f <$> l) (g <$> k).
Proof. revert k. induction l as [|a l IH]; intros [|b k]; cbn; [done..|]. by rewrite IH. Qed.

Lemma zsum_le {A} (f g : A -> Z) l : (forall x, f x <= g x) -> zsum (f <$> l) <= zsum (g <$> l).
Proof.
  intros H. induction l as [|x l IH]; cbn [fmap list_fmap]; [done|]. rewrite !zsum_cons. specialize (H x). lia.
Qed.

Lemma zsum_plus {A} (f g : A -> Z) l : zsum ((fun x => f x + g x) <$> l) = zsum (f <$> l) + zsum (g <$> l).
Proof. induction l as [|x l IH]; cbn [fmap list_fmap]; [done|]. rewrite !zsum_cons. lia. Qed.

Lemma scanned_common_ok objs st n ci : scan_symbols objs = Ok st -> Forall obj_ok objs -> commons st !! n = Some ci -> common_ok ci.
Proof.
  intros Hs Ho Hc. pose proof (scan_symbols_spec objs) as H. rewrite Hs in H. destruct H as (_ & Hr & (_ & He & _)).
  destruct (decide (n = ""%string)) as [->|Hn]; [by rewrite He in Hc|]. destruct (Hr n Hn) as (_ & Hm & _). rewrite Hc in Hm.
  unfold wins in Hm. destruct (owner _ _); [done|]. destruct (merged _) as [ci'|] eqn:Em; [|by destruct (head _)]. injection Hm as ->.
  eapply merged_ok; [|exact Em]. apply list.Forall_forall. intros s Hin. unfold tentatives in Hin.
  apply list_elem_of_fmap in Hin as (x & -> & Hx). apply list_elem_of_filter in Hx as [_ Hx]. apply all_syms_elem in Hx as (o & Hlo & Hso).
  pose proof (proj1 (list.Forall_forall _ _) Ho o ltac:(by eapply list_elem_of_lookup_2)) as [_ Hv]. exact (proj1 (list.Forall_forall _ _) Hv _ Hso).
Qed.

Lemma bytes_len_nonneg l : 0 <= bytes_len l. Proof. unfold bytes_len. lia. Qed.

(** The four merged sections. *)
Lemma place_packed hw objs ps t : place (Extent hw 0 0 0) objs = (ps, t) -> 0 <= hw -> Forall obj_ok objs ->
  footprint hw objs ∅ < 2 ^ 62 ->
  packed hw (zip (textBaseWord <$> ps) ((fun o => bytes_len (textData o) / 4) <$> objs)) (textWords t) /\
  packed 0 (zip (rodataOff <$> ps) ((fun o => bytes_len (rodataData o)) <$> objs)) (totalRodata t) /\
  packed 0 (zip (dataOff <$> ps) ((fun o => bytes_len (dataData o)) <$> objs)) (totalData t) /\
  packed 0 (zip (bssOff <$> ps) (bssSize <$> objs)) (totalBss t) /\
  4 * textWords t + totalRodata t + totalData t + totalBss t <= footprint hw objs ∅ /\ length ps = length objs.
Proof.
  intros Hp Hhw Ho Hf. destruct (place_piles (Extent hw 0 0 0) objs) as (E1 & E2 & E3 & E4).
  rewrite Hp in E1, E2, E3, E4. cbn [fst snd textWords totalRodata totalData totalBss] in E1, E2, E3, E4.
  unfold footprint in *. change (common_names ∅) with (@nil string) in *. cbn [fmap list_fmap] in *. change (zsum []) with 0 in *.
  rewrite !(zsum_plus _ (fun _ => 45)), !(zsum_plus _ bssSize), !(zsum_plus _ (fun o => bytes_len (dataData o))),
    !(zsum_plus _ (fun o => bytes_len (rodataData o))) in *.
  assert (Hpos : forall (f : objFile -> Z), (forall o, o ∈ objs -> 0 <= f o) -> Forall (fun n => 0 <= n) (f <$> objs) /\ 0 <= zsum (f <$> objs)).
  { intros f Hf0. assert (Forall (fun n => 0 <= n) (f <$> objs)) by (apply list.Forall_fmap, list.Forall_forall; exact Hf0).
    split; [done|by apply zsum_nonneg]. }
  destruct (Hpos (fun o => bytes_len (textData o) / 4)) as [P1 _]; [intros; apply Z.div_pos; [apply bytes_len_nonneg|lia]|].
  destruct (Hpos (fun o => bytes_len (textData o))) as [_ N1]; [intros; apply bytes_len_nonneg|].
  destruct (Hpos (fun o => bytes_len (rodataData o))) as [P2 N2]; [intros; apply bytes_len_nonneg|].
  destruct (Hpos (fun o => bytes_len (dataData o))) as [P3 N3]; [intros; apply bytes_len_nonneg|].
  destruct (Hpos bssSize) as [P4 N4]; [intros o Hin; by destruct (proj1 (list.Forall_forall _ _) Ho o Hin)|].
  assert (Hq : 4 * zsum ((fun o => bytes_len (textData o) / 4) <$> objs) <= zsum ((fun o => bytes_len (textData o)) <$> objs)).
  { clear. induction objs as [|o objs IH]; [done|]. cbn [fmap list_fmap]. rewrite !zsum_cons.
    pose proof (Z.mul_div_le (bytes_len (textData o)) 4). lia. }
  assert (Hs : forall (f : objFile -> Z), zsum (Z.add 15 <$> (f <$> objs)) = zsum ((fun _ => 15) <$> objs) + zsum (f <$> objs)).
  { intros f. rewrite <- zsum_plus, <- list_fmap_compose. done. }
  assert (H45 : zsum ((fun _ => 45) <$> objs) = 3 * zsum ((fun _ => 15) <$> objs)).
  { clear. induction objs as [|o objs IH]; [done|]. cbn [fmap list_fmap]. rewrite !zsum_cons. lia. }
  destruct (Hpos (fun _ => 15)) as [_ N5]; [lia|].
  symmetry in E1, E2, E3, E4.
  destruct (pile_packed0 _ _ _ _ E1 P1 Hhw ltac:(lia)) as (H1 & B1 & L1).
  destruct (pile_packed16 _ _ _ _ E2 P2 ltac:(lia) ltac:(rewrite Hs; lia)) as (H2 & B2 & _).
  destruct (pile_packed16 _ _ _ _ E3 P3 ltac:(lia) ltac:(rewrite Hs; lia)) as (H3 & B3 & _).
  destruct (pile_packed16 _ _ _ _ E4 P4 ltac:(lia) ltac:(rewrite Hs; lia)) as (H4 & B4 & _).
  rewrite Hs in B2, B3, B4. split; [done|]. split; [done|]. split; [done|]. split; [done|]. split; [lia|].
  by rewrite !length_fmap in L1.
Qed.

Lemma layout_bases_range words ro da : 0 <= words -> 0 <= ro -> 0 <= da -> 4 * words + ro + da < 2 ^ 62 ->
  let b := layout_bases words ro da in
  lnkCodeBase + 4 * words <= rodataBase b < lnkCodeBase + 4 * words + 4096 /\
  rodataBase b + ro <= dataBase b < rodataBase b + ro + 4096 /\ dataBase b + da <= bssBase b < dataBase b + da + 4096 /\
  (pageSize | rodataBase b) /\ (pageSize | dataBase b) /\ (pageSize | bssBase b).
Proof.
  intros H1 H2 H3 Hf. unfold layout_bases. cbn [rodataBase dataBase bssBase].
  change lnkCodeBase with 4194592. rewrite (wrapU_small 64 (words * 4)) by lia. rewrite (wrapU_small 64 (_ + words * 4)) by lia.
  pose proof (nextPage_range (4194592 + words * 4) ltac:(lia) ltac:(lia)) as R1. set (r := nextPage (4194592 + words * 4)) in *.
  rewrite (wrapU_small 64 (r + ro)) by lia. pose proof (nextPage_range (r + ro) ltac:(lia) ltac:(lia)) as R2. set (d := nextPage (r + ro)) in *.
  rewrite (wrapU_small 64 (d + da)) by lia. pose proof (nextPage_range (d + da) ltac:(lia) ltac:(lia)) as R3.
  split; [lia|]. split; [lia|]. split; [lia|]. split; [apply nextPage_divides|]. split; apply nextPage_divides.
Qed.

Lemma packed_one lo a n hi : lo <= a -> 0 <= n -> a + n <= hi -> packed lo [(a, n)] hi.
Proof. by intros. Qed.

Lemma footprint_split hw objs cs : footprint hw objs cs = footprint hw objs ∅ + zsum ((fun n => 4096 + ci_size (info cs n)) <$> common_names cs).
Proof. unfold footprint. change (common_names ∅) with (@nil string). cbn [fmap list_fmap]. change (zsum []) with 0. lia. Qed.

Lemma Ok_inj {A} (a b : A) : Ok a = Ok b -> a = b.
Proof. by intros [= ->]. Qed.

Lemma lay_out_packed hw labels objs il : lay_out hw labels objs = Ok il -> 0 <= hw -> Forall obj_ok objs ->
  footprint hw objs (commons (il_scan il)) < 2 ^ 62 ->
  packed lnkCodeBase (regions hw objs il) (bssBase (il_bases il) + totalBss (il_extent il)).
Proof.
  intros H Hhw Ho Hf. unfold lay_out in H. destruct (place (Extent hw 0 0 0) objs) as [ps t] eqn:Ep.
  destruct (scan_symbols objs) as [st|] eqn:Es; [|done]. cbn [mbind res_bind] in H.
  destruct (alloc_commons (commons st) (totalBss t)) as [coff bss] eqn:Ea.
  destruct (_ !! "main"%string); [|done]. apply Ok_inj in H as <-. cbn [il_scan] in Hf. rewrite footprint_split in Hf.
  assert (Hz : 0 <= zsum ((fun n => 4096 + ci_size (info (commons st) n)) <$> common_names (commons st))).
  { apply zsum_nonneg, list.Forall_fmap, list.Forall_forall. intros n Hn. apply common_names_elem in Hn as [ci Hc].
    pose proof (scanned_common_ok objs st n ci Es Ho Hc) as (_ & _ & Hsz). unfold info. cbn. rewrite Hc. cbn. lia. }
  destruct (place_packed hw objs ps t Ep Hhw Ho ltac:(lia)) as (H1 & H2 & H3 & H4 & Hle & Hlen).
  pose proof (packed_le _ _ _ H1). pose proof (packed_le _ _ _ H2). pose proof (packed_le _ _ _ H3). pose proof (packed_le _ _ _ H4).
  destruct (alloc_commons_spec _ _ _ _ Ea) as (Hpc & _ & _ & Hb); [by intros; eapply scanned_common_ok|lia|lia|].
  pose proof (packed_le _ _ _ Hpc).
  pose proof (layout_bases_range (textWords t) (totalRodata t) (totalData t) ltac:(lia) ltac:(lia) ltac:(lia) ltac:(lia)) as R.
  set (b := layout_bases _ _ _) in *. cbn zeta in R. destruct R as (R1 & R2 & R3 & _). change lnkCodeBase with 4194592 in *.
  unfold regions. cbn [il_bases il_places il_coff il_scan il_sbrk il_extent totalBss].
  rewrite (wrapU_small 64 (bss + 8)), (wrapU_small 64 (bssBase b + bss)) by lia. change lnkCodeBase with 4194592 in *.
  cbn [packed]. split; [lia|]. split; [lia|].
  apply (packed_app _ _ (4194592 + 4 * textWords t)).
  { rewrite (zip_with_zip textBaseWord (fun o => bytes_len (textData o) / 4) (fun p => (4194592 + 4 * p.1, 4 * p.2))).
    pose proof (packed_shift 4194592 _ _ _ (packed_scale4 _ _ _ H1)) as Hp. by rewrite <- list_fmap_compose in Hp. }
  apply (packed_weaken (rodataBase b)  _ _ (bssBase b + (bss + 8))); [lia|lia|].
  apply (packed_app _ _ (rodataBase b + totalRodata t)).
  { rewrite (zip_with_zip rodataOff (fun o => bytes_len (rodataData o)) (fun p => (rodataBase b + p.1, p.2))).
    pose proof (packed_shift (rodataBase b) _ _ _ H2) as Hp. by rewrite Z.add_0_r in Hp. }
  apply (packed_weaken (dataBase b)  _ _ (bssBase b + (bss + 8))); [lia|lia|].
  apply (packed_app _ _ (dataBase b + totalData t)).
  { rewrite (zip_with_zip dataOff (fun o => bytes_len (dataData o)) (fun p => (dataBase b + p.1, p.2))).
    pose proof (packed_shift (dataBase b) _ _ _ H3) as Hp. by rewrite Z.add_0_r in Hp. }
  apply (packed_weaken (bssBase b)  _ _ (bssBase b + (bss + 8))); [lia|lia|].
  apply (packed_app _ _ (bssBase b + totalBss t)).
  { rewrite (zip_with_zip bssOff bssSize (fun p => (bssBase b + p.1, p.2))).
    pose proof (packed_shift (bssBase b) _ _ _ H4) as Hp. by rewrite Z.add_0_r in Hp. }
  apply (packed_app _ _ (bssBase b + bss)).
  { pose proof (packed_shift (bssBase b) _ _ _ Hpc) as Hp. rewrite <- list_fmap_compose in Hp. exact Hp. }
  apply packed_one; lia.
Qed.

(** ** What the table holds, whatever the sizes *)

Lemma alloc_fold_dom cs ns st n : is_Some ((foldl (alloc_common cs) st ns).1 !! n) <-> n ∈ ns \/ is_Some (st.1 !! n).
Proof.
  revert st. induction ns as [|m ns IH]; intros st; cbn [foldl].
  - rewrite elem_of_nil. tauto.
  - rewrite IH, elem_of_cons. unfold alloc_common. cbn [fst]. destruct (decide (n = m)) as [->|Hne].
    + rewrite lookup_insert_eq. split; [tauto|]. intros _. right. by eexists.
    + rewrite lookup_insert_ne by done. tauto.
Qed.

Lemma alloc_commons_dom cs t n : cs !! n = None <-> (alloc_commons cs t).1 !! n = None.
Proof.
  pose proof (alloc_fold_dom cs (common_names cs) (∅, t) n) as H. rewrite common_names_elem in H. fold (alloc_commons cs t) in H.
  cbn [fst] in H. rewrite lookup_empty in H. assert (Hno : ~ is_Some (@None Z)) by by intros [? ?].
  rewrite !eq_None_not_Some. tauto.
Qed.

Lemma length_place t objs : length (place t objs).1 = length objs.
Proof.
  revert t. induction objs as [|o objs IH]; intros t; [done|]. cbn [place]. destruct (place_obj t o) as [p t'].
  specialize (IH t'). destruct (place t' objs) as [ps t2]. cbn in *. by rewrite IH.
Qed.

Lemma definition_elem d objs k s : definition d objs k = Some s -> exists o, objs !! k = Some o /\ s ∈ syms o /\ d s = true.
Proof.
  unfold definition. intros H. apply last_Some_elem_of in H. apply list_elem_of_filter in H as [Hd H].
  destruct (objs !! k) as [o|]; [by exists o|]. by apply elem_of_nil in H.
Qed.

Lemma defined_va b objs (ps : list placement) d k : length ps = length objs -> is_Some (definition d objs k) ->
  (forall s, d s = true -> storage (secName s) = true) ->
  is_Some (s ← definition d objs k; p ← ps !! k; sectionVA b p s).
Proof.
  intros Hl [s Hs] Hd. rewrite Hs. destruct (definition_elem _ _ _ _ Hs) as (o & Ho & _ & Hds). apply lookup_lt_Some in Ho.
  rewrite <- Hl in Ho. destruct (lookup_lt_is_Some_2 ps k Ho) as [p Hp]. cbn [mbind option_bind]. rewrite Hp. cbn [mbind option_bind].
  apply sectionVA_storage. by apply Hd.
Qed.

Lemma resolved_va_total labels objs b ps coff n : length ps = length objs ->
  (forall ci, wins objs n = Tentative ci -> is_Some (coff !! n)) -> wins objs n <> Nothing ->
  is_Some (resolved_va labels objs b ps coff n).
Proof.
  intros Hl Hc Hn. unfold resolved_va. pose proof (wins_defines objs n) as Hd.
  assert (Hst : forall s, strong_def n s = true \/ weak_def n s = true -> storage (secName s) = true).
  { unfold strong_def, weak_def. intros s [H|H]; by apply andb_prop in H as [_ ?]. }
  destruct (wins objs n) as [k|ci|k|] eqn:Ew; [| | |done].
  - apply defined_va; [done|done|intros s Hs; apply Hst; by left].
  - apply fmap_is_Some. by eapply Hc.
  - apply defined_va; [done|done|intros s Hs; apply Hst; by right].
Qed.

Lemma lay_out_spec hw labels objs :
  match lay_out hw labels objs with
  | Ok il => (forall n, ~ duplicated objs (all_syms objs) n) /\
      length (il_places il) = length objs /\ scan_symbols objs = Ok (il_scan il) /\
      forall n, n <> ""%string -> il_symVA il !! n = resolved_va labels objs (il_bases il) (il_places il) (il_coff il) n
  | Err (DuplicateDefinition n _ _) => duplicated objs (all_syms objs) n
  | Err NoMain => wins objs "main" = Nothing /\ labels !! "main"%string = None
  | Err _ => False
  end.
Proof.
  unfold lay_out. pose proof (length_place (Extent hw 0 0 0) objs) as Hl. destruct (place (Extent hw 0 0 0) objs) as [ps t]. cbn [fst] in Hl.
  pose proof (scan_symbols_spec objs) as Hs. destruct (scan_symbols objs) as [st|e] eqn:Es; cbn [mbind res_bind].
  2: { destruct Hs as (n & p & q & -> & Hd). exact Hd. }
  destruct (alloc_commons (commons st) (totalBss t)) as [coff bss] eqn:Ea.
  set (b := layout_bases _ _ _).
  assert (Hdom : forall n, commons st !! n = None <-> coff !! n = None).
  { intros n. rewrite (alloc_commons_dom _ (totalBss t)), Ea. done. }
  assert (Htab : forall n, n <> ""%string -> symbol_table labels objs st b ps coff !! n = resolved_va labels objs b ps coff n).
  { intros n Hn. by apply symbol_table_spec. }
  destruct (symbol_table labels objs st b ps coff !! "main"%string) eqn:Em; [by split; [apply Hs|]|].
  rewrite (Htab "main"%string ltac:(done)) in Em. destruct Hs as (_ & Hr & _). destruct (Hr "main"%string ltac:(done)) as (_ & Hm & _).
  destruct (decide (wins objs "main" = Nothing)) as [Hw|Hw].
  - split; [done|]. unfold resolved_va in Em. rewrite Hw in Em. by destruct (labels !! _).
  - destruct (resolved_va_total labels objs b ps coff "main" Hl) as [v Hv]; [|done|congruence]. intros ci Hci.
    destruct (coff !! "main"%string) eqn:Ec; [by eexists|]. apply Hdom in Ec. rewrite Hci, Ec in Hm. done.
Qed.

Lemma lay_out_place hw labels objs il : lay_out hw labels objs = Ok il -> exists t,
  place (Extent hw 0 0 0) objs = (il_places il, t) /\ scan_symbols objs = Ok (il_scan il) /\
  totalRodata (il_extent il) = totalRodata t /\ totalData (il_extent il) = totalData t /\ textWords (il_extent il) = textWords t /\
  il_bases il = layout_bases (textWords t) (totalRodata t) (totalData t) /\
  il_coff il = (alloc_commons (commons (il_scan il)) (totalBss t)).1.
Proof.
  intros H. unfold lay_out in H. destruct (place (Extent hw 0 0 0) objs) as [ps t]. exists t.
  destruct (scan_symbols objs) as [st|]; [|done]. cbn [mbind res_bind] in H.
  destruct (alloc_commons (commons st) (totalBss t)) as [coff bss] eqn:Ea.
  destruct (_ !! "main"%string); [|done]. apply Ok_inj in H as <-. cbn [il_scan il_coff]. by rewrite Ea.
Qed.

Lemma footprint_commons hw objs il labels : lay_out hw labels objs = Ok il -> Forall obj_ok objs ->
  footprint hw objs ∅ <= footprint hw objs (commons (il_scan il)).
Proof.
  intros H Ho. destruct (lay_out_place _ _ _ _ H) as (t & _ & Hs & _). rewrite (footprint_split hw objs (commons (il_scan il))).
  enough (0 <= zsum ((fun n => 4096 + ci_size (info (commons (il_scan il)) n)) <$> common_names (commons (il_scan il)))) by lia.
  apply zsum_nonneg, list.Forall_fmap, list.Forall_forall. intros n Hn. apply common_names_elem in Hn as [ci Hc].
  pose proof (scanned_common_ok objs _ n ci Hs Ho Hc) as (_ & _ & Hsz). unfold info. cbn. rewrite Hc. cbn. lia.
Qed.

Lemma pow2_divides_page p : pow2 p -> p <= pageSize -> (p | pageSize).
Proof.
  intros (k & Hk & ->) Hle. change pageSize with (2 ^ 12) in *. apply Z.pow_le_mono_r_iff in Hle; [|lia..].
  exists (2 ^ (12 - k)). rewrite <- Z.pow_add_r by lia. f_equal. lia.
Qed.

(** Every offset of a part is a result of [align16]. *)
Lemma places_align16 hw objs ps t (P : Z -> Prop) : place (Extent hw 0 0 0) objs = (ps, t) -> (forall v, P (align16 v)) ->
  Forall (fun p => P (rodataOff p) /\ P (dataOff p) /\ P (bssOff p)) ps.
Proof.
  intros Hp HP. destruct (place_piles (Extent hw 0 0 0) objs) as (_ & E2 & E3 & E4). rewrite Hp in E2, E3, E4. cbn [fst snd] in E2, E3, E4.
  pose proof (fun s => pile_up align16 (wrapU 64) 0 s P HP) as Hup.
  apply list.Forall_forall. intros p Hin. apply (list_elem_of_fmap_2 rodataOff) in Hin as H2.
  apply (list_elem_of_fmap_2 dataOff) in Hin as H3. apply (list_elem_of_fmap_2 bssOff) in Hin as H4.
  apply (f_equal fst) in E2, E3, E4. cbn [fst] in E2, E3, E4. rewrite E2 in H2. rewrite E3 in H3. rewrite E4 in H4.
  split; [|split]; by (eapply (proj1 (list.Forall_forall _ _)); [apply Hup|eassumption]).
Qed.

Lemma align16_nonneg v : 0 <= align16 v.
Proof. unfold align16, align_up. apply Z.ldiff_nonneg. left. by apply wrapU_range. Qed.

(** Alignment: of the bases to pages, of the parts to 16, of the COMMONs to
    what was asked for. *)
Lemma lay_out_aligned hw labels objs il : lay_out hw labels objs = Ok il -> 0 <= hw -> Forall obj_ok objs ->
  footprint hw objs (commons (il_scan il)) < 2 ^ 62 ->
  (pageSize | rodataBase (il_bases il)) /\ (pageSize | dataBase (il_bases il)) /\ (pageSize | bssBase (il_bases il)) /\
  Forall (fun p => (16 | rodataOff p) /\ (16 | dataOff p) /\ (16 | bssOff p)) (il_places il) /\
  forall n ci, commons (il_scan il) !! n = Some ci -> exists off, il_coff il !! n = Some off /\ (ci_align ci | bssBase (il_bases il) + off).
Proof.
  intros H Hhw Ho Hf. pose proof (footprint_commons _ _ _ _ H Ho). pose proof (footprint_split hw objs (commons (il_scan il))).
  destruct (lay_out_place _ _ _ _ H) as (t & Hp & Hs & _ & _ & _ & Hb & Hc). rewrite Hb, Hc.
  destruct (place_packed hw objs _ t Hp Hhw Ho ltac:(lia)) as (P1 & P2 & P3 & P4 & Hle & _).
  apply packed_le in P1, P2, P3, P4.
  split; [apply nextPage_divides|]. split; [apply nextPage_divides|]. split; [apply nextPage_divides|]. split.
  - eapply places_align16; [exact Hp|apply align16_divides].
  - intros n ci Hci. destruct (alloc_commons (commons (il_scan il)) (totalBss t)) as [coff bss] eqn:Ea. cbn [fst].
    destruct (alloc_commons_spec _ _ _ _ Ea) as (_ & Hal & _); [by intros; eapply scanned_common_ok|lia|lia|].
    destruct (Hal n ci Hci) as (off & Hoff & Hd). exists off. split; [done|].
    destruct (scanned_common_ok _ _ _ _ Hs Ho Hci) as (Hk & Hmax & _).
    apply Z.divide_add_r; [|done]. etransitivity; [by apply pow2_divides_page|apply nextPage_divides].
Qed.
