(* ===== verification/LinkReloc.v ===== *)
(** Relocation (linker.go): the address a reference resolves to, the patching
    of code words and data bytes, and the contents of the merged sections. *)
From stdpp Require Import gmap strings.
From S2P Require Import Prelude Align Arm64Enc Linker LinkSyms LinkLayout.
#[local] Open Scope Z_scope.
#[local] Open Scope word_scope.

Definition rAArch64Abs64 : Z := 257.
Definition rAArch64Call26 : Z := 283.

(** * References *)

(** [symVA[name]]: a missing key reads as zero. *)
Definition global_va (il : imageLayout) (n : string) : Z := default 0 (il_symVA il !! n).

(** A weak definition that lost gives way to the winner. *)
Definition weakInterposedVA (il : imageLayout) (k : nat) (s : lnkSym) (va : Z) : Z :=
  if negb (bool_decide (binding s = STB_WEAK)) || bool_decide (secName s = ""%string) || bool_decide (name s = ""%string) then va
  else if bool_decide (weakDef (il_scan il) !! name s = Some k) then va
  else global_va il (name s).

(** One entry of [fileSymVA], for object [k] placed at [p]. *)
Definition file_va (il : imageLayout) (k : nat) (p : placement) (s : lnkSym) : Z :=
  let va :=
    match sectionVA (il_bases il) p s with
    | Some va => va
    | None =>
        if bool_decide (secName s = "COMMON"%string) then
          if bool_decide (binding s = STB_GLOBAL) then global_va il (name s) else 0
        else if bool_decide (secName s = ""%string) then
          if bool_decide (binding s = STB_GLOBAL) && negb (bool_decide (name s = ""%string)) then global_va il (name s) else 0
        else 0
    end in
  weakInterposedVA il k s va.

(** [symVAval]: the table of the file, then the global one by name. *)
Definition rela_va (il : imageLayout) (k : nat) (o : objFile) (p : placement) (r : lnkRela) : Z :=
  match syms o !! Z.to_nat (symIdx r) with
  | None => 0
  | Some s => let va := file_va il k p s in if va =? 0 then global_va il (name s) else va
  end.

(** * Code *)

(** [S + A]. *)
Definition target (il : imageLayout) (k : nat) (o : objFile) (p : placement) (r : lnkRela) : Z :=
  u64 (rela_va il k o p r + addend r).

Definition word_index (p : placement) (r : lnkRela) : nat := Z.to_nat (textBaseWord p + offset r / 4).

Definition word_va (i : nat) : Z := u64 (lnkCodeBase + Z.of_nat i * 4).

(** The displacement of a call, in words, as the code computes it. *)
Definition call_offset (va : Z) (i : nat) (a : Z) : Z :=
  Z.quot (i64 (i64 va - i64 (word_va i) + a)) 4.

Definition patch_call (old off : Z) : Z := Z.land old 0xFC000000 .| Z.land (u32 off) 0x3FFFFFF.

Definition apply_text_rela (il : imageLayout) (k : nat) (o : objFile) (p : placement) (ws : list Z) (r : lnkRela) : res (list Z) :=
  let i := word_index p r in
  if rtype r =? rAArch64Abs64 then
    if (S i <? length ws)%nat then
      let addr := target il k o p r in
      Ok (<[S i := u32 (Z.shiftr addr 32)]> (<[i := u32 addr]> ws))
    else Err Panic
  else if rtype r =? rAArch64Call26 then
    match ws !! i with
    | None => Err Panic
    | Some old => Ok (<[i := patch_call old (call_offset (rela_va il k o p r) i (addend r))]> ws)
    end
  else Ok ws.

(** The relocations of all objects, in order, each with its object. *)
Definition all_relas (get : objFile -> list lnkRela) (objs : list objFile) (ps : list placement)
    : list (nat * objFile * placement * lnkRela) :=
  concat (imap (fun k '(o, p) => pair (k, o, p) <$> get o) (zip objs ps)).

Definition relocate_text (il : imageLayout) (objs : list objFile) (ws : list Z) : res (list Z) :=
  foldM (fun ws '(k, o, p, r) => apply_text_rela il k o p ws r) (all_relas relas objs (il_places il)) ws.

(** * Data *)

Fixpoint le_bytes (n : nat) (v : Z) : list Z :=
  match n with
  | O => []
  | S n => v mod 256 :: le_bytes n (v / 256)
  end.

(** [copy(dst[off:], src)]. *)
Definition copy_at (dst : list Z) (off : Z) (src : list Z) : res (list Z) :=
  let i := Z.to_nat off in
  if (i <=? length dst)%nat then Ok (take i dst ++ take (length dst - i) src ++ drop (i + length src) dst) else Err Panic.

Definition assemble (total : Z) (parts : list (Z * list Z)) : res (list Z) :=
  foldM (fun dst '(off, src) => copy_at dst off src) parts (replicate (Z.to_nat total) 0).

Definition apply_data_rela (il : imageLayout) (k : nat) (o : objFile) (p : placement) (bs : list Z) (r : lnkRela) : res (list Z) :=
  if rtype r =? rAArch64Abs64 then
    let at_ := u64 (dataOff p + offset r) in
    if u64 (at_ + 8) <=? bytes_len bs then
      if at_ + 8 <=? bytes_len bs then copy_at bs at_ (le_bytes 8 (target il k o p r)) else Err Panic
    else Ok bs
  else Ok bs.

Definition relocate_data (il : imageLayout) (objs : list objFile) (bs : list Z) : res (list Z) :=
  foldM (fun bs '(k, o, p, r) => apply_data_rela il k o p bs r) (all_relas dataRelas objs (il_places il)) bs.

(** * Patching in place *)

Section patching.

Context {A : Type} (f : list Z -> A -> res (list Z)) (touched : A -> list nat) (effect : A -> list Z -> list Z -> Prop)
  (fits_in : A -> nat -> Prop).

Hypothesis step : forall ws a, fits_in a (length ws) ->
  exists ws', f ws a = Ok ws' /\ length ws' = length ws /\ (forall j, j ∉ touched a -> ws' !! j = ws !! j) /\ effect a ws ws'.

Hypothesis effect_local : forall a ws ws' v v', (forall j, j ∈ touched a -> v !! j = ws !! j /\ v' !! j = ws' !! j) ->
  effect a ws ws' -> effect a v v'.

(** Patches that do not overlap all take effect, in any order. *)
Lemma patch_all l ws : NoDup (l ≫= touched) -> Forall (fun a => fits_in a (length ws)) l ->
  exists ws', foldM f l ws = Ok ws' /\ length ws' = length ws /\ (forall j, j ∉ (l ≫= touched) -> ws' !! j = ws !! j) /\
    forall a, a ∈ l -> effect a ws ws'.
Proof.
  revert ws. induction l as [|a l IH]; intros ws Hn Hb.
  - exists ws. split; [done|]. split; [done|]. split; [done|]. intros a Ha. by apply elem_of_nil in Ha.
  - cbn [mbind list_bind] in Hn. fold (l ≫= touched) in Hn. apply list.NoDup_app in Hn as (Ha & Hd & Hn).
    apply Forall_cons_1 in Hb as [Hb1 Hb2].
    destruct (step ws a Hb1) as (ws1 & E1 & L1 & U1 & F1).
    destruct (IH ws1 Hn) as (ws2 & E2 & L2 & U2 & F2); [by rewrite L1|].
    exists ws2. cbn [foldM]. split; [cbn; rewrite E1; exact E2|]. split; [congruence|]. split.
    + intros j Hj. cbn [mbind list_bind] in Hj. fold (l ≫= touched) in Hj. rewrite elem_of_app in Hj.
      rewrite U2, U1; tauto.
    + intros b Hbin. apply elem_of_cons in Hbin as [->|Hbin].
      * apply (effect_local a ws ws1); [|done]. intros j Hj. split; [done|]. apply U2. by apply Hd.
      * apply (effect_local b ws1 ws2); [|by apply F2]. intros j Hj. split; [|done]. symmetry. apply U1.
        intros Hja. apply (Hd j Hja). apply list_elem_of_bind. by exists b.
Qed.

End patching.

(** * Code relocations *)

Definition text_touched (p : placement) (r : lnkRela) : list nat :=
  if rtype r =? rAArch64Abs64 then [word_index p r; S (word_index p r)]
  else if rtype r =? rAArch64Call26 then [word_index p r] else [].

(** What a relocation does to the words: a 64-bit address over two of them,
    or the displacement of a call into one. *)
Definition text_relocated (il : imageLayout) (k : nat) (o : objFile) (p : placement) (r : lnkRela) (ws ws' : list Z) : Prop :=
  let i := word_index p r in
  (rtype r = rAArch64Abs64 -> exists lo hi, ws' !! i = Some lo /\ ws' !! S i = Some hi /\
     0 <= lo < 2 ^ 32 /\ 0 <= hi < 2 ^ 32 /\ lo + 2 ^ 32 * hi = target il k o p r) /\
  (rtype r = rAArch64Call26 -> exists old, ws !! i = Some old /\
     ws' !! i = Some (patch_call old (call_offset (rela_va il k o p r) i (addend r)))).

Lemma split64 v : 0 <= v < 2 ^ 64 -> 0 <= u32 v < 2 ^ 32 /\ 0 <= u32 (Z.shiftr v 32) < 2 ^ 32 /\ u32 v + 2 ^ 32 * u32 (Z.shiftr v 32) = v.
Proof.
  intros H. rewrite Z.shiftr_div_pow2 by lia. pose proof (wrapU_range 32 v ltac:(lia)).
  assert (0 <= v / 2 ^ 32 < 2 ^ 32) by (split; [apply Z.div_pos; lia|apply Z.div_lt_upper_bound; lia]).
  rewrite (wrapU_small 32 (v / 2 ^ 32)) by done. split; [done|]. split; [done|]. unfold wrapU.
  pose proof (Z.div_mod v (2 ^ 32) ltac:(lia)). lia.
Qed.

Lemma apply_text_rela_ok il k o p ws r : Forall (fun j => (j < length ws)%nat) (text_touched p r) ->
  exists ws', apply_text_rela il k o p ws r = Ok ws' /\ length ws' = length ws /\
    (forall j, j ∉ text_touched p r -> ws' !! j = ws !! j) /\ text_relocated il k o p r ws ws'.
Proof.
  unfold text_touched, apply_text_rela, text_relocated. set (i := word_index p r).
  destruct (Z.eqb_spec (rtype r) rAArch64Abs64) as [Ht|Ht]; [|destruct (Z.eqb_spec (rtype r) rAArch64Call26) as [Hc|Hc]]; intros Hb.
  - apply Forall_cons_1 in Hb as [H1 Hb]. apply Forall_cons_1 in Hb as [H2 _]. rewrite (proj2 (Nat.ltb_lt _ _) H2).
    eexists. split; [done|]. split; [by rewrite !length_insert|]. split.
    + intros j Hj. rewrite !not_elem_of_cons in Hj. by rewrite !list_lookup_insert_ne by (intros E; symmetry in E; tauto).
    + split; [|intros E; by rewrite E in Ht]. intros _.
      destruct (split64 (target il k o p r)) as (R1 & R2 & R3); [apply wrapU_range; lia|].
      eexists _, _. split; [|split; [|split; [exact R1|split; [exact R2|exact R3]]]].
      * rewrite list_lookup_insert_ne by lia. by apply list_lookup_insert_eq.
      * apply list_lookup_insert_eq. by rewrite length_insert.
  - apply Forall_cons_1 in Hb as [H1 _]. destruct (lookup_lt_is_Some_2 ws i H1) as [old Ho]. rewrite Ho.
    eexists. split; [done|]. split; [by rewrite length_insert|]. split.
    + intros j Hj. rewrite not_elem_of_cons in Hj. by rewrite list_lookup_insert_ne by (intros E; symmetry in E; tauto).
    + split; [done|]. intros _. exists old. split; [done|]. by apply list_lookup_insert_eq.
  - exists ws. done.
Qed.

Lemma relocate_text_spec il objs ws : let rs := all_relas relas objs (il_places il) in
  NoDup (rs ≫= fun '(k, o, p, r) => text_touched p r) ->
  Forall (fun '(k, o, p, r) => Forall (fun j => (j < length ws)%nat) (text_touched p r)) rs ->
  exists ws', relocate_text il objs ws = Ok ws' /\ length ws' = length ws /\
    (forall j, j ∉ (rs ≫= fun '(k, o, p, r) => text_touched p r) -> ws' !! j = ws !! j) /\
    forall k o p r, (k, o, p, r) ∈ rs -> text_relocated il k o p r ws ws'.
Proof.
  intros rs Hn Hb.
  destruct (patch_all (fun ws '(k, o, p, r) => apply_text_rela il k o p ws r) (fun '(k, o, p, r) => text_touched p r)
    (fun '(k, o, p, r) ws ws' => text_relocated il k o p r ws ws')
    (fun '(k, o, p, r) n => Forall (fun j => (j < n)%nat) (text_touched p r))) with (l := rs) (ws := ws) as (ws' & E & L & U & F); [| |done| |].
  - intros v [[[k o] p] r]. apply apply_text_rela_ok.
  - intros [[[k o] p] r] v v' w w' H [H1 H2]. unfold text_touched in H. split; intros Ht; rewrite Ht in H; cbn in H.
    + destruct (H1 Ht) as (lo & hi & E1 & E2 & Hr). exists lo, hi.
      rewrite (proj2 (H (word_index p r) ltac:(left))), (proj2 (H (S (word_index p r)) ltac:(right; left))). done.
    + destruct (H2 Ht) as (old & E1 & E2). exists old.
      rewrite (proj1 (H (word_index p r) ltac:(left))), (proj2 (H (word_index p r) ltac:(left))). done.
  - eapply list.Forall_impl; [exact Hb|]. by intros [[[k o] p] r].
  - exists ws'. split; [done|]. split; [done|]. split; [done|]. intros k o p r Hin. exact (F (k, o, p, r) Hin).
Qed.

(** A call whose displacement is a multiple of 4 within 128 MiB reaches its
    target. *)
Lemma patch_call_decodes imm va i a d : d = va + a - word_va i -> 0 <= va < 2 ^ 62 -> word_va i < 2 ^ 62 -> - 2 ^ 62 <= a < 2 ^ 62 ->
  (4 | d) -> fits_signed 28 d -> decode (patch_call (encBL imm) (call_offset va i a)) = Some (BL, [d]).
Proof.
  intros -> Hva Hw Ha (q & Hq) Hf. pose proof (wrapU_range 64 (lnkCodeBase + Z.of_nat i * 4) ltac:(lia)) as Hwr. fold (word_va i) in Hwr.
  assert (Hc : call_offset va i a = q).
  { unfold call_offset. rewrite (i64_small va), (i64_small (word_va i)) by lia. rewrite i64_small by (unfold fits_signed in Hf; lia).
    replace (va - word_va i + a) with (q * 4) by lia. apply Z.quot_mul. lia. }
  rewrite Hc, Hq. rewrite (Z.mul_comm q). apply encodes_decode. unfold patch_call.
  assert (E : Z.land (encBL imm) 0xFC000000 = 0x94000000).
  { unfold encBL. rewrite Z.land_lor_distr_l, <- Z.land_assoc. change (Z.land 0x3FFFFFF 0xFC000000) with 0. by rewrite Z.land_0_r. }
  rewrite E. apply (Enc_BL q). unfold fits_signed in *. lia.
Qed.

(** * Data *)

Lemma copy_at_ok dst off src : (Z.to_nat off + length src <= length dst)%nat ->
  exists dst', copy_at dst off src = Ok dst' /\ length dst' = length dst /\
    (forall j, j ∉ seq (Z.to_nat off) (length src) -> dst' !! j = dst !! j) /\
    forall j, (j < length src)%nat -> dst' !! (Z.to_nat off + j)%nat = src !! j.
Proof.
  intros Hi. unfold copy_at. set (i := Z.to_nat off) in *. rewrite (proj2 (Nat.leb_le _ _)) by lia.
  rewrite (take_ge src) by lia. eexists. split; [done|]. assert (Ht : length (take i dst) = i) by (rewrite length_take; lia).
  split; [rewrite !length_app, Ht, length_drop; lia|]. split.
  - intros j Hj. rewrite elem_of_seq in Hj. destruct (decide (j < i)%nat) as [Hlt|Hge].
    + rewrite lookup_app_l by lia. by apply lookup_take_lt.
    + rewrite lookup_app_r, Ht by lia. rewrite lookup_app_r by lia. rewrite lookup_drop. f_equal. lia.
  - intros j Hj. rewrite lookup_app_r, Ht by lia. replace (i + j - i)%nat with j by lia. by apply lookup_app_l.
Qed.

Lemma packed_nodup lo l hi : packed lo l hi -> 0 <= lo ->
  NoDup (l ≫= fun '(a, n) => seq (Z.to_nat a) (Z.to_nat n)) /\ Forall (fun '(a, n) => lo <= a /\ 0 <= n /\ a + n <= hi) l.
Proof.
  revert lo. induction l as [|[a n] l IH]; intros lo H Hlo; [split; constructor|]. destruct H as (H1 & H2 & H).
  destruct (IH _ H ltac:(lia)) as [Hn Hf]. pose proof (packed_le _ _ _ H). cbn [mbind list_bind]. fold (l ≫= fun '(a, n) => seq (Z.to_nat a) (Z.to_nat n)).
  split.
  - apply list.NoDup_app. split; [apply NoDup_seq|]. split; [|done]. intros j Hj Hj2. apply elem_of_seq in Hj.
    apply list_elem_of_bind in Hj2 as ([b m] & Hj2 & Hin). apply elem_of_seq in Hj2.
    pose proof (proj1 (list.Forall_forall _ _) Hf _ Hin) as Hb. cbn in Hb. lia.
  - constructor; [lia|]. eapply list.Forall_impl; [exact Hf|]. intros [b m] Hb. lia.
Qed.

Definition part_touched (x : Z * list Z) : list nat := seq (Z.to_nat x.1) (length x.2).

(** The merged section: every part at its offset. *)
Lemma assemble_spec total parts : packed 0 ((fun x => (x.1, bytes_len x.2)) <$> parts) total ->
  exists bs, assemble total parts = Ok bs /\ length bs = Z.to_nat total /\
    forall off src j, (off, src) ∈ parts -> (j < length src)%nat -> bs !! (Z.to_nat off + j)%nat = src !! j.
Proof.
  intros Hp. destruct (packed_nodup _ _ _ Hp ltac:(lia)) as [Hn Hf].
  assert (E : ((fun x => (x.1, bytes_len x.2)) <$> parts) ≫= (fun '(a, n) => seq (Z.to_nat a) (Z.to_nat n)) = parts ≫= part_touched).
  { clear. induction parts as [|x parts IH]; [done|]. cbn. cbn in IH. rewrite IH. unfold bytes_len, part_touched. by rewrite Nat2Z.id. }
  rewrite E in Hn. apply list.Forall_fmap in Hf.
  destruct (patch_all (fun dst '(off, src) => copy_at dst off src) part_touched
    (fun x ws ws' => forall j, (j < length x.2)%nat -> ws' !! (Z.to_nat x.1 + j)%nat = x.2 !! j)
    (fun x n => (Z.to_nat x.1 + length x.2 <= n)%nat)) with
      (l := parts) (ws := replicate (Z.to_nat total) 0) as (bs & Er & L & _ & F); [| |done| |].
  - intros ws [off src] Hb. by apply copy_at_ok.
  - intros x ws ws' v v' H He j Hj. rewrite (proj2 (H (Z.to_nat x.1 + j)%nat ltac:(apply elem_of_seq; lia))). by apply He.
  - rewrite length_replicate. eapply list.Forall_impl; [exact Hf|]. unfold bytes_len. cbn. intros. lia.
  - exists bs. split; [exact Er|]. split; [by rewrite L, length_replicate|]. intros off src j Hin. exact (F (off, src) Hin j).
Qed.

(** ** Data relocations *)

Definition data_index (p : placement) (r : lnkRela) : Z := u64 (dataOff p + offset r).

Definition data_touched (p : placement) (r : lnkRela) : list nat :=
  if rtype r =? rAArch64Abs64 then seq (Z.to_nat (data_index p r)) 8 else [].

(** Eight bytes, little end first, hold the address. *)
Definition data_relocated (il : imageLayout) (k : nat) (o : objFile) (p : placement) (r : lnkRela) (bs bs' : list Z) : Prop :=
  rtype r = rAArch64Abs64 -> forall j, (j < 8)%nat ->
    bs' !! (Z.to_nat (data_index p r) + j)%nat = le_bytes 8 (target il k o p r) !! j.

Lemma length_le_bytes n v : length (le_bytes n v) = n.
Proof. revert v. induction n as [|n IH]; intros v; [done|]. cbn. by rewrite IH. Qed.

Lemma relocate_data_spec il objs bs : let rs := all_relas dataRelas objs (il_places il) in
  NoDup (rs ≫= fun '(k, o, p, r) => data_touched p r) ->
  Forall (fun '(k, o, p, r) => data_index p r + 8 <= bytes_len bs) rs ->
  exists bs', relocate_data il objs bs = Ok bs' /\ length bs' = length bs /\
    (forall j, j ∉ (rs ≫= fun '(k, o, p, r) => data_touched p r) -> bs' !! j = bs !! j) /\
    forall k o p r, (k, o, p, r) ∈ rs -> data_relocated il k o p r bs bs'.
Proof.
  intros rs Hn Hb.
  destruct (patch_all (fun bs '(k, o, p, r) => apply_data_rela il k o p bs r) (fun '(k, o, p, r) => data_touched p r)
    (fun '(k, o, p, r) bs bs' => data_relocated il k o p r bs bs')
    (fun '(k, o, p, r) n => data_index p r + 8 <= Z.of_nat n)) with (l := rs) (ws := bs) as (bs' & E & L & U & F); [| |done| |].
  - intros v [[[k o] p] r] Hf. unfold apply_data_rela, data_touched, data_relocated. fold (data_index p r).
    pose proof (wrapU_range 64 (dataOff p + offset r) ltac:(lia)) as Hr. fold (data_index p r) in Hr.
    destruct (Z.eqb_spec (rtype r) rAArch64Abs64) as [Ht|Ht]; [|by exists v].
    rewrite (proj2 (Z.leb_le (u64 _) _)) by (unfold bytes_len; pose proof (Z.mod_le (data_index p r + 8) (2 ^ 64)); unfold wrapU; lia).
    rewrite (proj2 (Z.leb_le _ _)) by (unfold bytes_len; lia).
    destruct (copy_at_ok v (data_index p r) (le_bytes 8 (target il k o p r))) as (v' & E & L & U & F); [rewrite length_le_bytes; lia|].
    rewrite length_le_bytes in U, F. exists v'. done.
  - intros [[[k o] p] r] v v' w w' H He Ht j Hj. unfold data_touched in H. rewrite Ht in H. cbn [Z.eqb] in H.
    rewrite (proj2 (H (Z.to_nat (data_index p r) + j)%nat ltac:(apply elem_of_seq; lia))). by apply He.
  - eapply list.Forall_impl; [exact Hb|]. by intros [[[k o] p] r].
  - exists bs'. split; [done|]. split; [done|]. split; [done|]. intros k o p r Hin. exact (F (k, o, p, r) Hin).
Qed.

(** * What a reference resolves to *)

(** The object's own definition stands, but for a weak one that lost;
    anything else is looked up by name. *)
Definition own_definition (objs : list objFile) (k : nat) (s : lnkSym) : bool :=
  storage (secName s) && (negb (bool_decide (binding s = STB_WEAK)) || bool_decide (wins objs (name s) = Weak k)).

Lemma rela_va_spec hw labels objs il k o p r s : lay_out hw labels objs = Ok il ->
  syms o !! Z.to_nat (symIdx r) = Some s -> name s <> ""%string -> sectionVA (il_bases il) p s <> Some 0 ->
  Some (rela_va il k o p r) =
    if own_definition objs k s then sectionVA (il_bases il) p s
    else Some (default 0 (resolved_va labels objs (il_bases il) (il_places il) (il_coff il) (name s))).
Proof.
  intros Hl Hs Hn Hz. pose proof (lay_out_spec hw labels objs) as Hsp. rewrite Hl in Hsp. destruct Hsp as (_ & _ & Hsc & Htab).
  pose proof (scan_symbols_spec objs) as Hss. rewrite Hsc in Hss. destruct Hss as (_ & Hr & _). destruct (Hr _ Hn) as (_ & _ & Hw).
  rewrite <- (Htab _ Hn). fold (global_va il (name s)). unfold rela_va. rewrite Hs. unfold own_definition.
  assert (Hg : (if global_va il (name s) =? 0 then global_va il (name s) else global_va il (name s)) = global_va il (name s)) by by destruct (_ =? 0).
  unfold file_va, weakInterposedVA. rewrite (bool_decide_false (name s = ""%string)) by done. rewrite Hw, orb_false_r.
  assert (Hwk : bool_decide ((match wins objs (name s) with Weak k0 => Some k0 | _ => None end) = Some k) = bool_decide (wins objs (name s) = Weak k)).
  { apply bool_decide_ext. destruct (wins objs (name s)); split; congruence. }
  rewrite Hwk. pose proof (sectionVA_storage (il_bases il) p s) as Hst.
  destruct (sectionVA (il_bases il) p s) as [va|] eqn:Ev.
  - rewrite (proj1 Hst ltac:(by eexists)). cbn [andb].
    assert (Hne : bool_decide (secName s = ""%string) = false).
    { apply bool_decide_false. intros E. unfold sectionVA in Ev. by rewrite E in Ev. }
    rewrite Hne, orb_false_r. assert (Hva : (va =? 0) = false) by (apply Z.eqb_neq; congruence).
    destruct (bool_decide (binding s = STB_WEAK)); cbn [negb orb]; [|by rewrite Hva].
    destruct (bool_decide (wins objs (name s) = Weak k)); [by rewrite Hva|]. by rewrite Hg.
  - assert (E : storage (secName s) = false).
    { destruct (storage (secName s)); [|done]. by destruct (proj2 Hst eq_refl). }
    rewrite E. cbn [andb].
    destruct (bool_decide (binding s = STB_WEAK)), (bool_decide (wins objs (name s) = Weak k)),
      (bool_decide (binding s = STB_GLOBAL)), (bool_decide (secName s = "COMMON"%string)), (bool_decide (secName s = ""%string));
      cbn [negb orb andb]; rewrite ?Hg; done.
Qed.

(** * The merged code *)

(** Little-endian words; a tail shorter than a word is dropped. *)
Fixpoint text_words (l : list Z) : list Z :=
  match l with
  | a :: b :: c :: d :: l => (a + 2 ^ 8 * b + 2 ^ 16 * c + 2 ^ 24 * d) :: text_words l
  | _ => []
  end.

Definition merged_code (helper : list Z) (objs : list objFile) : list Z :=
  helper ++ concat ((fun o => text_words (textData o)) <$> objs).

Lemma length_text_words l : Z.of_nat (length (text_words l)) = bytes_len l / 4.
Proof.
  unfold bytes_len.
  assert (H : forall n l, (length l <= n)%nat -> Z.of_nat (length (text_words l)) = Z.of_nat (length l) / 4); [|by eapply H].
  clear. intros n. induction n as [|n IH]; intros l Hl; [by destruct l; [|cbn in Hl; lia]|].
  destruct l as [|a [|b [|c [|d l]]]]; [done..|]. cbn [text_words length] in *. rewrite Nat2Z.inj_succ, IH by lia.
  replace (Z.of_nat (S (S (S (S (length l)))))) with (Z.of_nat (length l) + 1 * 4) by lia. rewrite Z.div_add by lia. lia.
Qed.

(** Each object's words start at its base. *)
Lemma merged_code_at hw ps t objs helper k o p j : place (Extent hw 0 0 0) objs = (ps, t) -> Z.of_nat (length helper) = hw ->
  objs !! k = Some o -> ps !! k = Some p -> (j < length (text_words (textData o)))%nat ->
  merged_code helper objs !! (Z.to_nat (textBaseWord p) + j)%nat = text_words (textData o) !! j.
Proof.
  intros Hp Hh Hk Hpk Hj. unfold merged_code.
  assert (H : forall objs pre e k, textWords e = Z.of_nat (length pre) -> forall ps t, place e objs = (ps, t) ->
    objs !! k = Some o -> ps !! k = Some p ->
    (pre ++ concat ((fun o => text_words (textData o)) <$> objs)) !! (Z.to_nat (textBaseWord p) + j)%nat = text_words (textData o) !! j).
  { clear - Hj. intros objs. induction objs as [|o1 objs IH]; intros pre e k He ps t Hp Hk Hpk; [done|].
    cbn [place] in Hp. destruct (place (place_obj e o1).2 objs) as [ps1 t1] eqn:E. unfold place_obj in Hp, E. cbn [snd] in E. rewrite E in Hp.
    injection Hp as <- <-. cbn [fmap list_fmap concat]. destruct k as [|k].
    - cbn in Hk, Hpk. injection Hk as ->. injection Hpk as <-. cbn [textBaseWord]. rewrite He, Nat2Z.id.
      rewrite lookup_app_r by lia. replace (length pre + j - length pre)%nat with j by lia. by apply lookup_app_l.
    - rewrite app_assoc. eapply (IH _ _ k); [|exact E|exact Hk|exact Hpk].
      cbn [textWords]. rewrite He, length_app, Nat2Z.inj_add, length_text_words. done. }
  eapply H; [|exact Hp|exact Hk|exact Hpk]. by rewrite Hh.
Qed.

Lemma merged_length hw ps t objs helper : place (Extent hw 0 0 0) objs = (ps, t) -> Z.of_nat (length helper) = hw ->
  Z.of_nat (length (merged_code helper objs)) = textWords t.
Proof.
  unfold merged_code. intros Hp <-.
  assert (H : forall objs e n ps t, textWords e = n -> place e objs = (ps, t) ->
    n + Z.of_nat (length (concat ((fun o => text_words (textData o)) <$> objs))) = textWords t).
  { clear. intros objs. induction objs as [|o objs IH]; intros e n ps t He Hp; [injection Hp as <- <-; cbn; lia|].
    cbn [place] in Hp. destruct (place (place_obj e o).2 objs) as [ps1 t1] eqn:E. unfold place_obj in Hp, E. cbn [snd] in E. rewrite E in Hp.
    injection Hp as <- <-. cbn [fmap list_fmap concat]. rewrite length_app, Nat2Z.inj_add, length_text_words, Z.add_assoc.
    eapply IH; [|exact E]. cbn [textWords]. by rewrite He. }
  rewrite length_app, Nat2Z.inj_add. eapply H; [|exact Hp]. done.
Qed.

(** * The contents of the merged sections *)

Lemma contents_spec (helper : list Z) (labels : gmap string Z) (objs : list objFile) (il : imageLayout) :
  let hw := Z.of_nat (length helper) in
  lay_out hw labels objs = Ok il -> Forall obj_ok objs -> footprint hw objs (commons (il_scan il)) < 2 ^ 62 ->
  let rs := all_relas dataRelas objs (il_places il) in
  NoDup (rs ≫= fun '(k, o, p, r) => data_touched p r) ->
  Forall (fun '(k, o, p, r) => data_index p r + 8 <= totalData (il_extent il)) rs ->
  exists ro da da', assemble (totalRodata (il_extent il)) (zip (rodataOff <$> il_places il) (rodataData <$> objs)) = Ok ro /\
    assemble (totalData (il_extent il)) (zip (dataOff <$> il_places il) (dataData <$> objs)) = Ok da /\
    relocate_data il objs da = Ok da' /\ length ro = Z.to_nat (totalRodata (il_extent il)) /\ length da' = Z.to_nat (totalData (il_extent il)) /\
    (forall k o p j, objs !! k = Some o -> il_places il !! k = Some p ->
       ((j < length (text_words (textData o)))%nat ->
          merged_code helper objs !! (Z.to_nat (textBaseWord p) + j)%nat = text_words (textData o) !! j) /\
       ((j < length (rodataData o))%nat -> ro !! (Z.to_nat (rodataOff p) + j)%nat = rodataData o !! j) /\
       ((j < length (dataData o))%nat -> da !! (Z.to_nat (dataOff p) + j)%nat = dataData o !! j)) /\
    (forall j, j ∉ (rs ≫= fun '(k, o, p, r) => data_touched p r) -> da' !! j = da !! j) /\
    forall k o p r, (k, o, p, r) ∈ rs -> data_relocated il k o p r da da'.
Proof.
  intros hw H Ho Hf rs Hn Hb. assert (Hhw : 0 <= hw) by (unfold hw; lia). pose proof (footprint_commons _ _ _ _ H Ho).
  destruct (lay_out_place _ _ _ _ H) as (t & Hp & _ & Er & Ed & _). rewrite Er. rewrite Ed in *.
  destruct (place_packed hw objs _ t Hp Hhw Ho ltac:(lia)) as (_ & P2 & P3 & _ & _ & Hlen).
  assert (Hz : forall (f : placement -> Z) (g : objFile -> list Z), (fun x => (x.1, bytes_len x.2)) <$> zip (f <$> il_places il) (g <$> objs) =
    zip (f <$> il_places il) ((fun o => bytes_len (g o)) <$> objs)).
  { clear. intros f g. generalize (il_places il) as ps. induction objs as [|o objs IH]; intros [|p ps]; cbn; [done..|]. by rewrite IH. }
  destruct (assemble_spec (totalRodata t) (zip (rodataOff <$> il_places il) (rodataData <$> objs))) as (ro & E1 & L1 & F1); [by rewrite Hz|].
  destruct (assemble_spec (totalData t) (zip (dataOff <$> il_places il) (dataData <$> objs))) as (da & E2 & L2 & F2); [by rewrite Hz|].
  destruct (relocate_data_spec il objs da Hn) as (da' & E3 & L3 & U3 & F3).
  { eapply list.Forall_impl; [exact Hb|]. intros [[[k o] p] r]. unfold bytes_len. rewrite L2. apply packed_le in P3. lia. }
  exists ro, da, da'. split; [done|]. split; [done|]. split; [done|]. split; [done|].
  split; [congruence|]. split; [|done].
  assert (Hin : forall (f : placement -> Z) (g : objFile -> list Z) k o p, objs !! k = Some o -> il_places il !! k = Some p ->
    (f p, g o) ∈ zip (f <$> il_places il) (g <$> objs)).
  { intros f g k o p Hk Hpk. apply list_elem_of_lookup. exists k. apply lookup_zip_Some. cbn. by rewrite !list_lookup_fmap, Hk, Hpk. }
  intros k o p j Hk Hpk. split; [by eapply merged_code_at|].
  split; intros Hj; [by apply F1; [eapply Hin|]|by apply F2; [eapply Hin|]].
Qed.
