(* ===== verification/LinkSpec.v ===== *)
(** What the linker promises: lazy linking of archives, symbol precedence,
    the layout of the image, references and relocations. *)
From stdpp Require Import gmap strings.
From S2P Require Import Prelude Align Arm64Enc Linker LinkSyms LinkLayout LinkReloc.
#[local] Open Scope Z_scope.



(** C20: layout.  The helper code, the sections of all objects, the COMMON
    symbols and the heap's break pointer take disjoint pieces of memory in
    address order; segments start on pages, sections on multiples of 16,
    COMMONs where they asked to. *)
Theorem layout_disjoint (hw : Z) (labels : gmap string Z) (objs : list objFile) (il : imageLayout) :
  lay_out hw labels objs = Ok il -> 0 <= hw -> Forall obj_ok objs ->
  footprint hw objs (commons (il_scan il)) < 2 ^ 62 ->
  packed lnkCodeBase (regions hw objs il) (bssBase (il_bases il) + totalBss (il_extent il)) /\
  (forall i j a n b m, (i < j)%nat -> regions hw objs il !! i = Some (a, n) -> regions hw objs il !! j = Some (b, m) -> a + n <= b) /\
  (pageSize | rodataBase (il_bases il)) /\ (pageSize | dataBase (il_bases il)) /\ (pageSize | bssBase (il_bases il)) /\
  Forall (fun p => (16 | rodataOff p) /\ (16 | dataOff p) /\ (16 | bssOff p)) (il_places il) /\
  forall n ci, commons (il_scan il) !! n = Some ci ->
    exists off, il_coff il !! n = Some off /\ (ci_align ci | bssBase (il_bases il) + off).
Proof.
  intros H Hhw Ho Hf. pose proof (lay_out_packed _ _ _ _ H Hhw Ho Hf) as Hp. split; [done|]. split.
  - intros i j a n b m Hij Hi Hj. by destruct (packed_disjoint _ _ _ i j a n b m Hp Hij Hi Hj) as (_ & ? & _).
  - by eapply lay_out_aligned.
Qed.

(** C24: references.  A relocation against a named symbol uses the object's
    own definition, unless that is a weak one that lost; an undefined, COMMON
    or losing weak symbol goes to the winner of its name. *)
Theorem references_resolve (hw : Z) (labels : gmap string Z) (objs : list objFile) (il : imageLayout)
    (k : nat) (o : objFile) (p : placement) (r : lnkRela) (s : lnkSym) :
  lay_out hw labels objs = Ok il ->
  syms o !! Z.to_nat (symIdx r) = Some s -> name s <> ""%string -> sectionVA (il_bases il) p s <> Some 0 ->
  Some (rela_va il k o p r) =
    if own_definition objs k s then sectionVA (il_bases il) p s
    else Some (default 0 (resolved_va labels objs (il_bases il) (il_places il) (il_coff il) (name s))).
Proof. apply rela_va_spec. Qed.

(** Code relocations.  Relocations inside the code that do not overlap
    all succeed and change only their words: an ABS64 leaves S + A in two
    words, a CALL26 turns the placeholder into a BL over S + A - P whenever
    that is a multiple of 4 within 128 MiB. *)
Theorem text_relocations (il : imageLayout) (objs : list objFile) (ws : list Z) :
  let rs := all_relas relas objs (il_places il) in
  NoDup (rs ≫= fun '(k, o, p, r) => text_touched p r) ->
  Forall (fun '(k, o, p, r) => Forall (fun j => (j < length ws)%nat) (text_touched p r)) rs ->
  exists ws', relocate_text il objs ws = Ok ws' /\ length ws' = length ws /\
    (forall j, j ∉ (rs ≫= fun '(k, o, p, r) => text_touched p r) -> ws' !! j = ws !! j) /\
    forall k o p r, (k, o, p, r) ∈ rs -> let i := word_index p r in let va := rela_va il k o p r in
      (rtype r = rAArch64Abs64 -> exists lo hi, ws' !! i = Some lo /\ ws' !! S i = Some hi /\
         0 <= lo < 2 ^ 32 /\ 0 <= hi < 2 ^ 32 /\ lo + 2 ^ 32 * hi = u64 (va + addend r)) /\
      (rtype r = rAArch64Call26 -> forall imm d, ws !! i = Some (encBL imm) -> d = va + addend r - word_va i ->
         0 <= va < 2 ^ 62 -> word_va i < 2 ^ 62 -> - 2 ^ 62 <= addend r < 2 ^ 62 -> (4 | d) -> fits_signed 28 d ->
         exists w, ws' !! i = Some w /\ decode w = Some (BL, [d])).
Proof.
  intros rs Hn Hb. destruct (relocate_text_spec il objs ws Hn Hb) as (ws' & E & L & U & F).
  exists ws'. split; [done|]. split; [done|]. split; [done|]. intros k o p r Hin i va. destruct (F k o p r Hin) as [F1 F2].
  split; [exact F1|]. intros Ht imm d Hw Hd Hva Hwv Ha H4 Hr. destruct (F2 Ht) as (old & Ho & Ho').
  assert (old = encBL imm) as -> by (fold i in Ho; congruence). eexists. split; [exact Ho'|].
  by apply patch_call_decodes.
Qed.

(** The contents of the image.  The merged code, read-only data and data
    hold every object's words and bytes at its offset; data relocations inside them that do not
    overlap then leave S + A, little end first, and nothing else changes. *)
Theorem image_contents (helper : list Z) (labels : gmap string Z) (objs : list objFile) (il : imageLayout) :
  let hw := Z.of_nat (length helper) in
  lay_out hw labels objs = Ok il -> Forall obj_ok objs -> footprint hw objs (commons (il_scan il)) < 2 ^ 62 ->
  let rs := all_relas dataRelas objs (il_places il) in
  NoDup (rs ≫= fun '(k, o, p, r) => data_touched p r) ->
  Forall (fun '(k, o, p, r) => data_index p r + 8 <= totalData (il_extent il)) rs ->
  exists ro da da', assemble (totalRodata (il_extent il)) (zip (rodataOff <$> il_places il) (rodataData <$> objs)) = Ok ro /\
    assemble (totalData (il_extent il)) (zip (dataOff <$> il_places il) (dataData <$> objs)) = Ok da /\
    relocate_data il objs da = Ok da' /\
    (forall k o p j, objs !! k = Some o -> il_places il !! k = Some p ->
       ((j < length (text_words (textData o)))%nat ->
          merged_code helper objs !! (Z.to_nat (textBaseWord p) + j)%nat = text_words (textData o) !! j) /\
       ((j < length (rodataData o))%nat -> ro !! (Z.to_nat (rodataOff p) + j)%nat = rodataData o !! j) /\
       ((j < length (dataData o))%nat -> da !! (Z.to_nat (dataOff p) + j)%nat = dataData o !! j)) /\
    (forall j, j ∉ (rs ≫= fun '(k, o, p, r) => data_touched p r) -> da' !! j = da !! j) /\
    forall k o p r, (k, o, p, r) ∈ rs -> data_relocated il k o p r da da'.
Proof.
  intros hw H Ho Hf rs Hn Hb. destruct (contents_spec helper labels objs il H Ho Hf Hn Hb) as (ro & da & da' & E1 & E2 & E3 & _ & _ & F).
  by exists ro, da, da'.
Qed.

(** * Concrete inputs *)

Definition sym (n sec : string) (b : SymBind) (v sz : Z) : lnkSym := LnkSym n v sz sec b 0.

(** [main] calls [f], holds a pointer into a tentative array. *)
Definition main_o : objFile :=
  ObjFile "main.o" (le_bytes 4 0xD503201F ++ le_bytes 4 0x94000000) [72; 105; 0] (replicate 8 0) 4
    [sym "" "" STB_LOCAL 0 0; sym "main" ".text" STB_GLOBAL 0 8; sym "f" "" STB_GLOBAL 0 0;
     sym "buf" "COMMON" STB_GLOBAL 16 100; sym "hook" ".text" STB_WEAK 0 0]
    [LnkRela 4 2 rAArch64Call26 0] [LnkRela 0 3 rAArch64Abs64 4] false.

Definition f_o : objFile :=
  ObjFile "f.o" (le_bytes 4 0xD65F03C0) [] [] 0
    [sym "" "" STB_LOCAL 0 0; sym "f" ".text" STB_GLOBAL 0 4; sym "buf" "COMMON" STB_GLOBAL 8 200; sym "hook" ".text" STB_WEAK 0 0] [] [] false.




Definition linked : list objFile := [main_o; set_fromArchive f_o].

Definition layout : imageLayout :=
  match lay_out 3 ∅ linked with
  | Ok il => il
  | Err _ => ImageLayout [] (Extent 0 0 0 0) (Bases 0 0 0) (SymScan ∅ ∅ ∅) ∅ 0 ∅
  end.

Lemma layout_ok : lay_out 3 ∅ linked = Ok layout. Proof. vm_compute. reflexivity. Qed.

Lemma linked_ok : Forall obj_ok linked.
Proof. apply (bool_decide_unpack (Forall _ _)); vm_compute; exact I || (repeat constructor; vm_compute; discriminate). Qed.

Lemma layout_disjoint_witness :
  regions 3 linked layout !! 1%nat = Some (0x40012C, 8) /\ 0x40012C + 8 <= 0x400134.
Proof.
  split; [vm_compute; reflexivity|].
  destruct (layout_disjoint 3 ∅ linked layout layout_ok ltac:(lia) linked_ok) as (_ & H & _); [vm_compute; reflexivity|].
  apply (H 1%nat 2%nat 0x40012C 8 0x400134 4); [lia|vm_compute; reflexivity|vm_compute; reflexivity].
Defined.

Definition place_of (k : nat) : placement := default (Placement 0 0 0 0) (il_places layout !! k).

Lemma references_resolve_witness : Some (rela_va layout 0 main_o (place_of 0) (LnkRela 4 2 rAArch64Call26 0)) = Some 0x400134.
Proof.
  transitivity (Some (default 0 (resolved_va ∅ linked (il_bases layout) (il_places layout) (il_coff layout) "f"))); [|vm_compute; reflexivity].
  exact (references_resolve 3 ∅ linked layout 0 main_o (place_of 0) (LnkRela 4 2 rAArch64Call26 0)
    (sym "f" "" STB_GLOBAL 0 0) layout_ok eq_refl ltac:(discriminate) ltac:(vm_compute; discriminate)).
Defined.

Definition code : list Z := [0xD503201F; 0xD503201F; 0xD503201F; 0xD503201F; 0x94000000; 0xD65F03C0].

Lemma text_relocations_witness : exists ws', relocate_text layout linked code = Ok ws' /\
  exists w, ws' !! 4%nat = Some w /\ decode w = Some (BL, [4]).
Proof.
  destruct (text_relocations layout linked code) as (ws' & E & _ & _ & F).
  - apply (bool_decide_eq_true_1 (NoDup _)). vm_compute. reflexivity.
  - apply (bool_decide_eq_true_1 (Forall _ _)). vm_compute. reflexivity.
  - exists ws'. split; [exact E|].
    destruct (F 0%nat main_o (place_of 0) (LnkRela 4 2 rAArch64Call26 0)) as [_ H]; [left|].
    apply (H eq_refl 0 4); [reflexivity|vm_compute; reflexivity|vm_compute; split; [discriminate|reflexivity]|vm_compute; reflexivity|
      vm_compute; split; [discriminate|reflexivity]|by exists 1|vm_compute; split; [discriminate|reflexivity]].
Defined.

Lemma image_contents_witness : exists ro da da',
  assemble (totalRodata (il_extent layout)) (zip (rodataOff <$> il_places layout) (rodataData <$> linked)) = Ok ro /\
  assemble (totalData (il_extent layout)) (zip (dataOff <$> il_places layout) (dataData <$> linked)) = Ok da /\
  relocate_data layout linked da = Ok da' /\ ro !! 1%nat = Some 105 /\
  merged_code [1; 2; 3] linked !! 4%nat = Some 0x94000000.
Proof.
  destruct (image_contents [1; 2; 3] ∅ linked layout layout_ok linked_ok) as (ro & da & da' & E1 & E2 & E3 & F & _).
  - vm_compute. reflexivity.
  - apply (bool_decide_eq_true_1 (NoDup _)). vm_compute. reflexivity.
  - apply (bool_decide_eq_true_1 (Forall _ _)). vm_compute. reflexivity.
  - exists ro, da, da'. split; [exact E1|]. split; [exact E2|]. split; [exact E3|].
    destruct (F 0%nat main_o (place_of 0) 1%nat eq_refl eq_refl) as (Hc & Hr & _). split; [exact (Hr ltac:(cbn; lia))|].
    exact (Hc ltac:(cbn; lia)).
Defined.

(** * Corner cases *)

Definition defines_f : objFile := ObjFile "x.o" [] [] [] 0 [sym "f" ".text" STB_GLOBAL 0 4] [] [] false.
Definition uses_f : objFile := ObjFile "u.o" [] [] [] 0 [sym "f" "" STB_GLOBAL 0 0] [] [] false.
Definition load_f (n : string) (data : list Z) : option objFile := Some defines_f.
Definition lib_f : archiveState := ArchiveState [ArMember "f.o" []] {["f"%string := 0%nat]}.

(** The set of defined names is computed once for a round: a symbol that two
    objects leave undefined is pulled from two archives. *)
Lemma pulled_twice :
  lazy_link load_f [lib_f; lib_f] [uses_f; uses_f] = Ok [uses_f; uses_f; set_fromArchive defines_f; set_fromArchive defines_f].
Proof. vm_compute. reflexivity. Qed.

(** The start code's symbol is pulled although a user object defines it. *)
Lemma forced_although_defined :
  let user := ObjFile "u.o" [] [] [] 0 [sym forced ".text" STB_GLOBAL 0 4] [] [] false in
  lazy_link load_f [ArchiveState [ArMember "init.o" []] {[forced := 0%nat]}] [user] = Ok [user; set_fromArchive defines_f].
Proof. vm_compute. reflexivity. Qed.

(** A local COMMON symbol falls back to the global of the same name. *)
Lemma local_common_aliases :
  let o := ObjFile "l.o" [] [] [] 0 [sym "buf" "COMMON" STB_LOCAL 8 8] [] [] false in
  file_va layout 0 (place_of 0) (sym "buf" "COMMON" STB_LOCAL 8 8) = 0 /\
  rela_va layout 0 o (place_of 0) (LnkRela 0 0 rAArch64Abs64 0) = global_va layout "buf" /\
  global_va layout "buf" <> 0.
Proof. cbv zeta. split; [|split]; [vm_compute; reflexivity..|vm_compute; discriminate]. Qed.

(** A call out of range is cut to 26 bits: it lands 256 MiB off. *)
Lemma call_out_of_range : decode (patch_call (encBL 0) (call_offset (0x400120 + 2 ^ 27) 0 0)) = Some (BL, [- 2 ^ 27]).
Proof. vm_compute. reflexivity. Qed.
