(* ===== verification/Arfmt.v ===== *)
(** The reader and writer of ar archives (arfmt.go). *)
From stdpp Require Import gmap strings.
From S2P Require Import Prelude Linker.
#[local] Open Scope Z_scope.

(** * Bytes and strings *)

Definition to_bytes (s : string) : list Z := (fun c => Z.of_N (Ascii.N_of_ascii c)) <$> String.list_ascii_of_string s.
Definition of_bytes (l : list Z) : string := String.string_of_list_ascii ((fun b => Ascii.ascii_of_N (Z.to_N b)) <$> l).

Definition arFileMagic : list Z := Eval compute in to_bytes "!<arch>" ++ [10].
Definition arHdrLen : nat := 60.
Definition arEndMagic : list Z := [96; 10].

Definition space : Z := 32.
Definition slash : Z := 47.

(** * Writing *)

(** Padded with spaces, or cut, to [n] bytes. *)
Definition arPadRight (s : list Z) (n : nat) : list Z := take n s ++ replicate (n - length s) space.

Definition writeHdr (nm : list Z) (sz : nat) : list Z :=
  arPadRight nm 16 ++ arPadRight [48] 12 ++ arPadRight [48] 6 ++ arPadRight [48] 6 ++
  arPadRight [54; 52; 52] 8 ++ arPadRight (decimal (Z.of_nat sz)) 10 ++ arEndMagic.

(** Data is padded to an even length. *)
Definition padding (n : nat) : list Z := if Nat.even n then [] else [0].

Definition write_member (nm : list Z) (data : list Z) : list Z := writeHdr nm (length data) ++ data ++ padding (length data).

Definition be32 (v : Z) : list Z := [v / 2 ^ 24 mod 256; v / 2 ^ 16 mod 256; v / 2 ^ 8 mod 256; v mod 256].

(** [memberFileOff]: where the header of each member starts, on 32 bits. *)
Fixpoint member_offsets (off : Z) (ms : list arMember) : list Z :=
  match ms with
  | [] => []
  | m :: ms => off :: member_offsets (u32 (off + Z.of_nat arHdrLen + Z.of_nat (length (arData m ++ padding (length (arData m)))))) ms
  end.

Section archive.

Context (loadObj : string -> list Z -> option objFile).

(** The names a member defines; a member that does not load has none. *)
Definition member_syms (m : arMember) : list string :=
  match loadObj (arName m) (arData m) with
  | None => []
  | Some o => name <$> filter (fun s => isLinkableDef s = true) (syms o)
  end.

(** [allSyms]: every definition with the index of its member. *)
Definition all_defs (ms : list arMember) : list (string * nat) := concat (imap (fun i m => (fun n => (n, i)) <$> member_syms m) ms).

(** The symbol index: a count, offsets of headers, names. *)
Definition symbol_index (ms : list arMember) : list Z :=
  let defs := all_defs ms in
  let names := concat ((fun d => to_bytes d.1 ++ [0]) <$> defs) in
  let sz := (4 + length defs * 4 + length names)%nat in
  let offs := member_offsets (u32 (8 + Z.of_nat arHdrLen + Z.of_nat (sz + length (padding sz)))) ms in
  be32 (u32 (Z.of_nat (length defs))) ++ concat ((fun d => be32 (default 0 (offs !! d.2))) <$> defs) ++ names.

(** [archiveCreate], from the members read. *)
Definition archiveCreate (ms : list arMember) : list Z :=
  arFileMagic ++ write_member [slash] (symbol_index ms) ++
  concat ((fun m => write_member (to_bytes (arName m) ++ [slash]) (arData m)) <$> ms).

(** * Reading *)

Fixpoint drop_spaces (l : list Z) : list Z :=
  match l with
  | [] => []
  | c :: r => if c =? space then drop_spaces r else l
  end.

(** [strings.TrimRight(s, " ")]. *)
Definition trim_right (l : list Z) : list Z := reverse (drop_spaces (reverse l)).

(** [strings.TrimSuffix(s, "/")]. *)
Definition trim_slash (l : list Z) : list Z :=
  match reverse l with
  | c :: r => if c =? slash then reverse r else l
  | [] => l
  end.

(** [strconv.Atoi], an error reading as zero; ten characters do not
    overflow. *)
Definition atoi (l : list Z) : Z :=
  let '(neg, ds) := match l with
                    | c :: r => if c =? 45 then (true, r) else if c =? 43 then (false, r) else (false, l)
                    | [] => (false, l)
                    end in
  if negb (bool_decide (ds = [])) && forallb is_digit ds
  then let v := digits_value 10 ((fun c => c - 48) <$> ds) in if neg : bool then - v else v
  else 0.

Definition sub (data : list Z) (i j : nat) : list Z := take (j - i) (drop i data).

Inductive ar_error := NotAnArchive | TruncatedMember (off : nat) | ArOutOfFuel.

(** The members from offset [off] on. *)
Fixpoint read_members (fuel : nat) (data : list Z) (off : nat) : ar_error + list arMember :=
  match fuel with
  | O => inl ArOutOfFuel
  | S fuel =>
      if (length data <? off + arHdrLen)%nat then inr []
      else
        let nameField := trim_right (sub data off (off + 16)) in
        let sz := atoi (trim_right (sub data (off + 48) (off + 58))) in
        if (sz <? 0) || (Z.of_nat (length data) <? Z.of_nat off + Z.of_nat arHdrLen + sz) then inl (TruncatedMember off)
        else
          let n := Z.to_nat sz in
          let memberData := sub data (off + arHdrLen) (off + arHdrLen + n) in
          let off := (off + arHdrLen + n + (if Nat.even n then 0 else 1))%nat in
          match read_members fuel data off with
          | inl e => inl e
          | inr ms =>
              if bool_decide (nameField = [slash]) || bool_decide (nameField = [slash; slash]) then inr ms
              else inr (ArMember (of_bytes (trim_slash nameField)) memberData :: ms)
          end
  end.

(** The first member that defines a name. *)
Definition sym_map (ms : list arMember) : gmap string nat :=
  foldl (fun m '(n, i) => match m !! n with Some _ => m | None => <[n := i]> m end) ∅ (all_defs ms).

(** [archiveRead], from the contents of the file. *)
Definition archiveRead (data : list Z) : ar_error + archiveState :=
  if (length data <? 8)%nat || negb (bool_decide (take 8 data = arFileMagic)) then inl NotAnArchive
  else
    match read_members (S (length data)) data 8 with
    | inl e => inl e
    | inr ms => inr (ArchiveState ms (sym_map ms))
    end.

End archive.

(** * Fields *)

Lemma of_to_bytes s : of_bytes (to_bytes s) = s.
Proof.
  unfold of_bytes, to_bytes. rewrite <- list_fmap_compose.
  rewrite (list_fmap_ext _ id); [rewrite list_fmap_id; apply String.string_of_list_ascii_of_string|].
  intros i c _. cbn. by rewrite N2Z.id, Ascii.ascii_N_embedding.
Qed.

Lemma length_arPadRight s n : length (arPadRight s n) = n.
Proof. unfold arPadRight. rewrite length_app, length_take, length_replicate. lia. Qed.

Lemma length_writeHdr nm sz : length (writeHdr nm sz) = 60%nat.
Proof. unfold writeHdr. by rewrite !length_app, !length_arPadRight. Qed.

Lemma drop_spaces_replicate k l : drop_spaces (replicate k space ++ l) = drop_spaces l.
Proof. induction k as [|k IH]; [done|]. exact IH. Qed.

Lemma trim_right_pad l k : list.last l <> Some space -> trim_right (l ++ replicate k space) = l.
Proof.
  intros Hl. unfold trim_right. rewrite reverse_app, reverse_replicate, drop_spaces_replicate.
  assert (Er : l = reverse (reverse l)) by by rewrite reverse_involutive.
  destruct (reverse l) as [|c r]; subst l; [done|]. cbn [drop_spaces].
  destruct (Z.eqb_spec c space) as [->|]; [|done]. by rewrite reverse_cons, last_snoc in Hl.
Qed.

Lemma trim_right_arPadRight l n : (length l <= n)%nat -> list.last l <> Some space -> trim_right (arPadRight l n) = l.
Proof. intros Hn Hl. unfold arPadRight. rewrite take_ge by done. by apply trim_right_pad. Qed.

Lemma trim_slash_snoc l : trim_slash (l ++ [slash]) = l.
Proof. unfold trim_slash. rewrite reverse_snoc. cbn. by rewrite reverse_involutive. Qed.

Lemma atoi_decimal n : 0 <= n -> atoi (decimal n) = n.
Proof.
  intros Hn. unfold decimal. rewrite (proj2 (Z.ltb_ge n 0)) by lia. pose proof (dec_digits n Hn) as Hd. pose proof (dec_nonempty n Hn) as Hne.
  pose proof (dec_value n Hn) as Hv. unfold atoi. destruct (dec n) as [|c r] eqn:E; [done|].
  pose proof (Forall_cons_1 _ _ _ Hd) as [Hc _]. rewrite (proj2 (Z.eqb_neq c 45)), (proj2 (Z.eqb_neq c 43)) by lia.
  rewrite bool_decide_false by done. cbn [negb andb].
  rewrite (proj2 (List.forallb_forall is_digit (c :: r))); [by rewrite Hv|]. intros x Hx. unfold is_digit.
  apply list_elem_of_In in Hx. pose proof (proj1 (list.Forall_forall _ _) Hd x Hx). cbn in *. lia.
Qed.

Lemma decimal_last n : 0 <= n -> list.last (decimal n) <> Some space.
Proof.
  intros Hn. unfold decimal. rewrite (proj2 (Z.ltb_ge n 0)) by lia. intros H. apply last_Some_elem_of in H.
  pose proof (proj1 (list.Forall_forall _ _) (dec_digits n Hn) _ H). cbn in *. unfold space in *. lia.
Qed.

Lemma decimal_length n k : 0 <= n < 10 ^ Z.of_nat k -> (0 < k)%nat -> (length (decimal n) <= k)%nat.
Proof. intros Hn Hk. unfold decimal. rewrite (proj2 (Z.ltb_ge n 0)) by lia. by apply dec_length. Qed.

Lemma sub_app pre x i j : sub (pre ++ x) (length pre + i) (length pre + j) = sub x i j.
Proof. unfold sub. replace (length pre + j - (length pre + i))%nat with (j - i)%nat by lia. by rewrite <- drop_drop, drop_app_length. Qed.

Lemma sub_at a b c i j : i = length a -> j = (length a + length b)%nat -> sub (a ++ b ++ c) i j = b.
Proof.
  intros -> ->. unfold sub. rewrite drop_app_length. replace (length a + length b - length a)%nat with (length b) by lia.
  apply take_app_length.
Qed.

Lemma hdr_name nm sz rest : sub (writeHdr nm sz ++ rest) 0 16 = arPadRight nm 16.
Proof. unfold writeHdr. rewrite <- app_assoc. apply (sub_at [] (arPadRight nm 16)); [done|]. by rewrite length_arPadRight. Qed.

Lemma hdr_size nm sz rest : sub (writeHdr nm sz ++ rest) 48 58 = arPadRight (decimal (Z.of_nat sz)) 10.
Proof.
  unfold writeHdr. rewrite !app_assoc. rewrite <- (app_assoc _ arEndMagic rest).
  rewrite <- (app_assoc _ (arPadRight (decimal (Z.of_nat sz)) 10)).
  apply sub_at; rewrite ?length_app, !length_arPadRight; done.
Qed.

(** A name field that comes back as it was. *)
Definition field_ok (nm : list Z) : Prop := (length nm <= 16)%nat /\ list.last nm <> Some space.

Lemma length_write_member nm d : length (write_member nm d) = (60 + length d + (if Nat.even (length d) then 0 else 1))%nat.
Proof. unfold write_member, padding. rewrite !length_app, length_writeHdr. destruct (Nat.even (length d)); cbn; lia. Qed.

Lemma read_one fuel pre nm d rest : field_ok nm -> Z.of_nat (length d) < 10 ^ 10 ->
  let data := pre ++ write_member nm d ++ rest in
  read_members (S fuel) data (length pre) =
  match read_members fuel data (length (pre ++ write_member nm d)) with
  | inl e => inl e
  | inr ms =>
      if bool_decide (nm = [slash]) || bool_decide (nm = [slash; slash]) then inr ms
      else inr (ArMember (of_bytes (trim_slash nm)) d :: ms)
  end.
Proof.
  intros [Hn Hl] Hd data. cbn [read_members].
  assert (Hlen : length data = (length pre + length (write_member nm d) + length rest)%nat) by (unfold data; rewrite !length_app; lia).
  rewrite length_write_member in Hlen. unfold arHdrLen.
  rewrite (proj2 (Nat.ltb_ge (length data) (length pre + 60))) by lia.
  assert (En : sub data (length pre) (length pre + 16) = arPadRight nm 16).
  { unfold data, write_member. pose proof (sub_app pre ((writeHdr nm (length d) ++ d ++ padding (length d)) ++ rest) 0 16) as H.
    rewrite Nat.add_0_r in H. rewrite H, <- !app_assoc. apply hdr_name. }
  assert (Es : sub data (length pre + 48) (length pre + 58) = arPadRight (decimal (Z.of_nat (length d))) 10).
  { unfold data, write_member. rewrite sub_app, <- !app_assoc. apply hdr_size. }
  rewrite En, Es, (trim_right_arPadRight nm 16) by assumption.
  rewrite (trim_right_arPadRight _ 10) by (first [apply decimal_last; lia | apply decimal_length; lia]).
  rewrite atoi_decimal, Nat2Z.id by lia.
  rewrite (proj2 (Z.ltb_ge (Z.of_nat (length d)) 0)) by lia.
  rewrite (proj2 (Z.ltb_ge (Z.of_nat (length data)) _)) by (destruct (Nat.even (length d)); lia).
  cbn [orb].
  assert (Ed : sub data (length pre + 60) (length pre + 60 + length d) = d).
  { unfold data, write_member. rewrite <- (app_assoc _ _ rest). rewrite <- (app_assoc d). rewrite (app_assoc pre).
    apply sub_at; rewrite length_app, length_writeHdr; lia. }
  rewrite Ed. replace (length (pre ++ write_member nm d)) with (length pre + 60 + length d + (if Nat.even (length d) then 0 else 1))%nat
    by (rewrite length_app, length_write_member; lia). done.
Qed.

(** * Round trip *)

(** A member whose name fits its field and is not the index's. *)
Definition good_member (m : arMember) : Prop :=
  (1 <= String.length (arName m) <= 15)%nat /\ arName m <> "/"%string /\ Z.of_nat (length (arData m)) < 10 ^ 10.

Definition member_bytes (m : arMember) : list Z := write_member (to_bytes (arName m) ++ [slash]) (arData m).

Lemma length_to_bytes s : length (to_bytes s) = String.length s.
Proof. unfold to_bytes. rewrite length_fmap. induction s; cbn; auto. Qed.

Lemma to_bytes_inj s t : to_bytes s = to_bytes t -> s = t.
Proof. intros H. by rewrite <- (of_to_bytes s), H, of_to_bytes. Qed.

Lemma good_field m : good_member m -> field_ok (to_bytes (arName m) ++ [slash]) /\
  bool_decide (to_bytes (arName m) ++ [slash] = [slash]) || bool_decide (to_bytes (arName m) ++ [slash] = [slash; slash]) = false.
Proof.
  intros (Hl & Hn & _). split.
  - split; [rewrite length_app, length_to_bytes; cbn; lia|]. by rewrite last_snoc.
  - apply orb_false_iff. split; apply bool_decide_eq_false; intros E.
    + apply (f_equal length) in E. rewrite length_app, length_to_bytes in E. cbn in E. lia.
    + apply (app_inv_tail [slash] (to_bytes (arName m)) [slash]) in E. apply Hn. by apply to_bytes_inj.
Qed.

Lemma read_all ms : forall fuel pre, Forall good_member ms -> (length ms < fuel)%nat ->
  read_members fuel (pre ++ concat (member_bytes <$> ms)) (length pre) = inr ms.
Proof.
  induction ms as [|m ms IH]; intros fuel pre Hg Hf; (destruct fuel as [|fuel]; [cbn in Hf; lia|]).
  - cbn [fmap list_fmap concat read_members]. rewrite app_nil_r. unfold arHdrLen. by rewrite (proj2 (Nat.ltb_lt _ _)) by lia.
  - apply Forall_cons_1 in Hg as [Hm Hg]. destruct (good_field m Hm) as [Hf1 Hf2]. cbn [fmap list_fmap concat].
    unfold member_bytes at 1. rewrite read_one by (first [assumption | apply Hm]). fold (member_bytes m).
    specialize (IH fuel (pre ++ member_bytes m) Hg ltac:(cbn in Hf; lia)). rewrite <- app_assoc in IH. rewrite IH, Hf2.
    rewrite trim_slash_snoc, of_to_bytes. by destruct m.
Qed.

Section roundtrip.

Context (loadObj : string -> list Z -> option objFile).

Lemma concat_member_bytes ms : (length ms <= length (concat (member_bytes <$> ms)))%nat.
Proof.
  induction ms as [|m ms IH]; [done|]. cbn [fmap list_fmap concat length]. unfold member_bytes at 1.
  rewrite length_app, length_write_member. lia.
Qed.

Lemma archiveCreate_members ms : archiveCreate loadObj ms =
  arFileMagic ++ write_member [slash] (symbol_index loadObj ms) ++ concat (member_bytes <$> ms).
Proof. done. Qed.

Lemma archive_roundtrip ms : Forall good_member ms -> Z.of_nat (length (symbol_index loadObj ms)) < 10 ^ 10 ->
  archiveRead loadObj (archiveCreate loadObj ms) = inr (ArchiveState ms (sym_map loadObj ms)).
Proof.
  intros Hg Hi. unfold archiveRead. rewrite archiveCreate_members.
  set (data := arFileMagic ++ _). assert (Hl : (8 <= length data)%nat) by (unfold data; rewrite length_app; cbn; lia).
  rewrite (proj2 (Nat.ltb_ge _ _)) by lia. rewrite bool_decide_true by done. cbn [orb negb].
  change 8%nat with (length arFileMagic).
  assert (E : read_members (S (length data)) data (length arFileMagic) = inr ms); [|by rewrite E].
  unfold data at 2. rewrite read_one; [|split; [cbn; lia|done]|done].
  rewrite bool_decide_true by done. cbn [orb]. rewrite app_assoc, read_all; [done..|].
  unfold data. rewrite !length_app, length_write_member. pose proof (concat_member_bytes ms). lia.
Qed.

(** * The index *)

Lemma all_defs_elem ms n i : (n, i) ∈ all_defs loadObj ms <-> exists m, ms !! i = Some m /\ n ∈ member_syms loadObj m.
Proof.
  unfold all_defs. rewrite list_elem_of_In, in_concat. split.
  - intros (l & Hl & Hx). apply list_elem_of_In, elem_of_lookup_imap in Hl as (k & m & -> & Hm).
    apply list_elem_of_In, list_elem_of_fmap in Hx as (x & [= -> ->] & Hx). by exists m.
  - intros (m & Hm & Hn). exists ((fun n => (n, i)) <$> member_syms loadObj m). split.
    + apply list_elem_of_In. apply elem_of_lookup_imap. by exists i, m.
    + apply list_elem_of_In, list_elem_of_fmap. by exists n.
Qed.

Lemma sym_map_elem ms n i : sym_map loadObj ms !! n = Some i -> (n, i) ∈ all_defs loadObj ms.
Proof.
  unfold sym_map. set (f := fun (m : gmap string nat) '(n, i) => match m !! n with Some _ => m | None => <[n := i]> m end).
  assert (H : forall l m, foldl f m l !! n = Some i -> m !! n = Some i \/ (n, i) ∈ l).
  { intros l. induction l as [|[n1 i1] l IH]; intros m Hm; [by left|]. cbn [foldl] in Hm. apply IH in Hm as [Hm|Hm]; [|right; by right].
    unfold f in Hm. destruct (m !! n1) eqn:E; [by left|]. destruct (decide (n1 = n)) as [->|Hne].
    - rewrite lookup_insert_eq in Hm. injection Hm as ->. right. left.
    - rewrite lookup_insert_ne in Hm by done. by left. }
  intros Hm. destruct (H _ _ Hm) as [He|He]; [by rewrite lookup_empty in He|done].
Qed.

(** What reading establishes is what the linker relies on. *)
Lemma sym_map_ok ms : archive_ok loadObj (ArchiveState ms (sym_map loadObj ms)).
Proof.
  intros n i H. cbn [symMap members] in *. apply sym_map_elem, all_defs_elem in H as (m & Hm & Hn).
  unfold member_syms in Hn. destruct (loadObj (arName m) (arData m)) as [o|] eqn:Eo; [|by apply elem_of_nil in Hn].
  exists m, o. split; [done|]. split; [done|]. apply list_elem_of_fmap in Hn as (s & -> & Hs).
  apply list_elem_of_filter in Hs as [Hd Hs]. unfold defined. cbn. rewrite orb_false_r. apply existsb_exists. exists s.
  split; [by apply list_elem_of_In|]. rewrite Hd. by rewrite bool_decide_true.
Qed.

Lemma archiveRead_ok data a : archiveRead loadObj data = inr a -> archive_ok loadObj a.
Proof.
  unfold archiveRead. destruct (_ || _); [done|]. destruct (read_members _ _ _) as [e|ms]; [done|]. intros [= <-]. apply sym_map_ok.
Qed.

Lemma read_members_fuel fuel data off : (length data - off < fuel)%nat -> read_members fuel data off <> inl ArOutOfFuel.
Proof.
  revert off. induction fuel as [|fuel IH]; intros off Hf; [lia|]. cbn [read_members]. unfold arHdrLen.
  destruct (Nat.ltb_spec (length data) (off + 60)); [done|]. set (sz := atoi _). destruct ((sz <? 0) || _); [done|].
  set (off' := (off + 60 + Z.to_nat sz + _)%nat). specialize (IH off' ltac:(lia)).
  destruct (read_members fuel data off'); [congruence|]. by destruct (_ || _).
Qed.

(** The reader never runs out of fuel. *)
Lemma archiveRead_total data : archiveRead loadObj data <> inl ArOutOfFuel.
Proof.
  unfold archiveRead. destruct (_ || _); [done|]. pose proof (read_members_fuel (S (length data)) data 8 ltac:(lia)).
  destruct (read_members _ _ _); congruence.
Qed.

Lemma member_offsets_lookup ms : forall off i m, ms !! i = Some m -> 0 <= off ->
  off + Z.of_nat (length (concat (member_bytes <$> ms))) < 2 ^ 32 ->
  member_offsets off ms !! i = Some (off + Z.of_nat (length (concat (member_bytes <$> take i ms)))).
Proof.
  induction ms as [|m0 ms IH]; intros off i m Hi Ho Hf; [done|]. cbn [fmap list_fmap concat] in Hf. rewrite length_app, Nat2Z.inj_add in Hf.
  cbn [member_offsets]. destruct i as [|i]; [cbn; by rewrite Z.add_0_r|]. cbn [lookup list_lookup take fmap list_fmap concat].
  assert (Hm : Z.of_nat (length (member_bytes m0)) = Z.of_nat arHdrLen + Z.of_nat (length (arData m0 ++ padding (length (arData m0))))).
  { unfold member_bytes. rewrite length_write_member, length_app. unfold padding, arHdrLen. destruct (Nat.even _); cbn [length]; lia. }
  rewrite wrapU_small by lia. rewrite <- Z.add_assoc, <- Hm. change ((m0 :: ms) !! S i) with (ms !! i) in Hi.
  etransitivity; [exact (IH (off + Z.of_nat (length (member_bytes m0))) i m Hi ltac:(lia) ltac:(lia))|].
  rewrite length_app. f_equal. lia.
Qed.

Lemma length_words (l : list Z) : length (concat (be32 <$> l)) = (4 * length l)%nat.
Proof. induction l as [|x l IH]; [done|]. cbn [fmap list_fmap concat length]. rewrite length_app, IH. cbn. lia. Qed.

Lemma word_at (l rest : list Z) j v : l !! j = Some v -> sub (concat (be32 <$> l) ++ rest) (4 * j) (4 * j + 4) = be32 v.
Proof.
  intros H. rewrite <- (take_drop_middle l j v H). rewrite fmap_app, concat_app. cbn [fmap list_fmap concat]. rewrite <- !app_assoc.
  apply lookup_lt_Some in H. apply sub_at; rewrite length_words, length_take; [lia|]. change (length (be32 v)) with 4%nat. lia.
Qed.

(** The index once more, its offsets counted from its own length. *)
Lemma symbol_index_eq ms : let ix := symbol_index loadObj ms in let defs := all_defs loadObj ms in
  ix = be32 (u32 (Z.of_nat (length defs))) ++
    concat (be32 <$> ((fun d => default 0 (member_offsets (u32 (68 + Z.of_nat (length (ix ++ padding (length ix))))) ms !! d.2)) <$> defs)) ++
    concat ((fun d => to_bytes d.1 ++ [0]) <$> defs).
Proof.
  intros ix defs. assert (Hl : length ix = (4 + length defs * 4 + length (concat ((fun d => to_bytes d.1 ++ [0%Z]) <$> defs)))%nat).
  { unfold ix, symbol_index. fold defs. set (offs := member_offsets _ ms).
    change ((fun d : string * nat => be32 (default 0 (offs !! d.2))) <$> defs) with ((be32 ∘ (fun d : string * nat => default 0 (offs !! d.2))) <$> defs).
    rewrite list_fmap_compose.
    rewrite !length_app, length_words, length_fmap. change (length (be32 _)) with 4%nat. lia. }
  rewrite length_app, Hl. unfold ix, symbol_index. fold defs. rewrite <- list_fmap_compose. done.
Qed.

(** Entry [j] of the index, in the file, leads to the header of the member. *)
Lemma symbol_index_spec ms j n i m : all_defs loadObj ms !! j = Some (n, i) -> ms !! i = Some m ->
  let data := archiveCreate loadObj ms in Z.of_nat (length data) < 2 ^ 32 ->
  exists off, sub data (72 + 4 * j) (76 + 4 * j) = be32 (Z.of_nat off) /\ sub data off (off + length (member_bytes m)) = member_bytes m.
Proof.
  intros Hj Hi data Hf. set (ix := symbol_index loadObj ms) in *.
  assert (Hd : data = (arFileMagic ++ write_member [slash] ix) ++ concat (member_bytes <$> ms)) by apply app_assoc.
  set (pre := arFileMagic ++ write_member [slash] ix) in Hd.
  assert (Hpre : length pre = (68 + length (ix ++ padding (length ix)))%nat).
  { unfold pre. rewrite length_app, length_write_member, length_app. unfold padding. destruct (Nat.even _); cbn; lia. }
  exists (length pre + length (concat (member_bytes <$> take i ms)))%nat. rewrite Hd, length_app in Hf. split.
  - set (off0 := u32 (8 + Z.of_nat arHdrLen + Z.of_nat (length (ix ++ padding (length ix))))).
    assert (E0 : off0 = Z.of_nat (length pre)) by (unfold off0; rewrite wrapU_small; unfold arHdrLen; lia).
    assert (Ho : member_offsets off0 ms !! i = Some (Z.of_nat (length pre + length (concat (member_bytes <$> take i ms))))).
    { rewrite E0, (member_offsets_lookup ms _ i m Hi) by lia. f_equal. lia. }
    revert Ho. generalize (length pre + length (concat (member_bytes <$> take i ms)))%nat as o. intros o Ho. clear E0.
    rewrite Hd. unfold pre, write_member. fold ix in Hd. pose proof (symbol_index_eq ms) as Hix. cbv zeta in Hix. fold ix in Hix.
    change (68 + Z.of_nat (length (ix ++ padding (length ix)))) with (8 + Z.of_nat arHdrLen + Z.of_nat (length (ix ++ padding (length ix)))) in Hix.
    fold off0 in Hix. set (h := writeHdr [slash] (length ix)). generalize (padding (length ix)) as pd. intros pd. rewrite Hix.
    set (w := be32 (u32 _)). rewrite <- !app_assoc. rewrite (app_assoc h), (app_assoc arFileMagic).
    assert (Hl : length (arFileMagic ++ h ++ w) = 72%nat) by (rewrite !length_app; unfold h; by rewrite length_writeHdr).
    pose proof (sub_app (arFileMagic ++ h ++ w)) as Hs. rewrite Hl in Hs. replace (76 + 4 * j)%nat with (72 + (4 * j + 4))%nat by lia.
    rewrite Hs. apply word_at. rewrite list_lookup_fmap, Hj. cbn [fmap option_fmap option_map snd]. by rewrite Ho.
  - rewrite Hd, <- (take_drop_middle ms i m Hi) at 1. rewrite fmap_app, concat_app. cbn [fmap list_fmap concat].
    rewrite (app_assoc pre). apply sub_at; rewrite length_app; lia.
Qed.

End roundtrip.
