(* ===== verification/ArSpec.v ===== *)
(** What the archive writer and reader promise each other and the linker. *)
From stdpp Require Import gmap strings.
From S2P Require Import Prelude Linker Arfmt.
#[local] Open Scope Z_scope.

(** C21: archives read back.  Members whose names fit the header come back
    from the archive written for them, names and contents unchanged, with each
    symbol mapped to the first member that defines it. *)
Theorem archives_read_back (loadObj : string -> list Z -> option objFile) (ms : list arMember) :
  Forall good_member ms -> Z.of_nat (length (symbol_index loadObj ms)) < 10 ^ 10 ->
  archiveRead loadObj (archiveCreate loadObj ms) = inr (ArchiveState ms (sym_map loadObj ms)).
Proof. apply archive_roundtrip. Qed.

(** Reading anything.  On any bytes whatever the reader ends, and the
    archives it accepts are those the linker's lazy linking relies on: every
    symbol leads to a member that loads and defines it. *)
Theorem archive_reader_sound (loadObj : string -> list Z -> option objFile) (data : list Z) :
  match archiveRead loadObj data with
  | inr a => archive_ok loadObj a
  | inl ArOutOfFuel => False
  | inl _ => True
  end.
Proof.
  pose proof (archiveRead_total loadObj data) as Ht. pose proof (archiveRead_ok loadObj data) as Ho.
  destruct (archiveRead loadObj data) as [[]|a]; [done..| |by apply Ho]. by apply Ht.
Qed.

(** The symbol index.  In an archive of less than 4 GiB the entry of
    every definition holds the offset of the header of the member that makes
    it. *)
Theorem archive_index (loadObj : string -> list Z -> option objFile) (ms : list arMember) (j i : nat) (n : string) (m : arMember) :
  all_defs loadObj ms !! j = Some (n, i) -> ms !! i = Some m ->
  let data := archiveCreate loadObj ms in Z.of_nat (length data) < 2 ^ 32 ->
  exists off, sub data (72 + 4 * j) (76 + 4 * j) = be32 (Z.of_nat off) /\
    sub data off (off + length (member_bytes m)) = member_bytes m.
Proof. apply symbol_index_spec. Qed.

(** * Concrete inputs *)

Definition load (n : string) (data : list Z) : option objFile :=
  match data with
  | [] => None
  | c :: _ => Some (ObjFile n [] [] [] 0 [LnkSym (of_bytes [c]) 0 0 ".text" STB_GLOBAL 0; LnkSym "g" 0 0 ".text" STB_WEAK 0] [] [] false)
  end.

Definition members : list arMember := [ArMember "a.o" [102]; ArMember "empty.o" []; ArMember "b.o" [104; 1; 2]].

Lemma archives_read_back_witness :
  archiveRead load (archiveCreate load members) = inr (ArchiveState members (sym_map load members)) /\
  sym_map load members !! "g"%string = Some 0%nat /\ sym_map load members !! "h"%string = Some 2%nat.
Proof.
  split; [|split; vm_compute; reflexivity]. apply (archives_read_back load members); [|vm_compute; reflexivity].
  repeat constructor; try (intros E; discriminate E); vm_compute; try reflexivity; lia.
Defined.

Lemma archive_index_witness : exists off, sub (archiveCreate load members) 80 84 = be32 (Z.of_nat off) /\
  sub (archiveCreate load members) off (off + 64) = member_bytes (ArMember "b.o" [104; 1; 2]).
Proof.
  exact (archive_index load members 2 2 "h" (ArMember "b.o" [104; 1; 2]) ltac:(vm_compute; reflexivity) eq_refl ltac:(vm_compute; reflexivity)).
Defined.

(** * Corner cases *)

(** A name of sixteen characters or more loses its end. *)
Lemma long_name_cut : archiveRead load (archiveCreate load [ArMember "a_rather_long_name.o" [102]]) =
  inr (ArchiveState [ArMember "a_rather_long_na" [102]] (sym_map load [ArMember "a_rather_long_na" [102]])).
Proof. vm_compute. reflexivity. Qed.
