(* ===== verification/Runtime.v ===== *)
(** The runtime helpers that the linker puts before the program: start code,
    sbrk, system calls, setjmp and longjmp (elfgen.go, linker.go). *)
From stdpp Require Import gmap strings.
From S2P Require Import Prelude Arm64Enc CodeBuilder Align Linker LinkSyms LinkLayout LinkReloc.
#[local] Open Scope Z_scope.

(** * Registers *)

Definition regX0 : Z := 0.
Definition regX1 : Z := 1.
Definition regX2 : Z := 2.
Definition regX3 : Z := 3.
Definition regX8 : Z := 8.
Definition regX19 : Z := 19.
Definition regX20 : Z := 20.
Definition regX21 : Z := 21.
Definition regFP : Z := 29.
Definition condGE : Z := 10.

Definition sbrkGlobalName : string := "sbrk_cur_brk".

(** * The code *)

(** [_start]: call the initialiser, then main, then exit. *)
Definition start_ops : list op := [
  DefineLabel "_start";
  EmitBL "__posix_stdio_init";
  EmitBL "main";
  EmitMOVimm regX0 0;
  EmitMOVimm regX8 94;
  Emit (encSVC 0)].

Definition emitSbrkFn : list op := [
  DefineLabel "sbrk";
  Emit (encSUBimm regSP regSP 48);
  Emit (encSTP regFP regLR regSP 0);
  Emit (encSTP regX19 regX20 regSP 16);
  Emit (encSTP regX21 22 regSP 32);
  Emit (encADDimm regFP regSP 0);
  Emit (encMOVreg regX19 regX0);
  EmitLDRglobal sbrkGlobalName;
  Emit (encMOVreg regX20 regX9);
  Emit (encLDRuoff regX21 regX20 0);
  EmitCBNZ regX21 "sbrk_have_brk";
  Emit (encMOVZ regX0 0 0);
  EmitMOVimm regX8 214;
  Emit (encSVC 0);
  EmitCBNZ regX0 "sbrk_init_ok";
  Emit (encMOVN regX0 0 0);
  EmitB "sbrk_epilogue";
  DefineLabel "sbrk_init_ok";
  Emit (encMOVreg regX21 regX0);
  Emit (encSTRuoff regX21 regX20 0);
  DefineLabel "sbrk_have_brk";
  Emit (encMOVreg regX0 regX21);
  EmitCBZ regX19 "sbrk_epilogue";
  Emit (encADDreg regX0 regX21 regX19);
  EmitMOVimm regX8 214;
  Emit (encSVC 0);
  Emit (encADDreg regX1 regX21 regX19);
  Emit (encCMPreg regX0 regX1);
  EmitBcond condGE "sbrk_ok";
  Emit (encMOVN regX0 0 0);
  EmitB "sbrk_epilogue";
  DefineLabel "sbrk_ok";
  Emit (encSTRuoff regX0 regX20 0);
  Emit (encMOVreg regX0 regX21);
  DefineLabel "sbrk_epilogue";
  Emit (encLDP regX21 22 regSP 32);
  Emit (encLDP regX19 regX20 regSP 16);
  Emit (encLDP regFP regLR regSP 0);
  Emit (encADDimm regSP regSP 48);
  Emit encRET].

Definition emitPosixSyscalls : list op := [
  DefineLabel "read"; EmitMOVimm regX8 63; Emit (encSVC 0); Emit encRET;
  DefineLabel "write"; EmitMOVimm regX8 64; Emit (encSVC 0); Emit encRET;
  DefineLabel "open";
  Emit (encMOVreg regX3 regX2);
  Emit (encMOVreg regX2 regX1);
  Emit (encMOVreg regX1 regX0);
  EmitMOVimm regX0 0;
  Emit (encSUBimm regX0 regX0 100);
  EmitMOVimm regX8 56; Emit (encSVC 0); Emit encRET;
  DefineLabel "close"; EmitMOVimm regX8 57; Emit (encSVC 0); Emit encRET;
  DefineLabel "lseek"; EmitMOVimm regX8 62; Emit (encSVC 0); Emit encRET].

Definition emitSetjmpFns : list op := [
  DefineLabel "setjmp";
  Emit (encSTP 19 20 regX0 0);
  Emit (encSTP 21 22 regX0 16);
  Emit (encSTP 23 24 regX0 32);
  Emit (encSTP 25 26 regX0 48);
  Emit (encSTP 27 28 regX0 64);
  Emit (encSTP regFP regLR regX0 80);
  Emit (encADDimm regX1 regSP 0);
  Emit (encSTRuoff regX1 regX0 96);
  EmitMOVimm regX0 0;
  Emit encRET;
  DefineLabel "longjmp";
  Emit (encMOVreg regX3 regX0);
  Emit (encMOVreg regX2 regX1);
  Emit (encLDP 19 20 regX3 0);
  Emit (encLDP 21 22 regX3 16);
  Emit (encLDP 23 24 regX3 32);
  Emit (encLDP 25 26 regX3 48);
  Emit (encLDP 27 28 regX3 64);
  Emit (encLDP regFP regLR regX3 80);
  Emit (encLDRuoff regX1 regX3 96);
  Emit (encADDimm regSP regX1 0);
  Emit (encCBNZ regX2 2);
  EmitMOVimm regX2 1;
  Emit (encMOVreg regX0 regX2);
  Emit encRET].

Definition runtime_ops : list op := start_ops ++ emitSbrkFn ++ emitPosixSyscalls ++ emitSetjmpFns.

(** The builder with one pool entry, for the break pointer; [pool_builder]
    spells [newCodeBuilder] out, see [pool_builder_new]. *)
Definition pool_builder : codeBuilder := CodeBuilder [0; 0] ∅ [] {[sbrkGlobalName := 0%nat]} [] false.

Lemma pool_builder_new : newCodeBuilder [sbrkGlobalName] [] [] [] = Some pool_builder.
Proof. vm_compute. reflexivity. Qed.

Definition helper_code : codeBuilder := foldl build pool_builder runtime_ops.

Definition helperWords : Z := Z.of_nat (length (instrs helper_code)).

(** * Linking the code *)

(** The labels that lead out of the helpers: word indices of [main] and of the
    initialiser. *)
Definition start_labels (il : imageLayout) (lbls : gmap string Z) : gmap string Z :=
  let enter n m := match il_symVA il !! n with Some va => <[n := u64 (va - lnkCodeBase) / 4]> m | None => m end in
  enter "__posix_stdio_init"%string (enter "main"%string lbls).

Definition with_instrs (cb : codeBuilder) (ws : list Z) : codeBuilder :=
  CodeBuilder ws (labels cb) (fixups cb) (poolIdx cb) (externBLs cb) (peepholeBarrier cb).

(** Pool, internal branches and relocations of the merged code. *)
Definition link_code (cb : codeBuilder) (objs : list objFile) (il : imageLayout) : res (list Z) :=
  match patchPool (with_instrs cb (merged_code (instrs cb) objs)) [(sbrkGlobalName, il_sbrk il)] with
  | None => Err Panic
  | Some ws =>
      match apply_fixups (start_labels il (labels cb)) ws (fixups cb) with
      | None => Err Panic
      | Some (inl _) => Err FixupFailed
      | Some (inr ws) => relocate_text il objs ws
      end
  end.

(** [linkWithObjs] from the loaded objects to the code of the image. *)
Definition link_program (objs : list objFile) : res (imageLayout * list Z) :=
  il ← lay_out helperWords (labels helper_code) objs;
  ws ← link_code helper_code objs il;
  Ok (il, ws).

(** * What linking the code establishes *)

Lemma runtime_ops_ok : Forall op_ok runtime_ops.
Proof. repeat constructor; vm_compute; first [done | split; [discriminate|reflexivity]]. Qed.

Lemma helper_ok : builder_ok helper_code.
Proof. apply build_all_ok; [apply runtime_ops_ok|]. eapply new_ok. apply pool_builder_new. Qed.

Lemma start_labels_other il lbls n : n <> "main"%string -> n <> "__posix_stdio_init"%string -> start_labels il lbls !! n = lbls !! n.
Proof.
  intros H1 H2. unfold start_labels. destruct (il_symVA il !! "__posix_stdio_init"%string), (il_symVA il !! "main"%string);
    by rewrite ?lookup_insert_ne.
Qed.

Lemma word_va_index i : Z.of_nat i < 2 ^ 60 -> u64 (word_va i - lnkCodeBase) / 4 = Z.of_nat i.
Proof.
  intros Hi. unfold word_va. change lnkCodeBase with 4194592. rewrite (wrapU_small 64 (4194592 + _)) by lia.
  replace (4194592 + Z.of_nat i * 4 - 4194592) with (Z.of_nat i * 4) by lia. rewrite wrapU_small by lia. apply Z.div_mul. lia.
Qed.

Lemma start_labels_main il lbls i : il_symVA il !! "main"%string = Some (word_va i) -> Z.of_nat i < 2 ^ 60 ->
  start_labels il lbls !! "main"%string = Some (Z.of_nat i).
Proof.
  intros Hm Hi. unfold start_labels. rewrite Hm, word_va_index by done.
  destruct (il_symVA il !! "__posix_stdio_init"%string); [rewrite lookup_insert_ne by done|]; apply lookup_insert_eq.
Qed.

Lemma start_labels_init il lbls i : il_symVA il !! "__posix_stdio_init"%string = Some (word_va i) -> Z.of_nat i < 2 ^ 60 ->
  start_labels il lbls !! "__posix_stdio_init"%string = Some (Z.of_nat i).
Proof. intros Hm Hi. unfold start_labels. rewrite Hm, word_va_index by done. apply lookup_insert_eq. Qed.

(** The fixups of the helpers, with the labels inside them. *)
Definition internal (fx : branchFixup) : bool :=
  match labels helper_code !! label fx with
  | Some t => negb (out_of_range (kind fx) (t - Z.of_nat (at_ fx)))
  | None => false
  end.

Lemma helper_fixups : exists rest, fixups helper_code = Fixup 2 "__posix_stdio_init" fixBL :: Fixup 3 "main" fixBL :: rest /\
  Forall (fun fx => label fx <> "main"%string /\ label fx <> "__posix_stdio_init"%string /\ internal fx = true) rest.
Proof. eexists. split; [vm_compute; reflexivity|]. repeat constructor; first [intros E; discriminate E | vm_compute; reflexivity]. Qed.

#[local] Opaque helper_code.

Lemma branch_in_range (i p : nat) : Z.of_nat i < 2 ^ 25 -> (p < 4)%nat -> out_of_range fixBL (Z.of_nat i - Z.of_nat p) = false.
Proof. intros Hi Hp. cbn [out_of_range]. apply orb_false_iff. split; [apply Z.ltb_ge|apply Z.leb_gt]; lia. Qed.

Lemma start_resolvable il i1 i2 : il_symVA il !! "__posix_stdio_init"%string = Some (word_va i1) ->
  il_symVA il !! "main"%string = Some (word_va i2) -> Z.of_nat i1 < 2 ^ 25 -> Z.of_nat i2 < 2 ^ 25 ->
  Forall (resolvable (start_labels il (labels helper_code))) (fixups helper_code).
Proof.
  intros H1 H2 R1 R2. destruct helper_fixups as (rest & -> & Hr). constructor; [|constructor].
  - exists (Z.of_nat i1). split; [apply start_labels_init; [done|lia]|]. cbn [kind at_]. apply (branch_in_range i1 2); lia.
  - exists (Z.of_nat i2). split; [apply start_labels_main; [done|lia]|]. cbn [kind at_]. apply (branch_in_range i2 3); lia.
  - eapply list.Forall_impl; [exact Hr|]. intros fx (N1 & N2 & Hi). unfold internal in Hi.
    destruct (labels helper_code !! label fx) as [t|] eqn:E; [|done]. exists t. rewrite start_labels_other by done.
    split; [done|]. by apply negb_true_iff in Hi.
Qed.

(** The words before relocation: the pool filled, the helpers' branches
    resolved, the objects' code as it came. *)
Definition helper_entry (ws : list Z) (v : Z) : Prop := ws !! 0%nat = Some (u32 v) /\ ws !! 1%nat = Some (u32 (Z.shiftr v 32)).

Lemma helper_length : length (instrs helper_code) = Z.to_nat helperWords.
Proof. unfold helperWords. by rewrite Nat2Z.id. Qed.

Lemma helperWords_eq : helperWords = 86.
Proof. vm_compute. reflexivity. Qed.

Lemma fixups_inside : Forall (fun fx => (2 <= at_ fx < 86)%nat) (fixups helper_code).
Proof. apply (bool_decide_eq_true_1 (Forall _ _)). vm_compute. reflexivity. Qed.

Lemma fixup_inside fx : fx ∈ fixups helper_code -> (2 <= at_ fx < 86)%nat.
Proof. apply (proj1 (list.Forall_forall _ _) fixups_inside). Qed.

Lemma merged_lookup objs j : (j < 86)%nat -> merged_code (instrs helper_code) objs !! j = instrs helper_code !! j.
Proof. intros Hj. apply lookup_app_l. rewrite helper_length, helperWords_eq. lia. Qed.

Lemma patchPool_helper cb ms v : pool_index (poolIdx cb) sbrkGlobalName = 0%nat -> (2 <= length ms)%nat ->
  patchPool (with_instrs cb ms) [(sbrkGlobalName, v)] =
    Some (<[1%nat := u32 (Z.shiftr v 32)]> (<[0%nat := u32 v]> ms)).
Proof.
  intros E Hl. unfold patchPool. cbn [foldl with_instrs instrs poolIdx]. cbn [mbind option_bind].
  rewrite E. unfold set_entry. by rewrite (proj2 (Nat.ltb_lt _ _)) by lia.
Qed.

Lemma helper_pool : pool_index (poolIdx helper_code) sbrkGlobalName = 0%nat.
Proof. vm_compute. reflexivity. Qed.

(** * The words of the helpers do not depend on the program *)

Lemma apply_fixups_words lbls fxs : forall ws ws', apply_fixups lbls ws fxs = Some (inr ws') -> NoDup (at_ <$> fxs) ->
  (forall fx, fx ∈ fxs -> exists t old, lbls !! label fx = Some t /\ ws !! at_ fx = Some old /\
     ws' !! at_ fx = Some (patched (kind fx) old (t - Z.of_nat (at_ fx)))) /\
  forall j, j ∉ (at_ <$> fxs) -> ws' !! j = ws !! j.
Proof.
  induction fxs as [|fx fxs IH]; intros ws ws' H Hn.
  - injection H as <-. split; [|done]. intros fx Hfx. by apply elem_of_nil in Hfx.
  - cbn [apply_fixups] in H. unfold apply_fixup in H. destruct (lbls !! label fx) as [t|] eqn:Et; [|done].
    destruct (ws !! at_ fx) as [old|] eqn:Eo; [|done]. cbn [mbind option_bind] in H.
    destruct (out_of_range _ _); [done|]. cbn [fmap list_fmap] in Hn. apply list.NoDup_cons in Hn as [Hnin Hn].
    destruct (IH _ _ H Hn) as [H1 H2]. split.
    + intros fx' Hin. apply elem_of_cons in Hin as [->|Hin].
      * exists t, old. split; [done|]. split; [done|]. rewrite H2 by done. apply list_lookup_insert_eq. by apply lookup_lt_Some in Eo.
      * destruct (H1 fx' Hin) as (t' & old' & E1 & E2 & E3). exists t', old'. split; [done|]. split; [|done].
        rewrite list_lookup_insert_ne in E2; [done|]. intros E. apply Hnin. rewrite E. by apply (list_elem_of_fmap_2 at_).
    + intros j Hj. cbn [fmap list_fmap] in Hj. apply not_elem_of_cons in Hj as [Hj1 Hj2]. rewrite H2 by done.
      by rewrite list_lookup_insert_ne.
Qed.

(** The helpers with the branches inside them resolved. *)
Definition helper_words : list Z :=
  match apply_fixups (labels helper_code) (instrs helper_code) (filter (fun fx => internal fx = true) (fixups helper_code)) with
  | Some (inr ws) => ws
  | _ => []
  end.

Lemma helper_words_eq : apply_fixups (labels helper_code) (instrs helper_code)
  (filter (fun fx => internal fx = true) (fixups helper_code)) = Some (inr helper_words).
Proof. vm_compute. reflexivity. Qed.

Lemma helper_internal : Forall (fun fx => internal fx = false -> (at_ fx < 4)%nat) (fixups helper_code).
Proof.
  destruct helper_fixups as (rest & -> & Hr). constructor; [cbn; lia|constructor; [cbn; lia|]].
  eapply list.Forall_impl; [exact Hr|]. intros fx (_ & _ & ->). done.
Qed.

Lemma internal_label il fx : fx ∈ fixups helper_code -> (4 <= at_ fx)%nat ->
  internal fx = true /\ start_labels il (labels helper_code) !! label fx = labels helper_code !! label fx.
Proof.
  intros Hfx Hat. destruct helper_fixups as (rest & E & Hr). rewrite E in Hfx.
  apply elem_of_cons in Hfx as [->|Hfx]; [cbn in Hat; lia|]. apply elem_of_cons in Hfx as [->|Hfx]; [cbn in Hat; lia|].
  destruct (proj1 (list.Forall_forall _ _) Hr fx Hfx) as (N1 & N2 & Hi). split; [done|]. by apply start_labels_other.
Qed.

Lemma internal_nodup : NoDup (at_ <$> filter (fun fx => internal fx = true) (fixups helper_code)).
Proof. apply (bool_decide_eq_true_1 (NoDup _)). vm_compute. reflexivity. Qed.

(** What code linked from the helpers' words has at their places. *)
Lemma fixed_words il (ws ws' : list Z) : (forall j, (2 <= j < 86)%nat -> ws !! j = instrs helper_code !! j) ->
  apply_fixups (start_labels il (labels helper_code)) ws (fixups helper_code) = Some (inr ws') ->
  forall j, (4 <= j < 86)%nat -> ws' !! j = helper_words !! j.
Proof.
  intros Hw Ha j Hj. destruct (apply_fixups_words _ _ _ _ Ha (ok_distinct _ helper_ok)) as [A1 A2].
  destruct (apply_fixups_words _ _ _ _ helper_words_eq internal_nodup) as [B1 B2].
  destruct (decide (j ∈ at_ <$> fixups helper_code)) as [Hin|Hnin].
  - apply list_elem_of_fmap in Hin as (fx & -> & Hfx). destruct (internal_label il fx Hfx ltac:(lia)) as [Hi Hl].
    destruct (A1 fx Hfx) as (t & old & E1 & E2 & ->). destruct (B1 fx) as (t' & old' & F1 & F2 & ->); [by apply list_elem_of_filter|].
    rewrite Hl, F1 in E1. injection E1 as ->. rewrite Hw, F2 in E2 by lia. by injection E2 as ->.
  - rewrite A2, B2, Hw; [done|lia| |done]. intros Hin. apply Hnin. apply list_elem_of_fmap in Hin as (fx & -> & Hfx).
    apply list_elem_of_filter in Hfx as [_ Hfx]. by apply (list_elem_of_fmap_2 at_).
Qed.

(** * Linking the helpers and the program *)

Lemma link_code_spec objs il i1 i2 :
  il_symVA il !! "__posix_stdio_init"%string = Some (word_va i1) -> il_symVA il !! "main"%string = Some (word_va i2) ->
  Z.of_nat i1 < 2 ^ 25 -> Z.of_nat i2 < 2 ^ 25 ->
  let ms := merged_code (instrs helper_code) objs in
  let rs := all_relas relas objs (il_places il) in
  NoDup (rs ≫= fun '(k, o, p, r) => text_touched p r) ->
  Forall (fun '(k, o, p, r) => Forall (fun j => (86 <= j < length ms)%nat) (text_touched p r)) rs ->
  exists ws, link_code helper_code objs il = Ok ws /\ length ws = length ms /\ helper_entry ws (il_sbrk il) /\
    (forall j, (4 <= j < 86)%nat -> ws !! j = helper_words !! j) /\
    Forall (resolved (start_labels il (labels helper_code)) ms ws) (fixups helper_code) /\
    (forall j, (2 <= j)%nat -> j ∉ (at_ <$> fixups helper_code) -> j ∉ (rs ≫= fun '(k, o, p, r) => text_touched p r) ->
       ws !! j = ms !! j) /\
    forall k o p r, (k, o, p, r) ∈ rs -> text_relocated il k o p r ms ws.
Proof.
  intros H1 H2 R1 R2 ms rs Hn Hb. unfold link_code. fold ms.
  assert (Lm : (86 <= length ms)%nat) by (unfold ms, merged_code; rewrite length_app, helper_length, helperWords_eq; lia).
  rewrite (patchPool_helper _ _ _ helper_pool) by lia. set (ws0 := <[1%nat := _]> _).
  assert (L0 : length ws0 = length ms) by (unfold ws0; by rewrite !length_insert).
  assert (U0 : forall j, (2 <= j)%nat -> ws0 !! j = ms !! j) by (intros j Hj; unfold ws0; by rewrite !list_lookup_insert_ne by lia).
  assert (Hpl : Forall (placed ws0) (fixups helper_code)).
  { apply list.Forall_forall. intros fx Hfx. pose proof (fixup_inside fx Hfx) as Hin.
    destruct (proj1 (list.Forall_forall _ _) (ok_placed _ helper_ok) fx Hfx) as (w & i & Hw & Hp). exists w, i. split; [|done].
    rewrite U0 by lia. unfold ms. by rewrite merged_lookup by lia. }
  destruct (apply_fixups_spec (start_labels il (labels helper_code)) (fixups helper_code) ws0 Hpl (ok_distinct _ helper_ok)) as [Hf _].
  destruct (Hf (start_resolvable il i1 i2 H1 H2 R1 R2)) as (ws1 & E1 & L1 & F1 & U1).
  assert (Hfix : forall j, (4 <= j < 86)%nat -> ws1 !! j = helper_words !! j).
  { eapply fixed_words; [|exact E1]. intros j Hj. rewrite U0 by lia. unfold ms. by rewrite merged_lookup by lia. }
  rewrite E1.
  assert (Htouch : forall j, j ∈ (rs ≫= fun '(k, o, p, r) => text_touched p r) -> (86 <= j)%nat).
  { intros j Hj. apply list_elem_of_bind in Hj as ([[[k o] p] r] & Hj & Hin).
    pose proof (proj1 (list.Forall_forall _ _) Hb _ Hin) as Hr. by apply (proj1 (list.Forall_forall _ _) Hr) in Hj as [? _]. }
  destruct (relocate_text_spec il objs ws1 Hn) as (ws & -> & L & U & F).
  { eapply list.Forall_impl; [exact Hb|]. intros [[[k o] p] r] Hr. eapply list.Forall_impl; [exact Hr|]. intros j Hj. cbn in Hj. lia. }
  assert (Hlow : forall j, (j < 86)%nat -> ws !! j = ws1 !! j).
  { intros j Hj. apply U. intros Hin. apply Htouch in Hin. lia. }
  assert (Hlow1 : forall j, (j < 2)%nat -> ws1 !! j = ws0 !! j).
  { intros j Hj. apply U1. intros Hin. apply list_elem_of_fmap in Hin as (fx & -> & Hfx).
    pose proof (fixup_inside fx Hfx). lia. }
  exists ws. split; [done|]. split; [congruence|]. split; [|split; [|split; [|split]]].
  - split; rewrite Hlow, Hlow1 by lia; unfold ws0; [rewrite list_lookup_insert_ne by lia|]; apply list_lookup_insert_eq;
      rewrite ?length_insert; lia.
  - intros j Hj. rewrite Hlow by lia. by apply Hfix.
  - apply list.Forall_forall. intros fx Hfx. pose proof (fixup_inside fx Hfx) as Hin.
    destruct (proj1 (list.Forall_forall _ _) F1 fx Hfx) as (t & w & w' & i & Ht & Hw & Hp & Hw' & Hd).
    exists t, w, w', i. rewrite U0 in Hw by lia. rewrite Hlow by lia. done.
  - intros j Hj Hnf Hnt. by rewrite U, U1, U0.
  - intros k o p r Hin. destruct (F k o p r Hin) as [G1 G2]. split; [done|]. intros Ht. destruct (G2 Ht) as (old & Ho & Ho').
    exists old. split; [|done]. rewrite <- Ho.
    assert (Hj : word_index p r ∈ (rs ≫= fun '(k, o, p, r) => text_touched p r)).
    { apply list_elem_of_bind. exists (k, o, p, r). split; [|done]. unfold text_touched. rewrite Ht. left. }
    apply Htouch in Hj. rewrite <- U0 by lia. symmetry. apply U1. intros Hin2. apply list_elem_of_fmap in Hin2 as (fx & Hfe & Hfx).
    pose proof (fixup_inside fx Hfx). lia.
Qed.
