(* ===== verification/RuntimeExec.v ===== *)
(** What the runtime helpers do when they run: an AArch64 machine for their
    instructions with a kernel behind SVC, and the behaviour of sbrk, of the
    system-call wrappers and of setjmp and longjmp on it. *)
From stdpp Require Import gmap strings.
From S2P Require Import Prelude Setjmp Arm64Enc CodeBuilder Runtime.
#[local] Open Scope Z_scope.

(** * The machine *)

Section aarch64.

(** The kernel: the number and the arguments of a call, memory and the state
    of the kernel in, the result and both of them out. *)
Context {K : Type} (kernel : Z -> list Z -> (Z -> Z) -> K -> Z * (Z -> Z) * K).

(** General registers, stack pointer, memory by 64-bit words (the helpers
    access nothing else), the flags N and V, the program counter as a word
    index. *)
Record cpu := Cpu { reg : Z -> Z; sp : Z; mem : Z -> Z; flag_n : bool; flag_v : bool; pc : nat; kst : K }.

(** Register 31 is the zero register or, as a base, the stack pointer. *)
Definition rd (c : cpu) (r : Z) : Z := if r =? 31 then 0 else reg c r.
Definition base (c : cpu) (r : Z) : Z := if r =? 31 then sp c else reg c r.

Definition set_reg (c : cpu) (r v : Z) : cpu :=
  if r =? 31 then c else Cpu (upd (reg c) r v) (sp c) (mem c) (flag_n c) (flag_v c) (pc c) (kst c).
Definition set_base (c : cpu) (r v : Z) : cpu :=
  if r =? 31 then Cpu (reg c) v (mem c) (flag_n c) (flag_v c) (pc c) (kst c) else set_reg c r v.
Definition set_mem (c : cpu) (a v : Z) : cpu := Cpu (reg c) (sp c) (upd (mem c) a v) (flag_n c) (flag_v c) (pc c) (kst c).
Definition set_pc (c : cpu) (p : nat) : cpu := Cpu (reg c) (sp c) (mem c) (flag_n c) (flag_v c) p (kst c).

Definition next (c : cpu) : cpu := set_pc c (S (pc c)).
Definition jump (c : cpu) (off : Z) : cpu := set_pc c (Z.to_nat (Z.of_nat (pc c) + off / 4)).

(** The two words of code that a literal load at [pc] reads. *)
Definition literal (code : list Z) (c : cpu) (off : Z) : option Z :=
  let i := Z.to_nat (Z.of_nat (pc c) + off / 4) in
  lo ← code !! i; hi ← code !! S i; Some (lo + 2 ^ 32 * hi).

(** One instruction: the state after it, [inr] on return. *)
Definition exec (code : list Z) (i : insn) (c : cpu) : option (cpu + cpu) :=
  match i with
  | (MOVZ, [d; imm; sh]) => Some (inl (next (set_reg c d (Z.shiftl imm sh))))
  | (MOVN, [d; imm; sh]) => Some (inl (next (set_reg c d (2 ^ 64 - 1 - Z.shiftl imm sh))))
  | (ORR, [d; n; m]) => Some (inl (next (set_reg c d (Z.lor (rd c n) (rd c m)))))
  | (ADD, [d; n; m]) => Some (inl (next (set_reg c d (u64 (rd c n + rd c m)))))
  | (ADD_imm, [d; n; imm]) => Some (inl (next (set_base c d (u64 (base c n + imm)))))
  | (SUB_imm, [d; n; imm]) => Some (inl (next (set_base c d (u64 (base c n - imm)))))
  | (SUBS, [d; n; m]) =>
      let a := i64 (rd c n) in
      let b := i64 (rd c m) in
      let r := i64 (a - b) in
      let c := set_reg c d (u64 r) in
      Some (inl (next (Cpu (reg c) (sp c) (mem c) (r <? 0) (negb (r =? a - b)) (pc c) (kst c))))
  | (LDR_X, [t; n; off]) => Some (inl (next (set_reg c t (mem c (u64 (base c n + off))))))
  | (STR_X, [t; n; off]) => Some (inl (next (set_mem c (u64 (base c n + off)) (rd c t))))
  | (STP, [t; t2; n; off]) =>
      let a := base c n + off in
      Some (inl (next (set_mem (set_mem c (u64 a) (rd c t)) (u64 (a + 8)) (rd c t2))))
  | (LDP, [t; t2; n; off]) =>
      let a := base c n + off in
      Some (inl (next (set_reg (set_reg c t (mem c (u64 a))) t2 (mem c (u64 (a + 8))))))
  | (LDR_lit, [t; off]) => v ← literal code c off; Some (inl (next (set_reg c t v)))
  | (CBZ, [t; off]) => Some (inl (if rd c t =? 0 then jump c off else next c))
  | (CBNZ, [t; off]) => Some (inl (if rd c t =? 0 then next c else jump c off))
  | (Br, [off]) => Some (inl (jump c off))
  | (Bcond, [cond; off]) =>
      if cond =? condGE then Some (inl (if Bool.eqb (flag_n c) (flag_v c) then jump c off else next c)) else None
  | (SVC, [_]) =>
      let '(r, m, k) := kernel (reg c 8) [reg c 0; reg c 1; reg c 2; reg c 3] (mem c) (kst c) in
      Some (inl (next (Cpu (upd (reg c) 0 r) (sp c) m (flag_n c) (flag_v c) (pc c) k)))
  | (RET, [n]) => Some (inr c)
  | _ => None
  end.

Definition fetch (code : list Z) (p : nat) : option insn := code !! p ≫= decode.

(** Execution to the return. *)
Fixpoint run (fuel : nat) (code : list Z) (c : cpu) : option cpu :=
  match fuel with
  | O => None
  | S fuel =>
      i ← fetch code (pc c);
      r ← exec code i c;
      match r with
      | inl c => run fuel code c
      | inr c => Some c
      end
  end.

(** * The helpers' code *)

Definition helper_insns : list (option insn) := Eval vm_compute in decode <$> helper_words.

(** Code that holds the helpers. *)
Definition holds_helpers (code : list Z) : Prop := forall j, (4 <= j < 86)%nat -> code !! j = helper_words !! j.

Lemma fetch_helper code j : holds_helpers code -> (4 <= j < 86)%nat -> fetch code j = default None (helper_insns !! j).
Proof.
  intros Hc Hj. unfold fetch. rewrite Hc by done.
  assert (E : helper_insns = decode <$> helper_words) by (vm_compute; reflexivity). rewrite E, list_lookup_fmap.
  by destruct (helper_words !! j).
Qed.

Lemma run_step fuel code c i : fetch code (pc c) = Some i -> run (S fuel) code c =
  match exec code i c with Some (inl c) => run fuel code c | Some (inr c) => Some c | None => None end.
Proof. intros H. cbn [run]. rewrite H. cbn [mbind option_bind]. by destruct (exec code i c) as [[|]|]. Qed.

(** Read concrete registers of an updated register file. *)
Ltac reads :=
  repeat match goal with
  | |- context [upd ?f (Zpos ?k) ?v ?x] =>
      let b := eval vm_compute in (x =? Zpos k) in
      match b with
      | true => change (upd f (Zpos k) v x) with v
      | false => change (upd f (Zpos k) v x) with (f x)
      end
  | |- context [upd ?f 0 ?v ?x] =>
      let b := eval vm_compute in (x =? 0) in
      match b with
      | true => change (upd f 0 v x) with v
      | false => change (upd f 0 v x) with (f x)
      end
  end.

(** Tests between constants, which tell register 31 from the others. *)
Ltac tests :=
  repeat match goal with
  | |- context [Zpos ?a =? Zpos ?b] => let v := eval vm_compute in (Zpos a =? Zpos b) in change (Zpos a =? Zpos b) with v
  | |- context [0 =? Zpos ?b] => change (0 =? Zpos b) with false
  end.

(** Run one instruction of the helpers. *)
Ltac one H :=
  erewrite run_step by (cbn [pc]; rewrite fetch_helper by (first [exact H | lia]); reflexivity);
  match goal with
  | |- context [exec ?code ?i ?c] =>
      let r := eval cbv beta iota zeta delta [exec next jump set_reg set_base set_mem set_pc rd base reg sp mem flag_n flag_v pc kst
        Z.shiftl Pos.iter condGE] in (exec code i c) in
      change (exec code i c) with r
  end; tests; cbv beta iota; rewrite ?Z.lor_0_l; reads.

(** ** System calls *)

(** The functions that pass their arguments on, and the numbers of the calls. *)
Definition wrappers : list (string * Z) := [("read", 63); ("write", 64); ("close", 57); ("lseek", 62)].

(** Where a helper starts. *)
Definition entry (f : string) : option nat := Z.to_nat <$> labels helper_code !! f.

Lemma wrapper_entries : (fun '(f, n) => (entry f, n)) <$> wrappers =
  [(Some 42%nat, 63); (Some 45%nat, 64); (Some 56%nat, 57); (Some 59%nat, 62)].
Proof. vm_compute. reflexivity. Qed.

Lemma other_entries : entry "sbrk" = Some 7%nat /\ entry "open" = Some 48%nat /\ entry "setjmp" = Some 62%nat /\ entry "longjmp" = Some 72%nat.
Proof. repeat split; vm_compute; reflexivity. Qed.

Lemma wrapper_runs code c f n : holds_helpers code -> (f, n) ∈ wrappers -> entry f = Some (pc c) ->
  let '(r, m, k) := kernel n [reg c 0; reg c 1; reg c 2; reg c 3] (mem c) (kst c) in
  exists c', run 3 code c = Some c' /\ reg c' 0 = r /\ mem c' = m /\ kst c' = k /\ sp c' = sp c /\
    forall x, x <> 0 -> x <> 8 -> reg c' x = reg c x.
Proof.
  intros Hc Hin He. destruct c as [rg s m n0 v0 p k]. cbn [pc reg sp mem kst] in *.
  apply (list_elem_of_fmap_2 (fun '(f, n) => (entry f, n))) in Hin. rewrite wrapper_entries, He in Hin.
  rewrite !elem_of_cons, elem_of_nil in Hin. destruct Hin as [[= -> ->]|[[= -> ->]|[[= -> ->]|[[= -> ->]|[]]]]].
  all: destruct (kernel _ _ _ _) as [[r m'] k'] eqn:E; one Hc; one Hc; rewrite E; cbv beta iota; one Hc.
  all: eexists; split; [reflexivity|]; cbn [reg sp mem kst]; unfold upd; cbn [Z.eqb];
    split; [done|]; split; [done|]; split; [done|]; split; [done|]; intros x H0 H8;
    by rewrite (proj2 (Z.eqb_neq x 0)), (proj2 (Z.eqb_neq x 8)).
Qed.

(** [open] calls openat with AT_FDCWD, -100, before its three arguments. *)
Lemma open_runs code c : holds_helpers code -> pc c = 48%nat ->
  let '(r, m, k) := kernel 56 [2 ^ 64 - 100; reg c 0; reg c 1; reg c 2] (mem c) (kst c) in
  exists c', run 8 code c = Some c' /\ reg c' 0 = r /\ mem c' = m /\ kst c' = k /\ sp c' = sp c /\
    forall x, 9 <= x -> reg c' x = reg c x.
Proof.
  intros Hc Hp. destruct c as [rg s m n0 v0 p k]. cbn [pc reg sp mem kst] in *. subst p.
  destruct (kernel _ _ _ _) as [[r m'] k'] eqn:E. do 7 one Hc. change (u64 (0 - 100)) with (2 ^ 64 - 100). rewrite E. cbv beta iota. one Hc.
  eexists. split; [reflexivity|]. cbn [reg sp mem kst]. split; [done|]. split; [done|]. split; [done|]. split; [done|].
  intros x Hx. unfold upd. repeat (rewrite (proj2 (Z.eqb_neq x _)) by lia). done.
Qed.

(** ** sbrk *)

Lemma upd_eq f k v x : x = k -> upd f k v x = v.
Proof. intros ->. unfold upd. by rewrite Z.eqb_refl. Qed.

Lemma upd_ne f k v x : x <> k -> upd f k v x = f x.
Proof. intros H. unfold upd. by rewrite (proj2 (Z.eqb_neq x k)). Qed.

(** Addresses that do not wrap, and words of memory read back. *)
Ltac small := repeat match goal with |- context [wrapU 64 ?x] => rewrite (wrapU_small 64 x) by lia end.
Ltac memory := repeat match goal with
  | |- context [upd ?f ?k ?v ?x] => first [rewrite (upd_eq f k v x) by lia | rewrite (upd_ne f k v x) by lia]
  end.

Context (brk : Z -> K -> Z * K).

(** brk(2), by number 214: one argument, memory untouched. *)
Definition brk_call : Prop := forall n rest m k, kernel 214 (n :: rest) m k = ((brk n k).1, m, (brk n k).2).

(** What sbrk returns, leaves in the break pointer, and does to the kernel;
    [b0] is the break pointer before, [n] the increment. *)
Definition sbrk_spec (b0 n : Z) (k : K) : Z * Z * K :=
  let '(b, k) := if b0 =? 0 then brk 0 k else (b0, k) in
  if b =? 0 then (2 ^ 64 - 1, b0, k)
  else if n =? 0 then (b, b, k)
  else
    let '(a, k) := brk (u64 (b + n)) k in
    if i64 (u64 (b + n)) <=? i64 a then (b, a, k) else (2 ^ 64 - 1, b, k).

(** [c] runs to [c'] in at most [n] steps. *)
Definition reaches (n : nat) (code : list Z) (c c' : cpu) : Prop :=
  exists k, (k <= n)%nat /\ forall fuel, run (k + fuel) code c = run fuel code c'.

Lemma reaches_trans n1 n2 code c1 c2 c3 : reaches n1 code c1 c2 -> reaches n2 code c2 c3 -> reaches (n1 + n2) code c1 c3.
Proof.
  intros (k1 & H1 & E1) (k2 & H2 & E2). exists (k1 + k2)%nat. split; [lia|]. intros fuel. by rewrite <- Nat.add_assoc, E1.
Qed.

Lemma run_more fuel extra code c c' : run fuel code c = Some c' -> run (fuel + extra) code c = Some c'.
Proof.
  revert c. induction fuel as [|fuel IH]; intros c H; [done|]. cbn [run Nat.add] in *.
  destruct (fetch code (pc c)) as [i|]; [|done]. cbn [mbind option_bind] in *. destruct (exec code i c) as [[c1|c1]|]; [|done|done].
  by apply IH.
Qed.

(** The frame of sbrk: where the caller's registers are. *)
Definition frame (c0 c : cpu) : Prop := sp c = sp c0 - 48 /\
  mem c (sp c) = reg c0 29 /\ mem c (sp c + 8) = reg c0 30 /\ mem c (sp c + 16) = reg c0 19 /\ mem c (sp c + 24) = reg c0 20 /\
  mem c (sp c + 32) = reg c0 21 /\ mem c (sp c + 40) = reg c0 22.

Ltac fields := cbn [reg sp mem pc kst flag_n flag_v].

(** A literal's two words put together. *)
Lemma literal_value v : 0 <= v < 2 ^ 64 -> u32 v + 2 ^ 32 * u32 (Z.shiftr v 32) = v.
Proof.
  intros Hv. unfold u32, wrapU. rewrite Z.shiftr_div_pow2 by lia. rewrite (Z.mod_small (v / 2 ^ 32)).
  - rewrite (Z.div_mod v (2 ^ 32)) at 3 by lia. lia.
  - split; [apply Z.div_pos; lia|]. apply Z.div_lt_upper_bound; lia.
Qed.

(** Place a jump's target. *)
Ltac target := match goal with |- context [Z.to_nat ?e] => let v := eval vm_compute in (Z.to_nat e) in change (Z.to_nat e) with v end.

Lemma sbrk_prologue code c g : holds_helpers code -> pc c = 7%nat ->
  code !! 0%nat = Some (u32 g) -> code !! 1%nat = Some (u32 (Z.shiftr g 32)) -> 0 <= g < 2 ^ 64 -> 48 <= sp c < 2 ^ 64 ->
  g + 8 <= sp c - 48 \/ sp c <= g ->
  exists c1, reaches 9 code c c1 /\ pc c1 = 16%nat /\ frame c c1 /\ reg c1 19 = reg c 0 /\ reg c1 20 = g /\ reg c1 21 = mem c g /\
    kst c1 = kst c /\ (forall x, x + 8 <= sp c - 48 \/ sp c <= x -> mem c1 x = mem c x) /\
    forall x, 22 <= x < 29 -> reg c1 x = reg c x.
Proof.
  intros Hc Hp H0 H1 Hg Hs Hd. destruct c as [rg s m n0 v0 p k]. cbn [pc reg sp mem kst] in *. subst p.
  eexists. split.
  { exists 9%nat. split; [lia|]. intros fuel. cbn [Nat.add].
    one Hc. small. do 6 one Hc. unfold literal. cbn [pc]. target. rewrite H0, H1.
    cbn [mbind option_bind]. rewrite (literal_value g Hg). one Hc. one Hc. small. reflexivity. }
  unfold frame. fields. reads. rewrite !Z.add_0_r. small.
  repeat split; intros; memory; reflexivity.
Qed.

(** Memory with one word changed. *)
Definition stored (m m' : Z -> Z) (a v : Z) : Prop := forall x, m' x = upd m a v x.

Lemma stored_same m a v : m a = v -> stored m m a v.
Proof. intros <- x. unfold upd. destruct (Z.eqb_spec x a) as [->|]; done. Qed.

(** Where the body of sbrk leads: the epilogue, with the result. *)
Definition body_done (c c' : cpu) (g : Z) (o : Z * Z * K) : Prop :=
  pc c' = 37%nat /\ sp c' = sp c /\ reg c' 0 = o.1.1 /\ stored (mem c) (mem c') g o.1.2 /\ kst c' = o.2 /\
  forall x, 22 <= x -> reg c' x = reg c x.

(** Decide a conditional branch by a hypothesis. *)
Ltac branch E := rewrite E; cbv beta iota; try target.

(** The state reached is the current one. *)
Ltac arrive := eexists; split; [eexists; split; [|intros fuel; cbn [Nat.add]]|].

(** The condition GE after a comparison is the signed order. *)
Lemma flags_ge a b : - 2 ^ 63 <= a < 2 ^ 63 -> - 2 ^ 63 <= b < 2 ^ 63 ->
  Bool.eqb (i64 (a - b) <? 0) (negb (i64 (a - b) =? a - b)) = (b <=? a).
Proof.
  intros Ha Hb. pose proof (wrapS_range 64 (a - b) ltac:(lia)) as Hr. destruct (wrapS_offset 64 (a - b) ltac:(lia)) as [k Hk].
  destruct (Z.ltb_spec (i64 (a - b)) 0), (Z.eqb_spec (i64 (a - b)) (a - b)), (Z.leb_spec b a); cbn; try done; lia.
Qed.

Lemma body_after c c1 c2 g o : sp c1 = sp c -> mem c1 = mem c -> (forall x, 22 <= x -> reg c1 x = reg c x) ->
  body_done c1 c2 g o -> body_done c c2 g o.
Proof.
  intros H1 H2 H3 (P & S & R & M & Q & G). split; [done|]. split; [congruence|]. split; [done|].
  split; [by rewrite <- H2|]. split; [done|]. intros x Hx. rewrite G by done. by apply H3.
Qed.

(** Growing (or shrinking) the break from a known one: words 25 to 36. *)
Lemma sbrk_move code c g b : holds_helpers code -> brk_call -> pc c = 25%nat -> reg c 20 = g -> reg c 21 = b -> 0 <= g < 2 ^ 64 ->
  b <> 0 -> mem c g = b ->
  exists c', reaches 10 code c c' /\ body_done c c' g (sbrk_spec b (reg c 19) (kst c)).
Proof.
  intros Hc Hbrk Hp H20 H21 Hg Hb Hm. destruct c as [rg s m n0 v0 p k]. cbn [pc reg sp mem kst] in *. subst p.
  unfold sbrk_spec. rewrite (proj2 (Z.eqb_neq b 0) Hb). cbv beta iota. rewrite (proj2 (Z.eqb_neq b 0) Hb).
  destruct (rg 19 =? 0) eqn:E19.
  - eexists. split.
    { exists 2%nat. split; [lia|]. intros fuel. cbn [Nat.add]. one Hc. one Hc. branch E19. reflexivity. }
    repeat split; try exact H21; [by apply stored_same|]. intros x Hx. fields. memory. done.
  - set (t := u64 (b + rg 19)). destruct (brk t k) as [a k'] eqn:Eb.
    assert (Ge : Bool.eqb (i64 (i64 a - i64 t) <? 0) (negb (i64 (i64 a - i64 t) =? i64 a - i64 t)) = (i64 t <=? i64 a))
      by (apply flags_ge; apply (wrapS_range 64); lia).
    destruct (i64 t <=? i64 a) eqn:Ea.
    + eexists. split.
      { exists 10%nat. split; [lia|]. intros fuel. cbn [Nat.add]. one Hc. one Hc. branch E19. do 3 one Hc.
        rewrite H21, Hbrk. fold t. rewrite Eb. cbv beta iota. cbn [fst snd]. do 3 one Hc. rewrite H21. fold t. branch Ge.
        one Hc. one Hc. reflexivity. }
      repeat split; fields; [exact H21| |].
      * intros x. rewrite H20, Z.add_0_r, wrapU_small by lia. done.
      * intros x Hx. memory. done.
    + eexists. split.
      { exists 10%nat. split; [lia|]. intros fuel. cbn [Nat.add]. one Hc. one Hc. branch E19. do 3 one Hc.
        rewrite H21, Hbrk. fold t. rewrite Eb. cbv beta iota. cbn [fst snd]. do 3 one Hc. rewrite H21. fold t. branch Ge.
        one Hc. one Hc. target. reflexivity. }
      repeat split; fields; [by apply stored_same|]. intros x Hx. memory. done.
Qed.

(** The first call: the break is asked for before it is moved. *)
Lemma sbrk_spec_first n k : (brk 0 k).1 <> 0 -> sbrk_spec 0 n k = sbrk_spec (brk 0 k).1 n (brk 0 k).2.
Proof.
  intros H. unfold sbrk_spec. change (0 =? 0) with true. destruct (brk 0 k) as [b k']. cbn [fst snd] in *.
  cbv beta iota. by rewrite !(proj2 (Z.eqb_neq b 0) H).
Qed.

(** Words 16 to 36. *)
Lemma sbrk_body code c g : holds_helpers code -> brk_call -> pc c = 16%nat -> reg c 20 = g -> 0 <= g < 2 ^ 64 ->
  reg c 21 = mem c g -> exists c', reaches 18 code c c' /\ body_done c c' g (sbrk_spec (mem c g) (reg c 19) (kst c)).
Proof.
  intros Hc Hbrk Hp H20 Hg H21. destruct c as [rg s m n0 v0 p k]. cbn [pc reg sp mem kst] in *. subst p.
  destruct (rg 21 =? 0) eqn:E21.
  - assert (Hm : m g = 0) by (apply Z.eqb_eq in E21; congruence). rewrite Hm. destruct (brk 0 k) as [b k'] eqn:Eb.
    destruct (b =? 0) eqn:Ez.
    + eexists. split.
      { exists 7%nat. split; [lia|]. intros fuel. cbn [Nat.add]. one Hc. branch E21. do 3 one Hc. rewrite Hbrk, Eb. cbv beta iota. cbn [fst snd].
        one Hc. branch Ez. one Hc. one Hc. target. reflexivity. }
      unfold sbrk_spec. change (0 =? 0) with true. rewrite Eb, Ez. repeat split; fields; [by apply stored_same|]. intros x Hx. memory. done.
    + rewrite sbrk_spec_first by (rewrite Eb; by apply Z.eqb_neq). rewrite Eb. cbn [fst snd].
      set (rg1 := upd (upd (upd (upd rg 0 0) 8 214) 0 b) 21 b).
      set (c1 := Cpu rg1 s (upd m g b) n0 v0 25 k').
      destruct (sbrk_move code c1 g b Hc Hbrk) as (c2 & R2 & D2); try done; [by apply Z.eqb_neq|by apply upd_eq|].
      exists c2. split.
      * apply (reaches_trans 8 10 code _ c1); [|done]. exists 7%nat. split; [lia|]. intros fuel. cbn [Nat.add].
        one Hc. branch E21. do 3 one Hc. rewrite Hbrk, Eb. cbv beta iota. cbn [fst snd]. one Hc. branch Ez. one Hc. one Hc.
        rewrite H20, Z.add_0_r, wrapU_small by lia. reflexivity.
      * destruct D2 as (P & S & R & M & Q & G). split; [done|]. split; [done|]. split; [exact R|]. split; [|split; [exact Q|]].
        -- intros x. rewrite M. cbn [mem c1]. unfold upd. by destruct (x =? g).
        -- intros x Hx. rewrite G by done. cbn [reg c1]. unfold rg1. memory. done.
  - destruct (sbrk_move code (Cpu rg s m n0 v0 25 k) g (rg 21) Hc Hbrk) as (c2 & R2 & D2); try done; [by apply Z.eqb_neq|].
    exists c2. split; [|by rewrite <- H21].
    apply (reaches_trans 8 10 code _ (Cpu rg s m n0 v0 25 k)); [|done]. exists 1%nat. split; [lia|]. intros fuel. cbn [Nat.add].
    one Hc. branch E21. reflexivity.
Qed.

(** Words 37 to 41 give the caller its registers back. *)
Lemma sbrk_epilogue code c : holds_helpers code -> pc c = 37%nat -> 0 <= sp c -> sp c + 48 < 2 ^ 64 ->
  exists c', run 5 code c = Some c' /\ sp c' = sp c + 48 /\ mem c' = mem c /\ kst c' = kst c /\
    reg c' 29 = mem c (sp c) /\ reg c' 30 = mem c (sp c + 8) /\ reg c' 19 = mem c (sp c + 16) /\ reg c' 20 = mem c (sp c + 24) /\
    reg c' 21 = mem c (sp c + 32) /\ reg c' 22 = mem c (sp c + 40) /\ reg c' 0 = reg c 0 /\
    forall x, 23 <= x < 29 -> reg c' x = reg c x.
Proof.
  intros Hc Hp H0 H1. destruct c as [rg s m n0 v0 p k]. cbn [pc reg sp mem kst] in *. subst p.
  eexists. split; [do 5 one Hc; reflexivity|]. fields. reads. rewrite !Z.add_0_r. small.
  repeat split; try reflexivity; try (f_equal; lia). intros x Hx. memory. done.
Qed.

(** sbrk from its entry to its return. The stack and the break pointer's word
    do not overlap. *)
Lemma sbrk_runs code c g : holds_helpers code -> brk_call -> pc c = 7%nat ->
  code !! 0%nat = Some (u32 g) -> code !! 1%nat = Some (u32 (Z.shiftr g 32)) -> 0 <= g < 2 ^ 64 -> 48 <= sp c < 2 ^ 64 ->
  g + 8 <= sp c - 48 \/ sp c <= g ->
  let '(r, b, k) := sbrk_spec (mem c g) (reg c 0) (kst c) in
  exists c', run 32 code c = Some c' /\ reg c' 0 = r /\ mem c' g = b /\ kst c' = k /\ sp c' = sp c /\
    (forall x, 19 <= x <= 30 -> reg c' x = reg c x) /\
    forall x, x <> g -> x + 8 <= sp c - 48 \/ sp c <= x -> mem c' x = mem c x.
Proof.
  intros Hc Hbrk Hp H0 H1 Hg Hs Hd. destruct (sbrk_spec _ _ _) as [[r b] k] eqn:Es.
  destruct (sbrk_prologue code c g Hc Hp H0 H1 Hg Hs Hd) as (c1 & R1 & P1 & F1 & A19 & A20 & A21 & K1 & M1 & G1).
  destruct F1 as (S1 & F29 & F30 & F19 & F20 & F21 & F22).
  destruct (sbrk_body code c1 g Hc Hbrk P1 A20 Hg) as (c2 & R2 & P2 & S2 & V2 & M2 & K2 & G2); [by rewrite A21, M1|].
  rewrite M1, A19, K1, Es in V2, M2, K2 by done. cbn [fst snd] in *.
  destruct (sbrk_epilogue code c2 Hc P2) as (c3 & R3 & S3 & M3 & K3 & E29 & E30 & E19 & E20 & E21 & E22 & E0 & G3); [lia|lia|].
  destruct (reaches_trans _ _ _ _ _ _ R1 R2) as (j & Hj & Hrun).
  assert (Far : forall x, x <> g -> mem c2 x = mem c1 x) by (intros x Hx; rewrite M2; by apply upd_ne).
  exists c3. split; [|split; [|split; [|split; [|split; [|split]]]]].
  - replace 32%nat with (j + (5 + (27 - j)))%nat by lia. rewrite Hrun. by apply run_more.
  - congruence.
  - rewrite M3, M2. by apply upd_eq.
  - congruence.
  - lia.
  - intros x Hx. assert (x = 19 \/ x = 20 \/ x = 21 \/ x = 22 \/ x = 29 \/ x = 30 \/ 23 <= x < 29) as Hx' by lia.
    destruct Hx' as [->|[->|[->|[->|[->|[->|Hx']]]]]].
    1-6: rewrite ?E19, ?E20, ?E21, ?E22, ?E29, ?E30, S2, Far by lia; assumption.
    rewrite G3, G2, G1 by lia. done.
  - intros x Hx Ho. rewrite M3, Far by done. by apply M1.
Qed.

(** ** setjmp and longjmp *)

(** The state as the machine of the assembly source has it. *)
Definition source_state (c : cpu) : machine := Machine (reg c) (sp c) (mem c) None.

(** The two machines agree where a routine has returned. *)
Definition same_state (c : cpu) (m : machine) : Prop :=
  (forall r, reg c r = Setjmp.reg m r) /\ sp c = Setjmp.sp m /\ (forall a, mem c a = Setjmp.word m a) /\
  Setjmp.pc m = Some (reg c 30).

Lemma setjmp_runs code c : holds_helpers code -> pc c = 62%nat -> 0 <= reg c 0 -> reg c 0 + 104 <= 2 ^ 64 -> 0 <= sp c < 2 ^ 64 ->
  exists c', run 10 code c = Some c' /\ same_state c' (Setjmp.run setjmp 0 (source_state c)) /\ kst c' = kst c.
Proof.
  intros Hc Hp H0 H1 Hs. destruct c as [rg s m n0 v0 p k]. cbn [pc reg sp mem kst] in *. subst p.
  eexists. split; [do 10 one Hc; reflexivity|]. unfold same_state. fields. small. rewrite (Z.add_0_r s).
  repeat split; reflexivity.
Qed.

(** Evaluate a routine of the assembly source. *)
Ltac source :=
  cbv beta iota zeta delta [source_state Setjmp.run longjmp Setjmp.exec Setjmp.set_reg Setjmp.reg Setjmp.sp word Setjmp.pc reg sp mem].

Lemma longjmp_runs code c : holds_helpers code -> pc c = 72%nat -> 0 <= reg c 0 -> reg c 0 + 104 <= 2 ^ 64 ->
  0 <= mem c (reg c 0 + 96) < 2 ^ 64 ->
  exists c', run 14 code c = Some c' /\ same_state c' (Setjmp.run longjmp 0 (source_state c)) /\ kst c' = kst c.
Proof.
  intros Hc Hp H0 H1 Hs. destruct c as [rg s m n0 v0 p k]. cbn [pc reg sp mem kst] in *. subst p.
  destruct (rg 1 =? 0) eqn:E.
  all: eexists; split; [do 11 one Hc; branch E; repeat one Hc; reflexivity|].
  all: unfold same_state; fields; small; reads; rewrite (Z.add_0_r (m (rg 0 + 96))); source.
  all: repeat match goal with |- context [if upd ?f ?k ?v 2 =? 0 then _ else _] => change (upd f k v 2) with (rg 1) end.
  all: rewrite E; cbv beta iota; repeat split; reflexivity.
Qed.

End aarch64.
