(* ===== verification/RuntimeSpec.v ===== *)
(** What the linker's runtime promises a program: it is started, its break
    moves, its system calls reach the kernel and setjmp is the library's. *)
From stdpp Require Import gmap strings.
From S2P Require Import Prelude Setjmp Arm64Enc CodeBuilder Align Linker LinkSyms LinkLayout LinkReloc Runtime RuntimeExec.
#[local] Open Scope Z_scope.

(** Objects that link: laid out, the initialiser and main within reach of a
    branch, every relocation on words of the objects and none on another's. *)
Record linkable (objs : list objFile) (il : imageLayout) (i1 i2 : nat) : Prop := {
  linkable_layout : lay_out helperWords (labels helper_code) objs = Ok il;
  linkable_init : il_symVA il !! "__posix_stdio_init"%string = Some (word_va i1) /\ Z.of_nat i1 < 2 ^ 25;
  linkable_main : il_symVA il !! "main"%string = Some (word_va i2) /\ Z.of_nat i2 < 2 ^ 25;
  linkable_apart : NoDup (all_relas relas objs (il_places il) ≫= fun '(k, o, p, r) => text_touched p r);
  linkable_inside : Forall (fun '(k, o, p, r) => Forall (fun j => (86 <= j < length (merged_code (instrs helper_code) objs))%nat) (text_touched p r))
    (all_relas relas objs (il_places il))
}.

#[local] Opaque helper_code.

Lemma start_fixups : Fixup 2 "__posix_stdio_init" fixBL ∈ fixups helper_code /\ Fixup 3 "main" fixBL ∈ fixups helper_code.
Proof. destruct helper_fixups as (rest & -> & _). split; [left|right; left]. Qed.

(** A call of the start code leads to its target. *)
Lemma start_call lbls ms ws p q n i : q = Z.of_nat p -> Fixup p n fixBL ∈ fixups helper_code -> lbls !! n = Some i ->
  Forall (resolved lbls ms ws) (fixups helper_code) -> fetch ws p = Some (BL, [4 * (i - q)]).
Proof.
  intros -> Hin Hl H. destruct (proj1 (list.Forall_forall _ _) H _ Hin) as (t & w & w' & f & Ht & _ & Hp & Hw' & Hd).
  cbn [label at_ kind] in *. rewrite Hl in Ht. injection Ht as <-. unfold fetch. rewrite Hw'. cbn [mbind option_bind]. rewrite Hd.
  inversion Hp. by subst f.
Qed.

(** Where the start code calls the initialiser and main. *)
Definition starts (ws : list Z) (i1 i2 : nat) : Prop :=
  fetch ws 2 = Some (BL, [4 * (Z.of_nat i1 - 2)]) /\ fetch ws 3 = Some (BL, [4 * (Z.of_nat i2 - 3)]).

Lemma start_calls il ms ws i1 i2 : il_symVA il !! "__posix_stdio_init"%string = Some (word_va i1) ->
  il_symVA il !! "main"%string = Some (word_va i2) -> Z.of_nat i1 < 2 ^ 25 -> Z.of_nat i2 < 2 ^ 25 ->
  Forall (resolved (start_labels il (labels helper_code)) ms ws) (fixups helper_code) -> starts ws i1 i2.
Proof.
  intros H1 H2 R1 R2 Hr. destruct start_fixups as [F1 F2]. split.
  - apply (start_call _ _ _ 2%nat 2 _ _ eq_refl F1 (start_labels_init il _ i1 H1 ltac:(lia)) Hr).
  - apply (start_call _ _ _ 3%nat 3 _ _ eq_refl F2 (start_labels_main il _ i2 H2 ltac:(lia)) Hr).
Qed.

Lemma bind_ok {A B} (x : res A) (f : A -> res B) a b : x = Ok a -> f a = Ok b -> (x ≫= f) = Ok b.
Proof. by intros ->. Qed.

Lemma link_program_code objs il ws : lay_out helperWords (labels helper_code) objs = Ok il ->
  link_code helper_code objs il = Ok ws -> link_program objs = Ok (il, ws).
Proof. intros H1 H2. exact (bind_ok _ _ _ _ H1 (bind_ok _ (fun ws => Ok (il, ws)) _ _ H2 eq_refl)). Qed.

Lemma linked_program objs il i1 i2 : linkable objs il i1 i2 -> exists ws, link_program objs = Ok (il, ws) /\
  helper_entry ws (il_sbrk il) /\ holds_helpers ws /\ starts ws i1 i2 /\
  (forall j, (86 <= j)%nat -> j ∉ (all_relas relas objs (il_places il) ≫= fun '(k, o, p, r) => text_touched p r) ->
     ws !! j = merged_code (instrs helper_code) objs !! j) /\
  forall k o p r, (k, o, p, r) ∈ all_relas relas objs (il_places il) ->
    text_relocated il k o p r (merged_code (instrs helper_code) objs) ws.
Proof.
  intros [Hl [H1 R1] [H2 R2] Hn Hb]. destruct (link_code_spec objs il i1 i2 H1 H2 R1 R2 Hn Hb) as (ws & E & _ & He & Hh & Hr & Hu & Ht).
  exists ws. split; [by apply link_program_code|]. split; [exact He|]. split; [exact Hh|].
  split; [exact (start_calls il _ ws i1 i2 H1 H2 R1 R2 Hr)|]. split; [|exact Ht].
  intros j Hj Hnt. apply Hu; [lia| |done]. intros Hin. apply list_elem_of_fmap in Hin as (fx & -> & Hfx).
  pose proof (fixup_inside fx Hfx). lia.
Qed.

Lemma linked_holds objs il i1 i2 ws : linkable objs il i1 i2 -> link_program objs = Ok (il, ws) ->
  holds_helpers ws /\ helper_entry ws (il_sbrk il).
Proof.
  intros Hl H. destruct (linked_program objs il i1 i2 Hl) as (ws' & E & He & Hh & _). rewrite E in H.
  apply Ok_inj in H. injection H as ->. done.
Qed.

Lemma linked_length objs il i1 i2 ws : linkable objs il i1 i2 -> link_program objs = Ok (il, ws) ->
  length ws = length (merged_code (instrs helper_code) objs).
Proof.
  intros [Hl [H1 R1] [H2 R2] Hn Hb] H. destruct (link_code_spec objs il i1 i2 H1 H2 R1 R2 Hn Hb) as (ws' & E & Hlen & _).
  rewrite (link_program_code objs il ws' Hl E) in H. apply Ok_inj in H. injection H as <-. exact Hlen.
Qed.

Lemma sbrk_word_range hw lbls objs il : lay_out hw lbls objs = Ok il -> 0 <= il_sbrk il < 2 ^ 64.
Proof.
  intros H. unfold lay_out in H. destruct (place _ objs) as [ps t]. destruct (scan_symbols objs) as [st|]; [|done]. cbn [mbind res_bind] in H.
  destruct (alloc_commons _ _) as [coff bss]. destruct (_ !! "main"%string); [|done]. apply Ok_inj in H as <-. cbn [il_sbrk].
  by apply wrapU_range.
Qed.

(** * The break *)

(** brk(2) as documented: the break [cur] is moved to the address asked for
    or stays, and the call returns it. *)
Definition brk_documented {K} (brk : Z -> K -> Z * K) (cur : K -> Z) : Prop :=
  forall a k, 0 < cur k -> (brk a k).1 = cur (brk a k).2 /\ (cur (brk a k).2 = a \/ cur (brk a k).2 = cur k) /\ 0 < cur (brk a k).2.

Lemma sbrk_moves {K} (brk : Z -> K -> Z * K) (cur : K -> Z) b0 n k : brk_documented brk cur -> 0 < cur k ->
  b0 = 0 \/ b0 = cur k -> 0 <= n -> cur k + n < 2 ^ 63 ->
  let '(r, b, k') := sbrk_spec brk b0 n k in
  b = cur k' /\ (r = cur k /\ cur k' = cur k + n \/ r = 2 ^ 64 - 1 /\ cur k' = cur k).
Proof.
  intros Hd Hc Hb0 Hn Hr.
  assert (Move : forall b k, b = cur k -> 0 < b -> b + n < 2 ^ 63 -> let '(r, b', k') := sbrk_spec brk b n k in
    b' = cur k' /\ (r = b /\ cur k' = b + n \/ r = 2 ^ 64 - 1 /\ cur k' = b)).
  { clear Hc Hb0 Hr. intros b k' -> Hc Hr. unfold sbrk_spec. rewrite (proj2 (Z.eqb_neq (cur k') 0)) by lia. cbv beta iota.
    rewrite (proj2 (Z.eqb_neq (cur k') 0)) by lia. destruct (Z.eqb_spec n 0) as [->|Hn0]; [split; [done|left; lia]|].
    pose proof (Hd (u64 (cur k' + n)) k' Hc) as Hk. rewrite wrapU_small in * by lia. destruct (brk _ k') as [a k2]. cbn [fst snd] in Hk.
    destruct Hk as (-> & Ht & H2). rewrite !i64_small by lia. destruct (Z.leb_spec (cur k' + n) (cur k2)); split; try done; lia. }
  destruct Hb0 as [->| ->].
  - pose proof (Hd 0 k Hc) as Hk. destruct (brk 0 k) as [b k1] eqn:Eb. cbn [fst snd] in Hk. destruct Hk as (-> & Ht & H2).
    assert (E : cur k1 = cur k) by lia. rewrite sbrk_spec_first by (rewrite Eb; cbn [fst]; lia). rewrite Eb. cbn [fst snd].
    specialize (Move (cur k1) k1 eq_refl H2). rewrite E in Move. specialize (Move Hr). by rewrite E.
  - by apply Move.
Qed.

(** * What the runtime promises *)

(** C19: start-up.  Objects that fit together link, and the code begins with
    calls of the initialiser and of main followed by exit(0); the pool entry
    holds the address of the break pointer, the helpers' words are the same in
    every program, all other words are the objects' own but for relocations,
    and those are applied. *)
Theorem program_starts (objs : list objFile) (il : imageLayout) (i1 i2 : nat) :
  linkable objs il i1 i2 ->
  let ms := merged_code (instrs helper_code) objs in
  let rs := all_relas relas objs (il_places il) in
  exists ws, link_program objs = Ok (il, ws) /\
    fetch ws 2 = Some (BL, [4 * (Z.of_nat i1 - 2)]) /\ fetch ws 3 = Some (BL, [4 * (Z.of_nat i2 - 3)]) /\
    fetch ws 4 = Some (MOVZ, [0; 0; 0]) /\ fetch ws 5 = Some (MOVZ, [8; 94; 0]) /\ fetch ws 6 = Some (SVC, [0]) /\
    helper_entry ws (il_sbrk il) /\ holds_helpers ws /\
    (forall j, (86 <= j)%nat -> j ∉ (rs ≫= fun '(k, o, p, r) => text_touched p r) -> ws !! j = ms !! j) /\
    forall k o p r, (k, o, p, r) ∈ rs -> text_relocated il k o p r ms ws.
Proof.
  intros Hl ms rs. destruct (linked_program objs il i1 i2 Hl) as (ws & E & He & Hh & [S1 S2] & Hu & Ht).
  exists ws. split; [exact E|]. split; [exact S1|]. split; [exact S2|].
  do 3 (split; [rewrite fetch_helper by (assumption || lia); reflexivity|]). done.
Qed.

(** C18: the break.  In a linked program on a kernel whose brk is the
    documented one, sbrk of a non-negative increment either returns the old
    break and moves it by the increment or returns -1 and leaves it; the word
    that caches the break agrees with the kernel's afterwards, the callee-saved
    registers and the stack are as before and no other memory is written. *)
Theorem sbrk_contract {K} (kernel : Z -> list Z -> (Z -> Z) -> K -> Z * (Z -> Z) * K) (brk : Z -> K -> Z * K) (cur : K -> Z)
    (objs : list objFile) (il : imageLayout) (i1 i2 : nat) (ws : list Z) (c : cpu) :
  linkable objs il i1 i2 -> link_program objs = Ok (il, ws) -> brk_call kernel brk -> brk_documented brk cur ->
  entry "sbrk" = Some (pc c) -> 48 <= sp c < 2 ^ 64 -> il_sbrk il + 8 <= sp c - 48 \/ sp c <= il_sbrk il ->
  0 < cur (kst c) -> mem c (il_sbrk il) = 0 \/ mem c (il_sbrk il) = cur (kst c) ->
  0 <= reg c 0 -> cur (kst c) + reg c 0 < 2 ^ 63 ->
  exists c', run kernel 32 ws c = Some c' /\ mem c' (il_sbrk il) = cur (kst c') /\
    (reg c' 0 = cur (kst c) /\ cur (kst c') = cur (kst c) + reg c 0 \/ reg c' 0 = 2 ^ 64 - 1 /\ cur (kst c') = cur (kst c)) /\
    sp c' = sp c /\ (forall x, 19 <= x <= 30 -> reg c' x = reg c x) /\
    forall x, x <> il_sbrk il -> x + 8 <= sp c - 48 \/ sp c <= x -> mem c' x = mem c x.
Proof.
  intros Hl Hp Hk Hd He Hs Hfar Hc Hm Hn Hr. destruct (linked_holds _ _ _ _ _ Hl Hp) as [Hh [H0 H1]].
  pose proof (sbrk_word_range _ _ _ _ (linkable_layout _ _ _ _ Hl)) as Hg.
  assert (Hpc : pc c = 7%nat) by (pose proof other_entries as (HE & _); congruence).
  pose proof (sbrk_runs kernel brk ws c (il_sbrk il) Hh Hk Hpc H0 H1 Hg Hs Hfar) as Hrun.
  pose proof (sbrk_moves brk cur _ _ _ Hd Hc Hm Hn Hr) as Hmove. destruct (sbrk_spec _ _ _ _) as [[r b] k'].
  destruct Hrun as (c' & E & Hr0 & Hb & Hk' & Hsp & Hregs & Hmem). destruct Hmove as [-> Hv].
  exists c'. split; [exact E|]. rewrite Hr0, Hb, Hk'. done.
Qed.

(** C26: system calls.  read, write, close and lseek hand their arguments to the
    kernel's call of that name and return its result; open is openat from the
    working directory. *)
Theorem system_calls {K} (kernel : Z -> list Z -> (Z -> Z) -> K -> Z * (Z -> Z) * K)
    (objs : list objFile) (il : imageLayout) (i1 i2 : nat) (ws : list Z) (c : cpu) (f : string) (n : Z) (args : list Z) :
  linkable objs il i1 i2 -> link_program objs = Ok (il, ws) -> entry f = Some (pc c) ->
  (f, n) ∈ wrappers /\ args = [reg c 0; reg c 1; reg c 2; reg c 3] \/
  f = "open"%string /\ n = 56 /\ args = [2 ^ 64 - 100; reg c 0; reg c 1; reg c 2] ->
  let '(r, m, k) := kernel n args (mem c) (kst c) in
  exists c', run kernel 8 ws c = Some c' /\ reg c' 0 = r /\ mem c' = m /\ kst c' = k /\ sp c' = sp c /\
    forall x, 9 <= x -> reg c' x = reg c x.
Proof.
  intros Hl Hp He Hcase. destruct (linked_holds _ _ _ _ _ Hl Hp) as [Hh _]. destruct Hcase as [[Hin ->]|(-> & -> & ->)].
  - pose proof (wrapper_runs kernel ws c f n Hh Hin He) as H. destruct (kernel _ _ _ _) as [[r m] k].
    destruct H as (c' & E & Hr & Hm & Hk & Hs & Hx). exists c'. split; [exact (run_more kernel 3 5 ws c c' E)|].
    split; [done|]. split; [done|]. split; [done|]. split; [done|]. intros x H9. apply Hx; lia.
  - apply open_runs; [done|]. pose proof other_entries as (_ & HE & _). congruence.
Qed.

(** C25: setjmp and longjmp.  The code that the linker emits behaves as the
    assembly source of the library, from the same state to the same state. *)
Theorem runtime_setjmp_is_source {K} (kernel : Z -> list Z -> (Z -> Z) -> K -> Z * (Z -> Z) * K)
    (objs : list objFile) (il : imageLayout) (i1 i2 : nat) (ws : list Z) (c : cpu) :
  linkable objs il i1 i2 -> link_program objs = Ok (il, ws) -> 0 <= reg c 0 -> reg c 0 + 104 <= 2 ^ 64 ->
  (entry "setjmp" = Some (pc c) -> 0 <= sp c < 2 ^ 64 ->
   exists c', run kernel 10 ws c = Some c' /\ same_state c' (Setjmp.run setjmp 0 (source_state c)) /\ kst c' = kst c) /\
  (entry "longjmp" = Some (pc c) -> 0 <= mem c (reg c 0 + 96) < 2 ^ 64 ->
   exists c', run kernel 14 ws c = Some c' /\ same_state c' (Setjmp.run longjmp 0 (source_state c)) /\ kst c' = kst c).
Proof.
  intros Hl Hp H0 H1. destruct (linked_holds _ _ _ _ _ Hl Hp) as [Hh _]. pose proof other_entries as (_ & _ & E1 & E2).
  split; intros He Hs; [apply setjmp_runs|apply longjmp_runs]; congruence || done.
Qed.

(** * Concrete inputs *)

(** main calls an external function and returns, the initialiser returns; a
    string, and a pointer into main. *)
Definition app_o : objFile :=
  ObjFile "app.o" (le_bytes 4 0x94000000 ++ le_bytes 4 0xD65F03C0 ++ le_bytes 4 0xD65F03C0) [72; 105; 0] (replicate 8 0) 4
    [LnkSym "" 0 0 "" STB_LOCAL 0; LnkSym "main" 0 8 ".text" STB_GLOBAL 0; LnkSym "__posix_stdio_init" 8 4 ".text" STB_GLOBAL 0;
     LnkSym "f" 0 0 "" STB_GLOBAL 0]
    [LnkRela 0 3 rAArch64Call26 0] [LnkRela 0 1 rAArch64Abs64 4] false.

Definition fun_o : objFile :=
  ObjFile "f.o" (le_bytes 4 0xD65F03C0) [] [] 0 [LnkSym "" 0 0 "" STB_LOCAL 0; LnkSym "f" 0 4 ".text" STB_GLOBAL 0] [] [] false.

Definition app : list objFile := [app_o; fun_o].

Definition app_image : imageLayout * list Z :=
  match link_program app with Ok p => p | Err _ => (ImageLayout [] (Extent 0 0 0 0) (Bases 0 0 0) (SymScan ∅ ∅ ∅) ∅ 0 ∅, []) end.

Lemma app_linked : link_program app = Ok (app_image.1, app_image.2).
Proof. vm_compute. reflexivity. Qed.

Lemma app_linkable : linkable app app_image.1 88 86.
Proof.
  split; [vm_compute; reflexivity|split; [vm_compute; reflexivity|done]|split; [vm_compute; reflexivity|done]| |].
  - apply (bool_decide_eq_true_1 (NoDup _)). vm_compute. reflexivity.
  - apply (bool_decide_eq_true_1 (Forall _ _)). vm_compute. reflexivity.
Qed.

(** A kernel with a heap of 64 KiB whose other calls return their second
    argument; its state is the break. *)
Definition heap_start : Z := 0x10000000.
Definition small_brk (a k : Z) : Z * Z := if (heap_start <=? a) && (a <=? heap_start + 65536) then (a, a) else (k, k).
Definition small_kernel (n : Z) (args : list Z) (m : Z -> Z) (k : Z) : Z * (Z -> Z) * Z :=
  match args with
  | a :: rest => if n =? 214 then let '(r, k) := small_brk a k in (r, m, k) else (default 0 (rest !! 0%nat), m, k)
  | [] => (0, m, k)
  end.

Lemma small_brk_documented : brk_documented small_brk id.
Proof.
  intros a k Hk. unfold small_brk, heap_start. destruct (Z.leb_spec 0x10000000 a), (Z.leb_spec a (0x10000000 + 65536));
    cbn [andb fst snd id]; repeat split; unfold id in *; try lia; try done.
Qed.

Lemma small_brk_call : brk_call small_kernel small_brk.
Proof. intros n rest m k. unfold small_kernel. cbn [Z.eqb Pos.eqb]. by destruct (small_brk n k). Qed.

Definition at_entry (p : nat) : cpu (K := Z) := Cpu (fun r => if r =? 0 then 4096 else r) (2 ^ 40) (fun _ => 0) false false p heap_start.

Lemma program_starts_witness : exists ws, link_program app = Ok (app_image.1, ws) /\ fetch ws 2 = Some (BL, [344]) /\ fetch ws 3 = Some (BL, [332]).
Proof.
  destruct (program_starts app app_image.1 88 86 app_linkable) as (ws & E & H1 & H2 & _). exists ws. split; [exact E|].
  split; [exact H1|exact H2].
Defined.

Lemma sbrk_contract_witness : exists c', run small_kernel 32 app_image.2 (at_entry 7) = Some c' /\ mem c' (il_sbrk app_image.1) = kst c' /\ sp c' = 2 ^ 40.
Proof.
  destruct (sbrk_contract small_kernel small_brk id app app_image.1 88 86 app_image.2 (at_entry 7)) as (c' & E & Hm & _ & Hs & _).
  - apply app_linkable.
  - apply app_linked.
  - apply small_brk_call.
  - apply small_brk_documented.
  - vm_compute. reflexivity.
  - cbn. lia.
  - left. vm_compute. discriminate.
  - vm_compute. reflexivity.
  - left. reflexivity.
  - vm_compute. discriminate.
  - vm_compute. reflexivity.
  - exists c'. split; [exact E|]. split; [exact Hm|exact Hs].
Defined.

Lemma system_calls_witness : exists c', run small_kernel 8 app_image.2 (at_entry 48) = Some c' /\ reg c' 0 = 4096.
Proof.
  destruct (system_calls small_kernel app app_image.1 88 86 app_image.2 (at_entry 48) "open" 56 [2 ^ 64 - 100; 4096; 1; 2])
    as (c' & E & Hr & _).
  - apply app_linkable.
  - apply app_linked.
  - vm_compute. reflexivity.
  - right. split; [reflexivity|]. split; reflexivity.
  - exists c'. split; [exact E|exact Hr].
Defined.

Lemma runtime_setjmp_is_source_witness :
  exists c', run small_kernel 10 app_image.2 (at_entry 62) = Some c' /\ same_state c' (Setjmp.run setjmp 0 (source_state (at_entry 62))).
Proof.
  destruct (runtime_setjmp_is_source small_kernel app app_image.1 88 86 app_image.2 (at_entry 62)) as [H _].
  - apply app_linkable.
  - apply app_linked.
  - vm_compute. discriminate.
  - vm_compute. discriminate.
  - destruct H as (c' & E & Hs & _); [vm_compute; reflexivity|cbn; lia|]. exists c'. split; [exact E|exact Hs].
Defined.

(** * Corner cases *)

(** The kernel refuses to shrink the break below its heap and returns the old
    break, which is not below the one asked for: sbrk reports success. *)
Lemma shrink_failure_is_success :
  small_brk (u64 (heap_start + u64 (- 16))) heap_start = (heap_start, heap_start) /\
  sbrk_spec small_brk heap_start (u64 (- 16)) heap_start = (heap_start, heap_start, heap_start) /\
  sbrk_spec small_brk heap_start 131072 heap_start = (2 ^ 64 - 1, heap_start, heap_start).
Proof. split; [|split]; vm_compute; reflexivity. Qed.
