(* ===== verification/Elf.v ===== *)
(** The executable that the linker writes (linker.go): the ELF header, the
    program headers and the contents, and what a loader makes of a file. *)
From stdpp Require Import gmap strings.
From S2P Require Import Prelude Align CodeBuilder Linker LinkSyms LinkLayout LinkReloc Runtime.
#[local] Open Scope Z_scope.

(** * Structures in little-endian bytes *)

(** binary.Write of the fields of a struct: sizes and values in order. *)
Definition write_fields (fs : list (nat * Z)) : list Z := concat ((fun f => le_bytes f.1 f.2) <$> fs).

Definition le_val (l : list Z) : Z := foldr (fun b acc => b + 256 * acc) 0 l.

(** Fields of the given sizes, from the start of the bytes. *)
Fixpoint read_fields (sizes : list nat) (l : list Z) : list Z :=
  match sizes with
  | [] => []
  | n :: sizes => le_val (take n l) :: read_fields sizes (drop n l)
  end.

Definition in_width (f : nat * Z) : Prop := 0 <= f.2 < 256 ^ Z.of_nat f.1.

Lemma le_val_bytes n v : 0 <= v < 256 ^ Z.of_nat n -> le_val (le_bytes n v) = v.
Proof.
  revert v. induction n as [|n IH]; intros v Hv; [cbn in *; lia|]. rewrite Nat2Z.inj_succ, Z.pow_succ_r in Hv by lia.
  cbn [le_bytes]. change (v mod 256 + 256 * le_val (le_bytes n (v / 256)) = v). rewrite IH.
  - pose proof (Z.div_mod v 256 ltac:(lia)). lia.
  - split; [apply Z.div_pos; lia|]. apply Z.div_lt_upper_bound; lia.
Qed.

Lemma read_write fs rest : Forall in_width fs -> read_fields (fs.*1) (write_fields fs ++ rest) = fs.*2.
Proof.
  induction fs as [|[n v] fs IH]; intros H; [done|]. apply Forall_cons_1 in H as [H1 H2]. unfold write_fields.
  cbn [fmap list_fmap concat read_fields fst snd]. rewrite <- app_assoc. rewrite take_app_length', drop_app_length' by (by rewrite length_le_bytes).
  rewrite le_val_bytes by exact H1. f_equal. by apply IH.
Qed.

Lemma length_write_fields fs : length (write_fields fs) = sum_list (fs.*1).
Proof.
  unfold write_fields. induction fs as [|[n v] fs IH]; [done|]. cbn [fmap list_fmap concat fst snd sum_list].
  rewrite length_app, length_le_bytes. cbn in IH. by rewrite IH.
Qed.

(** * The headers (debug/elf) *)

Definition PT_LOAD : Z := 1.
Definition PF_X : Z := 1.
Definition PF_W : Z := 2.
Definition PF_R : Z := 4.
Definition ET_EXEC : Z := 2.
Definition EM_AARCH64 : Z := 183.

Record Prog64 := Prog { p_type : Z; p_flags : Z; p_off : Z; p_vaddr : Z; p_paddr : Z; p_filesz : Z; p_memsz : Z; p_align : Z }.

Definition prog_sizes : list nat := [4; 4; 8; 8; 8; 8; 8; 8]%nat.
Definition prog_fields (p : Prog64) : list Z := [p_type p; p_flags p; p_off p; p_vaddr p; p_paddr p; p_filesz p; p_memsz p; p_align p].

(** Magic, class 64, little endian, version, ABI and padding; then type,
    machine, version, entry, phoff, shoff, flags, the sizes and counts. *)
Definition header_sizes : list nat := (replicate 16 1 ++ [2; 2; 4; 8; 8; 8; 4; 2; 2; 2; 2; 2; 2])%nat.
Definition ident : list Z := [0x7F; 69; 76; 70; 2; 1; 1; 0] ++ replicate 8 0.
Definition header_fields (entry : Z) : list Z := ident ++ [ET_EXEC; EM_AARCH64; 1; entry; 64; 0; 0; 64; 56; 4; 0; 0; 0].

(** * The file *)

(** The four segments: code with the headers before it, read-only data, data,
    and zeroed memory. *)
Definition code_size (words : Z) : Z := u64 (words * 4).
Definition codeEnd (words : Z) : Z := u64 (lnkHdrEnd + code_size words).
Definition rodataFileOff (words : Z) : Z := nextPage (codeEnd words).
Definition rodataEnd (words ro : Z) : Z := u64 (rodataFileOff words + ro).
Definition dataFileOff (words ro : Z) : Z := nextPage (rodataEnd words ro).

Definition load_segment (flags off vaddr filesz memsz : Z) : Prog64 := Prog PT_LOAD flags off vaddr vaddr filesz memsz pageSize.

Definition programs (words : Z) (b : bases) (t : extent) : list Prog64 := [
  load_segment (Z.lor PF_R PF_X) 0 linkerLoadBase (codeEnd words) (codeEnd words);
  load_segment PF_R (rodataFileOff words) (rodataBase b) (totalRodata t) (totalRodata t);
  load_segment (Z.lor PF_R PF_W) (dataFileOff words (totalRodata t)) (dataBase b) (totalData t) (totalData t);
  load_segment (Z.lor PF_R PF_W) 0 (bssBase b) 0 (totalBss t)].

Definition zeros (n : Z) : list Z := replicate (Z.to_nat n) 0.

Definition write_exec (entry : Z) (b : bases) (t : extent) (ws ro da : list Z) : list Z :=
  let words := Z.of_nat (length ws) in
  write_fields (zip header_sizes (header_fields entry)) ++
  concat ((fun p => write_fields (zip prog_sizes (prog_fields p))) <$> programs words b t) ++
  concat (le_bytes 4 <$> ws) ++
  zeros (u64 (rodataFileOff words - codeEnd words)) ++ ro ++
  zeros (u64 (dataFileOff words (totalRodata t) - rodataEnd words (totalRodata t))) ++ da.

Definition entryVA (lbls : gmap string Z) : Z :=
  match lbls !! "_start"%string with Some i => u64 (lnkCodeBase + u64 (u64 i * 4)) | None => 0 end.

(** [linkWithObjs] from the loaded objects to the bytes of the executable. *)
Definition link_image (objs : list objFile) : res (list Z) :=
  '(il, ws) ← link_program objs;
  ro ← assemble (totalRodata (il_extent il)) (zip (rodataOff <$> il_places il) (rodataData <$> objs));
  da ← assemble (totalData (il_extent il)) (zip (dataOff <$> il_places il) (dataData <$> objs));
  da ← relocate_data il objs da;
  Ok (write_exec (entryVA (start_labels il (labels helper_code))) (il_bases il) (il_extent il) ws ro da).

(** * Loading *)

(** A file as the kernel reads it: the header checked, the entry point and
    the loadable segments. *)
Definition read_prog (file : list Z) (off : Z) : option Prog64 :=
  match read_fields prog_sizes (drop (Z.to_nat off) file) with
  | [ty; fl; o; va; pa; fs; ms; al] => Some (Prog ty fl o va pa fs ms al)
  | _ => None
  end.

Definition load_elf (file : list Z) : option (Z * list Prog64) :=
  match read_fields header_sizes file with
  | m0 :: m1 :: m2 :: m3 :: class :: data :: version :: _ :: _ :: _ :: _ :: _ :: _ :: _ :: _ :: _ ::
    [type; machine; _; entry; phoff; _; _; _; phentsize; phnum; _; _; _] =>
      if bool_decide ([m0; m1; m2; m3; class; data; version] = [0x7F; 69; 76; 70; 2; 1; 1]) &&
         (type =? ET_EXEC) && (machine =? EM_AARCH64) && (phentsize =? 56) then
        ps ← mapM (fun i => read_prog file (phoff + 56 * Z.of_nat i)) (seq 0 (Z.to_nat phnum));
        Some (entry, filter (fun p => p_type p = PT_LOAD) ps)
      else None
  | _ => None
  end.

Definition covers (p : Prog64) (a : Z) : bool := (p_vaddr p <=? a) && (a <? p_vaddr p + p_memsz p).

(** The byte at an address after loading: from the file, or zero beyond what
    the file gives the segment; [None] where nothing is mapped. *)
Definition mapped (file : list Z) (ps : list Prog64) (a : Z) : option Z :=
  match find (fun p => covers p a) ps with
  | Some p => if a <? p_vaddr p + p_filesz p then file !! Z.to_nat (p_off p + (a - p_vaddr p)) else Some 0
  | None => None
  end.

(** * Reading the headers back *)

Lemma read_record sizes vals rest : length sizes = length vals -> Forall in_width (zip sizes vals) ->
  read_fields sizes (write_fields (zip sizes vals) ++ rest) = vals.
Proof.
  intros Hl Hw. pose proof (read_write (zip sizes vals) rest Hw) as H. rewrite fst_zip, snd_zip in H by lia. done.
Qed.

Lemma length_record sizes vals : length sizes = length vals -> length (write_fields (zip sizes vals)) = sum_list sizes.
Proof. intros Hl. by rewrite length_write_fields, fst_zip by lia. Qed.

Definition prog_ok (p : Prog64) : Prop := Forall in_width (zip prog_sizes (prog_fields p)).

Lemma load_segment_ok flags off vaddr filesz memsz : 0 <= flags < 8 -> 0 <= off < 2 ^ 64 -> 0 <= vaddr < 2 ^ 64 ->
  0 <= filesz < 2 ^ 64 -> 0 <= memsz < 2 ^ 64 -> prog_ok (load_segment flags off vaddr filesz memsz).
Proof.
  intros. unfold prog_ok, load_segment, prog_fields, prog_sizes, PT_LOAD, pageSize.
  cbn [p_type p_flags p_off p_vaddr p_paddr p_filesz p_memsz p_align zip zip_with].
  repeat (apply list.Forall_cons; split; [split; cbn [fst snd]; lia|]). by apply list.Forall_nil.
Qed.

Definition prog_bytes (p : Prog64) : list Z := write_fields (zip prog_sizes (prog_fields p)).

Lemma length_prog p : length (prog_bytes p) = 56%nat.
Proof. by apply length_record. Qed.

Lemma read_prog_at file p pre rest off : file = pre ++ prog_bytes p ++ rest -> Z.of_nat (length pre) = off -> prog_ok p ->
  read_prog file off = Some p.
Proof.
  intros -> <- Hp. unfold read_prog. rewrite Nat2Z.id, drop_app_length. unfold prog_bytes. rewrite read_record by done. by destruct p.
Qed.

(** All program headers, one after the other. *)
Lemma read_progs pre ps rest file : file = pre ++ concat (prog_bytes <$> ps) ++ rest -> Forall prog_ok ps ->
  mapM (fun i => read_prog file (Z.of_nat (length pre) + 56 * Z.of_nat i)) (seq 0 (length ps)) = Some ps.
Proof.
  intros -> Hps. set (file := pre ++ _). assert (H : forall n ps1 ps2, ps = ps1 ++ ps2 -> n = length ps1 ->
    mapM (fun i => read_prog file (Z.of_nat (length pre) + 56 * Z.of_nat i)) (seq n (length ps2)) = Some ps2).
  { intros n ps1 ps2. revert n ps1. induction ps2 as [|p ps2 IH]; intros n ps1 E ->; [done|]. cbn [length seq mapM].
    assert (Hlen : forall l, length (concat (prog_bytes <$> l)) = (56 * length l)%nat).
    { clear. induction l as [|p l IH]; [done|]. cbn [fmap list_fmap concat length]. cbn [fmap list_fmap] in IH. rewrite length_app, length_prog, IH. lia. }
    rewrite (read_prog_at _ p (pre ++ concat (prog_bytes <$> ps1)) (concat (prog_bytes <$> ps2) ++ rest)).
    - cbn [mbind option_bind]. rewrite (IH _ (ps1 ++ [p])); [done|by rewrite <- app_assoc|rewrite length_app; cbn; lia].
    - unfold file. rewrite E, fmap_app, concat_app. cbn [fmap list_fmap concat]. by rewrite <- !app_assoc.
    - rewrite length_app, Hlen. lia.
    - apply (proj1 (list.Forall_forall _ _) Hps). rewrite E. apply elem_of_app. right. left. }
  by apply (H 0%nat []).
Qed.

Lemma load_elf_written entry ps rest : 0 <= entry < 2 ^ 64 -> length ps = 4%nat -> Forall prog_ok ps -> Forall (fun p => p_type p = PT_LOAD) ps ->
  load_elf (write_fields (zip header_sizes (header_fields entry)) ++ concat (prog_bytes <$> ps) ++ rest) = Some (entry, ps).
Proof.
  intros He Hl Hps Ht. set (head := write_fields _).
  assert (Hr : read_fields header_sizes (head ++ concat (prog_bytes <$> ps) ++ rest) = header_fields entry).
  { apply read_record; [done|]. unfold header_fields, header_sizes, ident, ET_EXEC, EM_AARCH64. cbn [replicate app zip zip_with].
    repeat (apply list.Forall_cons; split; [split; cbn [fst snd]; lia|]). by apply list.Forall_nil. }
  pose proof (read_progs head ps rest _ eq_refl Hps) as H. unfold head at 2 in H. rewrite length_record in H by done.
  rewrite Hl in H. change (Z.of_nat (sum_list header_sizes)) with 64 in H.
  unfold load_elf. rewrite Hr. unfold header_fields, ident. cbn [replicate app]. rewrite bool_decide_eq_true_2 by done.
  change (seq 0 (Z.to_nat 4)) with (seq 0 4). cbn [andb Z.eqb Pos.eqb ET_EXEC EM_AARCH64].
  rewrite H. cbn [mbind option_bind]. do 2 f_equal. clear -Ht. induction Ht as [|p ps Hp Ht IH]; [done|].
  rewrite list.filter_cons_True by done. by rewrite IH.
Qed.

(** * The contents *)

Lemma lookup_part {A} (pre l rest : list A) n j : length pre = n -> (j < length l)%nat -> (pre ++ l ++ rest) !! (n + j)%nat = l !! j.
Proof. intros <- Hj. rewrite lookup_app_r by lia. replace (length pre + j - length pre)%nat with j by lia. by apply lookup_app_l. Qed.

Lemma word_bytes ws j k w : ws !! j = Some w -> (k < 4)%nat -> concat (le_bytes 4 <$> ws) !! (4 * j + k)%nat = le_bytes 4 w !! k.
Proof.
  revert j. induction ws as [|v ws IH]; intros j Hj Hk; [done|]. cbn [fmap list_fmap concat]. destruct j as [|j].
  - injection Hj as ->. rewrite lookup_app_l by (rewrite length_le_bytes; lia). f_equal.
  - rewrite lookup_app_r by (rewrite length_le_bytes; lia). rewrite length_le_bytes.
    replace (4 * S j + k - 4)%nat with (4 * j + k)%nat by lia. by apply IH.
Qed.

Lemma length_word_bytes (ws : list Z) : length (concat (le_bytes 4 <$> ws)) = (4 * length ws)%nat.
Proof. induction ws as [|w ws IH]; [done|]. cbn [fmap list_fmap concat length]. cbn [fmap list_fmap] in IH. rewrite length_app, length_le_bytes, IH. lia. Qed.

Lemma nextPage_base v : 0 <= v < 2 ^ 63 -> nextPage (v + linkerLoadBase) = nextPage v + linkerLoadBase.
Proof. intros Hv. apply align_up_shift; [auto|lia|done|by exists 1024|]. change pageSize with 4096. change linkerLoadBase with 4194304. lia. Qed.

(** What the kernel asks of a segment: file and memory agree modulo the page
    size, the file has its bytes; and none is writable and executable. *)
Definition loadable_segment (len : Z) (p : Prog64) : Prop :=
  (pageSize | p_vaddr p - p_off p) /\ p_filesz p <= p_memsz p /\ p_off p + p_filesz p <= len /\
  (Z.testbit (p_flags p) 0 && Z.testbit (p_flags p) 1 = false).

Section image.
Context (entry : Z) (t : extent) (ws ro da : list Z).
Let words : Z := Z.of_nat (length ws).
Let b : bases := layout_bases words (totalRodata t) (totalData t).
Let file : list Z := write_exec entry b t ws ro da.
Context (Hentry : 0 <= entry < 2 ^ 64) (Hro : bytes_len ro = totalRodata t) (Hda : bytes_len da = totalData t).
Context (Hbss : 0 <= totalBss t < 2 ^ 64) (Hsize : 4 * words + totalRodata t + totalData t < 2 ^ 62).

Lemma sizes_nonneg : 0 <= words /\ 0 <= totalRodata t /\ 0 <= totalData t.
Proof. rewrite <- Hro, <- Hda. unfold words. pose proof (bytes_len_nonneg ro). pose proof (bytes_len_nonneg da). lia. Qed.

Lemma code_end : codeEnd words = 288 + 4 * words.
Proof.
  pose proof sizes_nonneg. unfold codeEnd, code_size. change lnkHdrEnd with 288. rewrite (wrapU_small 64 (words * 4)), wrapU_small; lia.
Qed.

(** The file is laid out like memory: what is at an offset goes to that
    distance from the load address. *)
Lemma file_offsets : rodataFileOff words = rodataBase b - linkerLoadBase /\ dataFileOff words (totalRodata t) = dataBase b - linkerLoadBase /\
  rodataEnd words (totalRodata t) = rodataBase b + totalRodata t - linkerLoadBase.
Proof.
  pose proof sizes_nonneg as (H1 & H2 & H3).
  pose proof (layout_bases_range words (totalRodata t) (totalData t) H1 H2 H3 Hsize) as (R1 & R2 & _). fold b in R1, R2.
  change lnkCodeBase with 4194592 in R1. change linkerLoadBase with 4194304.
  assert (E1 : rodataBase b = rodataFileOff words + linkerLoadBase).
  { unfold rodataFileOff. rewrite code_end. unfold b, layout_bases. cbn [rodataBase]. change lnkCodeBase with 4194592.
    rewrite (wrapU_small 64 (words * 4)), (wrapU_small 64 (_ + words * 4)) by lia.
    rewrite <- nextPage_base by lia. f_equal. change linkerLoadBase with 4194304. lia. }
  change linkerLoadBase with 4194304 in E1.
  assert (E3 : rodataEnd words (totalRodata t) = rodataBase b + totalRodata t - 4194304).
  { unfold rodataEnd. rewrite wrapU_small; lia. }
  split; [lia|]. split; [|done]. unfold dataFileOff. rewrite E3.
  assert (E2 : dataBase b = nextPage (u64 (rodataBase b + totalRodata t))) by done. rewrite wrapU_small in E2 by lia. rewrite E2.
  pose proof (nextPage_base (rodataBase b + totalRodata t - 4194304) ltac:(lia)) as E4. change linkerLoadBase with 4194304 in E4.
  rewrite Z.sub_add in E4. lia.
Qed.

Lemma base_range : 4194592 + 4 * words <= rodataBase b /\ rodataBase b + totalRodata t <= dataBase b /\ dataBase b + totalData t <= bssBase b /\
  bssBase b < 2 ^ 62 + 2 ^ 30.
Proof.
  pose proof sizes_nonneg as (H1 & H2 & H3). pose proof (layout_bases_range words (totalRodata t) (totalData t) H1 H2 H3 Hsize) as R.
  cbn zeta in R. fold b in R. change lnkCodeBase with 4194592 in R. lia.
Qed.

Lemma programs_ok : Forall prog_ok (programs words b t).
Proof.
  pose proof sizes_nonneg. pose proof base_range. pose proof file_offsets as (F1 & F2 & _). change linkerLoadBase with 4194304 in *.
  unfold programs. rewrite code_end, F1, F2. change linkerLoadBase with 4194304.
  clearbody b words.
  repeat (apply list.Forall_cons; split; [apply load_segment_ok; [split; [discriminate|reflexivity]|lia..]|]). by apply list.Forall_nil.
Qed.

Lemma file_loads : load_elf file = Some (entry, programs words b t).
Proof. apply load_elf_written; [done|done|apply programs_ok|]. unfold programs, load_segment. by repeat constructor. Qed.
(** The parts of the file at their offsets. *)
Lemma length_headers : length (write_fields (zip header_sizes (header_fields entry)) ++
  concat ((fun p => write_fields (zip prog_sizes (prog_fields p))) <$> programs words b t)) = 288%nat.
Proof. rewrite length_app, length_record by done. unfold programs. cbn [fmap list_fmap concat]. by rewrite !length_app, !length_record. Qed.

Lemma length_zeros n : 0 <= n -> length (zeros n) = Z.to_nat n.
Proof. intros. unfold zeros. by rewrite length_replicate. Qed.

Lemma padding_sizes : u64 (rodataFileOff words - codeEnd words) = rodataBase b - 4194592 - 4 * words /\
  u64 (dataFileOff words (totalRodata t) - rodataEnd words (totalRodata t)) = dataBase b - rodataBase b - totalRodata t.
Proof.
  pose proof sizes_nonneg. pose proof base_range. pose proof file_offsets as (F1 & F2 & F3). change linkerLoadBase with 4194304 in *.
  rewrite F1, F2, F3, code_end, !wrapU_small; lia.
Qed.

Lemma file_code j : (j < 4 * length ws)%nat -> file !! (288 + j)%nat = concat (le_bytes 4 <$> ws) !! j.
Proof.
  intros Hj. unfold file, write_exec. fold words. rewrite app_assoc. apply lookup_part; [apply length_headers|]. by rewrite length_word_bytes.
Qed.

Lemma file_rodata j : (j < length ro)%nat -> file !! (Z.to_nat (rodataFileOff words) + j)%nat = ro !! j.
Proof.
  intros Hj. pose proof sizes_nonneg. pose proof base_range. pose proof padding_sizes as [P1 _]. pose proof file_offsets as (F1 & _).
  unfold file, write_exec. fold words. rewrite app_assoc, (app_assoc _ (concat _)), (app_assoc _ (zeros _)). apply lookup_part; [|done].
  rewrite !length_app, <- length_app, length_headers, length_word_bytes, P1, length_zeros, F1 by lia. change linkerLoadBase with 4194304. unfold words in *. lia.
Qed.

Lemma file_data j : (j < length da)%nat -> file !! (Z.to_nat (dataFileOff words (totalRodata t)) + j)%nat = da !! j.
Proof.
  intros Hj. pose proof sizes_nonneg. pose proof base_range. pose proof padding_sizes as [P1 P2]. pose proof file_offsets as (F1 & F2 & _).
  unfold file, write_exec. fold words.
  rewrite <- (app_nil_r da) at 1. rewrite app_assoc, (app_assoc _ (concat _)), (app_assoc _ (zeros _)), (app_assoc _ ro), (app_assoc _ (zeros _)).
  apply lookup_part; [|done]. unfold bytes_len in *.
  rewrite !length_app, <- length_app, length_headers, length_word_bytes, P1, P2, !length_zeros, F2 by lia. change linkerLoadBase with 4194304. unfold words in *. lia.
Qed.

Lemma file_length : Z.of_nat (length file) = dataFileOff words (totalRodata t) + totalData t.
Proof.
  pose proof sizes_nonneg. pose proof base_range. pose proof padding_sizes as [P1 P2]. pose proof file_offsets as (F1 & F2 & _).
  unfold file, write_exec. fold words. rewrite app_assoc, !length_app, <- length_app, length_headers, length_word_bytes, P1, P2, !length_zeros, F2 by lia.
  unfold bytes_len, words in *. change linkerLoadBase with 4194304. lia.
Qed.

(** ** Memory after loading *)

Ltac segment :=
  pose proof sizes_nonneg; pose proof base_range; unfold mapped, programs, covers, find, load_segment;
  cbn [p_vaddr p_memsz p_filesz p_off]; rewrite ?code_end; change linkerLoadBase with 4194304;
  repeat match goal with |- context [if ?x then _ else _] =>
    first [replace x with true by lia | replace x with false by lia]; cbv beta iota; cbn [p_vaddr p_memsz p_filesz p_off] end.

Lemma mapped_code j : (j < 4 * length ws)%nat ->
  mapped file (programs words b t) (lnkCodeBase + Z.of_nat j) = concat (le_bytes 4 <$> ws) !! j.
Proof.
  intros Hj. rewrite <- file_code by done. change lnkCodeBase with 4194592. segment. f_equal. lia.
Qed.
Lemma mapped_rodata j : (j < length ro)%nat ->
  mapped file (programs words b t) (rodataBase b + Z.of_nat j) = ro !! j.
Proof.
  intros Hj. rewrite <- file_rodata by done. pose proof file_offsets as (F1 & _). change linkerLoadBase with 4194304 in F1.
  unfold bytes_len in Hro. segment. f_equal. lia.
Qed.

Lemma mapped_data j : (j < length da)%nat ->
  mapped file (programs words b t) (dataBase b + Z.of_nat j) = da !! j.
Proof.
  intros Hj. rewrite <- file_data by done. pose proof file_offsets as (_ & F2 & _). change linkerLoadBase with 4194304 in F2.
  unfold bytes_len in Hda. segment. f_equal. lia.
Qed.

Lemma mapped_bss a : bssBase b <= a < bssBase b + totalBss t -> mapped file (programs words b t) a = Some 0.
Proof. intros Ha. segment. done. Qed.

(** Nothing else is mapped, the headers before the code apart. *)
Lemma mapped_nothing a : a < linkerLoadBase \/ lnkCodeBase + 4 * words <= a < rodataBase b \/
  rodataBase b + totalRodata t <= a < dataBase b \/ dataBase b + totalData t <= a < bssBase b \/ bssBase b + totalBss t <= a ->
  mapped file (programs words b t) a = None.
Proof. change linkerLoadBase with 4194304. change lnkCodeBase with 4194592. intros Ha. segment. done. Qed.

Lemma segments_loadable : Forall (loadable_segment (Z.of_nat (length file))) (programs words b t).
Proof.
  pose proof sizes_nonneg as (N1 & N2 & N3). pose proof base_range as (B1 & B2 & B3 & B4). pose proof file_offsets as (F1 & F2 & _). pose proof file_length as FL.
  pose proof (layout_bases_range words (totalRodata t) (totalData t) N1 N2 N3 Hsize) as (_ & _ & _ & _ & _ & D3). fold b in D3.
  assert (DL : (pageSize | linkerLoadBase)) by (by exists 1024).
  unfold programs, load_segment. rewrite code_end. change linkerLoadBase with 4194304 in *.
  repeat (apply list.Forall_cons; split; [|]); try (by apply list.Forall_nil);
    (split; cbn [p_vaddr p_memsz p_filesz p_off p_flags]; [|split; [lia|split; [lia|reflexivity]]]).
  - exact DL.
  - rewrite F1. replace (_ - _) with 4194304 by lia. exact DL.
  - rewrite F2. replace (_ - _) with 4194304 by lia. exact DL.
  - by rewrite Z.sub_0_r.
Qed.
End image.
