(* ===== verification/ObjWrite.v ===== *)
(** The relocatable object file that the compiler writes (objgen.go): section
    names, symbols, relocations, section headers and their layout in the
    file. *)
From stdpp Require Import gmap strings.
From S2P Require Import Prelude Linker LinkSyms LinkLayout LinkReloc Arfmt Elf.
#[local] Open Scope Z_scope.

(** * String tables *)

(** strtabBuilder: names end with a NUL, index 0 is the empty name. *)
Definition newStrtab : list Z := [0].
Definition strtab_add (data : list Z) (nm : string) : Z * list Z := (u32 (bytes_len data), data ++ to_bytes nm ++ [0]).

(** * The records *)

Record objSym := ObjSym { st_name : Z; st_info : Z; st_other : Z; st_shndx : Z; st_value : Z; st_size : Z }.
Record objRela := ObjRela { r_off : Z; r_info : Z; r_addend : Z }.

Definition sym_sizes : list nat := [4; 1; 1; 2; 8; 8]%nat.
Definition sym_fields (s : objSym) : list Z := [st_name s; st_info s; st_other s; st_shndx s; st_value s; st_size s].

Definition rela_sizes : list nat := [8; 8; 8]%nat.
Definition rela_fields (r : objRela) : list Z := [r_off r; r_info r; u64 (r_addend r)].

Definition mkRela (off symIdx typ addend : Z) : objRela := ObjRela off (Z.lor (u64 (Z.shiftl (u64 symIdx) 32)) typ) addend.

Definition sym_bytes (s : objSym) : list Z := write_fields (zip sym_sizes (sym_fields s)).
Definition rela_bytes (r : objRela) : list Z := write_fields (zip rela_sizes (rela_fields r)).

(** * The contents of an object *)

(** Custom sections: code with its relocations, and data. *)
Record execSection := ExecSection { es_name : string; es_text : list Z; es_relas : list objRela }.
Record dataSection := DataSection { ds_name : string; ds_data : list Z }.

Record objParts := ObjParts {
  op_text : list Z;
  op_rodata : list Z;
  op_data : list Z;
  op_bss : Z;
  op_syms : list objSym;
  op_firstGlobal : Z;
  op_strtab : list Z;
  op_relas : list objRela;
  op_dataRelas : list objRela;
  op_exec : list execSection;
  op_custom : list dataSection
}.

(** * Section names *)

Definition objShstrtab : list Z := Eval vm_compute in
  concat ((fun n => to_bytes n ++ [0])
    <$> [""; ".shstrtab"; ".text"; ".rodata"; ".data"; ".bss"; ".symtab"; ".strtab"; ".rela.text"; ".rela.data"]%string).

Definition shstrShstrtab : Z := 1.
Definition shstrText : Z := 11.
Definition shstrRodata : Z := 17.
Definition shstrData : Z := 25.
Definition shstrBss : Z := 31.
Definition shstrSymtab : Z := 36.
Definition shstrStrtab : Z := 44.
Definition shstrRelaText : Z := 52.
Definition shstrRelaData : Z := 63.

Definition objSecText : Z := 1.
Definition objSecRodata : Z := 2.
Definition objSecData : Z := 3.
Definition objSecBss : Z := 4.
Definition objSecSymtab : Z := 5.
Definition objSecStrtab : Z := 6.
Definition objSecShstrtab : Z := 9.
Definition objNumSections : Z := 10.

Definition rela_name (n : string) : string := (".rela" ++ n)%string.

(** The table under construction and the offset of each custom name. *)
Definition shstr_add (st : list Z * gmap string Z) (n : string) : list Z * gmap string Z :=
  let '(off, data) := strtab_add st.1 n in (data, <[n := off]> st.2).

Definition dynShstrtab (p : objParts) : list Z * gmap string Z :=
  let st := foldl (fun st e => shstr_add (shstr_add st (es_name e)) (rela_name (es_name e))) (objShstrtab, ∅) (op_exec p) in
  foldl (fun st d => match st.2 !! ds_name d with Some _ => st | None => shstr_add st (ds_name d) end) st (op_custom p).

(** * The file *)

Definition SHT_PROGBITS : Z := 1.
Definition SHT_SYMTAB : Z := 2.
Definition SHT_STRTAB : Z := 3.
Definition SHT_RELA : Z := 4.
Definition SHT_NOBITS : Z := 8.
Definition SHF_WRITE : Z := 1.
Definition SHF_ALLOC : Z := 2.
Definition SHF_EXECINSTR : Z := 4.
Definition ET_REL : Z := 1.

Record Section64 := Shdr {
  sh_name : Z; sh_type : Z; sh_flags : Z; sh_addr : Z; sh_off : Z;
  sh_size : Z; sh_link : Z; sh_info : Z; sh_addralign : Z; sh_entsize : Z }.

Definition shdr_sizes : list nat := [4; 4; 8; 8; 8; 8; 4; 4; 8; 8]%nat.
Definition shdr_fields (s : Section64) : list Z :=
  [sh_name s; sh_type s; sh_flags s; sh_addr s; sh_off s; sh_size s; sh_link s; sh_info s; sh_addralign s; sh_entsize s].

Definition shdr_bytes (s : Section64) : list Z := write_fields (zip shdr_sizes (shdr_fields s)).

(** The pieces of the file after the header, in order. *)
Definition symtab_bytes (p : objParts) : list Z := concat (sym_bytes <$> op_syms p).
Definition relas_bytes (rs : list objRela) : list Z := concat (rela_bytes <$> rs).

Definition fixed_pieces (p : objParts) : list (list Z) :=
  [op_text p; op_rodata p; op_data p; symtab_bytes p; op_strtab p; relas_bytes (op_relas p); relas_bytes (op_dataRelas p)].
Definition exec_pieces (p : objParts) : list (list Z) := op_exec p ≫= fun e => [es_text e; relas_bytes (es_relas e)].
Definition custom_pieces (p : objParts) : list (list Z) := ds_data <$> op_custom p.
Definition pieces (p : objParts) : list (list Z) :=
  fixed_pieces p ++ exec_pieces p ++ custom_pieces p ++ [(dynShstrtab p).1].

(** Where each piece starts, from [off] on. *)
Fixpoint piece_offsets (off : Z) (l : list (list Z)) : list Z :=
  match l with
  | [] => []
  | x :: l => off :: piece_offsets (off + bytes_len x) l
  end.

Definition pieces_end (off : Z) (l : list (list Z)) : Z := off + Z.of_nat (length (concat l)).

(** [for off%8 != 0 { off++ }] *)
Definition pad8 (off : Z) : Z := - off mod 8.

Definition elfHdr : Z := 64.

(** The section headers, in the order of the section indices. *)
Definition fixed_headers (p : objParts) (offs : nat -> Z) (shstrOff : Z) : list Section64 := [
  Shdr 0 0 0 0 0 0 0 0 0 0;
  Shdr shstrText SHT_PROGBITS (Z.lor SHF_ALLOC SHF_EXECINSTR) 0 (offs 0%nat) (bytes_len (op_text p)) 0 0 4 0;
  Shdr shstrRodata SHT_PROGBITS SHF_ALLOC 0 (offs 1%nat) (bytes_len (op_rodata p)) 0 0 1 0;
  Shdr shstrData SHT_PROGBITS (Z.lor SHF_ALLOC SHF_WRITE) 0 (offs 2%nat) (bytes_len (op_data p)) 0 0 8 0;
  Shdr shstrBss SHT_NOBITS (Z.lor SHF_ALLOC SHF_WRITE) 0 (offs 2%nat + bytes_len (op_data p)) (op_bss p) 0 0 8 0;
  Shdr shstrSymtab SHT_SYMTAB 0 0 (offs 3%nat) (bytes_len (symtab_bytes p)) objSecStrtab (op_firstGlobal p) 8 24;
  Shdr shstrStrtab SHT_STRTAB 0 0 (offs 4%nat) (bytes_len (op_strtab p)) 0 0 1 0;
  Shdr shstrRelaText SHT_RELA 0 0 (offs 5%nat) (bytes_len (relas_bytes (op_relas p))) objSecSymtab objSecText 8 24;
  Shdr shstrRelaData SHT_RELA 0 0 (offs 6%nat) (bytes_len (relas_bytes (op_dataRelas p))) objSecSymtab objSecData 8 24;
  Shdr shstrShstrtab SHT_STRTAB 0 0 shstrOff (bytes_len (dynShstrtab p).1) 0 0 1 0].

Definition name_off (p : objParts) (n : string) : Z := default 0 ((dynShstrtab p).2 !! n).

(** Exec section [i] has section index [10 + 2 i]. *)
Definition exec_headers (p : objParts) (offs : nat -> Z) : list Section64 :=
  concat (imap (fun i e => [
    Shdr (name_off p (es_name e)) SHT_PROGBITS (Z.lor SHF_ALLOC SHF_EXECINSTR) 0 (offs (7 + 2 * i)%nat) (bytes_len (es_text e)) 0 0 4 0;
    Shdr (name_off p (rela_name (es_name e))) SHT_RELA 0 0 (offs (8 + 2 * i)%nat) (bytes_len (relas_bytes (es_relas e)))
      objSecSymtab (u16 (objNumSections + 2 * Z.of_nat i)) 8 24]) (op_exec p)).

(** [cds.name[:7] == ".rodata"] *)
Definition is_rodata_name (n : string) : bool := bool_decide (take 7 (to_bytes n) = to_bytes ".rodata").

Definition custom_headers (p : objParts) (offs : nat -> Z) : list Section64 :=
  imap (fun i d =>
    Shdr (name_off p (ds_name d)) SHT_PROGBITS (if is_rodata_name (ds_name d) then SHF_ALLOC else Z.lor SHF_ALLOC SHF_WRITE) 0
      (offs (7 + 2 * length (op_exec p) + i)%nat) (bytes_len (ds_data d)) 0 0 8 0) (op_custom p).

Definition headers (p : objParts) : list Section64 :=
  let ps := pieces p in
  let offs := fun i => default 0 (piece_offsets elfHdr ps !! i) in
  fixed_headers p offs (offs (length ps - 1)%nat) ++ exec_headers p offs ++ custom_headers p offs.

Definition obj_header_fields (shoff totalSections : Z) : list Z :=
  ident ++ [ET_REL; EM_AARCH64; 1; 0; 0; shoff; 0; 64; 0; 0; 64; totalSections; objSecShstrtab].

(** [genObjectTo] once the contents are known. *)
Definition write_obj (p : objParts) : list Z :=
  let off := pieces_end elfHdr (pieces p) in
  write_fields (zip header_sizes (obj_header_fields (off + pad8 off) (Z.of_nat (length (headers p))))) ++
  concat (pieces p) ++ zeros (pad8 off) ++ concat (shdr_bytes <$> headers p).
