(* ===== verification/ObjParse.v ===== *)
(** The linker's object reader (linker.go): from the bytes of a file to an
    [objFile], with custom sections folded into the standard ones. *)
From stdpp Require Import gmap strings.
From S2P Require Import Prelude Linker LinkSyms LinkLayout LinkReloc Arfmt Elf ObjWrite.
#[local] Open Scope Z_scope.

(** * Files as debug/elf presents them *)

(** A section's data is [None] where it cannot be read. *)
Record elfSection := ElfSection { sec_name : string; sec_type : Z; sec_flags : Z; sec_size : Z; sec_data : option (list Z) }.
Record elfFile := ElfFile { e_type : Z; e_sections : list elfSection }.

(** The name at an offset of a string table, up to its NUL. *)
Fixpoint until_nul (l : list Z) : option (list Z) :=
  match l with
  | [] => None
  | c :: l => if c =? 0 then Some [] else cons c <$> until_nul l
  end.

Definition getString (tab : list Z) (off : Z) : option string :=
  if (0 <=? off) && (off <? bytes_len tab) then of_bytes <$> until_nul (drop (Z.to_nat off) tab) else None.

Definition read_shdr (file : list Z) (off : Z) : option Section64 :=
  match read_fields shdr_sizes (drop (Z.to_nat off) file) with
  | [nm; ty; fl; ad; o; sz; li; inf; al; es] => Some (Shdr nm ty fl ad o sz li inf al es)
  | _ => None
  end.

Definition file_range (file : list Z) (off sz : Z) : option (list Z) :=
  if off + sz <=? bytes_len file then Some (take (Z.to_nat sz) (drop (Z.to_nat off) file)) else None.

Definition open_section (file : list Z) (tab : list Z) (h : Section64) : option elfSection :=
  nm ← getString tab (sh_name h);
  Some (ElfSection nm (sh_type h) (sh_flags h) (sh_size h) (file_range file (sh_off h) (sh_size h))).

(** [elf.NewFile] on 64-bit little-endian files with a section name table and
    fewer than 0xff00 sections, none of them compressed; others are refused
    here. *)
Definition NewFile (file : list Z) : option elfFile :=
  match read_fields header_sizes file with
  | m0 :: m1 :: m2 :: m3 :: class :: data :: version :: _ :: _ :: _ :: _ :: _ :: _ :: _ :: _ :: _ ::
    [type; _; version2; _; _; shoff; _; _; _; phnum; shentsize; shnum; shstrndx] =>
      if bool_decide ([m0; m1; m2; m3; class; data; version] = [0x7F; 69; 76; 70; 2; 1; 1]) && (version2 =? 1) && (64 <=? bytes_len file) &&
         (phnum =? 0) && (64 <=? shentsize) && (0 <? shnum) && (shstrndx <? shnum) && (0 <? shstrndx) &&
         (shoff + shentsize * shnum <=? bytes_len file) then
        hs ← mapM (fun i => read_shdr file (shoff + shentsize * Z.of_nat i)) (seq 0 (Z.to_nat shnum));
        if forallb (fun h => (sh_off h <? 2 ^ 63) && (sh_size h <? 2 ^ 63) && negb (Z.testbit (sh_flags h) 11)) hs then
          strh ← hs !! Z.to_nat shstrndx;
          if sh_type strh =? SHT_STRTAB then
            tab ← file_range file (sh_off strh) (sh_size strh);
            ElfFile type <$> mapM (open_section file tab) hs
          else None
        else None
      else None
  | _ => None
  end.

(** [f.Section]: the first of that name. *)
Definition Section_ (f : elfFile) (n : string) : option elfSection := find (fun s => bool_decide (sec_name s = n)) (e_sections f).

(** * Parsing *)

(** [readSec]: nothing for a section that is absent or has no file data. *)
Definition readSec (f : elfFile) (n : string) : option (list Z) :=
  match Section_ f n with
  | None => Some []
  | Some s => if sec_type s =? SHT_NOBITS then Some [] else sec_data s
  end.

Record foldInfo := FoldInfo { fi_target : string; fi_off : Z }.

(** The sections read so far, and where folded sections went, by index. *)
Record foldState := FoldState { fs_text : list Z; fs_data : list Z; fs_bss : Z; fs_folds : gmap Z foldInfo }.

(** [for len(d)%n != 0 { d = append(d, 0) }] *)
Definition pad_to (n : Z) (d : list Z) : list Z := d ++ zeros (- bytes_len d mod n).

Definition standard (n : string) : bool := bool_decide (n ∈ [""; ".text"; ".rodata"; ".data"; ".bss"]%string).

Definition fold_section (st : foldState) (i : nat) (s : elfSection) : option foldState :=
  if standard (sec_name s) then Some st
  else if negb (sec_type s =? SHT_PROGBITS) && negb (sec_type s =? SHT_NOBITS) then Some st
  else if Z.land (sec_flags s) SHF_ALLOC =? 0 then Some st
  else
    let k := u16 (Z.of_nat i) in
    if negb (Z.land (sec_flags s) SHF_EXECINSTR =? 0) then
      let text := pad_to 4 (fs_text st) in
      d ← if sec_type s =? SHT_PROGBITS then sec_data s else Some [];
      Some (FoldState (text ++ d) (fs_data st) (fs_bss st) (<[k := FoldInfo ".text" (bytes_len text)]> (fs_folds st)))
    else if sec_type s =? SHT_NOBITS then
      let off := Z.ldiff (u64 (fs_bss st + 15)) 15 in
      Some (FoldState (fs_text st) (fs_data st) (u64 (off + sec_size s)) (<[k := FoldInfo ".bss" off]> (fs_folds st)))
    else
      let data := pad_to 16 (fs_data st) in
      d ← sec_data s;
      Some (FoldState (fs_text st) (data ++ d) (fs_bss st) (<[k := FoldInfo ".data" (bytes_len data)]> (fs_folds st))).

Fixpoint fold_sections (st : foldState) (i : nat) (l : list elfSection) : option foldState :=
  match l with
  | [] => Some st
  | s :: l => st ← fold_section st i s; fold_sections st (S i) l
  end.

(** ** Symbols *)

(** Records of [n] bytes; what is left over is dropped. *)
Definition records (n : nat) (l : list Z) : list (list Z) :=
  (fun i => take n (drop (i * n) l)) <$> seq 0 (length l / n).

Definition SHN_COMMON : Z := 0xFFF2.

(** The name at an offset of the symbols' table; the table's end also ends a
    name. *)
Definition sym_name (tab : list Z) (off : Z) : string :=
  if off <? bytes_len tab then
    let l := drop (Z.to_nat off) tab in of_bytes (default l (until_nul l))
  else ""%string.

Definition sym_bind (info : Z) : SymBind :=
  let b := Z.shiftr info 4 in if b =? 0 then STB_LOCAL else if b =? 1 then STB_GLOBAL else if b =? 2 then STB_WEAK else STB_OTHER b.

(** The section of a symbol and its value there. *)
Definition sym_home (names : list string) (folds : gmap Z foldInfo) (shndx value : Z) : string * Z :=
  if shndx =? 0 then (""%string, value)
  else if shndx =? SHN_COMMON then ("COMMON"%string, value)
  else match folds !! shndx with
       | Some fi => (fi_target fi, u64 (value + fi_off fi))
       | None => (default ""%string (names !! Z.to_nat shndx), value)
       end.

Definition parse_sym (names : list string) (folds : gmap Z foldInfo) (tab : list Z) (raw : list Z) : lnkSym :=
  match read_fields sym_sizes raw with
  | [nm; info; _; shndx; v; sz] =>
      let '(sec, v) := sym_home names folds shndx v in
      LnkSym (sym_name tab nm) v sz sec (sym_bind info) (Z.land info 15)
  | _ => LnkSym "" 0 0 "" STB_LOCAL 0
  end.

Definition parse_syms (f : elfFile) (folds : gmap Z foldInfo) : option (list lnkSym) :=
  match Section_ f ".symtab", Section_ f ".strtab" with
  | Some symtab, Some strtab =>
      symData ← sec_data symtab;
      strData ← sec_data strtab;
      Some (parse_sym (sec_name <$> e_sections f) folds strData <$> records 24 symData)
  | _, _ => Some []
  end.

(** ** Relocations *)

Definition parse_rela (base : Z) (raw : list Z) : lnkRela :=
  match read_fields rela_sizes raw with
  | [off; info; addend] => LnkRela (u64 (base + off)) (u32 (Z.shiftr info 32)) (u32 info) (i64 addend)
  | _ => LnkRela 0 0 0 0
  end.

Definition parseRelas (f : elfFile) (n : string) (base : Z) : option (list lnkRela) :=
  match Section_ f n with
  | None => Some []
  | Some s => d ← sec_data s; Some (parse_rela base <$> records 24 d)
  end.

(** The relocations of folded sections, by the section they went to. *)
Fixpoint folded_relas (f : elfFile) (folds : gmap Z foldInfo) (i : nat) (l : list elfSection) (rs : list lnkRela * list lnkRela)
    : option (list lnkRela * list lnkRela) :=
  match l with
  | [] => Some rs
  | s :: l =>
      match folds !! u16 (Z.of_nat i) with
      | None => folded_relas f folds (S i) l rs
      | Some fi =>
          new ← parseRelas f (rela_name (sec_name s)) (fi_off fi);
          folded_relas f folds (S i) l
            (if bool_decide (fi_target fi = ".text"%string) then (rs.1 ++ new, rs.2)
             else if bool_decide (fi_target fi = ".data"%string) then (rs.1, rs.2 ++ new) else rs)
      end
  end.

Definition parseObjELF (path : string) (f : elfFile) : option objFile :=
  if negb (e_type f =? ET_REL) then None
  else
    text ← readSec f ".text";
    rodata ← readSec f ".rodata";
    data ← readSec f ".data";
    let bss := match Section_ f ".bss" with Some s => sec_size s | None => 0 end in
    st ← fold_sections (FoldState text data bss ∅) 0 (e_sections f);
    syms ← parse_syms f (fs_folds st);
    textRelas ← parseRelas f ".rela.text" 0;
    dataRelas ← parseRelas f ".rela.data" 0;
    '(textRelas, dataRelas) ← folded_relas f (fs_folds st) 0 (e_sections f) (textRelas, dataRelas);
    Some (ObjFile path (fs_text st) rodata (fs_data st) (fs_bss st) syms textRelas dataRelas false).

Definition loadObjFromBytes (nm : string) (data : list Z) : option objFile := f ← NewFile data; parseObjELF nm f.
