(* ===== verification/ObjRound.v ===== *)
(** Reading back the object files that the compiler writes: the file's
    structure, section names and contents. *)
From stdpp Require Import gmap strings.
From S2P Require Import Prelude Linker LinkSyms LinkLayout LinkReloc Arfmt Elf ObjWrite ObjParse.
#[local] Open Scope Z_scope.

(** * Strings *)

Definition no_nul (n : string) : Prop := 0 ∉ to_bytes n.

Lemma until_nul_app l rest : 0 ∉ l -> until_nul (l ++ 0 :: rest) = Some l.
Proof.
  induction l as [|c l IH]; intros H; [done|]. apply not_elem_of_cons in H as [H1 H2]. cbn [app until_nul].
  rewrite (proj2 (Z.eqb_neq c 0)) by done. by rewrite IH.
Qed.

Lemma until_nul_more l rest x : until_nul l = Some x -> until_nul (l ++ rest) = Some x.
Proof.
  revert x. induction l as [|c l IH]; intros x H; [done|]. cbn [app until_nul] in *. destruct (c =? 0); [done|].
  destruct (until_nul l) as [y|]; [|done]. by rewrite (IH y).
Qed.

Lemma getString_at pre n rest : no_nul n -> getString (pre ++ to_bytes n ++ 0 :: rest) (bytes_len pre) = Some n.
Proof.
  intros Hn. unfold getString, bytes_len. rewrite (proj2 (Z.leb_le _ _)), (proj2 (Z.ltb_lt _ _)) by (rewrite ?length_app; cbn; lia).
  cbn [andb]. rewrite Nat2Z.id, drop_app_length, until_nul_app by done. cbn [fmap option_fmap option_map]. by rewrite of_to_bytes.
Qed.

Lemma getString_more tab rest off n : getString tab off = Some n -> getString (tab ++ rest) off = Some n.
Proof.
  unfold getString, bytes_len. destruct (Z.leb_spec 0 off), (Z.ltb_spec off (Z.of_nat (length tab))); try done. cbn [andb].
  rewrite (proj2 (Z.ltb_lt _ _)) by (rewrite length_app; lia). rewrite drop_app_le by lia. intros E.
  destruct (until_nul (drop (Z.to_nat off) tab)) as [x|] eqn:Ex; [|done]. by rewrite (until_nul_more _ _ _ Ex).
Qed.

(** ** The section name table *)

(** Every recorded name reads back at its offset. *)
Definition names_there (st : list Z * gmap string Z) : Prop := forall n off, st.2 !! n = Some off -> getString st.1 off = Some n.

Lemma shstr_add_there st n : names_there st -> no_nul n -> bytes_len st.1 < 2 ^ 32 -> names_there (shstr_add st n).
Proof.
  intros H Hn Hl m off. unfold shstr_add, strtab_add. cbn [fst snd]. pose proof (bytes_len_nonneg st.1).
  destruct (decide (m = n)) as [->|Hm].
  - rewrite lookup_insert_eq. intros [= <-]. rewrite wrapU_small by lia. by apply getString_at.
  - rewrite lookup_insert_ne by done. intros Hoff. apply getString_more. by apply H.
Qed.

Lemma shstr_add_grows st n : exists rest, (shstr_add st n).1 = st.1 ++ rest.
Proof. unfold shstr_add, strtab_add. by eexists. Qed.

Lemma shstr_add_has st n : is_Some ((shstr_add st n).2 !! n).
Proof. unfold shstr_add, strtab_add. cbn [snd]. rewrite lookup_insert_eq. by eexists. Qed.

Lemma shstr_add_keeps st n m : is_Some (st.2 !! m) -> is_Some ((shstr_add st n).2 !! m).
Proof.
  intros H. unfold shstr_add, strtab_add. cbn [snd]. destruct (decide (m = n)) as [->|Hm]; [rewrite lookup_insert_eq; by eexists|].
  by rewrite lookup_insert_ne.
Qed.

(** A run of additions: the table grows, and the names are there. *)
Definition table_grows (st st' : list Z * gmap string Z) (ns : list string) : Prop :=
  (exists rest, st'.1 = st.1 ++ rest) /\ (forall m, is_Some (st.2 !! m) \/ m ∈ ns -> is_Some (st'.2 !! m)) /\
  (names_there st -> Forall no_nul ns -> bytes_len st'.1 < 2 ^ 32 -> names_there st').

Lemma table_grows_refl st : table_grows st st [].
Proof. split; [exists []; by rewrite app_nil_r|]. split; [|done]. intros m [H|H]; [done|by apply elem_of_nil in H]. Qed.

Lemma table_grows_trans st1 st2 st3 ns1 ns2 : table_grows st1 st2 ns1 -> table_grows st2 st3 ns2 -> table_grows st1 st3 (ns1 ++ ns2).
Proof.
  intros ((r1 & E1) & K1 & N1) ((r2 & E2) & K2 & N2). split; [exists (r1 ++ r2); by rewrite E2, E1, app_assoc|]. split.
  - intros m Hm. rewrite elem_of_app in Hm. apply K2. destruct Hm as [H|[H|H]]; [left; apply K1; by left|left; apply K1; by right|by right].
  - intros Ht Hf Hl. apply list.Forall_app in Hf as [F1 F2]. apply N2; [|done|done]. apply N1; [done|done|].
    rewrite E2 in Hl. unfold bytes_len in *. rewrite length_app in Hl. lia.
Qed.

Lemma table_grows_add st n : table_grows st (shstr_add st n) [n].
Proof.
  split; [apply shstr_add_grows|]. split.
  - intros m [H|H]; [by apply shstr_add_keeps|]. apply list_elem_of_singleton in H as ->. apply shstr_add_has.
  - intros Ht Hf Hl. apply Forall_cons_1 in Hf as [Hn _]. apply shstr_add_there; [done|done|].
    destruct (shstr_add_grows st n) as [r E]. rewrite E in Hl. unfold bytes_len in *. rewrite length_app in Hl. lia.
Qed.

Definition exec_names (p : objParts) : list string := op_exec p ≫= fun e => [es_name e; rela_name (es_name e)].
Definition custom_names (p : objParts) : list string := ds_name <$> op_custom p.

Lemma shstrtab_extends p : table_grows (objShstrtab, ∅) (dynShstrtab p) (exec_names p ++ custom_names p).
Proof.
  unfold dynShstrtab, exec_names, custom_names. set (st1 := foldl _ (objShstrtab, ∅) (op_exec p)). eapply (table_grows_trans _ st1).
  - unfold st1. generalize (objShstrtab, ∅ : gmap string Z) as st. induction (op_exec p) as [|e l IH]; intros st; [apply table_grows_refl|].
    cbn [foldl mbind list_bind]. eapply (table_grows_trans _ _ _ [es_name e; rela_name (es_name e)]); [|apply IH].
    eapply (table_grows_trans _ _ _ [_] [_]); apply table_grows_add.
  - generalize st1 as st. clear st1. induction (op_custom p) as [|d l IH]; intros st; [apply table_grows_refl|]. cbn [foldl fmap list_fmap].
    eapply (table_grows_trans _ _ _ [ds_name d]); [|apply IH]. destruct (st.2 !! ds_name d) eqn:E; [|apply table_grows_add].
    split; [exists []; by rewrite app_nil_r|]. split; [|done]. intros m [H|H]; [done|]. apply list_elem_of_singleton in H as ->. by eexists.
Qed.

Lemma shstrtab_names p : Forall no_nul (exec_names p ++ custom_names p) -> bytes_len (dynShstrtab p).1 < 2 ^ 32 ->
  forall n, n ∈ exec_names p ++ custom_names p -> getString (dynShstrtab p).1 (name_off p n) = Some n.
Proof.
  intros Hn Hl n Hin. destruct (shstrtab_extends p) as (_ & K & N). destruct (K n (or_intror Hin)) as [off Hoff].
  unfold name_off. rewrite Hoff. apply N; [|done|done|done]. intros m o Hm. cbn [snd] in Hm. by apply lookup_empty_Some in Hm.
Qed.

Lemma shstrtab_standard p off n : getString objShstrtab off = Some n -> getString (dynShstrtab p).1 off = Some n.
Proof. intros H. destruct (shstrtab_extends p) as ((rest & E) & _). rewrite E. by apply getString_more. Qed.

(** * The file *)

(** The sections as the reader is to present them; [bd] stands for the data
    of .bss, which no one reads. *)
Definition fixed_sections (p : objParts) (bd : option (list Z)) : list elfSection := [
  ElfSection "" 0 0 0 (Some []);
  ElfSection ".text" SHT_PROGBITS 6 (bytes_len (op_text p)) (Some (op_text p));
  ElfSection ".rodata" SHT_PROGBITS 2 (bytes_len (op_rodata p)) (Some (op_rodata p));
  ElfSection ".data" SHT_PROGBITS 3 (bytes_len (op_data p)) (Some (op_data p));
  ElfSection ".bss" SHT_NOBITS 3 (op_bss p) bd;
  ElfSection ".symtab" SHT_SYMTAB 0 (bytes_len (symtab_bytes p)) (Some (symtab_bytes p));
  ElfSection ".strtab" SHT_STRTAB 0 (bytes_len (op_strtab p)) (Some (op_strtab p));
  ElfSection ".rela.text" SHT_RELA 0 (bytes_len (relas_bytes (op_relas p))) (Some (relas_bytes (op_relas p)));
  ElfSection ".rela.data" SHT_RELA 0 (bytes_len (relas_bytes (op_dataRelas p))) (Some (relas_bytes (op_dataRelas p)));
  ElfSection ".shstrtab" SHT_STRTAB 0 (bytes_len (dynShstrtab p).1) (Some (dynShstrtab p).1)].

Definition exec_section (e : execSection) : list elfSection := [
  ElfSection (es_name e) SHT_PROGBITS 6 (bytes_len (es_text e)) (Some (es_text e));
  ElfSection (rela_name (es_name e)) SHT_RELA 0 (bytes_len (relas_bytes (es_relas e))) (Some (relas_bytes (es_relas e)))].

Definition custom_section (d : dataSection) : elfSection :=
  ElfSection (ds_name d) SHT_PROGBITS (if is_rodata_name (ds_name d) then 2 else 3) (bytes_len (ds_data d)) (Some (ds_data d)).

Definition sections (p : objParts) (bd : option (list Z)) : list elfSection :=
  fixed_sections p bd ++ (op_exec p ≫= exec_section) ++ (custom_section <$> op_custom p).

Definition rela_ok (r : objRela) : Prop := 0 <= r_off r < 2 ^ 64 /\ 0 <= r_info r < 2 ^ 64 /\ - 2 ^ 63 <= r_addend r < 2 ^ 63.
Definition sym_ok (s : objSym) : Prop := Forall in_width (zip sym_sizes (sym_fields s)).

Definition section_count (p : objParts) : Z := 10 + 2 * Z.of_nat (length (op_exec p)) + Z.of_nat (length (op_custom p)).

Definition standard_names : list string :=
  [""; ".text"; ".rodata"; ".data"; ".bss"; ".symtab"; ".strtab"; ".rela.text"; ".rela.data"; ".shstrtab"]%string.

Definition names (p : objParts) : list string := standard_names ++ exec_names p ++ custom_names p.

(** Objects that fit a file: sizes, numbers in the range of their fields, and
    section names of their own. *)
Record parts_ok (p : objParts) : Prop := {
  ok_size : pieces_end elfHdr (pieces p) < 2 ^ 32;
  ok_count : section_count p < 0xff00;
  ok_bss : 0 <= op_bss p < 2 ^ 62;
  ok_first : 0 <= op_firstGlobal p < 2 ^ 32;
  ok_syms : Forall sym_ok (op_syms p);
  ok_relas : Forall rela_ok (op_relas p ++ op_dataRelas p ++ (op_exec p ≫= es_relas));
  ok_nul : Forall no_nul (exec_names p ++ custom_names p);
  ok_names : NoDup (names p)
}.

Lemma length_headers_eq p : Z.of_nat (length (headers p)) = section_count p.
Proof.
  unfold headers, section_count. set (offs := fun i : nat => _). rewrite !length_app. unfold custom_headers. rewrite length_imap.
  enough (length (exec_headers p offs) = (2 * length (op_exec p))%nat) by (change (length (fixed_headers p offs _)) with 10%nat; lia).
  unfold exec_headers. match goal with |- length (concat (imap ?f _)) = _ => assert (H : forall i e, length (f i e) = 2%nat) by done; revert H; generalize f end.
  intros f Hf. revert f Hf. induction (op_exec p) as [|e l IH]; intros f Hf; [done|]. cbn [imap concat length]. rewrite length_app, Hf, IH; [lia|].
  intros i x. apply Hf.
Qed.

(** ** Pieces at their offsets *)

Lemma piece_offsets_lookup l off i x : l !! i = Some x -> piece_offsets off l !! i = Some (off + Z.of_nat (length (concat (take i l)))).
Proof.
  revert off i. induction l as [|y l IH]; intros off i H; [done|]. destruct i as [|i].
  - cbn. f_equal. lia.
  - cbn [lookup list_lookup piece_offsets take concat] in *. rewrite (IH _ _ H), length_app. unfold bytes_len. f_equal. lia.
Qed.

Lemma concat_piece (l : list (list Z)) i x : l !! i = Some x -> concat l = concat (take i l) ++ x ++ concat (drop (S i) l).
Proof. intros H. rewrite <- (take_drop_middle l i x H) at 1. by rewrite concat_app. Qed.

Lemma piece_range (pre post : list Z) l off i x : l !! i = Some x -> off = Z.of_nat (length pre) ->
  file_range (pre ++ concat l ++ post) (default 0 (piece_offsets off l !! i)) (bytes_len x) = Some x.
Proof.
  intros H ->. rewrite (piece_offsets_lookup _ _ _ _ H). cbn [default from_option id]. rewrite (concat_piece l i x H).
  unfold file_range, bytes_len. rewrite (proj2 (Z.leb_le _ _)) by (rewrite !length_app; lia).
  rewrite Nat2Z.id. replace (Z.to_nat (Z.of_nat (length pre) + _)) with (length (pre ++ concat (take i l))) by (rewrite length_app; lia).
  rewrite <- !app_assoc, (app_assoc pre), drop_app_length. by rewrite take_app_length.
Qed.

Lemma piece_bound l off i x : l !! i = Some x -> 0 <= off -> let o := default 0 (piece_offsets off l !! i) in
  off <= o /\ o + bytes_len x <= pieces_end off l.
Proof.
  intros H Ho. rewrite (piece_offsets_lookup _ _ _ _ H). cbn [default from_option id]. unfold pieces_end, bytes_len.
  rewrite (concat_piece l i x H), !length_app. lia.
Qed.

(** Which piece is which. *)
Lemma fixed_piece p i x : fixed_pieces p !! i = Some x -> pieces p !! i = Some x.
Proof. intros H. unfold pieces. by apply lookup_app_l_Some. Qed.

Lemma exec_piece_lookup (l : list execSection) i e : l !! i = Some e ->
  (l ≫= fun e => [es_text e; relas_bytes (es_relas e)]) !! (2 * i)%nat = Some (es_text e) /\
  (l ≫= fun e => [es_text e; relas_bytes (es_relas e)]) !! S (2 * i) = Some (relas_bytes (es_relas e)).
Proof.
  revert i. induction l as [|e' l IH]; intros i H; [done|]. destruct i as [|i]; [injection H as ->; done|].
  replace (2 * S i)%nat with (S (S (2 * i))) by lia. cbn [mbind list_bind app lookup list_lookup]. by apply IH.
Qed.

Lemma length_exec_pieces p : length (exec_pieces p) = (2 * length (op_exec p))%nat.
Proof. unfold exec_pieces. induction (op_exec p) as [|e l IH]; [done|]. cbn [mbind list_bind app length]. cbn [mbind list_bind] in IH. lia. Qed.

Lemma exec_piece p i e : op_exec p !! i = Some e ->
  pieces p !! (7 + 2 * i)%nat = Some (es_text e) /\ pieces p !! (8 + 2 * i)%nat = Some (relas_bytes (es_relas e)).
Proof.
  intros H. destruct (exec_piece_lookup _ _ _ H) as [H1 H2]. unfold pieces, exec_pieces. cbn [fixed_pieces app].
  change (7 + 2 * i)%nat with (S (S (S (S (S (S (S (2 * i)))))))). change (8 + 2 * i)%nat with (S (S (S (S (S (S (S (S (2 * i))))))))).
  cbn [lookup list_lookup]. split; by apply lookup_app_l_Some.
Qed.

Lemma custom_piece p i d : op_custom p !! i = Some d -> pieces p !! (7 + 2 * length (op_exec p) + i)%nat = Some (ds_data d).
Proof.
  intros H. unfold pieces. rewrite lookup_app_r by (cbn; lia). change (length (fixed_pieces p)) with 7%nat.
  rewrite lookup_app_r by (rewrite length_exec_pieces; lia). rewrite length_exec_pieces.
  replace (7 + 2 * length (op_exec p) + i - 7 - 2 * length (op_exec p))%nat with i by lia.
  apply lookup_app_l_Some. unfold custom_pieces. by rewrite list_lookup_fmap, H.
Qed.

Lemma shstrtab_piece p : pieces p !! (length (pieces p) - 1)%nat = Some (dynShstrtab p).1.
Proof. unfold pieces. rewrite !app_assoc, length_app. cbn [length]. rewrite Nat.add_sub. by apply list_lookup_middle. Qed.

(** * Opening the file *)

Section opening.
Context (p : objParts) (Hok : parts_ok p).

Let offs : nat -> Z := fun i => default 0 (piece_offsets elfHdr (pieces p) !! i).
Let head : list Z := write_fields (zip header_sizes (obj_header_fields
  (pieces_end elfHdr (pieces p) + pad8 (pieces_end elfHdr (pieces p))) (Z.of_nat (length (headers p))))).
Let file : list Z := write_obj p.

Lemma head_length : length head = 64%nat.
Proof. by apply length_record. Qed.

Lemma file_eq : file = head ++ concat (pieces p) ++ zeros (pad8 (pieces_end elfHdr (pieces p))) ++ concat (shdr_bytes <$> headers p).
Proof. done. Qed.

Lemma range_of i x : pieces p !! i = Some x -> file_range file (offs i) (bytes_len x) = Some x.
Proof. intros H. rewrite file_eq. apply piece_range; [done|]. by rewrite head_length. Qed.

Lemma bound_of i x : pieces p !! i = Some x -> 0 <= offs i < 2 ^ 32 /\ bytes_len x < 2 ^ 32.
Proof.
  intros H. pose proof (piece_bound _ elfHdr _ _ H ltac:(done)) as [B1 B2]. fold (offs i) in B1, B2. pose proof (ok_size _ Hok).
  pose proof (bytes_len_nonneg x). change elfHdr with 64 in *. lia.
Qed.

Lemma shstr_length : bytes_len (dynShstrtab p).1 < 2 ^ 32.
Proof. apply (bound_of _ _ (shstrtab_piece p)). Qed.

(** ** The headers *)

Definition shdr_ok (h : Section64) : Prop := Forall in_width (zip shdr_sizes (shdr_fields h)) /\
  (sh_off h <? 2 ^ 63) && (sh_size h <? 2 ^ 63) && negb (Z.testbit (sh_flags h) 11) = true.

Lemma shdr_intro nm ty fl off sz ln inf al es : 0 <= nm < 2 ^ 32 -> 0 <= ty < 2 ^ 32 -> 0 <= fl < 8 -> 0 <= off < 2 ^ 62 + 2 ^ 33 -> 0 <= sz < 2 ^ 63 ->
  0 <= ln < 2 ^ 32 -> 0 <= inf < 2 ^ 32 -> 0 <= al < 2 ^ 64 -> 0 <= es < 2 ^ 64 -> shdr_ok (Shdr nm ty fl 0 off sz ln inf al es).
Proof.
  intros. split.
  - unfold shdr_fields, shdr_sizes. cbn [sh_name sh_type sh_flags sh_addr sh_off sh_size sh_link sh_info sh_addralign sh_entsize zip zip_with].
    repeat (apply list.Forall_cons; split; [split; cbn [fst snd]; lia|]). by apply list.Forall_nil.
  - cbn [sh_off sh_size sh_flags]. rewrite !(proj2 (Z.ltb_lt _ _)) by lia. cbn [andb].
    assert (E : fl = 0 \/ fl = 1 \/ fl = 2 \/ fl = 3 \/ fl = 4 \/ fl = 5 \/ fl = 6 \/ fl = 7) by lia.
    by destruct E as [->|[->|[->|[->|[->|[->|[->| ->]]]]]]].
Qed.

Lemma name_off_range n : 0 <= name_off p n < 2 ^ 32.
Proof.
  unfold name_off. assert (H : forall st : list Z * gmap string Z, (forall m off, st.2 !! m = Some off -> 0 <= off < 2 ^ 32) ->
    forall n m off, (shstr_add st n).2 !! m = Some off -> 0 <= off < 2 ^ 32).
  { intros st Hst k m off. unfold shstr_add, strtab_add. cbn [snd]. destruct (decide (m = k)) as [->|Hm].
    - rewrite lookup_insert_eq. intros [= <-]. by apply wrapU_range.
    - rewrite lookup_insert_ne by done. apply Hst. }
  assert (H2 : forall m off, (dynShstrtab p).2 !! m = Some off -> 0 <= off < 2 ^ 32).
  { unfold dynShstrtab. set (st1 := foldl _ (objShstrtab, ∅) (op_exec p)).
    assert (H1 : forall m off, st1.2 !! m = Some off -> 0 <= off < 2 ^ 32).
    { unfold st1. assert (H0 : forall m off, (objShstrtab, ∅ : gmap string Z).2 !! m = Some off -> 0 <= off < 2 ^ 32) by done.
      revert H0. generalize (objShstrtab, ∅ : gmap string Z) as st. clear st1. induction (op_exec p) as [|e l IH]; intros st H0; [exact H0|].
      cbn [foldl]. apply IH. apply H. by apply H. }
    revert H1. generalize st1 as st. clear st1. induction (op_custom p) as [|d l IH]; intros st H1; [exact H1|]. cbn [foldl].
    apply IH. destruct (st.2 !! ds_name d); [exact H1|by apply H]. }
  destruct ((dynShstrtab p).2 !! n) as [off|] eqn:E; cbn; [by apply (H2 n)|lia].
Qed.

(** A header opens as the section it was written for. *)
Definition opens (h : Section64) (s : elfSection) : Prop := shdr_ok h /\ open_section file (dynShstrtab p).1 h = Some s.

Lemma opens_piece nm ty fl i x ln inf al es n : pieces p !! i = Some x -> getString (dynShstrtab p).1 nm = Some n ->
  0 <= nm < 2 ^ 32 -> 0 <= ty < 2 ^ 32 -> 0 <= fl < 8 -> 0 <= ln < 2 ^ 32 -> 0 <= inf < 2 ^ 32 -> 0 <= al < 2 ^ 64 -> 0 <= es < 2 ^ 64 ->
  opens (Shdr nm ty fl 0 (offs i) (bytes_len x) ln inf al es) (ElfSection n ty fl (bytes_len x) (Some x)).
Proof.
  intros Hx Hn. intros. destruct (bound_of _ _ Hx). pose proof (bytes_len_nonneg x). split; [apply shdr_intro; lia|].
  unfold open_section. cbn [sh_name sh_type sh_flags sh_size sh_off]. rewrite Hn. cbn [mbind option_bind]. by rewrite (range_of _ _ Hx).
Qed.

Definition bss_data : option (list Z) := file_range file (offs 2%nat + bytes_len (op_data p)) (op_bss p).

Lemma opens_fixed : Forall2 opens (fixed_headers p offs (offs (length (pieces p) - 1)%nat)) (fixed_sections p bss_data).
Proof.
  assert (S : forall nm n, getString objShstrtab nm = Some n -> getString (dynShstrtab p).1 nm = Some n) by (intros; by apply shstrtab_standard).
  pose proof (ok_first _ Hok). pose proof (ok_bss _ Hok) as Hbss. unfold fixed_headers, fixed_sections.
  repeat (apply list.Forall2_cons; split); try (by apply list.Forall2_nil).
  all: try (eapply opens_piece; [by (apply fixed_piece; reflexivity) || apply shstrtab_piece|by apply S|..]; try done; try lia).
  - split; [by apply shdr_intro|]. unfold open_section. cbn [sh_name sh_type sh_flags sh_size sh_off]. rewrite (S 0 "") by done.
    cbn [mbind option_bind]. unfold file_range. pose proof (bytes_len_nonneg file). by rewrite (proj2 (Z.leb_le _ _)) by lia.
  - destruct (bound_of 2 (op_data p) eq_refl). pose proof (bytes_len_nonneg (op_data p)). split; [apply shdr_intro; try done; lia|].
    unfold open_section. cbn [sh_name sh_type sh_flags sh_size sh_off]. by rewrite (S shstrBss ".bss"%string).
Qed.

Lemma own_name n : n ∈ exec_names p ++ custom_names p -> getString (dynShstrtab p).1 (name_off p n) = Some n.
Proof. apply shstrtab_names; [apply (ok_nul _ Hok)|apply shstr_length]. Qed.

Lemma exec_names_elem i e : op_exec p !! i = Some e -> es_name e ∈ exec_names p ++ custom_names p /\ rela_name (es_name e) ∈ exec_names p ++ custom_names p.
Proof.
  intros H. apply list_elem_of_lookup_2 in H. rewrite !elem_of_app. unfold exec_names.
  split; left; apply list_elem_of_bind; exists e; (split; [|done]); [left|right; left].
Qed.

(** Headers and sections written index by index match when they match at each
    index. *)
Lemma Forall2_concat_imap {A B C} (R : B -> C -> Prop) (f : nat -> A -> list B) (g : A -> list C) (l : list A) :
  (forall i x, l !! i = Some x -> Forall2 R (f i x) (g x)) -> Forall2 R (concat (imap f l)) (l ≫= g).
Proof.
  revert f. induction l as [|x l IH]; intros f H; [constructor|]. cbn [imap concat mbind list_bind]. apply Forall2_app; [by apply (H 0%nat)|].
  apply (IH (fun i => f (S i))). intros i y Hy. by apply (H (S i)).
Qed.

Lemma Forall2_imap_fmap {A B C} (R : B -> C -> Prop) (f : nat -> A -> B) (g : A -> C) (l : list A) :
  (forall i x, l !! i = Some x -> R (f i x) (g x)) -> Forall2 R (imap f l) (g <$> l).
Proof.
  revert f. induction l as [|x l IH]; intros f H; [constructor|]. cbn [imap fmap list_fmap]. constructor; [by apply (H 0%nat)|].
  apply (IH (fun i => f (S i))). intros i y Hy. by apply (H (S i)).
Qed.

Lemma opens_exec : Forall2 opens (exec_headers p offs) (op_exec p ≫= exec_section).
Proof.
  apply Forall2_concat_imap. intros i e He. destruct (exec_piece p i e He) as [P1 P2]. destruct (exec_names_elem i e He) as [N1 N2].
  apply lookup_lt_Some in He. pose proof (ok_count _ Hok) as Hc. unfold section_count in Hc.
  constructor; [|constructor; [|constructor]].
  - apply opens_piece; try done; [by apply own_name|apply name_off_range].
  - apply opens_piece; try done; [by apply own_name|apply name_off_range|]. rewrite wrapU_small; unfold objNumSections; lia.
Qed.

Lemma opens_custom : Forall2 opens (custom_headers p offs) (custom_section <$> op_custom p).
Proof.
  apply Forall2_imap_fmap. intros i d Hd. pose proof (custom_piece p i d Hd) as P1. unfold custom_section.
  assert (E : (if is_rodata_name (ds_name d) then SHF_ALLOC else Z.lor SHF_ALLOC SHF_WRITE) = if is_rodata_name (ds_name d) then 2 else 3)
    by (by destruct (is_rodata_name _)). rewrite E.
  apply opens_piece; try done; [|apply name_off_range|by destruct (is_rodata_name _)].
  apply own_name. rewrite elem_of_app. right. apply list_elem_of_fmap_2. by eapply list_elem_of_lookup_2.
Qed.

Lemma opens_all : Forall2 opens (headers p) (sections p bss_data).
Proof. apply Forall2_app; [apply opens_fixed|]. apply Forall2_app; [apply opens_exec|apply opens_custom]. Qed.

(** ** Reading the headers *)

Lemma length_shdr h : length (shdr_bytes h) = 64%nat.
Proof. by apply length_record. Qed.

Lemma read_shdrs pre hs : Forall shdr_ok hs ->
  mapM (fun i => read_shdr (pre ++ concat (shdr_bytes <$> hs)) (bytes_len pre + 64 * Z.of_nat i)) (seq 0 (length hs)) = Some hs.
Proof.
  intros Hhs. apply mapM_Some. apply Forall2_same_length_lookup_2; [by rewrite length_seq|]. intros i k h Hk Hh. apply lookup_seq in Hk as [-> _].
  cbn [Nat.add]. unfold read_shdr. assert (Hb : (shdr_bytes <$> hs) !! i = Some (shdr_bytes h)) by (by rewrite list_lookup_fmap, Hh).
  assert (Hl : length (concat (take i (shdr_bytes <$> hs))) = (64 * i)%nat).
  { rewrite <- fmap_take. apply lookup_lt_Some in Hh. rewrite <- (length_take_le hs i) at 2 by lia. generalize (take i hs) as l. clear.
    induction l as [|h l IH]; [done|]. cbn [fmap list_fmap concat length]. cbn [fmap list_fmap] in IH. rewrite length_app, length_shdr, IH. lia. }
  rewrite (concat_piece _ _ _ Hb), app_assoc, drop_app_length'.
  - unfold shdr_bytes at 1. rewrite read_record; [by destruct h|done|]. apply (proj1 (list.Forall_forall _ _) Hhs h). by eapply list_elem_of_lookup_2.
  - rewrite length_app, Hl. unfold bytes_len. lia.
Qed.

Lemma pad8_length n : Z.of_nat (length (zeros (pad8 n))) = pad8 n.
Proof. rewrite length_zeros; [|unfold pad8]; pose proof (Z.mod_pos_bound (- n) 8); unfold pad8; lia. Qed.

Lemma NewFile_written : NewFile file = Some (ElfFile ET_REL (sections p bss_data)).
Proof.
  pose proof (ok_size _ Hok) as Hsize. pose proof (ok_count _ Hok) as Hc. pose proof (length_headers_eq p) as Hlen.
  set (e := pieces_end elfHdr (pieces p)) in *. assert (He : 64 <= e) by (unfold e, pieces_end, elfHdr; lia).
  assert (Hp8 : 0 <= pad8 e < 8) by (apply Z.mod_pos_bound; lia).
  assert (Hsec : 10 <= section_count p) by (unfold section_count; lia).
  assert (Hr : read_fields header_sizes file = obj_header_fields (e + pad8 e) (section_count p)).
  { rewrite file_eq. unfold head. fold e. rewrite Hlen. apply read_record; [done|].
    unfold obj_header_fields, header_sizes, ident, ET_REL, EM_AARCH64, objSecShstrtab. cbn [replicate app zip zip_with].
    repeat (apply list.Forall_cons; split; [split; cbn [fst snd]; lia|]). by apply list.Forall_nil. }
  assert (Hfl : file = (head ++ concat (pieces p) ++ zeros (pad8 e)) ++ concat (shdr_bytes <$> headers p)) by (rewrite file_eq, <- !app_assoc; done).
  assert (Hpre : bytes_len (head ++ concat (pieces p) ++ zeros (pad8 e)) = e + pad8 e).
  { unfold bytes_len. rewrite !length_app, !Nat2Z.inj_add, pad8_length, head_length. unfold e, pieces_end, elfHdr. lia. }
  assert (Hall : length (concat (shdr_bytes <$> headers p)) = (64 * length (headers p))%nat).
  { generalize (headers p) as l. clear. induction l as [|h l IH]; [done|]. cbn [fmap list_fmap concat length]. cbn [fmap list_fmap] in IH. rewrite length_app, length_shdr, IH. lia. }
  assert (Hbl : bytes_len file = e + pad8 e + 64 * section_count p).
  { rewrite Hfl. unfold bytes_len in *. rewrite length_app, Nat2Z.inj_add, Hpre, Hall. lia. }
  pose proof opens_all as Hopen.
  assert (Hshdrs : mapM (fun i => read_shdr file (e + pad8 e + 64 * Z.of_nat i)) (seq 0 (Z.to_nat (section_count p))) = Some (headers p)).
  { rewrite <- Hlen, Nat2Z.id, Hfl, <- Hpre. apply read_shdrs. eapply Forall2_Forall_l; [exact Hopen|]. apply list.Forall_forall. by intros s _ h [Hh _]. }
  unfold NewFile. rewrite Hr. unfold obj_header_fields, ident. cbn [replicate app]. rewrite bool_decide_eq_true_2 by done.
  rewrite Hbl. rewrite !(proj2 (Z.leb_le _ _)) by lia. rewrite (proj2 (Z.ltb_lt 0 (section_count p))) by lia.
  change objSecShstrtab with 9. rewrite (proj2 (Z.ltb_lt 9 (section_count p))) by lia. cbn [andb Z.eqb Z.ltb Z.compare Pos.eqb]. rewrite Hshdrs. cbn [mbind option_bind].
  rewrite (proj2 (forallb_forall _ _)).
  2: { intros h Hh. apply list_elem_of_In in Hh. assert (Ha : Forall shdr_ok (headers p)).
       { eapply Forall2_Forall_l; [exact Hopen|]. apply list.Forall_forall. by intros s _ h' [Hh' _]. }
       by apply (proj1 (list.Forall_forall _ _) Ha h Hh). }
  change (headers p !! Z.to_nat 9) with (Some (Shdr shstrShstrtab SHT_STRTAB 0 0 (offs (length (pieces p) - 1)%nat) (bytes_len (dynShstrtab p).1) 0 0 1 0)).
  cbn [mbind option_bind sh_type sh_off sh_size]. change (SHT_STRTAB =? SHT_STRTAB) with true. cbv beta iota.
  rewrite (range_of _ _ (shstrtab_piece p)). cbn [mbind option_bind].
  assert (Hm : mapM (open_section file (dynShstrtab p).1) (headers p) = Some (sections p bss_data)).
  { apply mapM_Some. eapply list.Forall2_impl; [exact Hopen|]. by intros h s [_ Hs]. }
  by rewrite Hm.
Qed.
End opening.
