(* ===== verification/ObjFold.v ===== *)
(** What the linker makes of a written object: custom sections appended to
    the standard ones, symbols and relocations moved with them. *)
From stdpp Require Import gmap strings.
From S2P Require Import Prelude Linker LinkSyms LinkLayout LinkReloc Arfmt Elf ObjWrite ObjParse ObjRound.
#[local] Open Scope Z_scope.

(** * The object that a file stands for *)

(** Parts appended to [d], each from a multiple of [n] on: the whole and the
    offsets. *)
Fixpoint folded (n : Z) (d : list Z) (l : list (list Z)) : list Z * list Z :=
  match l with
  | [] => (d, [])
  | x :: l => let d := pad_to n d in let '(r, offs) := folded n (d ++ x) l in (r, bytes_len d :: offs)
  end.

Definition whole_text (p : objParts) : list Z * list Z := folded 4 (op_text p) (es_text <$> op_exec p).
Definition whole_data (p : objParts) : list Z * list Z := folded 16 (op_data p) (ds_data <$> op_custom p).

(** The section and the value of a symbol by its section index: 1 to 9 are the
    standard sections, then come two for each code section, then the data
    sections. *)
Definition home (p : objParts) (shndx v : Z) : string * Z :=
  let k := (Z.to_nat shndx - 10)%nat in
  let n := length (op_exec p) in
  if shndx =? SHN_COMMON then ("COMMON"%string, v)
  else if shndx <? 10 then (default ""%string (standard_names !! Z.to_nat shndx), v)
  else if (k <? 2 * n)%nat then
    if Nat.even k then (".text"%string, u64 (v + default 0 ((whole_text p).2 !! (k / 2)%nat)))
    else (default ""%string (exec_names p !! k), v)
  else match (whole_data p).2 !! (k - 2 * n)%nat with
       | Some off => (".data"%string, u64 (v + off))
       | None => (""%string, v)
       end.

Definition sym_of (p : objParts) (s : objSym) : lnkSym :=
  let '(sec, v) := home p (st_shndx s) (st_value s) in
  LnkSym (sym_name (op_strtab p) (st_name s)) v (st_size s) sec (sym_bind (st_info s)) (Z.land (st_info s) 15).

Definition rela_of (base : Z) (r : objRela) : lnkRela :=
  LnkRela (u64 (base + r_off r)) (u32 (Z.shiftr (r_info r) 32)) (u32 (r_info r)) (r_addend r).

Definition object_of (nm : string) (p : objParts) : objFile :=
  ObjFile nm (whole_text p).1 (op_rodata p) (whole_data p).1 (op_bss p) (sym_of p <$> op_syms p)
    ((rela_of 0 <$> op_relas p) ++ concat (zip_with (fun off e => rela_of off <$> es_relas e) (whole_text p).2 (op_exec p)))
    (rela_of 0 <$> op_dataRelas p) false.

(** No section carries the name under which the relocations of a data section
    would be looked for. *)
Definition no_data_relas (p : objParts) : Prop := Forall (fun d => rela_name (ds_name d) ∉ names p) (op_custom p).

(** * Records *)

Lemma records_concat {A} (f : A -> list Z) n (l : list A) : (0 < n)%nat -> (forall x, length (f x) = n) -> records n (concat (f <$> l)) = f <$> l.
Proof.
  intros Hn Hf. unfold records.
  assert (Hl : forall l, length (concat (f <$> l)) = (length l * n)%nat).
  { clear l. induction l as [|x l IH]; [done|]. cbn [fmap list_fmap concat length]. cbn [fmap list_fmap] in IH. rewrite length_app, Hf, IH. lia. }
  rewrite Hl, Nat.div_mul by lia. apply list_eq_same_length with (length l); [by rewrite length_fmap|by rewrite length_fmap, length_seq|].
  intros i x y Hi Hx Hy. rewrite list_lookup_fmap, lookup_seq_lt in Hx by lia. injection Hx as <-.
  cbn [Nat.add]. assert (Htl : length (concat (take i (f <$> l))) = (i * n)%nat) by (rewrite <- fmap_take, Hl, length_take; lia).
  rewrite (concat_piece _ _ _ Hy), drop_app_length' by done. rewrite list_lookup_fmap in Hy.
  destruct (l !! i) as [a|]; [|done]. injection Hy as <-. by rewrite take_app_length' by (by rewrite Hf).
Qed.

Lemma length_sym s : length (sym_bytes s) = 24%nat. Proof. by apply length_record. Qed.
Lemma length_rela r : length (rela_bytes r) = 24%nat. Proof. by apply length_record. Qed.

Lemma parse_rela_bytes base r : rela_ok r -> parse_rela base (rela_bytes r) = rela_of base r.
Proof.
  intros (H1 & H2 & H3). unfold parse_rela, rela_bytes. rewrite <- (app_nil_r (write_fields _)), read_record; [|done|].
  - unfold rela_fields, rela_of. f_equal. rewrite <- (wrapS_small 64 (r_addend r)) at 2 by lia. apply wrapS_cong. unfold wrapU. by rewrite Z.mod_mod.
  - pose proof (wrapU_range 64 (r_addend r) ltac:(lia)). unfold rela_fields, rela_sizes. cbn [zip zip_with].
    repeat (apply list.Forall_cons; split; [split; cbn [fst snd]; lia|]). by apply list.Forall_nil.
Qed.

Lemma parse_relas_bytes base rs : Forall rela_ok rs -> parse_rela base <$> records 24 (relas_bytes rs) = rela_of base <$> rs.
Proof.
  intros H. unfold relas_bytes. rewrite records_concat by (lia || apply length_rela). rewrite <- list_fmap_compose. apply list_fmap_ext.
  intros i r Hr. cbn. apply parse_rela_bytes. apply (proj1 (list.Forall_forall _ _) H). by eapply list_elem_of_lookup_2.
Qed.

Lemma read_sym s : sym_ok s -> read_fields sym_sizes (sym_bytes s) = sym_fields s.
Proof. intros H. unfold sym_bytes. by rewrite <- (app_nil_r (write_fields _)), read_record. Qed.

(** * Sections by name *)

Lemma find_name (l : list elfSection) s : NoDup (sec_name <$> l) -> s ∈ l ->
  find (fun x => bool_decide (sec_name x = sec_name s)) l = Some s.
Proof.
  induction l as [|x l IH]; intros Hn Hs; [by apply elem_of_nil in Hs|]. cbn [fmap list_fmap] in Hn. apply list.NoDup_cons in Hn as [Hx Hn].
  cbn [find]. apply elem_of_cons in Hs as [->|Hs]; [by rewrite bool_decide_eq_true_2|].
  rewrite bool_decide_eq_false_2; [by apply IH|]. intros E. apply Hx. rewrite E. by apply (list_elem_of_fmap_2 sec_name).
Qed.

Lemma find_no_name (l : list elfSection) n : n ∉ (sec_name <$> l) -> find (fun x => bool_decide (sec_name x = n)) l = None.
Proof.
  induction l as [|x l IH]; intros Hn; [done|]. cbn [fmap list_fmap] in Hn. apply not_elem_of_cons in Hn as [Hx Hn]. cbn [find].
  rewrite bool_decide_eq_false_2 by congruence. by apply IH.
Qed.

Lemma section_names p bd : sec_name <$> sections p bd = names p.
Proof.
  unfold sections, names. rewrite !fmap_app. f_equal. f_equal.
  - unfold exec_names. induction (op_exec p) as [|e l IH]; [done|]. cbn [mbind list_bind]. cbn [mbind list_bind] in IH. by rewrite fmap_app, IH.
  - unfold custom_names. by rewrite <- list_fmap_compose.
Qed.

(** * Folding *)

(** The folds of consecutive sections, [step] indices apart. *)
Fixpoint add_folds (tgt : string) (step : nat) (k : nat) (offs : list Z) (fo : gmap Z foldInfo) : gmap Z foldInfo :=
  match offs with
  | [] => fo
  | o :: offs => add_folds tgt step (k + step) offs (<[Z.of_nat k := FoldInfo tgt o]> fo)
  end.

Lemma add_folds_lookup tgt step offs : (0 < step)%nat -> forall k fo j,
  add_folds tgt step k offs fo !! Z.of_nat j =
    if (k <=? j)%nat && ((j - k) mod step =? 0)%nat && ((j - k) / step <? length offs)%nat
    then FoldInfo tgt <$> offs !! ((j - k) / step)%nat else fo !! Z.of_nat j.
Proof.
  intros Hs. induction offs as [|o offs IH]; intros k fo j.
  - cbn [add_folds length]. rewrite (proj2 (Nat.ltb_ge _ 0)) by lia. by rewrite andb_false_r.
  - cbn [add_folds length]. rewrite IH. destruct (Nat.leb_spec k j) as [Hk|Hk].
    2: { rewrite (proj2 (Nat.leb_gt _ _)) by lia. cbn [andb]. apply lookup_insert_ne. lia. }
    destruct (decide (j = k)) as [->|Hj].
    { rewrite (proj2 (Nat.leb_gt _ _)) by lia. rewrite Nat.sub_diag, Nat.Div0.mod_0_l, Nat.Div0.div_0_l. cbn [andb Nat.eqb Nat.ltb Nat.leb].
      cbn [lookup list_lookup fmap option_fmap option_map]. apply lookup_insert_eq. }
    rewrite lookup_insert_ne by lia. cbn [andb]. destruct (Nat.leb_spec (k + step) j) as [H|H].
    + replace (j - k)%nat with (j - (k + step) + 1 * step)%nat by lia. rewrite Nat.Div0.mod_add, Nat.div_add by lia. cbn [andb].
      rewrite Nat.add_1_r. by replace (S ((j - (k + step)) / step) <? S (length offs))%nat with ((j - (k + step)) / step <? length offs)%nat by done.
    + cbn [andb]. rewrite Nat.mod_small by lia. by rewrite (proj2 (Nat.eqb_neq _ 0)) by lia.
Qed.

Lemma fold_sections_cons st i s l : fold_sections st i (s :: l) = st' ← fold_section st i s; fold_sections st' (S i) l.
Proof. done. Qed.

Lemma fold_one_exec t d b fo i e : standard (es_name e) = false -> Z.of_nat i < 2 ^ 16 ->
  fold_section (FoldState t d b fo) i (ElfSection (es_name e) SHT_PROGBITS 6 (bytes_len (es_text e)) (Some (es_text e))) =
  Some (FoldState (pad_to 4 t ++ es_text e) d b (<[Z.of_nat i := FoldInfo ".text" (bytes_len (pad_to 4 t))]> fo)).
Proof. intros He Hi. unfold fold_section. cbn [sec_name]. rewrite He, wrapU_small by lia. reflexivity. Qed.

Lemma fold_one_rela st i n sz d : fold_section st i (ElfSection n SHT_RELA 0 sz d) = Some st.
Proof. unfold fold_section. cbn [sec_name]. by destruct (standard n). Qed.

Lemma fold_one_custom t d b fo i e : standard (ds_name e) = false -> Z.of_nat i < 2 ^ 16 ->
  fold_section (FoldState t d b fo) i (custom_section e) =
  Some (FoldState t (pad_to 16 d ++ ds_data e) b (<[Z.of_nat i := FoldInfo ".data" (bytes_len (pad_to 16 d))]> fo)).
Proof.
  intros He Hi. unfold fold_section, custom_section. cbn [sec_name]. rewrite He, wrapU_small by lia. by destruct (is_rodata_name _).
Qed.

Lemma fold_exec l : forall i t d b fo rest, Forall (fun e => standard (es_name e) = false) l -> Z.of_nat (i + 2 * length l) < 2 ^ 16 ->
  fold_sections (FoldState t d b fo) i ((l ≫= exec_section) ++ rest) =
  let '(t', offs) := folded 4 t (es_text <$> l) in
  fold_sections (FoldState t' d b (add_folds ".text" 2 i offs fo)) (i + 2 * length l) rest.
Proof.
  induction l as [|e l IH]; intros i t d b fo rest Hst Hi.
  - cbn [mbind list_bind app fmap list_fmap folded length add_folds]. by rewrite Nat.add_0_r.
  - apply Forall_cons_1 in Hst as [He Hst]. cbn [length] in Hi.
    change (((e :: l) ≫= exec_section) ++ rest) with
      (ElfSection (es_name e) SHT_PROGBITS 6 (bytes_len (es_text e)) (Some (es_text e)) ::
       ElfSection (rela_name (es_name e)) SHT_RELA 0 (bytes_len (relas_bytes (es_relas e))) (Some (relas_bytes (es_relas e))) ::
       ((l ≫= exec_section) ++ rest)).
    rewrite fold_sections_cons, fold_one_exec by (done || lia). cbn [mbind option_bind]. rewrite fold_sections_cons, fold_one_rela. cbn [mbind option_bind].
    rewrite IH by (done || lia). cbn [fmap list_fmap folded]. destruct (folded 4 _ (es_text <$> l)) as [t' offs]. cbn [add_folds length].
    replace (i + 2)%nat with (S (S i)) by lia. f_equal. lia.
Qed.

Lemma fold_custom l : forall i t d b fo, Forall (fun e => standard (ds_name e) = false) l -> Z.of_nat (i + length l) < 2 ^ 16 ->
  fold_sections (FoldState t d b fo) i (custom_section <$> l) =
  let '(d', offs) := folded 16 d (ds_data <$> l) in
  Some (FoldState t d' b (add_folds ".data" 1 i offs fo)).
Proof.
  induction l as [|e l IH]; intros i t d b fo Hst Hi; [done|]. apply Forall_cons_1 in Hst as [He Hst]. cbn [length] in Hi.
  cbn [fmap list_fmap folded]. rewrite fold_sections_cons, fold_one_custom by (done || lia). cbn [mbind option_bind].
  rewrite IH by (done || lia). destruct (folded 16 _ (ds_data <$> l)) as [d' offs]. cbn [add_folds]. by rewrite Nat.add_1_r.
Qed.

Lemma fold_fixed st p bd rest : fold_sections st 0 (fixed_sections p bd ++ rest) = fold_sections st 10 rest.
Proof. reflexivity. Qed.

(** ** All of it *)

Definition all_folds (p : objParts) : gmap Z foldInfo :=
  add_folds ".data" 1 (10 + 2 * length (op_exec p)) (whole_data p).2 (add_folds ".text" 2 10 (whole_text p).2 ∅).

Lemma not_standard p n : NoDup (names p) -> n ∈ exec_names p ++ custom_names p -> standard n = false.
Proof.
  intros Hn Hin. unfold standard. apply bool_decide_eq_false_2. intros Hs. apply list.NoDup_app in Hn as (_ & Hd & _).
  apply (Hd n); [|done]. unfold standard_names. rewrite !elem_of_cons in *. tauto.
Qed.

Lemma fold_all p bd : parts_ok p ->
  fold_sections (FoldState (op_text p) (op_data p) (op_bss p) ∅) 0 (sections p bd) =
  Some (FoldState (whole_text p).1 (whole_data p).1 (op_bss p) (all_folds p)).
Proof.
  intros Hok. pose proof (ok_count _ Hok) as Hc. unfold section_count in Hc. unfold sections. rewrite fold_fixed, fold_exec.
  - unfold all_folds, whole_text, whole_data. destruct (folded 4 _ _) as [t offs]. rewrite fold_custom.
    + by destruct (folded 16 _ _) as [d offs2].
    + apply list.Forall_forall. intros d Hd. apply (not_standard p); [apply (ok_names _ Hok)|]. apply elem_of_app. right. by apply list_elem_of_fmap_2.
    + lia.
  - apply list.Forall_forall. intros e He. apply (not_standard p); [apply (ok_names _ Hok)|]. apply elem_of_app. left.
    apply list_elem_of_bind. exists e. split; [left|done].
  - lia.
Qed.

(** * Symbols *)

Lemma length_folded n l : forall d, length (folded n d l).2 = length l.
Proof. induction l as [|x l IH]; intros d; [done|]. cbn [folded]. specialize (IH (pad_to n d ++ x)). destruct (folded n _ l). cbn in *. by rewrite IH. Qed.

Lemma length_text_offs p : length (whole_text p).2 = length (op_exec p).
Proof. unfold whole_text. by rewrite length_folded, length_fmap. Qed.

Lemma length_data_offs p : length (whole_data p).2 = length (op_custom p).
Proof. unfold whole_data. by rewrite length_folded, length_fmap. Qed.

Lemma length_exec_names p : length (exec_names p) = (2 * length (op_exec p))%nat.
Proof. unfold exec_names. induction (op_exec p) as [|e l IH]; [done|]. cbn [mbind list_bind app length]. cbn [mbind list_bind] in IH. lia. Qed.

(** What is folded at an index. *)
Lemma all_folds_lookup p j : all_folds p !! Z.of_nat j =
  let n := length (op_exec p) in
  if (j <? 10)%nat then None
  else if (j - 10 <? 2 * n)%nat then
    if Nat.even (j - 10) then FoldInfo ".text" <$> (whole_text p).2 !! ((j - 10) / 2)%nat else None
  else FoldInfo ".data" <$> (whole_data p).2 !! (j - 10 - 2 * n)%nat.
Proof.
  cbn zeta. unfold all_folds. rewrite add_folds_lookup by lia. rewrite add_folds_lookup by lia. rewrite length_text_offs, length_data_offs.
  rewrite Nat.mod_1_r, Nat.div_1_r. cbn [Nat.eqb]. rewrite !andb_true_r, lookup_empty.
  set (n := length (op_exec p)). destruct (Nat.ltb_spec j 10).
  - rewrite !(proj2 (Nat.leb_gt _ _)) by lia. done.
  - destruct (Nat.ltb_spec (j - 10) (2 * n)).
    + rewrite (proj2 (Nat.leb_gt (10 + 2 * n) j)) by lia. rewrite (proj2 (Nat.leb_le 10 j)) by lia. cbn [andb].
      assert (Hd : ((j - 10) / 2 < n)%nat) by (apply Nat.Div0.div_lt_upper_bound; lia). rewrite (proj2 (Nat.ltb_lt _ n) Hd), andb_true_r.
      destruct (Nat.eqb_spec ((j - 10) mod 2) 0) as [E|E].
      * assert (Ev : Nat.even (j - 10) = true) by (apply Nat.even_spec; exists ((j - 10) / 2)%nat; pose proof (Nat.div_mod_eq (j - 10) 2); lia). by rewrite Ev.
      * assert (Ev : Nat.even (j - 10) = false).
        { apply not_true_iff_false. intros Hev. apply Nat.even_spec in Hev as [q Hq]. apply E. rewrite Hq, Nat.mul_comm. apply Nat.Div0.mod_mul. }
        by rewrite Ev.
    + rewrite (proj2 (Nat.leb_le (10 + 2 * n) j)) by lia. cbn [andb]. replace (j - (10 + 2 * n))%nat with (j - 10 - 2 * n)%nat by lia.
      destruct (Nat.ltb_spec (j - 10 - 2 * n) (length (op_custom p))); [done|].
      rewrite (lookup_ge_None_2 (whole_data p).2) by (rewrite length_data_offs; lia). rewrite (proj2 (Nat.leb_le 10 j)) by lia. cbn [andb].
      rewrite (proj2 (Nat.ltb_ge ((j - 10) / 2) n)) by (apply Nat.div_le_lower_bound; lia). by rewrite andb_false_r.
Qed.

Lemma sym_home_written p shndx v : section_count p < 0xff00 -> 0 <= shndx < 2 ^ 16 -> sym_home (names p) (all_folds p) shndx v = home p shndx v.
Proof.
  intros Hc Hs. unfold section_count in Hc. unfold sym_home, home. destruct (Z.eqb_spec shndx SHN_COMMON) as [->|Hcom].
  { reflexivity. }
  destruct (Z.eqb_spec shndx 0) as [->|H0]; [reflexivity|].
  rewrite <- (Z2Nat.id shndx) at 1 by lia. rewrite all_folds_lookup. cbn zeta. set (j := Z.to_nat shndx). set (n := length (op_exec p)).
  assert (Hj : Z.of_nat j = shndx) by (unfold j; lia). destruct (Z.ltb_spec shndx 10).
  - rewrite (proj2 (Nat.ltb_lt j 10)) by lia. unfold names. by rewrite lookup_app_l by (cbn; lia).
  - rewrite (proj2 (Nat.ltb_ge j 10)) by lia. destruct (Nat.ltb_spec (j - 10) (2 * n)).
    + destruct (Nat.even (j - 10)).
      * assert (Hd : ((j - 10) / 2 < length (whole_text p).2)%nat) by (rewrite length_text_offs; apply Nat.Div0.div_lt_upper_bound; fold n; lia).
        apply lookup_lt_is_Some_2 in Hd as [o ->]. reflexivity.
      * unfold names. rewrite lookup_app_r by (cbn; lia). change (length standard_names) with 10%nat.
        by rewrite lookup_app_l by (rewrite length_exec_names; fold n; lia).
    + destruct ((whole_data p).2 !! (j - 10 - 2 * n)%nat) as [o|] eqn:E; [reflexivity|]. cbn [fmap option_fmap option_map].
      apply lookup_ge_None in E. rewrite length_data_offs in E. f_equal. rewrite lookup_ge_None_2; [done|].
      unfold names, custom_names. rewrite !length_app, length_exec_names, length_fmap. change (length standard_names) with 10%nat. fold n. lia.
Qed.

Lemma parse_sym_written p s : parts_ok p -> sym_ok s -> parse_sym (names p) (all_folds p) (op_strtab p) (sym_bytes s) = sym_of p s.
Proof.
  intros Hok Hs. unfold parse_sym. rewrite read_sym by done. unfold sym_fields, sym_of.
  rewrite sym_home_written; [done|apply (ok_count _ Hok)|].
  unfold sym_ok, sym_sizes, sym_fields in Hs. cbn [zip zip_with] in Hs. rewrite !list.Forall_cons in Hs. destruct Hs as (_ & _ & _ & [H1 H2] & _).
  cbn [fst snd] in *. lia.
Qed.

Lemma parse_syms_written p bd : parts_ok p ->
  parse_syms (ElfFile ET_REL (sections p bd)) (all_folds p) = Some (sym_of p <$> op_syms p).
Proof.
  intros Hok. unfold parse_syms, Section_. cbn [e_sections]. rewrite section_names.
  change (find _ (sections p bd)) with (Some (ElfSection ".symtab" SHT_SYMTAB 0 (bytes_len (symtab_bytes p)) (Some (symtab_bytes p)))) at 1.
  change (find _ (sections p bd)) with (Some (ElfSection ".strtab" SHT_STRTAB 0 (bytes_len (op_strtab p)) (Some (op_strtab p)))).
  cbn [sec_data mbind option_bind]. unfold symtab_bytes. rewrite records_concat by (lia || apply length_sym). f_equal.
  rewrite <- list_fmap_compose. apply list_fmap_ext. intros i s Hs. cbn. apply parse_sym_written; [done|].
  apply (proj1 (list.Forall_forall _ _) (ok_syms _ Hok)). by eapply list_elem_of_lookup_2.
Qed.

(** * Relocations *)

Lemma find_exec_rela p bd e : parts_ok p -> e ∈ op_exec p ->
  Section_ (ElfFile ET_REL (sections p bd)) (rela_name (es_name e)) =
  Some (ElfSection (rela_name (es_name e)) SHT_RELA 0 (bytes_len (relas_bytes (es_relas e))) (Some (relas_bytes (es_relas e)))).
Proof.
  intros Hok He. unfold Section_. cbn [e_sections].
  apply (find_name (sections p bd) (ElfSection (rela_name (es_name e)) SHT_RELA 0 (bytes_len (relas_bytes (es_relas e))) (Some (relas_bytes (es_relas e))))).
  - rewrite section_names. apply (ok_names _ Hok).
  - unfold sections. apply elem_of_app. right. apply elem_of_app. left. apply list_elem_of_bind. exists e. split; [right; left|done].
Qed.

Lemma exec_relas_ok p e : parts_ok p -> e ∈ op_exec p -> Forall rela_ok (es_relas e).
Proof.
  intros Hok He. pose proof (ok_relas _ Hok) as H. apply list.Forall_app in H as [_ H]. apply list.Forall_app in H as [_ H].
  apply list.Forall_forall. intros r Hr. apply (proj1 (list.Forall_forall _ _) H). apply list_elem_of_bind. by exists e.
Qed.

(** The sections before the custom ones are not folded. *)
Lemma folded_relas_fixed p bd f rest rs : folded_relas f (all_folds p) 0 (fixed_sections p bd ++ rest) rs = folded_relas f (all_folds p) 10 rest rs.
Proof.
  assert (H : forall (l : list elfSection) i rs, (i + length l <= 10)%nat ->
    folded_relas f (all_folds p) i (l ++ rest) rs = folded_relas f (all_folds p) (i + length l) rest rs).
  { clear rs. induction l as [|s l IH]; intros i rs Hi; cbn [length] in *; [by rewrite Nat.add_0_r|]. cbn [app folded_relas].
    rewrite wrapU_small, all_folds_lookup by lia. cbn zeta. rewrite (proj2 (Nat.ltb_lt i 10)) by lia. rewrite IH by lia. f_equal. lia. }
  by apply (H (fixed_sections p bd) 0%nat).
Qed.

Lemma folded_relas_exec p bd rest : parts_ok p -> forall l i r1 r2, (forall j e, l !! j = Some e -> op_exec p !! (i + j)%nat = Some e) ->
  (i + length l <= length (op_exec p))%nat ->
  folded_relas (ElfFile ET_REL (sections p bd)) (all_folds p) (10 + 2 * i) ((l ≫= exec_section) ++ rest) (r1, r2) =
  folded_relas (ElfFile ET_REL (sections p bd)) (all_folds p) (10 + 2 * (i + length l)) rest
    (r1 ++ concat (zip_with (fun off e => rela_of off <$> es_relas e) (drop i (whole_text p).2) l), r2).
Proof.
  intros Hok. pose proof (ok_count _ Hok) as Hc. unfold section_count in Hc.
  induction l as [|e l IH]; intros i r1 r2 Hl Hi.
  { cbn [length mbind list_bind app]. rewrite zip_with_nil_r, Nat.add_0_r. by rewrite app_nil_r. }
  cbn [length] in Hi. pose proof (Hl 0%nat e eq_refl) as He. rewrite Nat.add_0_r in He. pose proof (list_elem_of_lookup_2 _ _ _ He) as Hin.
  change (((e :: l) ≫= exec_section) ++ rest) with
    (ElfSection (es_name e) SHT_PROGBITS 6 (bytes_len (es_text e)) (Some (es_text e)) ::
     ElfSection (rela_name (es_name e)) SHT_RELA 0 (bytes_len (relas_bytes (es_relas e))) (Some (relas_bytes (es_relas e))) ::
     ((l ≫= exec_section) ++ rest)).
  assert (Ho : is_Some ((whole_text p).2 !! i)) by (apply lookup_lt_is_Some_2; rewrite length_text_offs; lia). destruct Ho as [o Ho].
  cbn [folded_relas]. rewrite (wrapU_small 16 (Z.of_nat (10 + 2 * i))), (wrapU_small 16 (Z.of_nat (S (10 + 2 * i)))), !all_folds_lookup by lia. cbn zeta.
  rewrite !(proj2 (Nat.ltb_ge _ 10)) by lia. replace (10 + 2 * i - 10)%nat with (2 * i)%nat by lia. replace (S (10 + 2 * i) - 10)%nat with (S (2 * i)) by lia.
  rewrite !(proj2 (Nat.ltb_lt _ (2 * length (op_exec p)))) by lia.
  assert (Ev : Nat.even (2 * i) = true) by (apply Nat.even_spec; by exists i). rewrite Nat.even_succ, <- Nat.negb_even, Ev. cbn [negb].
  rewrite Nat.mul_comm, Nat.div_mul, Ho by lia. cbn [fmap option_fmap option_map fi_off fi_target sec_name].
  unfold parseRelas. rewrite find_exec_rela by done. cbn [sec_data mbind option_bind]. rewrite parse_relas_bytes by (by eapply exec_relas_ok).
  rewrite bool_decide_eq_true_2 by done. cbn [fst snd]. replace (S (S (10 + i * 2)))%nat with (10 + 2 * S i)%nat by lia. rewrite IH.
  - rewrite (drop_S _ _ _ Ho). cbn [zip_with concat length]. rewrite <- app_assoc. f_equal. lia.
  - intros j x Hx. rewrite Nat.add_succ_comm. apply (Hl (S j) x Hx).
  - lia.
Qed.

Lemma folded_relas_custom p bd : parts_ok p -> no_data_relas p -> forall l i rs, (forall d, d ∈ l -> d ∈ op_custom p) ->
  (i + length l <= length (op_custom p))%nat ->
  folded_relas (ElfFile ET_REL (sections p bd)) (all_folds p) (10 + 2 * length (op_exec p) + i) (custom_section <$> l) rs = Some rs.
Proof.
  intros Hok Hnr. pose proof (ok_count _ Hok) as Hc. unfold section_count in Hc.
  induction l as [|d l IH]; intros i [r1 r2] Hl Hi; [done|]. cbn [length] in Hi. cbn [fmap list_fmap folded_relas].
  rewrite wrapU_small, all_folds_lookup by lia. cbn zeta. rewrite (proj2 (Nat.ltb_ge _ 10)) by lia.
  rewrite (proj2 (Nat.ltb_ge _ (2 * length (op_exec p)))) by lia. replace (10 + 2 * length (op_exec p) + i - 10 - 2 * length (op_exec p))%nat with i by lia.
  assert (Ho : is_Some ((whole_data p).2 !! i)) by (apply lookup_lt_is_Some_2; rewrite length_data_offs; lia). destruct Ho as [o Ho]. rewrite Ho.
  cbn [fmap option_fmap option_map fi_off fi_target]. change (sec_name (custom_section d)) with (ds_name d). unfold parseRelas, Section_. cbn [e_sections].
  rewrite find_no_name by (rewrite section_names; apply (proj1 (list.Forall_forall _ _) Hnr); apply Hl; left).
  cbn [mbind option_bind]. rewrite bool_decide_eq_false_2, bool_decide_eq_true_2, app_nil_r by done. cbn [fst snd].
  rewrite <- Nat.add_succ_r. apply IH; [intros x Hx; apply Hl; by right|lia].
Qed.

(** * The object *)

Lemma read_standard p bd : let f := ElfFile ET_REL (sections p bd) in
  readSec f ".text" = Some (op_text p) /\ readSec f ".rodata" = Some (op_rodata p) /\ readSec f ".data" = Some (op_data p) /\
  Section_ f ".bss" = Some (ElfSection ".bss" SHT_NOBITS 3 (op_bss p) bd) /\
  Section_ f ".rela.text" = Some (ElfSection ".rela.text" SHT_RELA 0 (bytes_len (relas_bytes (op_relas p))) (Some (relas_bytes (op_relas p)))) /\
  Section_ f ".rela.data" = Some (ElfSection ".rela.data" SHT_RELA 0 (bytes_len (relas_bytes (op_dataRelas p))) (Some (relas_bytes (op_dataRelas p)))).
Proof. repeat split. Qed.

Lemma standard_relas p bd : parts_ok p -> let f := ElfFile ET_REL (sections p bd) in
  parseRelas f ".rela.text" 0 = Some (rela_of 0 <$> op_relas p) /\ parseRelas f ".rela.data" 0 = Some (rela_of 0 <$> op_dataRelas p).
Proof.
  intros Hok f. pose proof (ok_relas _ Hok) as H. apply list.Forall_app in H as [R1 H]. apply list.Forall_app in H as [R2 _].
  destruct (read_standard p bd) as (_ & _ & _ & _ & E1 & E2). fold f in E1, E2. unfold parseRelas. rewrite E1, E2. cbn [sec_data mbind option_bind].
  by rewrite !parse_relas_bytes.
Qed.

Lemma all_relas_written p bd r1 r2 : parts_ok p -> no_data_relas p ->
  folded_relas (ElfFile ET_REL (sections p bd)) (all_folds p) 0 (sections p bd) (r1, r2) =
  Some (r1 ++ concat (zip_with (fun off e => rela_of off <$> es_relas e) (whole_text p).2 (op_exec p)), r2).
Proof.
  intros Hok Hnr. set (f := ElfFile _ _). unfold sections. rewrite folded_relas_fixed. unfold f.
  rewrite (folded_relas_exec p bd _ Hok (op_exec p) 0) by (done || lia). rewrite <- (Nat.add_0_r (10 + 2 * (0 + length (op_exec p)))).
  change (0 + length (op_exec p))%nat with (length (op_exec p)). rewrite folded_relas_custom by (done || lia). done.
Qed.

Lemma parse_from f nm text rodata data sbss st ss r1 r2 t1 t2 : e_type f = ET_REL ->
  readSec f ".text" = Some text -> readSec f ".rodata" = Some rodata -> readSec f ".data" = Some data -> Section_ f ".bss" = Some sbss ->
  fold_sections (FoldState text data (sec_size sbss) ∅) 0 (e_sections f) = Some st -> parse_syms f (fs_folds st) = Some ss ->
  parseRelas f ".rela.text" 0 = Some r1 -> parseRelas f ".rela.data" 0 = Some r2 ->
  folded_relas f (fs_folds st) 0 (e_sections f) (r1, r2) = Some (t1, t2) ->
  parseObjELF nm f = Some (ObjFile nm (fs_text st) rodata (fs_data st) (fs_bss st) ss t1 t2 false).
Proof.
  intros H0 H1 H2 H3 H4 H5 H6 H7 H8 H9. unfold parseObjELF. rewrite H0, H1, H2, H3, H4. change (ET_REL =? ET_REL) with true.
  cbn [negb mbind option_bind]. rewrite H5. cbn [mbind option_bind]. rewrite H6, H7, H8. cbn [mbind option_bind]. by rewrite H9.
Qed.

Lemma parse_written nm p bd : parts_ok p -> no_data_relas p -> parseObjELF nm (ElfFile ET_REL (sections p bd)) = Some (object_of nm p).
Proof.
  intros Hok Hnr. destruct (read_standard p bd) as (E1 & E2 & E3 & E4 & _). destruct (standard_relas p bd Hok) as [R1 R2].
  exact (parse_from (ElfFile ET_REL (sections p bd)) nm _ _ _ _ _ _ _ _ _ _ eq_refl E1 E2 E3 E4 (fold_all p bd Hok) (parse_syms_written p bd Hok) R1 R2
    (all_relas_written p bd _ _ Hok Hnr)).
Qed.

Lemma load_written nm p : parts_ok p -> no_data_relas p -> loadObjFromBytes nm (write_obj p) = Some (object_of nm p).
Proof. intros Hok Hnr. unfold loadObjFromBytes. rewrite NewFile_written by done. cbn [mbind option_bind]. by apply parse_written. Qed.

(** ** Where the parts of a folded section are *)

Lemma pad_to_length n d : 0 < n -> bytes_len d <= bytes_len (pad_to n d) /\ bytes_len (pad_to n d) < bytes_len d + n /\ (n | bytes_len (pad_to n d)).
Proof.
  intros Hn. pose proof (Z.mod_pos_bound (- bytes_len d) n Hn) as Hm.
  assert (E : bytes_len (pad_to n d) = bytes_len d + (- bytes_len d) mod n).
  { unfold pad_to, bytes_len at 1. rewrite length_app, Nat2Z.inj_add, length_zeros, Z2Nat.id by lia. done. }
  rewrite E. split; [lia|]. split; [lia|]. exists (- (- bytes_len d / n)). pose proof (Z.div_mod (- bytes_len d) n ltac:(lia)). lia.
Qed.

Lemma folded_prefix n l : forall d j b, d !! j = Some b -> (folded n d l).1 !! j = Some b.
Proof.
  induction l as [|x l IH]; intros d j b H; [done|]. cbn [folded]. specialize (IH (pad_to n d ++ x) j b).
  destruct (folded n _ l) as [r offs]. cbn [fst] in *. apply IH. apply lookup_app_l_Some. unfold pad_to. by apply lookup_app_l_Some.
Qed.

Lemma folded_part n l : forall d i x, 0 < n -> l !! i = Some x -> exists off, (folded n d l).2 !! i = Some off /\ (n | off) /\ bytes_len d <= off /\
  forall j b, x !! j = Some b -> (folded n d l).1 !! (Z.to_nat off + j)%nat = Some b.
Proof.
  induction l as [|y l IH]; intros d i x Hn H; [done|]. destruct (pad_to_length n d Hn) as (P1 & P2 & P3). cbn [folded].
  destruct (folded n (pad_to n d ++ y) l) as [r offs] eqn:E. destruct i as [|i].
  - injection H as ->. exists (bytes_len (pad_to n d)). cbn [snd lookup list_lookup]. split; [done|]. split; [done|]. split; [done|].
    intros j b Hj. pose proof (folded_prefix n l (pad_to n d ++ x) (length (pad_to n d) + j)%nat b) as Hp. rewrite E in Hp. cbn [fst].
    unfold bytes_len. rewrite Nat2Z.id. apply Hp. rewrite lookup_app_r by lia. by rewrite Nat.add_comm, Nat.add_sub.
  - destruct (IH (pad_to n d ++ y) i x Hn H) as (off & Ho & Hd & Hle & Hc). rewrite E in Ho, Hc. exists off.
    cbn [snd fst lookup list_lookup] in *. split; [done|]. split; [done|]. split; [|done].
    unfold bytes_len in *. rewrite length_app in Hle. lia.
Qed.

Lemma offs_bound n l : forall d i off, 0 < n -> (folded n d l).2 !! i = Some off -> 0 <= off <= bytes_len d + Z.of_nat (length (concat l)) + n * Z.of_nat (length l).
Proof.
  induction l as [|x l IH]; intros d i off Hn H; [done|]. destruct (pad_to_length n d Hn) as (P1 & P2 & _). pose proof (bytes_len_nonneg d).
  cbn [folded] in H. destruct (folded n (pad_to n d ++ x) l) as [r offs] eqn:E. cbn [concat length]. rewrite length_app. destruct i as [|i].
  - injection H as <-. nia.
  - specialize (IH (pad_to n d ++ x) i off Hn). rewrite E in IH. specialize (IH H). unfold bytes_len in *. rewrite length_app in IH. nia.
Qed.

Section offsets.
Context (p : objParts) (Hok : parts_ok p).

Lemma text_off_small i off : (whole_text p).2 !! i = Some off -> 0 <= off < 2 ^ 33.
Proof.
  intros H. pose proof (ok_size _ Hok) as Hs. pose proof (ok_count _ Hok) as Hc. unfold section_count in Hc.
  pose proof (offs_bound 4 _ _ _ _ ltac:(lia) H) as Hb. rewrite length_fmap in Hb.
  assert (Hl : bytes_len (op_text p) + Z.of_nat (length (concat (es_text <$> op_exec p))) <= pieces_end elfHdr (pieces p)); [|lia].
  assert (He : forall l, (length (concat (es_text <$> l)) <= length (concat (l ≫= fun e => [es_text e; relas_bytes (es_relas e)])))%nat).
  { clear. induction l as [|e l IH]; [done|]. cbn [fmap list_fmap concat mbind list_bind app]. cbn [fmap list_fmap mbind list_bind] in IH. rewrite !length_app. lia. }
  specialize (He (op_exec p)). unfold pieces_end, pieces, fixed_pieces, exec_pieces, elfHdr, bytes_len. cbn [app concat]. rewrite !concat_app, !length_app. lia.
Qed.

Lemma data_off_small i off : (whole_data p).2 !! i = Some off -> 0 <= off < 2 ^ 33.
Proof.
  intros H. pose proof (ok_size _ Hok) as Hs. pose proof (ok_count _ Hok) as Hc. unfold section_count in Hc.
  pose proof (offs_bound 16 _ _ _ _ ltac:(lia) H) as Hb. rewrite length_fmap in Hb.
  assert (Hl : bytes_len (op_data p) + Z.of_nat (length (concat (ds_data <$> op_custom p))) <= pieces_end elfHdr (pieces p)); [|lia].
  unfold pieces_end, pieces, fixed_pieces, custom_pieces, elfHdr, bytes_len. cbn [app concat]. rewrite !concat_app, !length_app. lia.
Qed.
End offsets.
