(* ===== verification/ObjSpec.v ===== *)
(** What object files promise between the compiler and the linker: what was
    written is read, and every symbol and relocation still designates the byte
    it was written for. *)
From stdpp Require Import gmap strings.
From S2P Require Import Prelude Linker LinkSyms LinkLayout LinkReloc Arfmt Elf ObjWrite ObjParse ObjRound ObjFold.
#[local] Open Scope Z_scope.

(** * The promises *)


(** ** Where things are *)



(** ** Symbols and relocations *)

Section moved.
Context (nm : string) (p : objParts) (Hok : parts_ok p).

End moved.


(** * A concrete object *)






(** * A section named like a standard one *)

(** Nothing keeps a program from naming a section .text: its code is then
    written as a second section of that name, which the reader takes for the
    first.  The code is dropped and its symbols are left at the same offsets of
    the first. *)
Definition parts1 : objParts :=
  ObjParts [1; 2; 3; 4] [] [] 0 [ObjSym 0 0 0 0 0 0; ObjSym 1 0x12 0 10 0 4] 1 [0; 102; 0] [] []
    [ExecSection ".text" [11; 12; 13; 14] []] [].

Lemma section_named_text_lost : exists o, loadObjFromBytes "a.o" (write_obj parts1) = Some o /\
  textData o = [1; 2; 3; 4] /\ (secName <$> syms o) = [""; ".text"]%string /\ (value <$> syms o) = [0; 0].
Proof. eexists. split; [vm_compute; reflexivity|]. by vm_compute. Qed.
