(* ===== verification/ObjData.v ===== *)
(** The data of an object (objgen.go): where genObjectTo puts the globals of a
    program, the bytes of .data, .rodata and the custom data sections, and the
    relocations of .data. *)
From stdpp Require Import gmap strings.
From S2P Require Import Prelude Align Linker LinkLayout LinkReloc Arfmt Elf.
#[local] Open Scope Z_scope.

(** * Globals (ir.go) *)

Record InitReloc := mkInitReloc { ByteOff : Z; Label : string; Addend : Z }.

(** The fields of IRGlobal that the object writer reads. *)
Record IRGlobal := mkIRGlobal {
  Name : string;
  IsArr : bool;
  IsExtern : bool;
  IsStatic : bool;
  IsWeak : bool;
  SectionName : string;
  Align : Z;
  Size : Z;
  HasInitVal : bool;
  InitVal : Z;
  InitData : list Z;
  InitRelocs : list InitReloc
}.

(** [len(gbl.InitData) > 0] *)
Definition has_data (g : IRGlobal) : bool := 0 <? bytes_len (InitData g).
Definition scalar_init (g : IRGlobal) : bool := HasInitVal g && negb (IsArr g).

(** * Placing the globals *)

Record globalSlot := GlobalSlot {
  gbl : IRGlobal; inData : bool; isCommon : bool; dataOff : Z; bssOff : Z; customOff : Z }.

Record dataState := DataState {
  slots : list globalSlot;
  customSlots : list globalSlot;
  dataTotal : Z;
  bssTotal : Z;
  customSecData : gmap string (list Z);
  customSecOffset : gmap string Z
}.

Definition empty_data : dataState := DataState [] [] 0 0 ∅ ∅.

(** An offset moved up to the alignment that is asked for, if any. *)
Definition aligned (off al : Z) : Z := if 0 <? al then align_up off al else off.

Definition put64 (v : Z) : list Z := le_bytes 8 (u64 v).

(** The bytes of a global of a custom section, and the size they count for. *)
Definition custom_bytes (g : IRGlobal) : list Z :=
  if scalar_init g then put64 (InitVal g)
  else if has_data g then
    InitData g ++ (if negb (bytes_len (InitData g) mod 8 =? 0) then zeros (8 - bytes_len (InitData g) mod 8) else [])
  else zeros (u64 (Size g * 8)).

Definition place_custom (st : dataState) (g : IRGlobal) : dataState :=
  let sec := SectionName g in
  let off := default 0 (customSecOffset st !! sec) in
  let data := custom_bytes g in
  DataState (slots st) (customSlots st ++ [GlobalSlot g true false 0 0 off]) (dataTotal st) (bssTotal st)
    (<[sec := default [] (customSecData st !! sec) ++ data]> (customSecData st))
    (<[sec := u64 (off + bytes_len data)]> (customSecOffset st)).

Definition alignTo (g : IRGlobal) : Z := if (0 <? Align g) && (8 <? Align g) then Align g else 8.

(** The size of a global's place in .data. *)
Definition slot_size (g : IRGlobal) : Z :=
  if scalar_init g then u64 ((if Size g =? 0 then 1 else Size g) * 8)
  else
    let sz := bytes_len (InitData g) in
    if negb (sz mod alignTo g =? 0) then align_up sz (alignTo g) else sz.

Definition place_default (st : dataState) (g : IRGlobal) : dataState :=
  let put sl data bss := DataState (slots st ++ [sl]) (customSlots st) data bss (customSecData st) (customSecOffset st) in
  if scalar_init g || has_data g then
    let off := aligned (dataTotal st) (Align g) in
    put (GlobalSlot g true false off 0 0) (u64 (off + slot_size g)) (bssTotal st)
  else if negb (IsStatic g) && negb (IsWeak g) then put (GlobalSlot g false true 0 0 0) (dataTotal st) (bssTotal st)
  else
    let off := aligned (bssTotal st) (Align g) in
    put (GlobalSlot g false false 0 off 0) (dataTotal st) (u64 (off + u64 (Size g * 8))).

Definition place_global (st : dataState) (g : IRGlobal) : dataState :=
  if IsExtern g then st
  else if bool_decide (SectionName g = ""%string) then place_default st g
  else place_custom st g.

Definition place_globals (gs : list IRGlobal) : dataState := foldl place_global empty_data gs.

(** * The bytes of .data *)

(** [binary.LittleEndian.PutUint64(d[off:], v)] *)
Definition put64_at (d : list Z) (off v : Z) : res (list Z) :=
  if off + 8 <=? bytes_len d then copy_at d off (put64 v) else Err Panic.

Record dataReloc := DataReloc { dr_offset : Z; dr_symbol : string; dr_addend : Z }.

(** The sign extension of a 64-bit initialiser. *)
Definition high_word (v : Z) : Z := if v <? 0 then 2 ^ 64 - 1 else 0.

Definition fill_slot (d : list Z) (sl : globalSlot) : res (list Z) :=
  let g := gbl sl in
  if negb (inData sl) then Ok d
  else if HasInitVal g && negb (has_data g) then
    d ← put64_at d (dataOff sl) (InitVal g);
    if 2 <=? Size g then put64_at d (u64 (dataOff sl + 8)) (high_word (InitVal g)) else Ok d
  else if has_data g then copy_at d (dataOff sl) (InitData g)
  else Ok d.

Definition slot_relocs (sl : globalSlot) : list dataReloc :=
  let g := gbl sl in
  if inData sl && negb (HasInitVal g && negb (has_data g)) && has_data g then
    (fun r => DataReloc (u64 (dataOff sl + u64 (ByteOff r))) (Label r) (Addend r)) <$> InitRelocs g
  else [].

Definition dataBytes (st : dataState) : res (list Z) := foldM fill_slot (slots st) (zeros (dataTotal st)).
Definition dataRelocs (st : dataState) : list dataReloc := slots st ≫= slot_relocs.

(** * String literals *)

Record IRStrLit := StrLit { sl_label : string; sl_content : list Z }.
Record rodataEntry := RodataEntry { re_label : string; re_bytes : list Z; re_offset : Z }.

Fixpoint rodata_list (off : Z) (ls : list IRStrLit) : list rodataEntry :=
  match ls with
  | [] => []
  | l :: ls =>
      let b := sl_content l ++ [0] in
      RodataEntry (sl_label l) b off :: rodata_list (u64 (off + bytes_len b)) ls
  end.

Definition rodataBytes (ls : list IRStrLit) : res (list Z) :=
  foldM (fun d e => copy_at d (re_offset e) (re_bytes e)) (rodata_list 0 ls)
    (zeros (foldl (fun n e => u64 (n + bytes_len (re_bytes e))) 0 (rodata_list 0 ls))).
