(* ===== verification/ObjPlace.v ===== *)
(** Where the globals of a program lie: lemmas about the data of an object. *)
From stdpp Require Import gmap strings.
From S2P Require Import Prelude Align Linker LinkLayout LinkReloc Arfmt Elf ObjData.
#[local] Open Scope Z_scope.

(** * Globals that make sense *)

(** An initialised scalar has no initialiser list; an alignment is a power of
    two. *)
Record global_ok (g : IRGlobal) : Prop := {
  ok_gsize : 0 <= Size g;
  ok_galign : Align g <= 0 \/ pow2 (Align g);
  ok_ginit : scalar_init g = true -> InitData g = []
}.

(** More than a global takes, alignment included. *)
Definition room (g : IRGlobal) : Z := 8 * (Size g + 1) + bytes_len (InitData g) + 2 * Z.max 8 (Align g).

Definition globals_fit (gs : list IRGlobal) : Prop := Forall global_ok gs /\ zsum (room <$> gs) < 2 ^ 62.

(** The initial contents: a scalar's value in two's complement, as wide as the
    scalar. *)
Definition init_bytes (g : IRGlobal) : list Z :=
  if scalar_init g then le_bytes (if 2 <=? Size g then 16 else 8) (InitVal g) else InitData g.

Definition data_span (sl : globalSlot) : Z * Z := (dataOff sl, slot_size (gbl sl)).
Definition in_bss (sl : globalSlot) : bool := negb (inData sl) && negb (isCommon sl).
Definition bss_span (sl : globalSlot) : Z * Z := (bssOff sl, 8 * Size (gbl sl)).

Definition data_spans (l : list globalSlot) : list (Z * Z) := data_span <$> filter (fun sl => inData sl) l.
Definition bss_spans (l : list globalSlot) : list (Z * Z) := bss_span <$> filter (fun sl => in_bss sl) l.

(** Where a slot is follows from its global. *)
Definition slot_ok (sl : globalSlot) : Prop := let g := gbl sl in
  global_ok g /\
  inData sl = scalar_init g || has_data g /\
  isCommon sl = negb (inData sl) && negb (IsStatic g) && negb (IsWeak g) /\
  (0 < Align g -> (Align g | if inData sl then dataOff sl else bssOff sl)).

Definition placed_by_default (g : IRGlobal) : bool := negb (IsExtern g) && bool_decide (SectionName g = ""%string).

Lemma room_pos g : global_ok g -> 0 <= room g.
Proof. intros [H _ _]. unfold room. pose proof (bytes_len_nonneg (InitData g)). lia. Qed.

(** * One global *)

Lemma aligned_spec off al : al <= 0 \/ pow2 al -> 0 <= off -> off + Z.max 8 al <= 2 ^ 63 ->
  off <= aligned off al <= off + Z.max 8 al /\ (0 < al -> (al | aligned off al)).
Proof.
  intros Ha Ho Hb. unfold aligned. destruct (Z.ltb_spec 0 al); [|lia]. destruct Ha as [|Ha]; [lia|].
  destruct (align_up_spec off al Ha Ho ltac:(lia)) as [H1 H2]. split; [lia|done].
Qed.

Lemma pow2_8 : pow2 8. Proof. by exists 3. Qed.

Lemma alignTo_spec g : Align g <= 0 \/ pow2 (Align g) -> pow2 (alignTo g) /\ alignTo g <= Z.max 8 (Align g) /\ (8 | alignTo g).
Proof.
  intros Ha. unfold alignTo. destruct (Z.ltb_spec 0 (Align g)), (Z.ltb_spec 8 (Align g)); cbn [andb];
    try (split; [apply pow2_8|]; split; [lia|by exists 1]).
  destruct Ha as [|(k & Hk & E)]; [lia|]. split; [by exists k|]. split; [lia|]. rewrite E in *. exists (2 ^ (k - 3)).
  assert (3 < k) by (apply (Z.pow_lt_mono_r_iff 2); lia). change 8 with (2 ^ 3). rewrite <- Z.pow_add_r by lia. f_equal. lia.
Qed.

Lemma slot_size_spec g : global_ok g -> room g <= 2 ^ 62 -> scalar_init g || has_data g = true ->
  bytes_len (init_bytes g) <= slot_size g <= 8 * (Size g + 1) + bytes_len (InitData g) + Z.max 8 (Align g) /\ (8 | slot_size g).
Proof.
  intros [Hs Ha _] Hr Hd. unfold room in Hr. pose proof (bytes_len_nonneg (InitData g)). unfold slot_size, init_bytes.
  destruct (scalar_init g) eqn:E.
  - unfold bytes_len at 1. rewrite length_le_bytes.
    destruct (Z.eqb_spec (Size g) 0), (Z.leb_spec 2 (Size g)); rewrite wrapU_small by lia; (split; [lia|]); by apply Z.divide_factor_r.
  - clear Hd. pose proof (alignTo_spec g Ha) as Hal. revert Hal. generalize (alignTo g). intros al Hal.
    destruct Hal as (Hp & Hle & Hd). pose proof (pow2_pos _ Hp).
    destruct (Z.eqb_spec (bytes_len (InitData g) mod al) 0) as [Em|Em]; cbn [negb].
    + split; [lia|]. transitivity al; [done|]. apply Z.mod_divide; [lia|done].
    + destruct (align_up_spec (bytes_len (InitData g)) al Hp ltac:(lia) ltac:(lia)) as [H1 H2]. split; [lia|]. by transitivity al.
Qed.

(** ** A step *)


(** What a run of [place_global] does: it adds slots, one for each global that
    is placed by default, in the free part of the two sections. *)
Definition grows (st st' : dataState) (gs : list IRGlobal) : Prop := exists new,
  slots st' = slots st ++ new /\ gbl <$> new = filter (fun g => placed_by_default g) gs /\ Forall slot_ok new /\
  packed (dataTotal st) (data_spans new) (dataTotal st') /\ packed (bssTotal st) (bss_spans new) (bssTotal st') /\
  dataTotal st' <= dataTotal st + zsum (room <$> gs) /\ bssTotal st' <= bssTotal st + zsum (room <$> gs).

Lemma grows_none st st' g : placed_by_default g = false -> global_ok g -> slots st' = slots st -> dataTotal st' = dataTotal st ->
  bssTotal st' = bssTotal st -> grows st st' [g].
Proof.
  intros Hp Hg E1 E2 E3. pose proof (room_pos g Hg). exists []. rewrite E1, E2, E3, app_nil_r. cbn. rewrite Hp. cbn.
  split; [done|]. split; [done|]. split; [constructor|]. lia.
Qed.

Lemma grows_one st st' g sl : placed_by_default g = true -> gbl sl = g -> slots st' = slots st ++ [sl] -> slot_ok sl ->
  packed (dataTotal st) (data_spans [sl]) (dataTotal st') -> packed (bssTotal st) (bss_spans [sl]) (bssTotal st') ->
  dataTotal st' <= dataTotal st + room g -> bssTotal st' <= bssTotal st + room g -> grows st st' [g].
Proof.
  intros Hp Hg E Hs P1 P2 B1 B2. exists [sl]. cbn. rewrite Hp, Hg. cbn.
  split; [done|]. split; [done|]. split; [by constructor|]. split; [done|]. split; [done|]. lia.
Qed.

Lemma place_default_grows st g : global_ok g -> placed_by_default g = true -> 0 <= dataTotal st -> 0 <= bssTotal st ->
  dataTotal st + room g <= 2 ^ 62 -> bssTotal st + room g <= 2 ^ 62 -> grows st (place_default st g) [g].
Proof.
  intros Hg Hp Hd Hb Bd Bb. pose proof Hg as [Hs Ha Hi]. pose proof (bytes_len_nonneg (InitData g)) as Hl. unfold place_default.
  destruct (scalar_init g || has_data g) eqn:E.
  - destruct (slot_size_spec g Hg) as [Hz _]; [lia|done|]. pose proof (bytes_len_nonneg (init_bytes g)). unfold room in *.
    destruct (aligned_spec (dataTotal st) (Align g)) as [A1 A2]; [done..|lia|].
    eapply grows_one; [done|..]; [|reflexivity|..]; cbn [gbl slots dataTotal bssTotal]; [done|..|unfold room; lia].
    + split; [done|]. cbn. by rewrite E.
    + apply packed_one; cbn [dataOff gbl]; rewrite ?wrapU_small by lia; lia.
    + apply Z.le_refl.
    + rewrite wrapU_small by lia. unfold room. lia.
  - destruct (negb (IsStatic g) && negb (IsWeak g)) eqn:E2.
    + eapply grows_one; [done|..]; [|reflexivity|..]; cbn [gbl slots dataTotal bssTotal]; [done|..|unfold room; lia|unfold room; lia].
      * split; [done|]. cbn. rewrite E. split; [done|]. split; [by rewrite <- E2|]. intros. apply Z.divide_0_r.
      * apply Z.le_refl.
      * apply Z.le_refl.
    + unfold room in *. destruct (aligned_spec (bssTotal st) (Align g)) as [A1 A2]; [done..|lia|].
      eapply grows_one; [done|..]; [|reflexivity|..]; cbn [gbl slots dataTotal bssTotal]; [done|..].
      * split; [done|]. cbn. rewrite E. by rewrite <- E2.
      * apply Z.le_refl.
      * apply packed_one; cbn [bssOff gbl]; rewrite ?(wrapU_small 64 (Size g * 8)), ?wrapU_small by lia; lia.
      * unfold room. lia.
      * rewrite (wrapU_small 64 (Size g * 8)) by lia. rewrite wrapU_small by lia. unfold room. lia.
Qed.

Lemma place_global_grows st g : global_ok g -> 0 <= dataTotal st -> 0 <= bssTotal st ->
  dataTotal st + room g <= 2 ^ 62 -> bssTotal st + room g <= 2 ^ 62 -> grows st (place_global st g) [g].
Proof.
  intros Hg Hd Hb Bd Bb. unfold place_global. destruct (IsExtern g) eqn:E; [by apply grows_none; unfold placed_by_default; rewrite ?E|].
  destruct (bool_decide (SectionName g = ""%string)) eqn:E2.
  - apply place_default_grows; [done|by unfold placed_by_default; rewrite E, E2|done..].
  - by apply grows_none; unfold placed_by_default; rewrite ?E, ?E2.
Qed.

Lemma grows_trans st1 st2 st3 gs1 gs2 : grows st1 st2 gs1 -> grows st2 st3 gs2 -> grows st1 st3 (gs1 ++ gs2).
Proof.
  intros (n1 & E1 & F1 & S1 & D1 & B1 & T1 & U1) (n2 & E2 & F2 & S2 & D2 & B2 & T2 & U2). exists (n1 ++ n2).
  rewrite E2, E1, app_assoc. split; [done|]. rewrite fmap_app, list.filter_app, F1, F2. split; [done|]. split; [by apply list.Forall_app|].
  unfold data_spans, bss_spans. rewrite !list.filter_app, !fmap_app.
  split; [by eapply packed_app|]. split; [by eapply packed_app|].
  assert (E : zsum ((room <$> gs1) ++ (room <$> gs2)) = zsum (room <$> gs1) + zsum (room <$> gs2)).
  { clear. unfold zsum. induction gs1 as [|g gs1 IH]; cbn in *; lia. }
  rewrite E. lia.
Qed.

Lemma place_globals_grow gs : forall st, Forall global_ok gs -> 0 <= dataTotal st -> 0 <= bssTotal st ->
  dataTotal st + zsum (room <$> gs) <= 2 ^ 62 -> bssTotal st + zsum (room <$> gs) <= 2 ^ 62 ->
  grows st (foldl place_global st gs) gs.
Proof.
  induction gs as [|g gs IH]; intros st Hg Hd Hb Bd Bb.
  - exists []. rewrite app_nil_r. cbn. split; [done|]. split; [done|]. split; [constructor|]. lia.
  - apply Forall_cons_1 in Hg as [Hg Hgs]. cbn [foldl].
    assert (Hr : 0 <= zsum (room <$> gs)).
    { clear -Hgs. unfold zsum. induction Hgs as [|g gs H _ IH]; cbn; [lia|]. pose proof (room_pos g H). cbn in IH. lia. }
    change (zsum (room <$> g :: gs)) with (room g + zsum (room <$> gs)) in *.
    pose proof (place_global_grows st g Hg Hd Hb ltac:(lia) ltac:(lia)) as G.
    apply (grows_trans st _ _ [g] gs G). destruct G as (n & _ & _ & _ & P1 & P2 & T1 & T2). apply packed_le in P1, P2.
    cbn in T1, T2. apply IH; [done|lia..].
Qed.

(** * The bytes of .data *)

Definition slot_touched (sl : globalSlot) : list nat :=
  if inData sl then seq (Z.to_nat (dataOff sl)) (Z.to_nat (slot_size (gbl sl))) else [].

(** A slot holds the initial contents of its global, and what follows is left
    as it was. *)
Definition slot_filled (sl : globalSlot) (d d' : list Z) : Prop := inData sl = true -> forall j, (j < Z.to_nat (slot_size (gbl sl)))%nat ->
  d' !! (Z.to_nat (dataOff sl) + j)%nat = match init_bytes (gbl sl) !! j with Some b => Some b | None => d !! (Z.to_nat (dataOff sl) + j)%nat end.

Lemma copy_fills sl d src : src = init_bytes (gbl sl) -> 0 <= dataOff sl -> bytes_len src <= slot_size (gbl sl) ->
  dataOff sl + slot_size (gbl sl) <= bytes_len d -> inData sl = true ->
  exists d', copy_at d (dataOff sl) src = Ok d' /\ length d' = length d /\ (forall j, j ∉ slot_touched sl -> d' !! j = d !! j) /\ slot_filled sl d d'.
Proof.
  intros Hi Ho Hl Hf Hd. unfold bytes_len in *. destruct (copy_at_ok d (dataOff sl) src) as (d' & E & L & U & F); [lia|].
  exists d'. split; [done|]. split; [done|]. unfold slot_touched, slot_filled. rewrite Hd, <- Hi. split.
  - intros j Hj. apply U. rewrite elem_of_seq in *. lia.
  - intros _ j Hj. destruct (src !! j) as [b|] eqn:E2.
    + rewrite <- E2. apply F. by apply lookup_lt_Some in E2.
    + apply U. rewrite elem_of_seq. apply lookup_ge_None in E2. lia.
Qed.

Lemma le_bytes_app n m v : le_bytes (n + m) v = le_bytes n v ++ le_bytes m (v / 256 ^ Z.of_nat n).
Proof.
  revert v. induction n as [|n IH]; intros v; [by rewrite Z.div_1_r|]. cbn [Nat.add le_bytes app]. f_equal. rewrite IH.
  rewrite Z.div_div by lia. rewrite Nat2Z.inj_succ, Z.pow_succ_r by lia. done.
Qed.

Lemma le_bytes_mod n v : le_bytes n (v mod 256 ^ Z.of_nat n) = le_bytes n v.
Proof.
  revert v. induction n as [|n IH]; intros v; [done|]. cbn [le_bytes]. rewrite Nat2Z.inj_succ, Z.pow_succ_r by lia.
  rewrite Z.rem_mul_r by lia. f_equal.
  - rewrite (Z.mul_comm 256), Z.mod_add, Z.mod_mod by lia. done.
  - rewrite <- (IH (v / 256)). f_equal. rewrite (Z.mul_comm 256), Z.div_add by lia. by rewrite (Z.div_small (v mod 256)) by (apply Z.mod_pos_bound; lia).
Qed.

Lemma put64_le v : put64 v = le_bytes 8 v.
Proof. unfold put64. by rewrite <- (le_bytes_mod 8 v). Qed.

(** A value and its sign are the value at twice the width. *)
Lemma put128 v : - 2 ^ 63 <= v < 2 ^ 63 -> put64 v ++ put64 (high_word v) = le_bytes 16 v.
Proof.
  intros Hv. rewrite !put64_le. change 16%nat with (8 + 8)%nat. rewrite le_bytes_app. f_equal. change (256 ^ Z.of_nat 8) with (2 ^ 64).
  unfold high_word. destruct (Z.ltb_spec v 0).
  - replace (v / 2 ^ 64) with (-1) by (apply (Z.div_unique v (2 ^ 64) (-1) (v + 2 ^ 64)); lia). vm_compute. done.
  - by rewrite Z.div_small by lia.
Qed.

Lemma copy_at_eq d off src : (Z.to_nat off + length src <= length d)%nat ->
  copy_at d off src = Ok (take (Z.to_nat off) d ++ src ++ drop (Z.to_nat off + length src) d).
Proof. intros H. unfold copy_at. rewrite (proj2 (Nat.leb_le _ _)) by lia. by rewrite (take_ge src) by lia. Qed.

Lemma copy_at_twice d off s1 s2 d1 : (Z.to_nat off + (length s1 + length s2) <= length d)%nat -> 0 <= off ->
  copy_at d off s1 = Ok d1 -> copy_at d1 (off + bytes_len s1) s2 = copy_at d off (s1 ++ s2).
Proof.
  intros Hl Ho E. rewrite copy_at_eq in E by lia. injection E as <-. set (i := Z.to_nat off) in *.
  assert (Hi : Z.to_nat (off + bytes_len s1) = (i + length s1)%nat) by (unfold bytes_len, i; lia).
  assert (Ht : length (take i d ++ s1) = (i + length s1)%nat) by (rewrite length_app, length_take; lia).
  rewrite !copy_at_eq, Hi by (rewrite ?Hi, !length_app, ?length_take, ?length_drop; unfold i; lia). fold i. f_equal.
  rewrite !(app_assoc (take i d)). rewrite take_app_length', drop_app_ge by lia. rewrite Ht, drop_drop, length_app, <- !app_assoc.
  replace (i + length s1 + (i + length s1 + length s2 - (i + length s1)))%nat with (i + (length s1 + length s2))%nat by lia. done.
Qed.

Definition value_ok (g : IRGlobal) : Prop := - 2 ^ 63 <= InitVal g < 2 ^ 63.

Lemma fill_slot_ok d sl : slot_ok sl -> room (gbl sl) <= 2 ^ 62 -> value_ok (gbl sl) -> 0 <= dataOff sl < 2 ^ 63 -> (inData sl = true -> dataOff sl + slot_size (gbl sl) <= bytes_len d) ->
  exists d', fill_slot d sl = Ok d' /\ length d' = length d /\ (forall j, j ∉ slot_touched sl -> d' !! j = d !! j) /\ slot_filled sl d d'.
Proof.
  intros (Hg & Hin & _ & _) Hr Hv Ho Hf. set (g := gbl sl) in *. unfold fill_slot. fold g. destruct (inData sl) eqn:Ed; cbn [negb].
  2: { exists d. split; [done|]. split; [done|]. split; [done|]. unfold slot_filled. by rewrite Ed. }
  specialize (Hf eq_refl). destruct (slot_size_spec g Hg Hr (eq_sym Hin)) as [[Hz _] _].
  assert (Ei : scalar_init g = true -> HasInitVal g && negb (has_data g) = true).
  { intros E. pose proof (ok_ginit g Hg E) as E2. unfold has_data. rewrite E2. unfold scalar_init in E. by destruct (HasInitVal g). }
  assert (En : scalar_init g = false -> HasInitVal g && negb (has_data g) = false /\ has_data g = true).
  { intros E. rewrite E in Hin. cbn [orb] in Hin. rewrite <- Hin. by rewrite andb_false_r. }
  unfold init_bytes in Hz. destruct (scalar_init g) eqn:E.
  - rewrite Ei by done. unfold bytes_len at 1 in Hz. rewrite length_le_bytes in Hz. unfold put64_at. destruct (Z.leb_spec 2 (Size g)) as [H2|H2].
    + rewrite (proj2 (Z.leb_le _ _)) by lia. pose proof (copy_at_ok d (dataOff sl) (put64 (InitVal g))) as Hc.
      destruct Hc as (d1 & E1 & L1 & _). { unfold put64. rewrite length_le_bytes. unfold bytes_len in Hf. lia. }
      rewrite E1. cbn [mbind res_bind]. rewrite wrapU_small by lia.
      rewrite (proj2 (Z.leb_le _ _)) by (unfold bytes_len in *; rewrite L1; lia).
      replace (dataOff sl + 8) with (dataOff sl + bytes_len (put64 (InitVal g))) by (unfold bytes_len, put64; rewrite length_le_bytes; lia).
      rewrite (copy_at_twice d _ _ _ _) with (3 := E1); [|unfold put64; rewrite !length_le_bytes; unfold bytes_len in Hf; lia|lia].
      rewrite put128 by done. apply copy_fills; [|lia|unfold bytes_len at 1; rewrite length_le_bytes; fold g; lia|done|done].
      unfold init_bytes. fold g. rewrite E. by rewrite (proj2 (Z.leb_le _ _)) by lia.
    + rewrite (proj2 (Z.leb_le _ _)) by lia. rewrite put64_le.
      destruct (copy_fills sl d (le_bytes 8 (InitVal g))) as (d' & E1 & R); [|lia| |done|done|].
      * unfold init_bytes. fold g. rewrite E. by rewrite (proj2 (Z.leb_gt _ _)) by lia.
      * unfold bytes_len at 1. rewrite length_le_bytes. fold g. lia.
      * exists d'. rewrite E1. done.
  - destruct (En eq_refl) as [-> ->]. apply copy_fills; [|lia|done|done|done]. unfold init_bytes. fold g. by rewrite E.
Qed.

(** * All globals *)

Lemma zsum_bound gs g : Forall global_ok gs -> g ∈ gs -> room g <= zsum (room <$> gs).
Proof.
  intros Hg Hin. unfold zsum. induction Hg as [|x gs Hx Hgs IH]; [by apply elem_of_nil in Hin|]. cbn. pose proof (room_pos x Hx).
  assert (0 <= foldr Z.add 0 (room <$> gs)).
  { clear -Hgs. induction Hgs as [|y gs Hy _ IH]; cbn; [done|]. pose proof (room_pos y Hy). cbn in IH. lia. }
  apply elem_of_cons in Hin as [->|Hin]; [lia|]. specialize (IH Hin). lia.
Qed.

Lemma touched_spans l : (l ≫= slot_touched) = data_spans l ≫= fun '(a, n) => seq (Z.to_nat a) (Z.to_nat n).
Proof.
  induction l as [|sl l IH]; [done|]. cbn [mbind list_bind]. fold (l ≫= slot_touched). rewrite IH. unfold data_spans, slot_touched.
  cbn [filter list_filter]. by destruct (inData sl).
Qed.

Lemma data_spans_elem sl l : sl ∈ l -> inData sl = true -> data_span sl ∈ data_spans l.
Proof. intros H E. apply list_elem_of_fmap_2. apply list_elem_of_filter. by rewrite E. Qed.

(** Slots that are not in .data have no offset there. *)
Definition no_offset (sl : globalSlot) : Prop := inData sl = false -> dataOff sl = 0.

Lemma place_globals_offsets gs : forall st, Forall no_offset (slots st) -> Forall no_offset (slots (foldl place_global st gs)).
Proof.
  induction gs as [|g gs IH]; intros st H; [done|]. cbn [foldl]. apply IH. unfold place_global, place_default, place_custom.
  repeat case_match; cbn [slots]; try done; apply list.Forall_app; (split; [done|]); by constructor.
Qed.

Lemma dataBytes_filled gs : let st := place_globals gs in globals_fit gs -> Forall value_ok gs ->
  exists d, dataBytes st = Ok d /\ bytes_len d = dataTotal st /\
    (forall sl j, sl ∈ slots st -> inData sl = true -> (j < Z.to_nat (slot_size (gbl sl)))%nat ->
       d !! (Z.to_nat (dataOff sl) + j)%nat = Some (default 0 (init_bytes (gbl sl) !! j))) /\
    (forall j, (j < Z.to_nat (dataTotal st))%nat -> j ∉ (slots st ≫= slot_touched) -> d !! j = Some 0).
Proof.
  intros st [Hg Hs] Hv. destruct (place_globals_grow gs empty_data Hg) as (new & E & Eg & Hok & P & _); [done..|cbn [dataTotal empty_data]; lia|cbn [bssTotal empty_data]; lia|].
  fold (place_globals gs) st in E, P. cbn [slots empty_data app] in E. rewrite <- E in Eg, Hok, P. cbn [dataTotal empty_data] in P. clear E new.
  destruct (packed_nodup _ _ _ P ltac:(lia)) as [Hn Hf]. pose proof (packed_le _ _ _ P) as Ht.
  pose proof (place_globals_offsets gs empty_data (list.Forall_nil_2 _)) as Hz. fold (place_globals gs) st in Hz.
  assert (Hroom : forall sl, sl ∈ slots st -> room (gbl sl) <= 2 ^ 62 /\ value_ok (gbl sl)).
  { intros sl Hin. assert (Hin2 : gbl sl ∈ gs).
    { apply (list_elem_of_fmap_2 gbl) in Hin. rewrite Eg in Hin. by apply list_elem_of_filter in Hin as [_ Hin]. }
    split; [|by apply (proj1 (list.Forall_forall _ _) Hv)]. pose proof (zsum_bound gs _ Hg Hin2). lia. }
  assert (Hsize : dataTotal st <= 2 ^ 62).
  { destruct (place_globals_grow gs empty_data Hg) as (? & _ & _ & _ & _ & _ & H & _); [done..|cbn [dataTotal empty_data]; lia|cbn [bssTotal empty_data]; lia|].
    fold (place_globals gs) st in H. cbn [dataTotal empty_data] in H. lia. }
  assert (Hspan : forall sl, sl ∈ slots st -> inData sl = true -> 0 <= dataOff sl /\ 0 <= slot_size (gbl sl) /\ dataOff sl + slot_size (gbl sl) <= dataTotal st).
  { intros sl Hin Hd. exact (proj1 (list.Forall_forall _ _) Hf _ (data_spans_elem _ _ Hin Hd)). }
  destruct (patch_all fill_slot slot_touched slot_filled
    (fun sl n => slot_ok sl /\ room (gbl sl) <= 2 ^ 62 /\ value_ok (gbl sl) /\ 0 <= dataOff sl < 2 ^ 63 /\ (inData sl = true -> dataOff sl + slot_size (gbl sl) <= Z.of_nat n)))
    with (l := slots st) (ws := zeros (dataTotal st)) as (d & Ed & L & U & F).
  - intros d sl (H1 & H2 & H3 & H4 & H5). by apply fill_slot_ok.
  - intros sl ws ws' v v' H He Hd j Hj. assert (Hj2 : (Z.to_nat (dataOff sl) + j)%nat ∈ slot_touched sl).
    { unfold slot_touched. rewrite Hd. apply elem_of_seq. lia. } destruct (H _ Hj2) as [-> ->]. by apply He.
  - by rewrite touched_spans.
  - apply list.Forall_forall. intros sl Hin. rewrite length_zeros, Z2Nat.id by lia. split; [by apply (proj1 (list.Forall_forall _ _) Hok)|].
    destruct (Hroom sl Hin) as [R1 R2]. split; [done|]. split; [done|]. destruct (inData sl) eqn:Ed.
    + destruct (Hspan sl Hin Ed). lia.
    + rewrite (proj1 (list.Forall_forall _ _) Hz sl Hin Ed). by split.
  - exists d. split; [done|]. unfold bytes_len. rewrite L, length_zeros, Z2Nat.id by lia. split; [done|]. split.
    + intros sl j Hin Hd Hj. rewrite (F sl Hin Hd j Hj). destruct (init_bytes (gbl sl) !! j); [done|]. cbn [default from_option].
      unfold zeros. apply lookup_replicate_2. destruct (Hspan sl Hin Hd). lia.
    + intros j Hj Hn2. rewrite U by done. by apply lookup_replicate_2.
Qed.

(** ** Custom sections *)

(** The size counted for a custom section is that of its bytes, and every slot
    has its bytes where it says. *)
Definition customs_ok (st : dataState) : Prop :=
  (forall n, default 0 (customSecOffset st !! n) = bytes_len (default [] (customSecData st !! n))) /\
  (forall sl, sl ∈ customSlots st -> exists d, customSecData st !! SectionName (gbl sl) = Some d /\
     0 <= customOff sl <= 2 ^ 62 /\ forall j b, custom_bytes (gbl sl) !! j = Some b -> d !! (Z.to_nat (customOff sl) + j)%nat = Some b).

Definition custom_total (st : dataState) (n : string) : Z := bytes_len (default [] (customSecData st !! n)).

Lemma custom_bytes_size g : global_ok g -> room g <= 2 ^ 62 -> bytes_len (custom_bytes g) <= room g.
Proof.
  intros [Hs _ _] Hr. unfold room in *. pose proof (bytes_len_nonneg (InitData g)). unfold custom_bytes. destruct (scalar_init g).
  { unfold put64, bytes_len at 1. rewrite length_le_bytes. lia. }
  destruct (has_data g).
  - unfold bytes_len at 1. rewrite length_app, Nat2Z.inj_add. fold (bytes_len (InitData g)). pose proof (Z.mod_pos_bound (bytes_len (InitData g)) 8 ltac:(lia)).
    destruct (negb _); [rewrite length_zeros, Z2Nat.id by lia|cbn [length]]; lia.
  - unfold bytes_len at 1. rewrite length_zeros by (apply wrapU_range; lia). rewrite wrapU_small by lia. lia.
Qed.

Lemma place_custom_ok st g : customs_ok st -> global_ok g -> (forall n, custom_total st n + room g <= 2 ^ 62) ->
  customs_ok (place_custom st g) /\ forall n, custom_total (place_custom st g) n <= custom_total st n + room g.
Proof.
  intros [Ho Hs] Hg Hr. pose proof (room_pos g Hg) as Hp. set (sec := SectionName g). pose proof (Hr sec) as Hrs. unfold custom_total in Hrs.
  pose proof (bytes_len_nonneg (default [] (customSecData st !! sec))) as Hd0.
  pose proof (custom_bytes_size g Hg ltac:(lia)) as Hb. pose proof (bytes_len_nonneg (custom_bytes g)) as Hb0.
  assert (Hl : forall a b : list Z, bytes_len (a ++ b) = bytes_len a + bytes_len b) by (intros; unfold bytes_len; rewrite length_app; lia).
  unfold customs_ok, custom_total, place_custom. cbn [customSecOffset customSecData customSlots]. fold sec. split; [split|].
  - intros n. destruct (decide (n = sec)) as [->|Hn]; [|by rewrite !lookup_insert_ne].
    rewrite !lookup_insert_eq. cbn [default from_option id]. rewrite Ho, Hl, wrapU_small by lia. done.
  - intros sl Hin. apply elem_of_app in Hin as [Hin|Hin].
    + destruct (Hs sl Hin) as (d & E & H0 & H). destruct (decide (SectionName (gbl sl) = sec)) as [En|Hn].
      * rewrite En in *. rewrite lookup_insert_eq, E. eexists. split; [done|]. split; [done|]. intros j b Hj. cbn [default from_option id].
        apply lookup_app_l_Some. by apply H.
      * rewrite lookup_insert_ne by done. by exists d.
    + apply list_elem_of_singleton in Hin as ->. cbn [gbl customOff]. fold sec. rewrite lookup_insert_eq. eexists. split; [done|]. rewrite Ho.
      split; [lia|]. intros j b Hj. unfold bytes_len. rewrite Nat2Z.id, lookup_app_r by lia. by rewrite Nat.add_comm, Nat.add_sub.
  - intros n. destruct (decide (n = sec)) as [->|Hn]; [|rewrite !lookup_insert_ne by done; lia].
    rewrite !lookup_insert_eq. cbn [default from_option id]. rewrite Hl. lia.
Qed.

Lemma place_globals_customs gs : forall st, Forall global_ok gs -> customs_ok st ->
  (forall n, custom_total st n + zsum (room <$> gs) <= 2 ^ 62) -> customs_ok (foldl place_global st gs).
Proof.
  induction gs as [|g gs IH]; intros st Hg Hc Hr; [done|]. apply Forall_cons_1 in Hg as [Hg Hgs]. cbn [foldl].
  change (zsum (room <$> g :: gs)) with (room g + zsum (room <$> gs)) in Hr. pose proof (room_pos g Hg) as Hp.
  assert (Hr0 : 0 <= zsum (room <$> gs)).
  { clear -Hgs. unfold zsum. induction Hgs as [|x gs H _ IH]; cbn; [lia|]. pose proof (room_pos x H). cbn in IH. lia. }
  unfold place_global at 2. destruct (IsExtern g); [apply IH; [done..|]; intros n; specialize (Hr n); lia|].
  destruct (bool_decide _).
  - apply IH; [done|..].
    + unfold place_default. repeat case_match; exact Hc.
    + intros n. specialize (Hr n). replace (custom_total (place_default st g) n) with (custom_total st n) by (unfold place_default; repeat case_match; done). lia.
  - destruct (place_custom_ok st g Hc Hg) as [H1 H2]; [intros n; specialize (Hr n); lia|]. apply IH; [done|done|].
    intros n. specialize (Hr n). specialize (H2 n). lia.
Qed.

(** ** Bounds *)

Lemma totals_small gs : globals_fit gs -> let st := place_globals gs in
  0 <= dataTotal st < 2 ^ 62 /\ 0 <= bssTotal st < 2 ^ 62 /\
  packed 0 (data_spans (slots st)) (dataTotal st) /\ packed 0 (bss_spans (slots st)) (bssTotal st) /\
  Forall slot_ok (slots st) /\ gbl <$> slots st = filter (fun g => placed_by_default g) gs.
Proof.
  intros [Hg Hs] st. destruct (place_globals_grow gs empty_data Hg) as (new & E & Eg & Hok & P1 & P2 & T1 & T2);
    [done..|cbn [dataTotal empty_data]; lia|cbn [bssTotal empty_data]; lia|].
  fold (place_globals gs) st in E, P1, P2, T1, T2. cbn [slots empty_data app] in E. rewrite <- E in *. cbn [dataTotal bssTotal empty_data] in *.
  pose proof (packed_le _ _ _ P1). pose proof (packed_le _ _ _ P2). split; [lia|]. split; [lia|]. done.
Qed.

Lemma slot_bounds gs sl : globals_fit gs -> let st := place_globals gs in sl ∈ slots st ->
  (inData sl = true -> 0 <= dataOff sl /\ 0 <= slot_size (gbl sl) /\ dataOff sl + slot_size (gbl sl) <= dataTotal st) /\
  (in_bss sl = true -> 0 <= bssOff sl /\ 0 <= 8 * Size (gbl sl) /\ bssOff sl + 8 * Size (gbl sl) <= bssTotal st).
Proof.
  intros Hf st Hin. destruct (totals_small gs Hf) as (_ & _ & P1 & P2 & _). fold st in P1, P2.
  destruct (packed_nodup _ _ _ P1 ltac:(lia)) as [_ F1]. destruct (packed_nodup _ _ _ P2 ltac:(lia)) as [_ F2]. split; intros Hb.
  - exact (proj1 (list.Forall_forall _ _) F1 _ (data_spans_elem _ _ Hin Hb)).
  - refine (proj1 (list.Forall_forall _ _) F2 (bss_span sl) _). apply list_elem_of_fmap_2, list_elem_of_filter. by rewrite Hb.
Qed.
