(* ===== verification/ObjGen.v ===== *)
(** The object writer (objgen.go): genObjectTo from a program in IR to the
    contents of its object.  The instructions of a function's body are part of
    the program here; everything else is what the code does. *)
From stdpp Require Import gmap strings.
From S2P Require Import Prelude Align Linker LinkLayout LinkReloc Arfmt Elf CodeBuilder ObjWrite ObjParse ObjData.
#[local] Open Scope Z_scope.

(** * Programs (ir.go) *)

(** A function: [fn_body] is what elfGen.genFunc does with the builder after
    the entry label, given the functions that are local to the section. *)
Record IRFunc := mkIRFunc {
  fn_Name : string;
  fn_IsStatic : bool;
  fn_IsWeak : bool;
  fn_SectionName : string;
  fn_body : gset string -> list op
}.

Record IRAlias := mkIRAlias { al_Name : string; al_Target : string; al_IsFunc : bool }.

(** A floating-point constant comes as its label and the bits of its value. *)
Record IRProgram := mkIRProgram {
  Globals : list IRGlobal;
  Funcs : list IRFunc;
  Aliases : list IRAlias;
  StrLits : list IRStrLit;
  FConsts : list (string * Z);
  FuncRefs : list string
}.

Inductive obj_error :=
  | NoFuncLabel (l : string)
  | NoCustomSection (sec gbl : string)
  | NoAliasTarget (alias target : string)
  | NoPoolGlobal (n : string)
  | NoDataSymbol (n : string)
  | BadFixup (e : fixup_error)
  | GoPanic.

#[export] Instance gen_bind : MBind (sum obj_error) := fun _ _ f r => match r with inl e => inl e | inr a => f a end.

(** A computation of the linker's kind, whose only failure is a panic. *)
Definition no_panic {A} (r : res A) : obj_error + A := match r with Ok a => inr a | Err _ => inl GoPanic end.

Fixpoint gen_fold {A S} (f : S -> A -> obj_error + S) (l : list A) (s : S) : obj_error + S :=
  match l with
  | [] => inr s
  | x :: l => s ← f s x; gen_fold f l s
  end.

(** * Sections *)

Definition isExecSection (n : string) : bool := bool_decide (take 5 (to_bytes n) = to_bytes ".text").

Definition local_funcs (p : IRProgram) (sec : string) : gset string :=
  list_to_set (fn_Name <$> filter (fun f => fn_SectionName f = sec) (Funcs p)).

Definition section_funcs (p : IRProgram) (sec : string) : list IRFunc := filter (fun f => fn_SectionName f = sec) (Funcs p).

Definition add_once (l : list string) (n : string) : list string := if bool_decide (n ∈ l) then l else l ++ [n].

(** Custom sections in the order of their first appearance. *)
Definition customSecOrder (p : IRProgram) (st : dataState) : list string :=
  foldl add_once [] (filter (fun n => n <> ""%string) (fn_SectionName <$> Funcs p) ++ (SectionName ∘ gbl <$> customSlots st)).

Definition has_funcs (p : IRProgram) (n : string) : bool := negb (bool_decide (section_funcs p n = [])).

Definition execCustomNames (p : IRProgram) (st : dataState) : list string :=
  filter (fun n => isExecSection n && has_funcs p n) (customSecOrder p st).

Definition dataCustomNames (p : IRProgram) (st : dataState) : list string :=
  filter (fun n => n ∈ (SectionName ∘ gbl <$> customSlots st) /\ n ∉ execCustomNames p st) (customSecOrder p st).

(** ** Code *)

Definition genFunc (locals : gset string) (cb : codeBuilder) (f : IRFunc) : codeBuilder :=
  foldl build (defineLabel cb (fn_Name f)) (fn_body f locals).

(** The builder and the finished words of a section. *)
Definition gen_section (p : IRProgram) (sec : string) : obj_error + (codeBuilder * list Z) :=
  match newCodeBuilder (Name <$> Globals p) (sl_label <$> StrLits p) (FConsts p) (FuncRefs p) with
  | None => inl GoPanic
  | Some cb0 =>
      let cb := foldl (genFunc (local_funcs p sec)) cb0 (section_funcs p sec) in
      match applyFixups cb with
      | None => inl GoPanic
      | Some (inl e) => inl (BadFixup e)
      | Some (inr ws) => inr (cb, ws)
      end
  end.

Record customExec := CustomExec { ce_name : string; ce_secIdx : Z; ce_cb : codeBuilder; ce_words : list Z }.

Fixpoint gen_customs (p : IRProgram) (idx : Z) (names : list string) : obj_error + list customExec :=
  match names with
  | [] => inr []
  | n :: names =>
      '(cb, ws) ← gen_section p n;
      ces ← gen_customs p (u16 (idx + 2)) names;
      inr (CustomExec n idx cb ws :: ces)
  end.

Record customData := CustomData { cd_name : string; cd_secIdx : Z; cd_data : list Z }.

Definition custom_data (p : IRProgram) (st : dataState) (base : Z) : list customData :=
  imap (fun i n => CustomData n (u16 (base + Z.of_nat i)) (default [] (customSecData st !! n))) (dataCustomNames p st).

(** * The symbol table under construction *)

(** The maps from names to symbols. *)
Inductive symMap := strSymIdx | funcSymIdx | globalSymIdx | externSymNames | aliasSymIdx.

#[export] Instance symMap_eq_dec : EqDecision symMap.
Proof. solve_decision. Defined.

#[export] Instance symMap_countable : Countable symMap.
Proof.
  refine (inj_countable'
    (fun m => match m with strSymIdx => 0 | funcSymIdx => 1 | globalSymIdx => 2 | externSymNames => 3 | aliasSymIdx => 4 end%nat)
    (fun n => match n with 0 => strSymIdx | 1 => funcSymIdx | 2 => globalSymIdx | 3 => externSymNames | _ => aliasSymIdx end%nat) _).
  by intros [].
Defined.

Record symState := SymState { ss_syms : list objSym; ss_strtab : list Z; ss_idx : gmap (symMap * string) Z }.

(** The next symbol, entered in map [m] under its name. *)
Definition add_sym (m : symMap) (st : symState) (nm : string) (info shndx value size : Z) : symState :=
  let '(nameIdx, tab) := strtab_add (ss_strtab st) nm in
  SymState (ss_syms st ++ [ObjSym nameIdx info 0 shndx value size]) tab
    (<[(m, nm) := Z.of_nat (length (ss_syms st))]> (ss_idx st)).

Definition sym_in (st : symState) (m : symMap) (nm : string) : bool := bool_decide (is_Some (ss_idx st !! (m, nm))).

Definition STT_NOTYPE : Z := 0.
Definition STT_OBJECT : Z := 1.
Definition STT_FUNC : Z := 2.
Definition STT_SECTION : Z := 3.
Definition sym_info (bind type : Z) : Z := Z.lor (Z.shiftl bind 4) type.

Definition sectionSym (shndx : Z) : objSym := ObjSym 0 (sym_info 0 STT_SECTION) 0 shndx 0 0.

Definition first_syms (ces : list customExec) (cds : list customData) : symState :=
  SymState ([ObjSym 0 0 0 0 0 0; sectionSym objSecText; sectionSym objSecRodata; sectionSym objSecData; sectionSym objSecBss] ++
    (sectionSym ∘ ce_secIdx <$> ces) ++ (sectionSym ∘ cd_secIdx <$> cds)) newStrtab ∅.

Definition add_strlit (st : symState) (e : rodataEntry) : symState :=
  add_sym strSymIdx st (re_label e) (sym_info 0 STT_OBJECT) objSecRodata (re_offset e) (bytes_len (re_bytes e)).

(** A function of a section; the label is where the builder is. *)
Definition add_func (cb : codeBuilder) (shndx bind : Z) (st : symState) (f : IRFunc) : obj_error + symState :=
  match labels cb !! fn_Name f with
  | None => inl (NoFuncLabel (fn_Name f))
  | Some wordIdx => inr (add_sym funcSymIdx st (fn_Name f) (sym_info bind STT_FUNC) shndx (u64 (u64 wordIdx * 4)) 0)
  end.

Definition add_static_func (cb : codeBuilder) (st : symState) (f : IRFunc) : obj_error + symState :=
  if fn_IsStatic f then add_func cb objSecText 0 st f else inr st.

Definition weak_bind (weak : bool) : Z := if weak then 2 else 1.

Definition add_global_func (cb : codeBuilder) (st : symState) (f : IRFunc) : obj_error + symState :=
  if fn_IsStatic f then inr st else add_func cb objSecText (weak_bind (fn_IsWeak f)) st f.

Definition add_custom_func (ce : customExec) (st : symState) (f : IRFunc) : obj_error + symState :=
  add_func (ce_cb ce) (ce_secIdx ce) (weak_bind (fn_IsWeak f)) st f.

(** ** Variables *)

Definition var_size (g : IRGlobal) : Z := u64 (u64 (Size g) * 8).

Definition add_var (bind : Z) (st : symState) (sl : globalSlot) : symState :=
  let g := gbl sl in
  if inData sl then add_sym globalSymIdx st (Name g) (sym_info bind STT_OBJECT) objSecData (dataOff sl) (var_size g)
  else add_sym globalSymIdx st (Name g) (sym_info bind STT_OBJECT) objSecBss (bssOff sl) (var_size g).

Definition add_static_var (st : symState) (sl : globalSlot) : symState :=
  if IsStatic (gbl sl) then add_var 0 st sl else st.

Definition add_global_var (st : symState) (sl : globalSlot) : symState :=
  let g := gbl sl in
  if IsStatic g then st
  else if isCommon sl then
    add_sym globalSymIdx st (Name g) (sym_info (weak_bind (IsWeak g)) STT_OBJECT) SHN_COMMON
      (if 0 <? Align g then Align g else 8) (var_size g)
  else add_var (weak_bind (IsWeak g)) st sl.

(** The index of a custom section: code first. *)
Definition custom_index (ces : list customExec) (cds : list customData) (n : string) : option Z :=
  match find (fun c => bool_decide (ce_name c = n)) ces with
  | Some c => Some (ce_secIdx c)
  | None => cd_secIdx <$> find (fun c => bool_decide (cd_name c = n)) cds
  end.

Definition add_custom_var (ces : list customExec) (cds : list customData) (st : symState) (sl : globalSlot) : obj_error + symState :=
  let g := gbl sl in
  match custom_index ces cds (SectionName g) with
  | None => inl (NoCustomSection (SectionName g) (Name g))
  | Some shndx =>
      let bind := if IsWeak g then 2 else if IsStatic g then 0 else 1 in
      inr (add_sym globalSymIdx st (Name g) (sym_info bind STT_OBJECT) shndx (customOff sl) (var_size g))
  end.

(** ** Undefined symbols *)

Definition is_alias (p : IRProgram) (n : string) : bool := existsb (fun a => bool_decide (al_Name a = n)) (Aliases p).

Definition add_undef (type : Z) (st : symState) (n : string) : symState :=
  add_sym externSymNames st n (sym_info 1 type) 0 0 0.

Definition add_undef_once (st : symState) (n : string) : symState :=
  if sym_in st externSymNames n then st else add_undef STT_NOTYPE st n.

Definition add_extern_global (p : IRProgram) (st : symState) (g : IRGlobal) : symState :=
  if IsExtern g then if is_alias p (Name g) then st else add_undef_once st (Name g) else st.

Definition add_extern_call (p : IRProgram) (st : symState) (xbl : nat * string) : symState :=
  if is_alias p xbl.2 then st else if sym_in st funcSymIdx xbl.2 then st else add_undef_once st xbl.2.

Definition add_data_symbol (st : symState) (dr : dataReloc) : symState :=
  if sym_in st strSymIdx (dr_symbol dr) then st
  else if sym_in st globalSymIdx (dr_symbol dr) then st
  else if sym_in st funcSymIdx (dr_symbol dr) then st
  else add_undef_once st (dr_symbol dr).

(** ** Aliases *)

Definition aliasTargetMap (p : IRProgram) : gmap string string :=
  foldl (fun m a => <[al_Name a := al_Target a]> m) ∅ (Aliases p).

(** Follow a chain of aliases; each round marks a name, so one round more than
    there are names is enough. *)
Fixpoint follow (fuel : nat) (m : gmap string string) (seen : gset string) (target : string) : option string :=
  match fuel with
  | O => None
  | S fuel =>
      match m !! target with
      | None => Some target
      | Some next => if bool_decide (target ∈ seen) then Some target else follow fuel m ({[target]} ∪ seen) next
      end
  end.

Definition resolveAliasTarget (p : IRProgram) (target : string) : option string :=
  let m := aliasTargetMap p in follow (S (S (base.size m))) m ∅ target.

(** The word and the section of a label: the default section first. *)
Fixpoint find_custom (l : string) (ces : list customExec) : option (Z * Z) :=
  match ces with
  | [] => None
  | c :: ces => match labels (ce_cb c) !! l with Some w => Some (w, ce_secIdx c) | None => find_custom l ces end
  end.

Definition find_label (cb : codeBuilder) (ces : list customExec) (l : string) : option (Z * Z) :=
  match labels cb !! l with Some w => Some (w, objSecText) | None => find_custom l ces end.

Definition add_func_alias (p : IRProgram) (cb : codeBuilder) (ces : list customExec) (st : symState) (a : IRAlias) : obj_error + symState :=
  match (l ← resolveAliasTarget p (al_Target a); find_label cb ces l) with
  | None => inl (NoAliasTarget (al_Name a) (al_Target a))
  | Some (w, shndx) => inr (add_sym aliasSymIdx st (al_Name a) (sym_info 1 STT_FUNC) shndx (u64 (u64 w * 4)) 0)
  end.

(** A variable's symbol is copied; a name that is no variable may be that of a
    function. *)
Definition add_alias (p : IRProgram) (cb : codeBuilder) (ces : list customExec) (st : symState) (a : IRAlias) : obj_error + symState :=
  if al_IsFunc a then add_func_alias p cb ces st a
  else
    match ss_idx st !! (globalSymIdx, al_Target a) with
    | Some i =>
        match ss_syms st !! Z.to_nat i with
        | None => inl GoPanic
        | Some t => inr (add_sym aliasSymIdx st (al_Name a) (sym_info 1 STT_OBJECT) (st_shndx t) (st_value t) (st_size t))
        end
    | None => add_func_alias p cb ces st a
    end.

(** * Relocations *)

(** The first of the maps that has the name. *)
Fixpoint sym_index (st : symState) (ms : list symMap) (n : string) : option Z :=
  match ms with
  | [] => None
  | m :: ms => match ss_idx st !! (m, n) with Some i => Some i | None => sym_index st ms n end
  end.

(** Pool entries of globals; a name without a symbol is reported later. *)
Definition pool_global_rela (st : symState) (k : nat) (g : IRGlobal) : list objRela :=
  match sym_index st [globalSymIdx; externSymNames; aliasSymIdx] (Name g) with
  | Some i => [mkRela (u64 (Z.of_nat k * 8)) i rAArch64Abs64 0]
  | None => []
  end.

Definition pool_str_rela (st : symState) (k : nat) (e : rodataEntry) : objRela :=
  mkRela (u64 (Z.of_nat k * 8)) (default 0 (ss_idx st !! (strSymIdx, re_label e))) rAArch64Abs64 0.

(** A function reference may need a symbol of its own. *)
Definition func_ref_rela (cb : codeBuilder) (s : symState * list objRela) (fnName : string) : symState * list objRela :=
  let '(st, rs) := s in
  match poolIdx cb !! fnName with
  | None => s
  | Some k =>
      let off := u64 (Z.of_nat k * 8) in
      match sym_index st [funcSymIdx; externSymNames] fnName with
      | Some i => (st, rs ++ [mkRela off i rAArch64Abs64 0])
      | None => (add_undef STT_FUNC st fnName, rs ++ [mkRela off (Z.of_nat (length (ss_syms st))) rAArch64Abs64 0])
      end
  end.

Definition call_rela (st : symState) (xbl : nat * string) : objRela :=
  mkRela (u64 (Z.of_nat xbl.1 * 4)) (default 0 (sym_index st [funcSymIdx; aliasSymIdx; externSymNames] xbl.2)) rAArch64Call26 0.

Definition buildCodeRelas (p : IRProgram) (lits : list rodataEntry) (st : symState) (cb : codeBuilder) : symState * list objRela :=
  let n := length (Globals p) in
  let pool := concat (imap (pool_global_rela st) (Globals p)) ++ imap (fun k e => pool_str_rela st (n + k) e) lits in
  let '(st, refs) := foldl (func_ref_rela cb) (st, []) (FuncRefs p) in
  (st, pool ++ refs ++ (call_rela st <$> externBLs cb)).

Definition check_pool_global (st : symState) (g : IRGlobal) : obj_error + unit :=
  match sym_index st [globalSymIdx; externSymNames; aliasSymIdx] (Name g) with
  | Some _ => inr tt
  | None => inl (NoPoolGlobal (Name g))
  end.

Definition data_rela (st : symState) (dr : dataReloc) : obj_error + objRela :=
  match sym_index st [strSymIdx; globalSymIdx; funcSymIdx; externSymNames] (dr_symbol dr) with
  | Some i => inr (mkRela (dr_offset dr) i rAArch64Abs64 (dr_addend dr))
  | None => inl (NoDataSymbol (dr_symbol dr))
  end.

Definition custom_relas (p : IRProgram) (lits : list rodataEntry) (s : symState * list execSection) (c : customExec)
    : symState * list execSection :=
  let '(st, rs) := buildCodeRelas p lits s.1 (ce_cb c) in
  (st, s.2 ++ [ExecSection (ce_name c) (concat (le_bytes 4 <$> ce_words c)) rs]).

(** * The object *)

(** The symbol table, up to the relocations, with the index of the first symbol
    that is not local to the object. *)
Definition gen_locals (cb : codeBuilder) (ces : list customExec) (cds : list customData) (lits : list rodataEntry)
    (p : IRProgram) (dst : dataState) : obj_error + symState :=
  let st := foldl add_strlit (first_syms ces cds) lits in
  st ← gen_fold (add_static_func cb) (section_funcs p "") st;
  inr (foldl add_static_var st (slots dst)).

Definition gen_globals (cb : codeBuilder) (ces : list customExec) (cds : list customData)
    (p : IRProgram) (dst : dataState) (st : symState) : obj_error + symState :=
  st ← gen_fold (add_global_func cb) (section_funcs p "") st;
  st ← gen_fold (fun st c => gen_fold (add_custom_func c) (section_funcs p (ce_name c)) st) ces st;
  gen_fold (add_custom_var ces cds) (customSlots dst) (foldl add_global_var st (slots dst)).

Definition gen_undefs (cb : codeBuilder) (ces : list customExec) (p : IRProgram) (dst : dataState) (st : symState) : symState :=
  let st := foldl (add_extern_global p) st (Globals p) in
  let st := foldl (add_extern_call p) st (externBLs cb) in
  let st := foldl (fun st c => foldl (add_extern_call p) st (externBLs (ce_cb c))) st ces in
  foldl add_data_symbol st (dataRelocs dst).

Definition genObjectTo (p : IRProgram) : obj_error + objParts :=
  let dst := place_globals (Globals p) in
  data ← no_panic (dataBytes dst);
  let lits := rodata_list 0 (StrLits p) in
  rodata ← no_panic (rodataBytes (StrLits p));
  '(cb, ws) ← gen_section p "";
  ces ← gen_customs p objNumSections (execCustomNames p dst);
  let cds := custom_data p dst (objNumSections + 2 * Z.of_nat (length ces)) in
  stl ← gen_locals cb ces cds lits p dst;
  st ← gen_globals cb ces cds p dst stl;
  st ← gen_fold (add_alias p cb ces) (Aliases p) (gen_undefs cb ces p dst st);
  let '(st, relas) := buildCodeRelas p lits st cb in
  _ ← gen_fold (fun _ g => check_pool_global st g) (Globals p) tt;
  datarelas ← gen_fold (fun rs dr => r ← data_rela st dr; inr (rs ++ [r])) (dataRelocs dst) [];
  let '(st, execs) := foldl (custom_relas p lits) (st, []) ces in
  inr (ObjParts (concat (le_bytes 4 <$> ws)) rodata data (bssTotal dst) (ss_syms st) (Z.of_nat (length (ss_syms stl)))
         (ss_strtab st) relas datarelas execs ((fun c => DataSection (cd_name c) (cd_data c)) <$> cds)).
