(* ===== verification/ObjSyms.v ===== *)
(** The symbol table of an object as a list of entries: each pass of
    genObjectTo adds entries, and what is in the table and its maps follows from
    the list. *)
From stdpp Require Import gmap strings.
From S2P Require Import Prelude Align Linker LinkSyms LinkLayout LinkReloc Arfmt Elf CodeBuilder ObjWrite ObjParse ObjRound ObjData ObjGen.
#[local] Open Scope Z_scope.

(** * Entries *)

Record entry := Entry { en_map : symMap; en_name : string; en_info : Z; en_shndx : Z; en_value : Z; en_size : Z }.

Definition add_entry (st : symState) (e : entry) : symState :=
  add_sym (en_map e) st (en_name e) (en_info e) (en_shndx e) (en_value e) (en_size e).

Definition adds (st : symState) (es : list entry) : symState := foldl add_entry st es.

Lemma adds_app st es1 es2 : adds st (es1 ++ es2) = adds (adds st es1) es2.
Proof. apply foldl_app. Qed.

Lemma length_adds st es : length (ss_syms (adds st es)) = (length (ss_syms st) + length es)%nat.
Proof.
  revert st. induction es as [|e es IH]; intros st; [cbn; lia|]. unfold adds in *. cbn [foldl]. rewrite IH. cbn. rewrite length_app. cbn. lia.
Qed.

Lemma adds_syms_grow st es : exists l, ss_syms (adds st es) = ss_syms st ++ l.
Proof.
  revert st. induction es as [|e es IH]; intros st; [exists []; by rewrite app_nil_r|]. unfold adds in *. cbn [foldl].
  destruct (IH (add_entry st e)) as [l ->]. eexists. cbn. by rewrite <- app_assoc.
Qed.

Lemma adds_strtab_grow st es : exists l, ss_strtab (adds st es) = ss_strtab st ++ l.
Proof.
  revert st. induction es as [|e es IH]; intros st; [exists []; by rewrite app_nil_r|]. unfold adds in *. cbn [foldl].
  destruct (IH (add_entry st e)) as [l ->]. eexists. cbn. by rewrite <- app_assoc.
Qed.

(** The symbol of an entry, its name read from the finished table. *)
Definition symbol_of (tab : list Z) (e : entry) (s : objSym) : Prop :=
  getString tab (st_name s) = Some (en_name e) /\ st_info s = en_info e /\ st_other s = 0 /\ st_shndx s = en_shndx e /\
  st_value s = en_value e /\ st_size s = en_size e.

Lemma adds_symbol st es k e : es !! k = Some e -> no_nul (en_name e) -> bytes_len (ss_strtab (adds st es)) < 2 ^ 32 ->
  exists s, ss_syms (adds st es) !! (length (ss_syms st) + k)%nat = Some s /\ symbol_of (ss_strtab (adds st es)) e s.
Proof.
  intros Hk Hn. rewrite <- (take_drop_middle es k e Hk). rewrite adds_app. cbn [adds foldl].
  set (st1 := adds st (take k es)). change (foldl add_entry (add_entry st1 e) (drop (S k) es)) with (adds (add_entry st1 e) (drop (S k) es)).
  destruct (adds_syms_grow (add_entry st1 e) (drop (S k) es)) as [l1 E1]. destruct (adds_strtab_grow (add_entry st1 e) (drop (S k) es)) as [l2 E2].
  rewrite E1, E2. intros Hl. assert (Hlen : (length (ss_syms st) + k)%nat = length (ss_syms st1)).
  { unfold st1. rewrite length_adds, length_take. apply lookup_lt_Some in Hk. lia. }
  unfold add_entry, add_sym, strtab_add in *. cbn [ss_syms ss_strtab] in *. rewrite Hlen.
  eexists. rewrite <- app_assoc, lookup_app_r, Nat.sub_diag by lia. split; [reflexivity|]. unfold symbol_of. cbn [st_name st_info st_other st_shndx st_value st_size].
  split; [|done]. unfold bytes_len in Hl. rewrite !length_app in Hl. pose proof (bytes_len_nonneg (ss_strtab st1)).
  rewrite wrapU_small by (unfold bytes_len in *; lia). apply getString_more. by apply getString_at.
Qed.

(** ** The maps *)

Lemma adds_idx_old st es m n i : ss_idx (adds st es) !! (m, n) = Some i ->
  ss_idx st !! (m, n) = Some i \/ exists k e, es !! k = Some e /\ en_map e = m /\ en_name e = n /\ i = Z.of_nat (length (ss_syms st) + k).
Proof.
  revert st. induction es as [|e es IH]; intros st H; [by left|]. unfold adds in *. cbn [foldl] in H.
  destruct (IH _ H) as [H1|(k & x & Hk & Hm & Hn & Hi)].
  - unfold add_entry, add_sym, strtab_add in H1. cbn [ss_idx] in H1. destruct (decide ((en_map e, en_name e) = (m, n))) as [E|E].
    + rewrite E, lookup_insert_eq in H1. injection H1 as <-. injection E as <- <-. right. exists 0%nat, e. rewrite Nat.add_0_r. done.
    + rewrite lookup_insert_ne in H1 by done. by left.
  - right. exists (S k), x. split; [done|]. split; [done|]. split; [done|]. rewrite Hi. cbn. rewrite length_app. cbn. lia.
Qed.

Lemma adds_idx_keep st es m n : is_Some (ss_idx st !! (m, n)) -> is_Some (ss_idx (adds st es) !! (m, n)).
Proof.
  revert st. induction es as [|e es IH]; intros st H; [done|]. unfold adds in *. cbn [foldl]. apply IH. cbn.
  destruct (decide ((en_map e, en_name e) = (m, n))) as [E|E]; [rewrite E, lookup_insert_eq; by eexists|by rewrite lookup_insert_ne].
Qed.

Lemma adds_idx_new st es e : e ∈ es -> is_Some (ss_idx (adds st es) !! (en_map e, en_name e)).
Proof.
  revert st. induction es as [|x es IH]; intros st H; [by apply elem_of_nil in H|]. unfold adds in *. cbn [foldl].
  apply elem_of_cons in H as [->|H]; [|by apply IH]. apply (adds_idx_keep (add_entry st x) es). cbn. rewrite lookup_insert_eq. by eexists.
Qed.

Lemma sym_in_spec st m n : sym_in st m n = true <-> is_Some (ss_idx st !! (m, n)).
Proof. unfold sym_in. by rewrite bool_decide_eq_true. Qed.

Lemma sym_index_some st ms n i : sym_index st ms n = Some i -> exists m, m ∈ ms /\ ss_idx st !! (m, n) = Some i.
Proof.
  induction ms as [|m ms IH]; intros H; [done|]. cbn in H. destruct (ss_idx st !! (m, n)) as [j|] eqn:E.
  - injection H as <-. exists m. split; [left|done].
  - destruct (IH H) as (m' & H1 & H2). exists m'. split; [by right|done].
Qed.

Lemma sym_index_is_some st ms m n : m ∈ ms -> is_Some (ss_idx st !! (m, n)) -> is_Some (sym_index st ms n).
Proof.
  induction ms as [|m' ms IH]; intros H Hs; [by apply elem_of_nil in H|]. cbn. destruct (ss_idx st !! (m', n)) eqn:E; [by eexists|].
  apply elem_of_cons in H as [->|H]; [|by apply IH]. rewrite E in Hs. by destruct Hs.
Qed.

Lemma sym_index_keep st es ms n : is_Some (sym_index st ms n) -> is_Some (sym_index (adds st es) ms n).
Proof.
  intros [i H]. apply sym_index_some in H as (m & Hm & H). eapply sym_index_is_some; [exact Hm|]. apply adds_idx_keep. by eexists.
Qed.

(** * The passes as lists of entries *)

Definition str_entry (e : rodataEntry) : entry :=
  Entry strSymIdx (re_label e) (sym_info 0 STT_OBJECT) objSecRodata (re_offset e) (bytes_len (re_bytes e)).

Definition code_offset (cb : codeBuilder) (l : string) : Z := u64 (u64 (default 0 (labels cb !! l)) * 4).

Definition func_entry (cb : codeBuilder) (shndx bind : Z) (f : IRFunc) : entry :=
  Entry funcSymIdx (fn_Name f) (sym_info bind STT_FUNC) shndx (code_offset cb (fn_Name f)) 0.

Definition var_entry (bind : Z) (sl : globalSlot) : entry := let g := gbl sl in
  if isCommon sl then Entry globalSymIdx (Name g) (sym_info bind STT_OBJECT) SHN_COMMON (if 0 <? Align g then Align g else 8) (var_size g)
  else if inData sl then Entry globalSymIdx (Name g) (sym_info bind STT_OBJECT) objSecData (dataOff sl) (var_size g)
  else Entry globalSymIdx (Name g) (sym_info bind STT_OBJECT) objSecBss (bssOff sl) (var_size g).

Definition custom_bind (g : IRGlobal) : Z := if IsWeak g then 2 else if IsStatic g then 0 else 1.

Definition custom_entry (ces : list customExec) (cds : list customData) (sl : globalSlot) : entry := let g := gbl sl in
  Entry globalSymIdx (Name g) (sym_info (custom_bind g) STT_OBJECT) (default 0 (custom_index ces cds (SectionName g))) (customOff sl) (var_size g).

Lemma foldl_adds {A} (f : symState -> A -> symState) (g : A -> entry) (sel : A -> bool) l :
  (forall st x, x ∈ l -> f st x = if sel x then add_entry st (g x) else st) ->
  forall st, foldl f st l = adds st (g <$> filter (fun x => sel x) l).
Proof.
  intros H. induction l as [|x l IH]; intros st; [done|]. cbn [foldl]. rewrite H by left. rewrite list.filter_cons.
  rewrite IH by (intros; apply H; by right). by destruct (sel x).
Qed.

(** A pass that can fail does so at the first element without an answer. *)
Lemma gen_fold_adds {A} (f : symState -> A -> obj_error + symState) (g : A -> entry) (sel : A -> bool) l :
  (forall st x, x ∈ l -> f st x = if sel x then inr (add_entry st (g x)) else inr st) ->
  forall st, gen_fold f l st = inr (adds st (g <$> filter (fun x => sel x) l)).
Proof.
  intros H. induction l as [|x l IH]; intros st; [done|]. cbn [gen_fold]. rewrite H by left. rewrite list.filter_cons.
  destruct (sel x); cbn [mbind gen_bind]; rewrite IH by (intros; apply H; by right); done.
Qed.

(** ** Functions *)

(** The builder of a section has the labels of its functions. *)
Definition has_label (cb : codeBuilder) (f : IRFunc) : Prop := is_Some (labels cb !! fn_Name f).

Lemma add_func_entry cb shndx bind st f : has_label cb f -> add_func cb shndx bind st f = inr (add_entry st (func_entry cb shndx bind f)).
Proof. intros [w E]. unfold add_func, func_entry, code_offset, add_entry. by rewrite E. Qed.

Lemma build_labels_keep cb o l : is_Some (labels cb !! l) -> is_Some (labels (build cb o) !! l).
Proof.
  intros H. destruct o; try exact H; cbn [build].
  - unfold emitMOVimm. assert (K : forall shs s, is_Some (labels s.1 !! l) -> is_Some (labels (foldl (mov_chunk rd (u64 val)) s shs).1 !! l)).
    { induction shs as [|sh shs IH]; intros s Hs; [done|]. cbn [foldl]. apply IH. destruct s as [cb1 fst]. unfold mov_chunk. by repeat case_match. }
    specialize (K [0; 16; 32; 48] (cb, true) H). by destruct (foldl _ _ _) as [cb1 []].
  - unfold emitLDRsp. by destruct (peepholeElim _ _).
  - cbn. destruct (decide (name = l)) as [->|E]; [rewrite lookup_insert_eq; by eexists|by rewrite lookup_insert_ne].
Qed.

Lemma build_all_labels_keep os l : forall cb, is_Some (labels cb !! l) -> is_Some (labels (foldl build cb os) !! l).
Proof. induction os as [|o os IH]; intros cb H; [done|]. cbn [foldl]. apply IH. by apply build_labels_keep. Qed.

Lemma genFuncs_labels locals fs : forall cb, Forall (has_label (foldl (genFunc locals) cb fs)) fs /\ forall l, is_Some (labels cb !! l) -> is_Some (labels (foldl (genFunc locals) cb fs) !! l).
Proof.
  induction fs as [|f fs IH]; intros cb; [by split|]. cbn [foldl]. destruct (IH (genFunc locals cb f)) as [H1 H2].
  assert (H : forall l, is_Some (labels cb !! l) \/ l = fn_Name f -> is_Some (labels (genFunc locals cb f) !! l)).
  { intros l Hl. unfold genFunc. apply build_all_labels_keep. cbn.
    destruct (decide (fn_Name f = l)) as [->|E]; [rewrite lookup_insert_eq; by eexists|]. rewrite lookup_insert_ne by done. destruct Hl as [Hl|Hl]; [done|by subst l]. }
  split; [|intros l Hl; apply H2, H; by left]. constructor; [|done]. apply H2, H. by right.
Qed.

Lemma gen_section_labels p sec cb ws : gen_section p sec = inr (cb, ws) -> Forall (has_label cb) (section_funcs p sec).
Proof.
  unfold gen_section. destruct (newCodeBuilder _ _ _ _) as [cb0|]; [|done]. cbn zeta.
  destruct (applyFixups _) as [[e|w]|]; try done. intros [= <- <-]. apply genFuncs_labels.
Qed.

Lemma gen_customs_spec p names : forall idx ces, gen_customs p idx names = inr ces -> 0 <= idx -> idx + 2 * Z.of_nat (length names) < 2 ^ 16 ->
  ce_name <$> ces = names /\ forall i c, ces !! i = Some c -> ce_secIdx c = idx + 2 * Z.of_nat i /\ gen_section p (ce_name c) = inr (ce_cb c, ce_words c).
Proof.
  induction names as [|n names IH]; intros idx ces H H0 Hb; cbn [gen_customs] in H; [injection H as <-; by split|]. cbn [length] in Hb.
  destruct (gen_section p n) as [e|[cb ws]] eqn:Es; [done|]. cbn [mbind gen_bind] in H. rewrite wrapU_small in H by lia.
  destruct (gen_customs p (idx + 2) names) as [e|l] eqn:Ec; [done|]. injection H as <-. destruct (IH _ _ Ec) as [H1 H2]; [lia..|].
  rewrite fmap_cons, H1. split; [done|]. intros [|i] c Hc.
  - injection Hc as <-. cbn [ce_name ce_secIdx ce_cb ce_words]. rewrite Es. split; [lia|done].
  - cbn in Hc. destruct (H2 i c Hc) as [-> ->]. split; [lia|done].
Qed.

(** ** Sections of custom slots *)

Lemma elem_of_add_once l x n : n ∈ add_once l x <-> n ∈ l \/ n = x.
Proof.
  unfold add_once. destruct (bool_decide_reflect (x ∈ l)); [|rewrite elem_of_app, list_elem_of_singleton; tauto]. split; [tauto|]. intros [|E]; [done|by subst].
Qed.

Lemma elem_of_add_all xs : forall l n, n ∈ foldl add_once l xs <-> n ∈ l \/ n ∈ xs.
Proof.
  induction xs as [|x xs IH]; intros l n; cbn [foldl]; [split; [tauto|intros [|H%elem_of_nil]; done]|].
  rewrite IH, elem_of_add_once, elem_of_cons. tauto.
Qed.

Lemma NoDup_add_all xs : forall l, NoDup l -> NoDup (foldl add_once l xs).
Proof.
  induction xs as [|x xs IH]; intros l H; cbn [foldl]; [done|]. apply IH. unfold add_once. destruct (bool_decide_reflect (x ∈ l)); [done|].
  apply list.NoDup_app. split; [done|]. split; [|apply NoDup_singleton]. intros y Hy E%list_elem_of_singleton. by subst.
Qed.

Lemma NoDup_customSecOrder p st : NoDup (customSecOrder p st).
Proof. apply NoDup_add_all. constructor. Qed.

Lemma custom_slot_listed p st sl : sl ∈ customSlots st -> SectionName (gbl sl) ∈ customSecOrder p st.
Proof. intros H. apply elem_of_add_all. right. apply elem_of_app. right. by apply (list_elem_of_fmap_2 (SectionName ∘ gbl)). Qed.

Lemma custom_data_names p st base : cd_name <$> custom_data p st base = dataCustomNames p st.
Proof.
  unfold custom_data. rewrite fmap_imap. generalize (dataCustomNames p st). intros l.
  rewrite (imap_ext _ (fun _ n => n)) by done. induction l as [|n l IH]; [done|]. cbn. by f_equal.
Qed.

Lemma custom_index_found p st ces base sl : ce_name <$> ces = execCustomNames p st -> sl ∈ customSlots st ->
  is_Some (custom_index ces (custom_data p st base) (SectionName (gbl sl))).
Proof.
  intros Hc Hin. set (n := SectionName (gbl sl)). unfold custom_index. destruct (find _ ces) as [c|] eqn:Ef; [by eexists|].
  assert (Hn : n ∉ execCustomNames p st).
  { intros H. rewrite <- Hc in H. apply list_elem_of_fmap in H as (c & E & H). apply list_elem_of_In in H. apply (find_none _ _ Ef) in H.
    by rewrite bool_decide_eq_false in H. }
  assert (Hd : n ∈ dataCustomNames p st).
  { apply list_elem_of_filter. split; [|by apply custom_slot_listed]. split; [|done]. by apply (list_elem_of_fmap_2 (SectionName ∘ gbl)). }
  rewrite <- (custom_data_names p st base) in Hd. apply list_elem_of_fmap in Hd as (d & E & Hd). apply list_elem_of_In in Hd.
  destruct (find _ (custom_data p st base)) as [d'|] eqn:Ed; [by eexists|]. apply (find_none _ _ Ed) in Hd. by rewrite bool_decide_eq_false in Hd.
Qed.

(** ** The first passes *)

(** Common slots are those of globals without storage in the object. *)
Definition common_slot (sl : globalSlot) : Prop := isCommon sl = true -> IsStatic (gbl sl) = false.

Lemma place_globals_common gs : forall st, Forall common_slot (slots st) -> Forall common_slot (slots (foldl place_global st gs)).
Proof.
  induction gs as [|g gs IH]; intros st H; [done|]. cbn [foldl]. apply IH. unfold place_global. destruct (IsExtern g); [done|].
  destruct (bool_decide _); [|done]. unfold place_default. destruct (scalar_init g || has_data g); [|destruct (negb (IsStatic g) && _) eqn:E];
    cbn [slots]; apply list.Forall_app; (split; [done|]); constructor; try done.
  intros _. cbn. by destruct (IsStatic g).
Qed.

Definition local_entries (cb : codeBuilder) (lits : list rodataEntry) (p : IRProgram) (dst : dataState) : list entry :=
  (str_entry <$> lits) ++ (func_entry cb objSecText 0 <$> filter (fun f => fn_IsStatic f) (section_funcs p "")) ++
  (var_entry 0 <$> filter (fun sl => IsStatic (gbl sl)) (slots dst)).

Definition global_entries (cb : codeBuilder) (ces : list customExec) (cds : list customData) (p : IRProgram) (dst : dataState) : list entry :=
  ((fun f => func_entry cb objSecText (weak_bind (fn_IsWeak f)) f) <$> filter (fun f => negb (fn_IsStatic f)) (section_funcs p "")) ++
  (ces ≫= fun c => (fun f => func_entry (ce_cb c) (ce_secIdx c) (weak_bind (fn_IsWeak f)) f) <$> section_funcs p (ce_name c)) ++
  ((fun sl => var_entry (weak_bind (IsWeak (gbl sl))) sl) <$> filter (fun sl => negb (IsStatic (gbl sl))) (slots dst)) ++
  (custom_entry ces cds <$> customSlots dst).

Lemma filter_all {A} (f : A -> bool) (l : list A) : (forall x, f x = true) -> filter (fun x => f x) l = l.
Proof. intros H. induction l as [|x l IH]; [done|]. rewrite list.filter_cons, decide_True by (rewrite H; done). by f_equal. Qed.

Lemma gen_locals_entries cb ces cds lits p dst : Forall (has_label cb) (section_funcs p "") -> Forall common_slot (slots dst) ->
  gen_locals cb ces cds lits p dst = inr (adds (first_syms ces cds) (local_entries cb lits p dst)).
Proof.
  intros Hl Hc. unfold gen_locals, local_entries. rewrite (foldl_adds add_strlit str_entry (fun _ => true)) by done.
  rewrite (filter_all (fun _ => true)) by done. rewrite (gen_fold_adds (add_static_func cb) (func_entry cb objSecText 0) fn_IsStatic).
  2: { intros st f Hf. unfold add_static_func. destruct (fn_IsStatic f); [|done]. apply add_func_entry. by apply (proj1 (list.Forall_forall _ _) Hl). }
  cbn [mbind gen_bind]. rewrite (foldl_adds add_static_var (var_entry 0) (fun sl => IsStatic (gbl sl))).
  - by rewrite !adds_app.
  - intros st sl Hs. pose proof (proj1 (list.Forall_forall _ _) Hc sl Hs) as Hcs. unfold add_static_var, add_var, var_entry, add_entry, common_slot in *.
    destruct (IsStatic (gbl sl)); [|done]. destruct (isCommon sl); [by specialize (Hcs eq_refl)|]. by destruct (inData sl).
Qed.

Lemma gen_globals_entries cb ces p dst base st : Forall (has_label cb) (section_funcs p "") ->
  Forall (fun c => Forall (has_label (ce_cb c)) (section_funcs p (ce_name c))) ces -> ce_name <$> ces = execCustomNames p dst ->
  let cds := custom_data p dst base in gen_globals cb ces cds p dst st = inr (adds st (global_entries cb ces cds p dst)).
Proof.
  intros Hl Hce Hn cds. unfold gen_globals, global_entries.
  rewrite (gen_fold_adds (add_global_func cb) (fun f => func_entry cb objSecText (weak_bind (fn_IsWeak f)) f) (fun f => negb (fn_IsStatic f))).
  2: { intros s f Hf. unfold add_global_func. destruct (fn_IsStatic f); [done|]. apply add_func_entry. by apply (proj1 (list.Forall_forall _ _) Hl). }
  cbn [mbind gen_bind]. rewrite adds_app. set (st1 := adds st _). clearbody st1. clear st Hl.
  assert (Hcf : forall l s, Forall (fun c => Forall (has_label (ce_cb c)) (section_funcs p (ce_name c))) l ->
    gen_fold (fun st c => gen_fold (add_custom_func c) (section_funcs p (ce_name c)) st) l s =
    inr (adds s (l ≫= fun c => (fun f => func_entry (ce_cb c) (ce_secIdx c) (weak_bind (fn_IsWeak f)) f) <$> section_funcs p (ce_name c)))).
  { induction l as [|c l IH]; intros s Hf; [done|]. apply Forall_cons_1 in Hf as [Hf Hfs]. cbn [gen_fold].
    rewrite (gen_fold_adds (add_custom_func c) (fun f => func_entry (ce_cb c) (ce_secIdx c) (weak_bind (fn_IsWeak f)) f) (fun _ => true)).
    - rewrite (filter_all (fun _ => true)) by done. cbn [mbind gen_bind]. rewrite IH by done. by rewrite <- adds_app.
    - intros s' f Hf'. apply add_func_entry. by apply (proj1 (list.Forall_forall _ _) Hf). }
  rewrite Hcf by done. cbn [mbind gen_bind]. rewrite adds_app. set (st2 := adds st1 _). clearbody st2. clear Hcf st1.
  rewrite (foldl_adds add_global_var (fun sl => var_entry (weak_bind (IsWeak (gbl sl))) sl) (fun sl => negb (IsStatic (gbl sl)))).
  2: { intros s sl _. unfold add_global_var, add_var, var_entry, add_entry. destruct (IsStatic (gbl sl)); [done|]. destruct (isCommon sl); [done|]. by destruct (inData sl). }
  rewrite adds_app. rewrite (gen_fold_adds (add_custom_var ces cds) (custom_entry ces cds) (fun _ => true)).
  - by rewrite (filter_all (fun _ => true)) by done.
  - intros s sl Hs. unfold add_custom_var, custom_entry, add_entry. destruct (custom_index_found p dst ces base sl Hn Hs) as [i E].
    fold cds in E. by rewrite E.
Qed.
