(* ===== verification/ObjRelas.v ===== *)
(** Undefined symbols, aliases and relocations of an object: what the last
    passes of genObjectTo add, and what each relocation is against. *)
From stdpp Require Import gmap strings.
From S2P Require Import Prelude Align Linker LinkSyms LinkLayout LinkReloc Arfmt Elf CodeBuilder ObjWrite ObjParse ObjRound ObjData ObjGen ObjSyms.
#[local] Open Scope Z_scope.

(** * Undefined symbols *)

Definition undef_entry (type : Z) (n : string) : entry := Entry externSymNames n (sym_info 1 type) 0 0 0.

(** A pass that adds undefined symbols, and the names that it makes sure of. *)
Definition undef_pass {A} (f : symState -> A -> symState) (nm : A -> list string) (Q : symState -> A -> Prop) : Prop :=
  (forall st x, exists ns, f st x = adds st (undef_entry STT_NOTYPE <$> ns) /\ ns ⊆ nm x /\ Q (f st x) x) /\
  (forall st es x, Q st x -> Q (adds st es) x).

Lemma undef_foldl {A} (f : symState -> A -> symState) nm Q l st : undef_pass f nm Q ->
  exists ns, foldl f st l = adds st (undef_entry STT_NOTYPE <$> ns) /\ ns ⊆ l ≫= nm /\ Forall (Q (foldl f st l)) l.
Proof.
  intros [Hf Hq]. revert st. induction l as [|x l IH]; intros st; [exists []; by split|]. cbn [foldl].
  destruct (Hf st x) as (n1 & E1 & S1 & Q1). destruct (IH (f st x)) as (n2 & E2 & S2 & Q2). exists (n1 ++ n2). split; [|split].
  - by rewrite fmap_app, adds_app, <- E1, E2.
  - cbn [mbind list_bind]. fold (l ≫= nm). clear -S1 S2. set_solver.
  - constructor; [|done]. rewrite E2. by apply Hq.
Qed.

Definition resolved_in (ms : list symMap) (st : symState) (n : string) : Prop := is_Some (sym_index st ms n).

Lemma resolved_keep ms st es n : resolved_in ms st n -> resolved_in ms (adds st es) n.
Proof. apply sym_index_keep. Qed.

Lemma resolved_map ms m st n : m ∈ ms -> sym_in st m n = true -> resolved_in ms st n.
Proof. intros Hm H. apply (sym_index_is_some st ms m n Hm). by apply sym_in_spec. Qed.

Lemma undef_once_step ms st n : externSymNames ∈ ms -> exists ns, add_undef_once st n = adds st (undef_entry STT_NOTYPE <$> ns) /\ ns ⊆ [n] /\ resolved_in ms (add_undef_once st n) n.
Proof.
  intros Hm. unfold add_undef_once. destruct (sym_in st externSymNames n) eqn:E.
  - exists []. split; [done|]. split; [set_solver|]. by apply (resolved_map ms externSymNames).
  - exists [n]. split; [done|]. split; [done|]. apply (sym_index_is_some _ ms externSymNames n Hm). unfold add_undef, add_sym. cbn. rewrite lookup_insert_eq. by eexists.
Qed.

Definition global_resolved (p : IRProgram) (st : symState) (g : IRGlobal) : Prop :=
  IsExtern g = true -> is_alias p (Name g) = true \/ resolved_in [externSymNames] st (Name g).
Definition call_resolved (p : IRProgram) (st : symState) (xbl : nat * string) : Prop :=
  is_alias p xbl.2 = true \/ resolved_in [funcSymIdx; externSymNames] st xbl.2.
Definition data_resolved (st : symState) (dr : dataReloc) : Prop :=
  resolved_in [strSymIdx; globalSymIdx; funcSymIdx; externSymNames] st (dr_symbol dr).

Lemma extern_global_pass p : undef_pass (add_extern_global p) (fun g => [Name g]) (global_resolved p).
Proof.
  split; [|intros st es g H E; destruct (H E); [by left|right; by apply resolved_keep]]. intros st g. unfold add_extern_global, global_resolved.
  destruct (IsExtern g); [|exists []; split; [done|]; split; [set_solver|done]].
  destruct (is_alias p (Name g)); [exists []; split; [done|]; split; [set_solver|by left]|].
  destruct (undef_once_step [externSymNames] st (Name g) ltac:(by left)) as (ns & E & Hs & H). exists ns. split; [done|]. split; [done|]. by right.
Qed.

Lemma extern_call_pass p : undef_pass (add_extern_call p) (fun x => [x.2]) (call_resolved p).
Proof.
  split; [|intros st es x [H|H]; [by left|right; by apply resolved_keep]]. intros st x. unfold add_extern_call, call_resolved.
  destruct (is_alias p x.2); [exists []; split; [done|]; split; [set_solver|by left]|].
  destruct (sym_in st funcSymIdx x.2) eqn:E.
  { exists []. split; [done|]. split; [set_solver|]. right. apply (resolved_map _ funcSymIdx); [by left|done]. }
  destruct (undef_once_step [funcSymIdx; externSymNames] st x.2 ltac:(by right; left)) as (ns & E2 & Hs & H). exists ns. split; [done|]. split; [done|]. by right.
Qed.

Lemma data_symbol_pass : undef_pass add_data_symbol (fun dr => [dr_symbol dr]) data_resolved.
Proof.
  split; [|intros st es x; by apply resolved_keep]. intros st x. unfold add_data_symbol, data_resolved.
  set (ms := [strSymIdx; globalSymIdx; funcSymIdx; externSymNames]). assert (Hm : forall m, m ∈ ms -> sym_in st m (dr_symbol x) = true ->
    exists ns, st = adds st (undef_entry STT_NOTYPE <$> ns) /\ ns ⊆ [dr_symbol x] /\ resolved_in ms st (dr_symbol x)).
  { intros m H1 H2. exists []. split; [done|]. split; [set_solver|]. by apply (resolved_map _ m). }
  destruct (sym_in st strSymIdx _) eqn:E1; [apply (Hm strSymIdx); [set_solver|done]|].
  destruct (sym_in st globalSymIdx _) eqn:E2; [apply (Hm globalSymIdx); [set_solver|done]|].
  destruct (sym_in st funcSymIdx _) eqn:E3; [apply (Hm funcSymIdx); [set_solver|done]|].
  apply undef_once_step. set_solver.
Qed.

(** The names an undefined symbol can have. *)
Definition undef_names (cb : codeBuilder) (ces : list customExec) (p : IRProgram) (dst : dataState) : list string :=
  (Name <$> Globals p) ++ (externBLs cb).*2 ++ (ces ≫= fun c => (externBLs (ce_cb c)).*2) ++ (dr_symbol <$> dataRelocs dst).

Lemma bind_singleton {A B} (f : A -> B) (l : list A) : (l ≫= fun x => [f x]) = f <$> l.
Proof. induction l as [|x l IH]; [done|]. cbn. cbn in IH. by rewrite IH. Qed.

Lemma gen_undefs_spec cb ces p dst st : let st' := gen_undefs cb ces p dst st in
  exists ns, st' = adds st (undef_entry STT_NOTYPE <$> ns) /\ ns ⊆ undef_names cb ces p dst /\ Forall (global_resolved p st') (Globals p) /\
    Forall (call_resolved p st') (externBLs cb) /\ Forall (fun c => Forall (call_resolved p st') (externBLs (ce_cb c))) ces /\
    Forall (data_resolved st') (dataRelocs dst).
Proof.
  cbn zeta. unfold gen_undefs. destruct (undef_foldl _ _ _ (Globals p) st (extern_global_pass p)) as (n1 & E1 & S1 & Q1). rewrite E1 in *.
  destruct (undef_foldl _ _ _ (externBLs cb) (adds st (undef_entry STT_NOTYPE <$> n1)) (extern_call_pass p)) as (n2 & E2 & S2 & Q2). rewrite E2 in *.
  set (st2 := adds (adds _ _) _) in *.
  assert (Hp : undef_pass (fun st c => foldl (add_extern_call p) st (externBLs (ce_cb c))) (fun c => (externBLs (ce_cb c)).*2)
    (fun st c => Forall (call_resolved p st) (externBLs (ce_cb c)))).
  { split.
    - intros s c. destruct (undef_foldl _ _ _ (externBLs (ce_cb c)) s (extern_call_pass p)) as (ns & E & S & Q). exists ns.
      rewrite (bind_singleton snd) in S. done.
    - intros s es c H. eapply list.Forall_impl; [exact H|]. intros x. apply extern_call_pass. }
  destruct (undef_foldl _ _ _ ces st2 Hp) as (n3 & E3 & S3 & Q3). rewrite E3 in *. set (st3 := adds st2 _) in *.
  destruct (undef_foldl _ _ _ (dataRelocs dst) st3 data_symbol_pass) as (n4 & E4 & S4 & Q4). exists (n1 ++ n2 ++ n3 ++ n4). rewrite E4 in *.
  rewrite (bind_singleton Name) in S1. rewrite (bind_singleton snd) in S2. rewrite (bind_singleton dr_symbol) in S4. rewrite !fmap_app, !adds_app. fold st2 st3. split; [done|]. split; [|split; [|split; [|split; [|done]]]].
  - unfold undef_names. clear -S1 S2 S3 S4. set_solver.
  - eapply list.Forall_impl; [exact Q1|]. intros g H. unfold st3, st2. by do 3 apply (proj2 (extern_global_pass p)).
  - eapply list.Forall_impl; [exact Q2|]. intros x H. unfold st3. by do 2 apply (proj2 (extern_call_pass p)).
  - eapply list.Forall_impl; [exact Q3|]. intros c H. by apply (proj2 Hp).
Qed.

(** * Aliases *)

(** The entry of an alias: a label of the code, or a copy of a variable's
    symbol. *)
Definition alias_entry (p : IRProgram) (cb : codeBuilder) (ces : list customExec) (st : symState) (a : IRAlias) (e : entry) : Prop :=
  en_map e = aliasSymIdx /\ en_name e = al_Name a /\
  ((exists l w, resolveAliasTarget p (al_Target a) = Some l /\ find_label cb ces l = Some (w, en_shndx e) /\
      en_info e = sym_info 1 STT_FUNC /\ en_value e = u64 (u64 w * 4) /\ en_size e = 0) \/
   (exists i t, al_IsFunc a = false /\ ss_idx st !! (globalSymIdx, al_Target a) = Some i /\ ss_syms st !! Z.to_nat i = Some t /\
      en_info e = sym_info 1 STT_OBJECT /\ en_shndx e = st_shndx t /\ en_value e = st_value t /\ en_size e = st_size t)).

Lemma add_func_alias_spec p cb ces st a st' : add_func_alias p cb ces st a = inr st' -> exists e, st' = add_entry st e /\ alias_entry p cb ces st a e.
Proof.
  unfold add_func_alias. destruct (resolveAliasTarget p (al_Target a)) as [l|] eqn:El; [|done]. cbn [mbind option_bind].
  destruct (find_label cb ces l) as [[w sh]|] eqn:Ef; [|done]. intros [= <-].
  exists (Entry aliasSymIdx (al_Name a) (sym_info 1 STT_FUNC) sh (u64 (u64 w * 4)) 0). split; [done|]. split; [done|]. split; [done|]. left. by exists l, w.
Qed.

Lemma add_alias_spec p cb ces st a st' : add_alias p cb ces st a = inr st' -> exists e, st' = add_entry st e /\ alias_entry p cb ces st a e.
Proof.
  unfold add_alias. destruct (al_IsFunc a) eqn:Ea; [apply add_func_alias_spec|].
  destruct (ss_idx st !! _) as [i|] eqn:Ei; [|apply add_func_alias_spec]. destruct (ss_syms st !! Z.to_nat i) as [t|] eqn:Et; [|done]. intros [= <-].
  exists (Entry aliasSymIdx (al_Name a) (sym_info 1 STT_OBJECT) (st_shndx t) (st_value t) (st_size t)).
  split; [done|]. split; [done|]. split; [done|]. right. by exists i, t.
Qed.

(** An entry of another map leaves what an alias copies where it is. *)
Definition indices_ok (st : symState) : Prop := forall m n i, ss_idx st !! (m, n) = Some i -> 0 <= i < Z.of_nat (length (ss_syms st)).

Lemma indices_first ces cds : indices_ok (first_syms ces cds).
Proof. intros m n i H. cbn in H. by rewrite lookup_empty in H. Qed.

Lemma indices_adds st es : indices_ok st -> indices_ok (adds st es).
Proof.
  intros H m n i Hi. rewrite length_adds. apply adds_idx_old in Hi as [Hi|(k & e & Hk & _ & _ & ->)]; [apply H in Hi; lia|]. apply lookup_lt_Some in Hk. lia.
Qed.

Lemma alias_entry_before p cb ces st es a e : indices_ok st -> Forall (fun e => en_map e = aliasSymIdx) es ->
  alias_entry p cb ces (adds st es) a e -> alias_entry p cb ces st a e.
Proof.
  intros Hi Hes (H1 & H2 & H). split; [done|]. split; [done|]. destruct H as [H|(i & t & Ha & Hx & Ht & R)]; [by left|right].
  apply adds_idx_old in Hx as [Hx|(k & x & Hk & Hm & _)].
  - exists i, t. split; [done|]. split; [done|]. split; [|done]. apply Hi in Hx. destruct (adds_syms_grow st es) as [l E].
    rewrite E, lookup_app_l in Ht by lia. done.
  - apply (proj1 (list.Forall_lookup _ _) Hes) in Hk. congruence.
Qed.

Lemma add_aliases_spec p cb ces l : forall st st', gen_fold (add_alias p cb ces) l st = inr st' -> indices_ok st ->
  exists es, st' = adds st es /\ Forall2 (alias_entry p cb ces st) l es /\ Forall (fun e => en_map e = aliasSymIdx) es.
Proof.
  induction l as [|a l IH]; intros st st' H Hi; cbn [gen_fold] in H; [injection H as <-; exists []; by split|].
  destruct (add_alias p cb ces st a) as [e|st1] eqn:E; [done|]. cbn [mbind gen_bind] in H. apply add_alias_spec in E as (e & -> & He).
  destruct (IH _ _ H) as (es & -> & Hes & Hm); [by apply (indices_adds st [e])|]. exists (e :: es). split; [done|].
  assert (Hme : en_map e = aliasSymIdx) by (by destruct He). split; [|by constructor]. constructor; [done|].
  eapply Forall2_impl; [|exact Hes]. intros b x Hb. apply (alias_entry_before _ _ _ st [e]); [done|by constructor|done].
Qed.

(** * Relocations *)

(** Every map points at symbols of the right name. *)
Definition table_ok (st : symState) : Prop := forall m n i, ss_idx st !! (m, n) = Some i ->
  exists k s, i = Z.of_nat k /\ ss_syms st !! k = Some s /\ getString (ss_strtab st) (st_name s) = Some n.

Definition names_ok (es : list entry) : Prop := Forall (fun e => no_nul (en_name e)) es.
Definition strtab_fits (st : symState) : Prop := bytes_len (ss_strtab st) < 2 ^ 32.

Lemma strtab_fits_before st es : strtab_fits (adds st es) -> strtab_fits st.
Proof. unfold strtab_fits. destruct (adds_strtab_grow st es) as [l ->]. unfold bytes_len. rewrite length_app. lia. Qed.

Lemma table_first ces cds : table_ok (first_syms ces cds).
Proof. intros m n i H. cbn in H. by rewrite lookup_empty in H. Qed.

(** A symbol with its name stays where it is. *)
Lemma named_keep st es k s n : ss_syms st !! k = Some s -> getString (ss_strtab st) (st_name s) = Some n ->
  ss_syms (adds st es) !! k = Some s /\ getString (ss_strtab (adds st es)) (st_name s) = Some n.
Proof.
  intros H1 H2. destruct (adds_syms_grow st es) as [l1 ->]. destruct (adds_strtab_grow st es) as [l2 ->].
  split; [by apply lookup_app_l_Some|]. by apply getString_more.
Qed.

Lemma table_adds st es : table_ok st -> names_ok es -> strtab_fits (adds st es) -> table_ok (adds st es).
Proof.
  intros H Hn Hf m n i Hi. apply adds_idx_old in Hi as [Hi|(k & e & Hk & Hm & He & ->)].
  - destruct (H m n i Hi) as (k & s & -> & Hs & Hg). exists k, s. split; [done|]. by apply named_keep.
  - destruct (adds_symbol st es k e Hk) as (s & Hs & Hsym); [by apply (proj1 (list.Forall_lookup _ _) Hn k)|done|].
    exists (length (ss_syms st) + k)%nat, s. split; [done|]. split; [done|]. destruct Hsym as [E _]. by rewrite <- He.
Qed.

(** What a relocation is to say: where, of which type, with which addend and
    against which name. *)
Record against := Against { ag_off : Z; ag_type : Z; ag_addend : Z; ag_name : string }.

Definition relocates (st : symState) (x : against) (r : objRela) : Prop := exists k s,
  r = mkRela (ag_off x) (Z.of_nat k) (ag_type x) (ag_addend x) /\ ss_syms st !! k = Some s /\
  getString (ss_strtab st) (st_name s) = Some (ag_name x).

Lemma relocates_keep st es x r : relocates st x r -> relocates (adds st es) x r.
Proof. intros (k & s & -> & H1 & H2). exists k, s. split; [done|]. by apply named_keep. Qed.

Lemma relocates_index st ms off ty a n i : table_ok st -> sym_index st ms n = Some i -> relocates st (Against off ty a n) (mkRela off i ty a).
Proof. intros Ht H. apply sym_index_some in H as (m & _ & H). destruct (Ht m n i H) as (k & s & -> & Hs & Hg). by exists k, s. Qed.

Definition pool_against (k : nat) (n : string) : against := Against (u64 (Z.of_nat k * 8)) rAArch64Abs64 0 n.
Definition ref_against (cb : codeBuilder) (n : string) : option against := (fun k => pool_against k n) <$> poolIdx cb !! n.
Definition call_against (xbl : nat * string) : against := Against (u64 (Z.of_nat xbl.1 * 4)) rAArch64Call26 0 xbl.2.

(** All relocations of a code section: its pool and its calls to other
    sections and objects. *)
Definition code_against (p : IRProgram) (cb : codeBuilder) : list against :=
  imap pool_against ((Name <$> Globals p) ++ (sl_label <$> StrLits p)) ++ omap (ref_against cb) (FuncRefs p) ++ (call_against <$> externBLs cb).

Definition data_against (dr : dataReloc) : against := Against (dr_offset dr) rAArch64Abs64 (dr_addend dr) (dr_symbol dr).

Definition pool_resolved (st : symState) (g : IRGlobal) : Prop := resolved_in [globalSymIdx; externSymNames; aliasSymIdx] st (Name g).

Lemma pool_globals_spec st gs : table_ok st -> Forall (pool_resolved st) gs -> forall n,
  Forall2 (relocates st) (imap (fun k g => pool_against (n + k) (Name g)) gs) (concat (imap (fun k => pool_global_rela st (n + k)) gs)).
Proof.
  intros Ht. induction 1 as [|g gs [i Hi] _ IH]; intros n; [constructor|]. cbn [imap concat]. unfold pool_global_rela at 1. rewrite Hi. cbn [app].
  constructor; [by eapply relocates_index|].
  specialize (IH (S n)). rewrite (imap_ext _ (fun k g => pool_against (S n + k) (Name g))), (imap_ext _ (fun k => pool_global_rela st (S n + k))); [done|..];
    intros j x _; cbn; by rewrite Nat.add_succ_r.
Qed.

Lemma pool_strs_spec st es : table_ok st -> Forall (fun e => resolved_in [strSymIdx] st (re_label e)) es -> forall n,
  Forall2 (relocates st) (imap (fun k e => pool_against (n + k) (re_label e)) es) (imap (fun k e => pool_str_rela st (n + k) e) es).
Proof.
  intros Ht. induction 1 as [|e es [i Hi] _ IH]; intros n; [constructor|]. cbn [imap]. constructor.
  - unfold pool_str_rela. cbn [sym_index] in Hi. destruct (ss_idx st !! _) as [j|] eqn:Ej; [|done].
    cbn [default from_option id]. apply (relocates_index st [strSymIdx]); [done|]. cbn. by rewrite Ej.
  - specialize (IH (S n)). rewrite (imap_ext _ (fun k e => pool_against (S n + k) (re_label e))), (imap_ext _ (fun k e => pool_str_rela st (S n + k) e)); [done|..];
      intros j x _; cbn; by rewrite Nat.add_succ_r.
Qed.

(** Function references: symbols may be added on the way. *)
Lemma func_refs_spec cb fns : forall st rs, table_ok st -> Forall no_nul fns -> strtab_fits (foldl (func_ref_rela cb) (st, rs) fns).1 ->
  exists ns new, foldl (func_ref_rela cb) (st, rs) fns = (adds st (undef_entry STT_FUNC <$> ns), rs ++ new) /\ Forall no_nul ns /\
    Forall2 (relocates (adds st (undef_entry STT_FUNC <$> ns))) (omap (ref_against cb) fns) new.
Proof.
  induction fns as [|n fns IH]; intros st rs Ht Hn; cbn [foldl]; intros Hf.
  { exists [], []. rewrite app_nil_r. split; [done|]. by split. }
  apply Forall_cons_1 in Hn as [Hn Hns]. unfold func_ref_rela at 2. unfold func_ref_rela at 2 in Hf. cbn [omap list_omap]. unfold ref_against at 1.
  destruct (poolIdx cb !! n) as [k|] eqn:Ek; [|by apply IH]. cbn [fmap option_fmap option_map].
  destruct (sym_index st [funcSymIdx; externSymNames] n) as [i|] eqn:Ei.
  - destruct (IH _ _ Ht Hns Hf) as (ns & new & -> & Hns2 & Hnew). exists ns, (mkRela (u64 (Z.of_nat k * 8)) i rAArch64Abs64 0 :: new).
    rewrite <- app_assoc. split; [done|]. split; [done|]. constructor; [|done]. apply relocates_keep. by eapply relocates_index.
  - set (e := undef_entry STT_FUNC n). change (add_undef STT_FUNC st n) with (adds st [e]) in *.
    assert (He : names_ok [e]) by (by constructor).
    assert (Hfit : strtab_fits (adds st [e])).
    { clear -Hf. revert Hf. generalize (rs ++ [mkRela (u64 (Z.of_nat k * 8)) (Z.of_nat (length (ss_syms st))) rAArch64Abs64 0]). generalize (adds st [e]).
      clear. induction fns as [|n fns IH]; intros st rs H; [done|]. cbn [foldl] in H. unfold func_ref_rela at 2 in H.
      destruct (poolIdx cb !! n); [|by eapply IH]. destruct (sym_index _ _ _); [by eapply IH|]. apply IH in H. by apply (strtab_fits_before st [undef_entry STT_FUNC n]). }
    assert (Ht2 : table_ok (adds st [e])) by (by apply table_adds).
    destruct (IH _ _ Ht2 Hns Hf) as (ns & new & -> & Hns2 & Hnew). exists (n :: ns), (mkRela (u64 (Z.of_nat k * 8)) (Z.of_nat (length (ss_syms st))) rAArch64Abs64 0 :: new).
    rewrite <- app_assoc. split; [done|]. split; [by constructor|]. constructor; [|done]. change (undef_entry STT_FUNC <$> n :: ns) with ([e] ++ (undef_entry STT_FUNC <$> ns)). rewrite adds_app.
    apply relocates_keep. destruct (adds_symbol st [e] 0 e eq_refl Hn Hfit) as (s & Hs & Hsym & _). rewrite Nat.add_0_r in Hs. by exists (length (ss_syms st)), s.
Qed.

Lemma calls_spec st xbls : table_ok st -> Forall (fun x => resolved_in [funcSymIdx; aliasSymIdx; externSymNames] st x.2) xbls ->
  Forall2 (relocates st) (call_against <$> xbls) (call_rela st <$> xbls).
Proof.
  intros Ht. induction 1 as [|x xbls [i Hi] _ IH]; [constructor|]. constructor; [|done]. unfold call_rela. rewrite Hi. by eapply relocates_index.
Qed.

(** Everything the code relocations need. *)
Record code_ready (p : IRProgram) (lits : list rodataEntry) (cb : codeBuilder) (st : symState) : Prop := {
  ready_globals : Forall (pool_resolved st) (Globals p);
  ready_strs : Forall (fun e => resolved_in [strSymIdx] st (re_label e)) lits;
  ready_calls : Forall (fun x => resolved_in [funcSymIdx; aliasSymIdx; externSymNames] st x.2) (externBLs cb)
}.

Lemma code_ready_keep p lits cb st es : code_ready p lits cb st -> code_ready p lits cb (adds st es).
Proof. intros [H1 H2 H3]. split; (eapply list.Forall_impl; [eassumption|]); intros x; apply resolved_keep. Qed.

Lemma rodata_labels ls : forall off, re_label <$> rodata_list off ls = sl_label <$> ls.
Proof. induction ls as [|l ls IH]; intros off; [done|]. cbn. by rewrite IH. Qed.

Lemma buildCodeRelas_spec p cb st : let lits := rodata_list 0 (StrLits p) in code_ready p lits cb st -> table_ok st -> Forall no_nul (FuncRefs p) ->
  strtab_fits (buildCodeRelas p lits st cb).1 ->
  exists ns rs, buildCodeRelas p lits st cb = (adds st (undef_entry STT_FUNC <$> ns), rs) /\ Forall no_nul ns /\
    Forall2 (relocates (adds st (undef_entry STT_FUNC <$> ns))) (code_against p cb) rs.
Proof.
  intros lits Hr Ht Hn. unfold buildCodeRelas. intros Hf.
  destruct (func_refs_spec cb (FuncRefs p) st [] Ht Hn) as (ns & refs & E & Hns & Hrefs); [by destruct (foldl _ _ _)|].
  rewrite E in *. exists ns. eexists. split; [reflexivity|]. split; [done|]. set (es := undef_entry STT_FUNC <$> ns) in *. cbn [fst] in Hf.
  assert (Ht2 : table_ok (adds st es)) by (apply table_adds; [done|by apply list.Forall_fmap|done]).
  destruct Hr as [H1 H2 H3]. unfold code_against. rewrite imap_app. apply Forall2_app; apply Forall2_app.
  - rewrite imap_fmap. eapply Forall2_impl; [|apply (pool_globals_spec st (Globals p) Ht H1 0)]. intros x r. apply relocates_keep.
  - rewrite <- (rodata_labels _ 0), imap_fmap, length_fmap. eapply Forall2_impl; [|apply (pool_strs_spec st lits Ht H2 (length (Globals p)))]. intros x r. apply relocates_keep.
  - done.
  - apply calls_spec; [done|]. eapply list.Forall_impl; [exact H3|]. intros x. apply resolved_keep.
Qed.
