(* ===== verification/ObjProgram.v ===== *)
(** The run of genObjectTo as a whole: when it succeeds, how it can fail, and
    what its symbol table and relocations are. *)
From stdpp Require Import gmap strings.
From S2P Require Import Prelude Align Linker LinkSyms LinkLayout LinkReloc Arfmt Elf CodeBuilder CodeExec ObjWrite ObjParse ObjRound ObjData ObjPlace ObjGen ObjSyms ObjRelas.
#[local] Open Scope Z_scope.

(** * Programs *)

Definition placed (p : IRProgram) : dataState := place_globals (Globals p).
Definition literals (p : IRProgram) : list rodataEntry := rodata_list 0 (StrLits p).

Record program_ok (p : IRProgram) : Prop := {
  ok_globals : globals_fit (Globals p);
  ok_values : Forall value_ok (Globals p);
  ok_lits : zsum ((fun l => bytes_len (sl_content l) + 1) <$> StrLits p) <= 2 ^ 62;
  ok_addends : Forall (fun g => Forall (fun r => - 2 ^ 63 <= Addend r < 2 ^ 63) (InitRelocs g)) (Globals p);
  ok_bodies : forall f locals, f ∈ Funcs p -> Forall op_ok (fn_body f locals);
  ok_sections : Z.of_nat (length (customSecOrder p (placed p))) < 2 ^ 14
}.

(** ** String literals *)

Lemma rodata_packed ls : forall off, 0 <= off -> off + zsum ((fun l => bytes_len (sl_content l) + 1) <$> ls) <= 2 ^ 62 ->
  packed off ((fun e => (re_offset e, bytes_len (re_bytes e))) <$> rodata_list off ls)
    (off + zsum ((fun l => bytes_len (sl_content l) + 1) <$> ls)) /\
  foldl (fun n e => u64 (n + bytes_len (re_bytes e))) off (rodata_list off ls) = off + zsum ((fun l => bytes_len (sl_content l) + 1) <$> ls).
Proof.
  induction ls as [|l ls IH]; intros off H0 H; [cbn; lia|]. pose proof (bytes_len_nonneg (sl_content l)) as Hl.
  change (zsum ((fun l => bytes_len (sl_content l) + 1) <$> l :: ls)) with (bytes_len (sl_content l) + 1 + zsum ((fun l => bytes_len (sl_content l) + 1) <$> ls)) in *.
  assert (Hz : 0 <= zsum ((fun l => bytes_len (sl_content l) + 1) <$> ls)).
  { clear. unfold zsum. induction ls as [|x ls IH]; cbn; [lia|]. pose proof (bytes_len_nonneg (sl_content x)). cbn in IH. lia. }
  assert (El : bytes_len (sl_content l ++ [0]) = bytes_len (sl_content l) + 1) by (unfold bytes_len; rewrite length_app; cbn [length]; lia).
  cbn [rodata_list fmap list_fmap foldl packed re_offset re_bytes]. rewrite El, !wrapU_small by lia.
  destruct (IH (off + (bytes_len (sl_content l) + 1))) as [P F]; [lia|lia|]. rewrite F. split; [|lia].
  split; [lia|]. split; [lia|]. by rewrite <- Z.add_assoc in P.
Qed.

Lemma rodata_ok p : program_ok p -> exists ro, rodataBytes (StrLits p) = Ok ro /\
  forall e j, e ∈ literals p -> (j < length (re_bytes e))%nat -> ro !! (Z.to_nat (re_offset e) + j)%nat = re_bytes e !! j.
Proof.
  intros Hok. pose proof (ok_lits _ Hok) as Hl. destruct (rodata_packed (StrLits p) 0 ltac:(lia) ltac:(lia)) as [P F].
  unfold rodataBytes. rewrite F. set (n := 0 + _) in *. fold (literals p) in *.
  destruct (assemble_spec n ((fun e => (re_offset e, re_bytes e)) <$> literals p)) as (bs & E & _ & H).
  { rewrite <- list_fmap_compose. exact P. }
  exists bs. split.
  - rewrite <- E. unfold assemble, zeros. generalize (replicate (Z.to_nat n) 0). clear. induction (literals p) as [|e l IH]; intros d; [done|].
    cbn. destruct (copy_at d (re_offset e) (re_bytes e)); cbn; [apply IH|done].
  - intros e j He Hj. apply (H (re_offset e) (re_bytes e)); [|done]. by apply (list_elem_of_fmap_2 (fun e => (re_offset e, re_bytes e))).
Qed.

(** ** Code *)

Lemma funcs_builder_ok p fs locals : program_ok p -> (forall f, f ∈ fs -> f ∈ Funcs p) -> forall cb, builder_ok cb -> builder_ok (foldl (genFunc locals) cb fs).
Proof.
  intros Hok. induction fs as [|f fs IH]; intros Hs cb Hcb; [done|]. cbn [foldl]. apply IH; [intros; apply Hs; by right|].
  apply build_all_ok; [apply (ok_bodies _ Hok), Hs; left|by apply define_ok].
Qed.

Lemma section_funcs_in p sec f : f ∈ section_funcs p sec -> f ∈ Funcs p.
Proof. intros Hf. by apply list_elem_of_filter in Hf as [_ Hf]. Qed.

Lemma gen_section_total p sec : program_ok p -> (exists cb ws, gen_section p sec = inr (cb, ws)) \/ (exists e, gen_section p sec = inl (BadFixup e)).
Proof.
  intros Hok. unfold gen_section.
  destruct (newCodeBuilder_spec (Name <$> Globals p) (sl_label <$> StrLits p) (FConsts p) (FuncRefs p)) as (cb0 & n & E & _).
  pose proof (new_ok _ _ _ _ _ E) as Hcb. rewrite E. cbn zeta. set (cb := foldl _ _ _).
  assert (Hb : builder_ok cb) by (apply (funcs_builder_ok p); [done|apply section_funcs_in|done]).
  destruct (apply_fixups_spec (labels cb) (fixups cb) (instrs cb) (ok_placed _ Hb) (ok_distinct _ Hb)) as [H1 H2]. unfold applyFixups.
  destruct (decide (Forall (resolvable (labels cb)) (fixups cb))) as [Hr|Hr].
  - destruct (H1 Hr) as (ws & -> & _). left. eauto.
  - destruct (H2 Hr) as (e & ->). right. eauto.
Qed.

Lemma gen_customs_total p ns : program_ok p -> forall idx, (exists ces, gen_customs p idx ns = inr ces) \/ (exists e, gen_customs p idx ns = inl (BadFixup e)).
Proof.
  intros Hok. induction ns as [|n ns IH]; intros idx; [left; by eexists|]. cbn [gen_customs].
  destruct (gen_section_total p n Hok) as [(cb & ws & ->)|(e & ->)]; [|right; by eexists]. cbn [mbind gen_bind].
  destruct (IH (u16 (idx + 2))) as [(ces & ->)|(e & ->)]; [left; by eexists|right; by eexists].
Qed.

(** ** Where functions start *)

(** No label of a function's body is the name of a function, and functions have
    names of their own. *)
Definition labels_fine (p : IRProgram) : Prop := NoDup (fn_Name <$> Funcs p) /\
  forall f g locals, f ∈ Funcs p -> g ∈ Funcs p -> DefineLabel (fn_Name g) ∉ fn_body f locals.

(** The byte at which function [f] starts in section [sec]: after the pool and
    the functions before it. *)
Definition starts_at (p : IRProgram) (sec : string) (f : IRFunc) (v : Z) : Prop := exists cb0 l1 l2,
  newCodeBuilder (Name <$> Globals p) (sl_label <$> StrLits p) (FConsts p) (FuncRefs p) = Some cb0 /\
  section_funcs p sec = l1 ++ f :: l2 /\ v = 4 * Z.of_nat (length (instrs (foldl (genFunc (local_funcs p sec)) cb0 l1))).

Lemma build_label_same cb o l : o <> DefineLabel l -> labels (build cb o) !! l = labels cb !! l.
Proof.
  intros H. destruct o; try done; cbn [build].
  - unfold emitMOVimm. assert (K : forall shs s, labels (foldl (mov_chunk rd (u64 val)) s shs).1 = labels s.1).
    { induction shs as [|sh shs IH]; intros s; [done|]. cbn [foldl]. rewrite IH. destruct s as [cb1 b]. unfold mov_chunk. by repeat case_match. }
    specialize (K [0; 16; 32; 48] (cb, true)). cbn [fst] in K. rewrite <- K. by destruct (foldl _ _ _) as [cb1 []].
  - unfold emitLDRsp. by destruct (peepholeElim _ _).
  - cbn. apply lookup_insert_ne. congruence.
Qed.

Lemma body_label_same os l : forall cb, DefineLabel l ∉ os -> labels (foldl build cb os) !! l = labels cb !! l.
Proof.
  induction os as [|o os IH]; intros cb H; [done|]. cbn [foldl]. apply not_elem_of_cons in H as [H1 H2]. rewrite IH by done. by apply build_label_same.
Qed.

Lemma funcs_label_same locals fs l : forall cb, l ∉ fn_Name <$> fs -> (forall f, f ∈ fs -> DefineLabel l ∉ fn_body f locals) ->
  labels (foldl (genFunc locals) cb fs) !! l = labels cb !! l.
Proof.
  induction fs as [|f fs IH]; intros cb Hl Hf; [done|]. cbn [foldl]. rewrite fmap_cons in Hl. apply not_elem_of_cons in Hl as [H1 H2].
  rewrite IH; [|done|intros; apply Hf; by right]. unfold genFunc. rewrite body_label_same by (apply Hf; left). cbn. by apply lookup_insert_ne.
Qed.

Lemma NoDup_fmap_filter {A B} (f : A -> B) (P : A -> Prop) `{forall x, Decision (P x)} (l : list A) : NoDup (f <$> l) -> NoDup (f <$> filter P l).
Proof.
  induction l as [|x l IH]; intros Hn; [done|]. rewrite fmap_cons in Hn. apply list.NoDup_cons in Hn as [H1 H2]. rewrite list.filter_cons.
  destruct (decide (P x)); [|by apply IH]. rewrite fmap_cons. apply list.NoDup_cons. split; [|by apply IH].
  intros Hx. apply H1. apply list_elem_of_fmap in Hx as (y & -> & Hy). apply list_elem_of_filter in Hy as [_ Hy]. by apply list_elem_of_fmap_2.
Qed.

Lemma function_label p sec f cb ws : program_ok p -> labels_fine p -> gen_section p sec = inr (cb, ws) -> f ∈ section_funcs p sec ->
  exists v, starts_at p sec f (4 * v) /\ labels cb !! fn_Name f = Some v /\ 0 <= v <= Z.of_nat (length ws).
Proof.
  intros Hok [Hnd Hlab] Hg Hf. unfold gen_section in Hg. destruct (newCodeBuilder _ _ _ _) as [cb0|] eqn:E; [|done]. cbn zeta in Hg.
  pose proof (new_ok _ _ _ _ _ E) as Hcb. destruct (list_elem_of_split _ _ Hf) as (l1 & l2 & Es).
  pose proof (section_funcs_in p sec) as Hin.
  set (cb' := foldl (genFunc (local_funcs p sec)) cb0 (section_funcs p sec)) in *.
  assert (El : labels cb' !! fn_Name f = Some (Z.of_nat (length (instrs (foldl (genFunc (local_funcs p sec)) cb0 l1))))).
  { assert (Hnd2 : NoDup (fn_Name <$> section_funcs p sec)) by (by apply NoDup_fmap_filter).
    unfold cb'. rewrite Es in *. rewrite foldl_app. cbn [foldl]. rewrite fmap_app, fmap_cons in Hnd2. apply list.NoDup_app in Hnd2 as (_ & _ & Hnd2).
    apply list.NoDup_cons in Hnd2 as [Hnf _]. rewrite funcs_label_same; [|done|].
    - unfold genFunc at 1. rewrite body_label_same by (apply Hlab; by apply Hin). cbn. by rewrite lookup_insert_eq.
    - intros g Hg'. apply Hlab; apply Hin; [|done]. apply elem_of_app. right. by right. }
  eexists. split; [exists cb0, l1, l2; by rewrite E|].
  assert (Hb : builder_ok cb') by (by apply (funcs_builder_ok p)).
  destruct (apply_fixups_spec (labels cb') (fixups cb') (instrs cb') (ok_placed _ Hb) (ok_distinct _ Hb)) as [H1 H2]. unfold applyFixups in Hg.
  destruct (decide (Forall (resolvable (labels cb')) (fixups cb'))) as [Hr|Hr].
  - destruct (H1 Hr) as (ws' & E2 & L & _). rewrite E2 in Hg. injection Hg as <- <-. split; [exact El|]. rewrite L. exact (ok_labels _ Hb _ _ El).
  - destruct (H2 Hr) as (e & E2). by rewrite E2 in Hg.
Qed.

(** * The run *)

Ltac in_maps := clear; repeat (first [by left | right]).

Lemma resolved_more ms ms' st n : ms ⊆ ms' -> resolved_in ms st n -> resolved_in ms' st n.
Proof. intros H [i Hi]. apply sym_index_some in Hi as (m & Hm & Hi). apply (sym_index_is_some _ _ m); [by apply H|]. by eexists. Qed.

(** Everything a successful run computes, in the order of the code. *)
Record build_run (p : IRProgram) := BuildRun {
  br_cb : codeBuilder;
  br_words : list Z;
  br_ces : list customExec;
  br_aliases : list entry;
  br_undefs : list string;
  br_data : list Z;
  br_rodata : list Z
}.
Arguments br_cb {p} _.
Arguments br_words {p} _.
Arguments br_ces {p} _.
Arguments br_aliases {p} _.
Arguments br_undefs {p} _.
Arguments br_data {p} _.
Arguments br_rodata {p} _.

Definition br_cds {p} (r : build_run p) : list customData :=
  custom_data p (placed p) (objNumSections + 2 * Z.of_nat (length (br_ces r))).
Definition br_first {p} (r : build_run p) : symState := first_syms (br_ces r) (br_cds r).
Definition br_locals {p} (r : build_run p) : list entry := local_entries (br_cb r) (literals p) p (placed p).
Definition br_globals {p} (r : build_run p) : list entry := global_entries (br_cb r) (br_ces r) (br_cds r) p (placed p).

(** The entries of the table before the relocations, and the table. *)
Definition br_entries {p} (r : build_run p) : list entry :=
  br_locals r ++ br_globals r ++ (undef_entry STT_NOTYPE <$> br_undefs r) ++ br_aliases r.
Definition br_table {p} (r : build_run p) : symState := adds (br_first r) (br_entries r).
Definition br_defined {p} (r : build_run p) : symState := adds (br_first r) (br_locals r ++ br_globals r).
Definition br_before_aliases {p} (r : build_run p) : symState :=
  adds (br_first r) (br_locals r ++ br_globals r ++ (undef_entry STT_NOTYPE <$> br_undefs r)).

(** What ties the pieces of a run together. *)
Record run_ok {p} (r : build_run p) : Prop := {
  run_section : gen_section p "" = inr (br_cb r, br_words r);
  run_customs : gen_customs p objNumSections (execCustomNames p (placed p)) = inr (br_ces r);
  run_data : dataBytes (placed p) = Ok (br_data r);
  run_rodata : rodataBytes (StrLits p) = Ok (br_rodata r);
  run_undefs : br_before_aliases r = gen_undefs (br_cb r) (br_ces r) p (placed p) (br_defined r);
  run_undef_names : br_undefs r ⊆ undef_names (br_cb r) (br_ces r) p (placed p);
  run_aliases : Forall2 (alias_entry p (br_cb r) (br_ces r) (br_before_aliases r)) (Aliases p) (br_aliases r);
  run_ready : Forall (fun cb => code_ready p (literals p) cb (br_table r)) (br_cb r :: (ce_cb <$> br_ces r));
  run_data_ready : Forall (data_resolved (br_table r)) (dataRelocs (placed p))
}.

(** The end of the run: relocations, which may add symbols. *)
Definition finish {p} (r : build_run p) : obj_error + objParts :=
  let '(st, relas) := buildCodeRelas p (literals p) (br_table r) (br_cb r) in
  _ ← gen_fold (fun _ g => check_pool_global st g) (Globals p) tt;
  datarelas ← gen_fold (fun rs dr => rl ← data_rela st dr; inr (rs ++ [rl])) (dataRelocs (placed p)) [];
  let '(st, execs) := foldl (custom_relas p (literals p)) (st, []) (br_ces r) in
  inr (ObjParts (concat (le_bytes 4 <$> br_words r)) (br_rodata r) (br_data r) (bssTotal (placed p)) (ss_syms st)
         (Z.of_nat (length (ss_syms (br_first r)) + length (br_locals r)))
         (ss_strtab st) relas datarelas execs ((fun c => DataSection (cd_name c) (cd_data c)) <$> br_cds r)).

Lemma placed_common p : Forall common_slot (slots (placed p)).
Proof. apply place_globals_common. constructor. Qed.

Section run.
Context (p : IRProgram) (Hok : program_ok p).

Lemma placed_slots : gbl <$> slots (placed p) = filter (fun g => placed_by_default g) (Globals p).
Proof.
  destruct (ok_globals _ Hok) as [Hg Hs]. destruct (place_globals_grow (Globals p) empty_data Hg) as (new & E & Eg & _);
    [done..|cbn [dataTotal empty_data]; lia|cbn [bssTotal empty_data]; lia|].
  fold (place_globals (Globals p)) in E. unfold placed. by rewrite E.
Qed.

Lemma placed_customs : gbl <$> customSlots (placed p) = filter (fun g => negb (IsExtern g) && negb (bool_decide (SectionName g = ""%string))) (Globals p).
Proof.
  unfold placed, place_globals. assert (H : forall gs st, gbl <$> customSlots (foldl place_global st gs) =
    (gbl <$> customSlots st) ++ filter (fun g => negb (IsExtern g) && negb (bool_decide (SectionName g = ""%string))) gs); [|apply H].
  induction gs as [|g gs IH]; intros st; [by rewrite app_nil_r|]. cbn [foldl]. rewrite IH, list.filter_cons. unfold place_global.
  destruct (IsExtern g); [done|]. destruct (bool_decide _); cbn [negb andb].
  - f_equal. unfold place_default. by repeat case_match.
  - unfold place_custom. cbn [customSlots]. rewrite fmap_app, <- app_assoc. done.
Qed.

(** Entries of the first passes, by what they are for. *)
Section entries.
Context (r : build_run p).

Lemma str_entry_in e : e ∈ literals p -> str_entry e ∈ br_entries r.
Proof. intros H. unfold br_entries, br_locals, local_entries. rewrite !elem_of_app. left. left. by apply list_elem_of_fmap_2. Qed.

Lemma func_entry_in f : f ∈ section_funcs p "" -> exists b, func_entry (br_cb r) objSecText b f ∈ br_entries r /\
  b = if fn_IsStatic f then 0 else weak_bind (fn_IsWeak f).
Proof.
  intros H. unfold br_entries, br_locals, local_entries, br_globals, global_entries. eexists. rewrite !elem_of_app. split; [|reflexivity].
  destruct (fn_IsStatic f) eqn:E.
  - left. right. left. apply list_elem_of_fmap_2. apply list_elem_of_filter. by rewrite E.
  - right. left. left. apply (list_elem_of_fmap_2 (fun f => func_entry (br_cb r) objSecText (weak_bind (fn_IsWeak f)) f)).
    apply list_elem_of_filter. by rewrite E.
Qed.

Lemma custom_func_entry_in c f : c ∈ br_ces r -> f ∈ section_funcs p (ce_name c) ->
  func_entry (ce_cb c) (ce_secIdx c) (weak_bind (fn_IsWeak f)) f ∈ br_entries r.
Proof.
  intros Hc H. unfold br_entries, br_globals, global_entries. rewrite !elem_of_app. right. left. right. left.
  apply list_elem_of_bind. exists c. split; [|done]. by apply (list_elem_of_fmap_2 (fun f => func_entry (ce_cb c) (ce_secIdx c) (weak_bind (fn_IsWeak f)) f)).
Qed.

Lemma var_entry_in sl : sl ∈ slots (placed p) -> exists b, var_entry b sl ∈ br_entries r /\
  b = if IsStatic (gbl sl) then 0 else weak_bind (IsWeak (gbl sl)).
Proof.
  intros H. unfold br_entries, br_locals, local_entries, br_globals, global_entries. eexists. rewrite !elem_of_app. split; [|reflexivity].
  destruct (IsStatic (gbl sl)) eqn:E.
  - left. right. right. apply list_elem_of_fmap_2. apply list_elem_of_filter. by rewrite E.
  - right. left. right. right. left. apply (list_elem_of_fmap_2 (fun sl => var_entry (weak_bind (IsWeak (gbl sl))) sl)).
    apply list_elem_of_filter. by rewrite E.
Qed.

Lemma custom_entry_in sl : sl ∈ customSlots (placed p) -> custom_entry (br_ces r) (br_cds r) sl ∈ br_entries r.
Proof.
  intros H. unfold br_entries, br_globals, global_entries. rewrite !elem_of_app. right. left. do 3 right. by apply list_elem_of_fmap_2.
Qed.

Lemma entry_resolved ms e : e ∈ br_entries r -> en_map e ∈ ms -> resolved_in ms (br_table r) (en_name e).
Proof. intros H Hm. apply (sym_index_is_some _ ms (en_map e)); [done|]. by apply adds_idx_new. Qed.

Lemma literal_resolved e : e ∈ literals p -> resolved_in [strSymIdx] (br_table r) (re_label e).
Proof. intros H. apply (entry_resolved _ (str_entry e)); [by apply str_entry_in|by left]. Qed.

(** Every global that the object defines has a symbol. *)
Lemma global_defined g : g ∈ Globals p -> IsExtern g = false -> resolved_in [globalSymIdx; externSymNames; aliasSymIdx] (br_table r) (Name g).
Proof.
  intros Hg He. destruct (bool_decide (SectionName g = ""%string)) eqn:Es.
  - assert (H : g ∈ gbl <$> slots (placed p)).
    { rewrite placed_slots. apply list_elem_of_filter. split; [|done]. unfold placed_by_default. by rewrite He, Es. }
    apply list_elem_of_fmap in H as (sl & -> & H). destruct (var_entry_in sl H) as (b & Hin & _). unfold var_entry in Hin.
    destruct (isCommon sl); [|destruct (inData sl)]; (eapply (entry_resolved _ (Entry globalSymIdx _ _ _ _ _)); [exact Hin|by left]).
  - assert (H : g ∈ gbl <$> customSlots (placed p)).
    { rewrite placed_customs. apply list_elem_of_filter. split; [|done]. by rewrite He, Es. }
    apply list_elem_of_fmap in H as (sl & -> & H). apply (entry_resolved _ (custom_entry (br_ces r) (br_cds r) sl)); [by apply custom_entry_in|by left].
Qed.
End entries.
End run.

(** ** From the code to the run *)

Lemma is_alias_entry p cb ces st es n : Forall2 (alias_entry p cb ces st) (Aliases p) es -> is_alias p n = true ->
  exists e, e ∈ es /\ en_map e = aliasSymIdx /\ en_name e = n.
Proof.
  intros Hf H. apply existsb_exists in H as (a & Ha & H). apply bool_decide_eq_true in H. apply list_elem_of_In, list_elem_of_lookup in Ha as [i Ha].
  destruct (Forall2_lookup_l _ _ _ _ _ Hf Ha) as (e & He & H1 & H2 & _). exists e. split; [by eapply list_elem_of_lookup_2|]. by rewrite H2.
Qed.

(** Chains of aliases end: each round marks a name of the map. *)
Lemma follow_total fuel : forall m seen t, (base.size (dom m ∖ seen) < fuel)%nat -> is_Some (follow fuel m seen t).
Proof.
  induction fuel as [|fuel IH]; intros m seen t H; [lia|]. cbn [follow]. destruct (m !! t) as [next|] eqn:E; [|by eexists].
  case_bool_decide as Hs; [by eexists|]. apply IH.
  assert (Hd : t ∈ dom m ∖ seen) by (apply elem_of_difference; split; [apply elem_of_dom; by eexists|done]).
  assert (Hsub : dom m ∖ ({[t]} ∪ seen) ⊂ dom m ∖ seen).
  { split; [clear; set_solver|]. intros H2. apply H2, elem_of_difference in Hd as [_ Hd]. apply Hd. clear. set_solver. }
  apply subset_size in Hsub. lia.
Qed.

Lemma resolve_total p t : is_Some (resolveAliasTarget p t).
Proof.
  apply follow_total. assert (H : dom (aliasTargetMap p) ∖ ∅ ⊆@{gset string} dom (aliasTargetMap p)) by (clear; set_solver).
  apply subseteq_size in H. rewrite size_dom in H. lia.
Qed.

(** No code carries the label. *)
Definition no_label (cb : codeBuilder) (ces : list customExec) (l : string) : Prop := find_label cb ces l = None.

Lemma no_label_funcs p cb ces l f : no_label cb ces l -> Forall (has_label cb) (section_funcs p "") ->
  Forall (fun c => Forall (has_label (ce_cb c)) (section_funcs p (ce_name c))) ces ->
  f ∈ Funcs p -> fn_SectionName f = ""%string \/ fn_SectionName f ∈ ce_name <$> ces -> fn_Name f <> l.
Proof.
  intros Hn H1 H2 Hf Hs ->%symmetry. unfold no_label, find_label in Hn. destruct (labels cb !! fn_Name f) as [w|] eqn:E; [done|]. destruct Hs as [Hs|Hs].
  - assert (Hin : f ∈ section_funcs p "") by (by apply list_elem_of_filter).
    apply (proj1 (list.Forall_forall _ _) H1) in Hin as [w Hw]. congruence.
  - clear E. induction H2 as [|c ces Hc _ IH]; [by apply elem_of_nil in Hs|]. cbn [fmap list_fmap] in Hs. cbn [find_custom] in Hn.
    destruct (labels (ce_cb c) !! fn_Name f) as [w|] eqn:E; [done|]. apply elem_of_cons in Hs as [Hs|Hs]; [|by apply IH].
    assert (Hin : f ∈ section_funcs p (ce_name c)) by (by apply list_elem_of_filter).
    apply (proj1 (list.Forall_forall _ _) Hc) in Hin as [w Hw]. congruence.
Qed.

Definition alias_failure (p : IRProgram) (cb : codeBuilder) (ces : list customExec) (a : IRAlias) (e : obj_error) : Prop :=
  e = NoAliasTarget (al_Name a) (al_Target a) /\ exists l, resolveAliasTarget p (al_Target a) = Some l /\ no_label cb ces l.

Lemma add_alias_fails p cb ces st a e : indices_ok st -> add_alias p cb ces st a = inl e -> alias_failure p cb ces a e.
Proof.
  intros Hi. assert (H : add_func_alias p cb ces st a = inl e -> alias_failure p cb ces a e).
  { unfold add_func_alias, alias_failure, no_label. destruct (resolve_total p (al_Target a)) as [l ->]. cbn [mbind option_bind].
    destruct (find_label cb ces l) as [[w sh]|] eqn:E; [done|]. intros [= <-]. split; [done|]. by exists l. }
  unfold add_alias. destruct (al_IsFunc a); [done|]. destruct (ss_idx st !! _) as [i|] eqn:E; [|done].
  destruct (ss_syms st !! Z.to_nat i) eqn:E2; [done|]. apply lookup_ge_None in E2. apply Hi in E. lia.
Qed.

Lemma add_aliases_fail p cb ces l : forall st e, indices_ok st -> gen_fold (add_alias p cb ces) l st = inl e ->
  exists a, a ∈ l /\ alias_failure p cb ces a e.
Proof.
  induction l as [|a l IH]; intros st e Hi H; [done|]. cbn [gen_fold] in H. destruct (add_alias p cb ces st a) as [e'|st'] eqn:E.
  - injection H as <-. exists a. split; [left|]. by eapply add_alias_fails.
  - cbn [mbind gen_bind] in H. apply add_alias_spec in E as (x & -> & _). destruct (IH _ _ (indices_adds st [x] Hi) H) as (b & Hb & Hf).
    exists b. split; [by right|done].
Qed.

Lemma call_ready p cb ces st st' es xbls : Forall2 (alias_entry p cb ces st) (Aliases p) es -> st' = adds st es ->
  Forall (call_resolved p st) xbls -> Forall (fun x => resolved_in [funcSymIdx; aliasSymIdx; externSymNames] st' x.2) xbls.
Proof.
  intros Hes -> H. eapply list.Forall_impl; [exact H|]. intros x [Ha|Hr].
  - destruct (is_alias_entry _ _ _ _ _ _ Hes Ha) as (e & He & Hm & <-). apply (sym_index_is_some _ _ aliasSymIdx); [in_maps|].
    rewrite <- Hm. by apply adds_idx_new.
  - apply resolved_keep. revert Hr. apply resolved_more. clear. set_solver.
Qed.

Lemma table_split {p} (r : build_run p) : br_table r = adds (br_before_aliases r) (br_aliases r).
Proof. unfold br_table, br_entries, br_before_aliases. by rewrite <- adds_app, <- !app_assoc. Qed.

(** With the aliases in, every name that the relocations use has a symbol. *)
Lemma table_ready p (r : build_run p) cb : program_ok p ->
  Forall (global_resolved p (br_before_aliases r)) (Globals p) ->
  Forall2 (alias_entry p (br_cb r) (br_ces r) (br_before_aliases r)) (Aliases p) (br_aliases r) ->
  Forall (call_resolved p (br_before_aliases r)) (externBLs cb) -> code_ready p (literals p) cb (br_table r).
Proof.
  intros Hok Hg Hes Hc. split.
  - apply list.Forall_forall. intros g Hgin. unfold pool_resolved. destruct (IsExtern g) eqn:Ee; [|by apply global_defined].
    destruct (proj1 (list.Forall_forall _ _) Hg g Hgin Ee) as [Ha|Hr].
    + destruct (is_alias_entry _ _ _ _ _ _ Hes Ha) as (e & He & Hm & <-). apply entry_resolved; [|rewrite Hm; in_maps].
      unfold br_entries. rewrite !elem_of_app. by right; right; right.
    + rewrite table_split. apply resolved_keep. revert Hr. apply resolved_more. clear. set_solver.
  - apply list.Forall_forall. intros e He. by apply literal_resolved.
  - by eapply call_ready; [exact Hes|apply table_split|].
Qed.

Lemma exec_names_short p : program_ok p -> Z.of_nat (length (execCustomNames p (placed p))) < 2 ^ 14.
Proof.
  intros Hok. pose proof (ok_sections _ Hok) as H. eapply Z.le_lt_trans; [|exact H]. apply inj_le. unfold execCustomNames.
  clear. induction (customSecOrder p (placed p)) as [|n l IH]; [done|]. rewrite list.filter_cons. destruct (decide _); cbn; lia.
Qed.

Lemma generate_run p : program_ok p ->
  (exists r : build_run p, run_ok r /\ genObjectTo p = finish r) \/
  (exists e, genObjectTo p = inl (BadFixup e)) \/
  (exists a l, a ∈ Aliases p /\ genObjectTo p = inl (NoAliasTarget (al_Name a) (al_Target a)) /\ resolveAliasTarget p (al_Target a) = Some l /\
     forall f, f ∈ Funcs p -> fn_SectionName f = ""%string \/ fn_SectionName f ∈ execCustomNames p (placed p) -> fn_Name f <> l).
Proof.
  intros Hok. unfold genObjectTo. fold (placed p) (literals p).
  destruct (dataBytes_filled (Globals p) (ok_globals _ Hok) (ok_values _ Hok)) as (data & Ed & _). fold (placed p) in Ed. rewrite Ed.
  destruct (rodata_ok p Hok) as (ro & Er & _). rewrite Er. cbn [no_panic mbind gen_bind].
  destruct (gen_section_total p "" Hok) as [(cb & ws & Es)|(e & ->)]; [rewrite Es|right; left; by eexists]. cbn [mbind gen_bind].
  destruct (gen_customs_total p (execCustomNames p (placed p)) Hok objNumSections) as [(ces & Ec)|(e & ->)]; [rewrite Ec|right; left; by eexists].
  cbn [mbind gen_bind]. pose proof (gen_section_labels _ _ _ _ Es) as Hl. pose proof (exec_names_short p Hok) as Hshort.
  destruct (gen_customs_spec p _ _ _ Ec) as [Hn Hc]; [done|change objNumSections with 10; lia|].
  assert (Hcl : Forall (fun c => Forall (has_label (ce_cb c)) (section_funcs p (ce_name c))) ces).
  { apply list.Forall_lookup. intros i c Hi. destruct (Hc i c Hi) as [_ H]. by apply gen_section_labels in H. }
  set (cds := custom_data p (placed p) (objNumSections + 2 * Z.of_nat (length ces))).
  rewrite (gen_locals_entries cb ces cds (literals p) p (placed p) Hl (placed_common p)). cbn [mbind gen_bind].
  set (stl := adds (first_syms ces cds) (local_entries cb (literals p) p (placed p))).
  pose proof (gen_globals_entries cb ces p (placed p) (objNumSections + 2 * Z.of_nat (length ces)) stl Hl Hcl Hn) as Eg. fold cds in Eg.
  rewrite Eg. cbn [mbind gen_bind]. set (st1 := adds stl (global_entries cb ces cds p (placed p))).
  destruct (gen_undefs_spec cb ces p (placed p) st1) as (ns & Eu & Hns & Hg & Hcalls & Hccalls & Hdata). set (st2 := gen_undefs cb ces p (placed p) st1) in *.
  assert (Hi2 : indices_ok st2) by (rewrite Eu; unfold st1, stl; do 3 apply indices_adds; apply indices_first).
  destruct (gen_fold (add_alias p cb ces) (Aliases p) st2) as [e|st3] eqn:Ea.
  { right. right. destruct (add_aliases_fail _ _ _ _ _ _ Hi2 Ea) as (a & Ha & -> & l & Hres & Hno). exists a, l. split; [done|]. split; [reflexivity|].
    split; [done|]. intros f. rewrite <- Hn. by apply (no_label_funcs p cb). }
  destruct (add_aliases_spec _ _ _ _ _ _ Ea Hi2) as (es & Est3 & Hes & _). left. exists (BuildRun p cb ws ces es ns data ro). cbn [mbind gen_bind].
  set (r := BuildRun p cb ws ces es ns data ro). fold cds in Hns.
  assert (E1 : br_defined r = st1) by (unfold br_defined, st1, stl; apply adds_app).
  assert (E2 : br_before_aliases r = st2).
  { rewrite Eu, <- E1. unfold br_before_aliases, br_defined. by rewrite <- adds_app, <- app_assoc. }
  assert (E3 : br_table r = st3).
  { by rewrite Est3, <- E2, table_split. }
  assert (Hready : forall c, Forall (call_resolved p st2) (externBLs c) -> code_ready p (literals p) c (br_table r)).
  { intros c Hx. apply table_ready; cbn [br_cb br_ces br_aliases r]; rewrite ?E2; done. }
  split.
  - split; try done.
    + by rewrite E2, E1.
    + cbn [br_cb br_ces br_aliases r]. by rewrite E2.
    + constructor; [by apply Hready|]. apply list.Forall_fmap. eapply list.Forall_impl; [exact Hccalls|]. intros c. apply Hready.
    + rewrite E3, Est3. eapply list.Forall_impl; [exact Hdata|]. intros x. apply resolved_keep.
  - unfold finish. rewrite E3. unfold br_first, br_cds, br_locals. cbn [br_cb br_ces br_words br_data br_rodata r]. fold cds.
    destruct (buildCodeRelas p (literals p) st3 cb) as [st4 relas]. unfold stl. rewrite length_adds.
    repeat f_equal; try done.
Qed.
