(* ===== verification/ObjFinish.v ===== *)
(** The end of genObjectTo: the relocations of every section, and what they are
    against in the finished symbol table. *)
From stdpp Require Import gmap strings.
From S2P Require Import Prelude Align Linker LinkSyms LinkLayout LinkReloc Arfmt Elf CodeBuilder ObjWrite ObjParse ObjRound ObjData ObjPlace ObjGen ObjSyms ObjRelas ObjProgram.
#[local] Open Scope Z_scope.

(** * Names *)

Definition program_names (p : IRProgram) : list string :=
  (sl_label <$> StrLits p) ++ (fn_Name <$> Funcs p) ++ (Name <$> Globals p) ++ (al_Name <$> Aliases p) ++ FuncRefs p ++
  (Globals p ≫= fun g => Label <$> InitRelocs g).

Definition names_fine (p : IRProgram) : Prop := Forall no_nul (program_names p) /\
  forall f locals n, f ∈ Funcs p -> EmitBLextern n ∈ fn_body f locals -> no_nul n.

Lemma build_externs os : forall cb x, x ∈ externBLs (foldl build cb os) -> x ∈ externBLs cb \/ EmitBLextern x.2 ∈ os.
Proof.
  induction os as [|o os IH]; intros cb x H; [by left|]. cbn [foldl] in H. apply IH in H as [H|H]; [|right; by right].
  assert (Hc : externBLs (build cb o) = externBLs cb \/ exists k sym, o = EmitBLextern sym /\ externBLs (build cb o) = externBLs cb ++ [(k, sym)]).
  { destruct o; try (by left); cbn [build].
    - left. unfold emitMOVimm. assert (K : forall shs s, externBLs (foldl (mov_chunk rd (u64 val)) s shs).1 = externBLs s.1).
      { induction shs as [|sh shs IH2]; intros s; [done|]. cbn [foldl]. rewrite IH2. destruct s as [cb1 b]. unfold mov_chunk. by repeat case_match. }
      specialize (K [0; 16; 32; 48] (cb, true)). by destruct (foldl _ _ _) as [cb1 []].
    - left. unfold emitLDRsp. by destruct (peepholeElim _ _).
    - right. by exists (length (instrs cb)), sym. }
  destruct Hc as [Hc|(k & sym & -> & Hc)]; rewrite Hc in H; [by left|]. apply elem_of_app in H as [H|H]; [by left|].
  apply list_elem_of_singleton in H as ->. right. left.
Qed.

Lemma section_externs p sec cb ws x : gen_section p sec = inr (cb, ws) -> x ∈ externBLs cb ->
  exists f, f ∈ Funcs p /\ EmitBLextern x.2 ∈ fn_body f (local_funcs p sec).
Proof.
  unfold gen_section. destruct (newCodeBuilder _ _ _ _) as [cb0|] eqn:E; [|done]. cbn zeta.
  destruct (applyFixups _) as [[e|w]|]; try done. intros [= <- <-].
  assert (H0 : externBLs cb0 = []) by (unfold newCodeBuilder in E; destruct (foldl pool_add_new _ _), (fill_consts _ _ _); [by injection E as <-|done]).
  assert (Hs : forall f, f ∈ section_funcs p sec -> f ∈ Funcs p) by (intros f Hf; by apply list_elem_of_filter in Hf as [_ Hf]).
  assert (K : forall fs cb, (forall f, f ∈ fs -> f ∈ Funcs p) -> x ∈ externBLs (foldl (genFunc (local_funcs p sec)) cb fs) ->
    x ∈ externBLs cb \/ exists f, f ∈ Funcs p /\ EmitBLextern x.2 ∈ fn_body f (local_funcs p sec)).
  { induction fs as [|f fs IH]; intros cb Hfs H; [by left|]. cbn [foldl] in H. destruct (IH _ ltac:(intros; apply Hfs; by right) H) as [H1|H1]; [|by right].
    unfold genFunc in H1. apply build_externs in H1 as [H1|H1]; [by left|]. right. exists f. split; [apply Hfs; left|done]. }
  intros H. destruct (K _ _ Hs H) as [H1|H1]; [|done]. rewrite H0 in H1. by apply elem_of_nil in H1.
Qed.

Section run.
Context (p : IRProgram) (Hok : program_ok p) (Hn : names_fine p) (r : build_run p) (Hr : run_ok r).

Lemma custom_sections_of i c : br_ces r !! i = Some c -> ce_secIdx c = objNumSections + 2 * Z.of_nat i /\ gen_section p (ce_name c) = inr (ce_cb c, ce_words c).
Proof.
  pose proof (exec_names_short p Hok) as Hs. destruct (gen_customs_spec p _ _ _ (run_customs _ Hr)) as [_ H]; [done|change objNumSections with 10; lia|]. apply H.
Qed.

Lemma program_name n : n ∈ program_names p -> no_nul n.
Proof. destruct Hn as [H _]. by apply (proj1 (list.Forall_forall _ _) H). Qed.

Lemma slot_global sl : sl ∈ slots (placed p) -> gbl sl ∈ Globals p.
Proof. intros H. apply (list_elem_of_fmap_2 gbl) in H. rewrite placed_slots in H by done. by apply list_elem_of_filter in H as [_ H]. Qed.

Lemma custom_slot_global sl : sl ∈ customSlots (placed p) -> gbl sl ∈ Globals p.
Proof. intros H. apply (list_elem_of_fmap_2 gbl) in H. rewrite placed_customs in H. by apply list_elem_of_filter in H as [_ H]. Qed.

Lemma reloc_name dr : dr ∈ dataRelocs (placed p) -> no_nul (dr_symbol dr).
Proof.
  intros H. apply list_elem_of_bind in H as (sl & H & Hsl). apply slot_global in Hsl. unfold slot_relocs in H. case_match; [|by apply elem_of_nil in H].
  apply list_elem_of_fmap in H as (x & -> & Hx). cbn [dr_symbol]. apply program_name. unfold program_names. rewrite !elem_of_app. do 5 right.
  apply list_elem_of_bind. exists (gbl sl). split; [|done]. by apply list_elem_of_fmap_2.
Qed.

Lemma undef_name n : n ∈ br_undefs r -> no_nul n.
Proof.
  intros H. apply (run_undef_names _ Hr) in H. unfold undef_names in H. rewrite !elem_of_app in H. destruct H as [H|[H|[H|H]]].
  - apply program_name. unfold program_names. rewrite !elem_of_app. tauto.
  - apply list_elem_of_fmap in H as (x & -> & H). destruct (section_externs _ _ _ _ _ (run_section _ Hr) H) as (f & Hf & Hx). exact (proj2 Hn f _ x.2 Hf Hx).
  - apply list_elem_of_bind in H as (c & H & Hc). apply list_elem_of_lookup in Hc as [i Hc]. apply custom_sections_of in Hc as [_ Hc].
    apply list_elem_of_fmap in H as (x & -> & H). destruct (section_externs _ _ _ _ _ Hc H) as (f & Hf & Hx). exact (proj2 Hn f _ x.2 Hf Hx).
  - apply list_elem_of_fmap in H as (dr & -> & H). by apply reloc_name.
Qed.

Lemma func_name sec f : f ∈ section_funcs p sec -> no_nul (fn_Name f).
Proof.
  intros H. apply list_elem_of_filter in H as [_ H]. apply program_name. unfold program_names. rewrite !elem_of_app. right. left. by apply list_elem_of_fmap_2.
Qed.

Lemma global_name g : g ∈ Globals p -> no_nul (Name g).
Proof. intros H. apply program_name. unfold program_names. rewrite !elem_of_app. right. right. left. by apply list_elem_of_fmap_2. Qed.

Lemma var_entry_name b sl : en_name (var_entry b sl) = Name (gbl sl).
Proof. unfold var_entry. by repeat case_match. Qed.

Lemma entry_names : names_ok (br_entries r).
Proof.
  apply list.Forall_forall. intros e H. unfold br_entries, br_locals, br_globals, local_entries, global_entries in H. rewrite !elem_of_app in H.
  destruct H as [[H|[H|H]]|[[H|[H|[H|H]]]|[H|H]]].
  - apply list_elem_of_fmap in H as (x & -> & H). apply program_name. unfold program_names. rewrite !elem_of_app. left. cbn.
    rewrite <- (rodata_labels _ 0). by apply list_elem_of_fmap_2.
  - apply list_elem_of_fmap in H as (f & -> & H). apply list_elem_of_filter in H as [_ H]. by apply func_name in H.
  - apply list_elem_of_fmap in H as (sl & -> & H). apply list_elem_of_filter in H as [_ H]. rewrite var_entry_name. by apply global_name, slot_global.
  - apply list_elem_of_fmap in H as (f & -> & H). apply list_elem_of_filter in H as [_ H]. by apply func_name in H.
  - apply list_elem_of_bind in H as (c & H & _). apply list_elem_of_fmap in H as (f & -> & H). by apply func_name in H.
  - apply list_elem_of_fmap in H as (sl & -> & H). apply list_elem_of_filter in H as [_ H]. rewrite var_entry_name. by apply global_name, slot_global.
  - apply list_elem_of_fmap in H as (sl & -> & H). by apply global_name, custom_slot_global.
  - apply list_elem_of_fmap in H as (n & -> & H). by apply undef_name.
  - apply list_elem_of_lookup in H as [i H]. destruct (Forall2_lookup_r _ _ _ _ _ (run_aliases _ Hr) H) as (a & Ha & _ & -> & _).
    apply program_name. unfold program_names. rewrite !elem_of_app. do 3 right. left. apply list_elem_of_fmap_2. by eapply list_elem_of_lookup_2.
Qed.

(** ** Adding symbols for function references *)

Lemma func_refs_adds cb fns : forall st rs, exists ns new, foldl (func_ref_rela cb) (st, rs) fns = (adds st (undef_entry STT_FUNC <$> ns), new) /\ ns ⊆ fns.
Proof.
  induction fns as [|n fns IH]; intros st rs; cbn [foldl]; [exists [], rs; done|]. unfold func_ref_rela at 2.
  assert (Hw : forall st' rs', exists ns new, foldl (func_ref_rela cb) (st', rs') fns = (adds st' (undef_entry STT_FUNC <$> ns), new) /\ ns ⊆ n :: fns).
  { intros st' rs'. destruct (IH st' rs') as (ns & new & E & H). exists ns, new. split; [done|]. clear -H. set_solver. }
  destruct (poolIdx cb !! n) as [k|]; [|apply Hw]. destruct (sym_index _ _ _); [apply Hw|].
  change (add_undef STT_FUNC st n) with (adds st [undef_entry STT_FUNC n]).
  match goal with |- context [foldl _ (?s, ?l) fns] => destruct (IH s l) as (ns & new & -> & H) end. exists (n :: ns), new.
  rewrite <- adds_app. split; [done|]. clear -H. set_solver.
Qed.

Lemma buildCodeRelas_adds lits st cb : exists ns rs, buildCodeRelas p lits st cb = (adds st (undef_entry STT_FUNC <$> ns), rs) /\ ns ⊆ FuncRefs p.
Proof.
  unfold buildCodeRelas. destruct (func_refs_adds cb (FuncRefs p) st []) as (ns & new & -> & H). exists ns. eexists. by split.
Qed.

Lemma refs_names ns : ns ⊆ FuncRefs p -> names_ok (undef_entry STT_FUNC <$> ns).
Proof.
  intros H. apply list.Forall_fmap, list.Forall_forall. intros n Hin. apply program_name. unfold program_names. rewrite !elem_of_app.
  do 4 right. left. by apply H.
Qed.

Lemma funcrefs_fine : Forall no_nul (FuncRefs p).
Proof. apply list.Forall_forall. intros n H. apply program_name. unfold program_names. rewrite !elem_of_app. do 4 right. by left. Qed.

(** ** Checks that succeed *)

Lemma pool_checked st gs : Forall (pool_resolved st) gs -> gen_fold (fun _ g => check_pool_global st g) gs tt = inr tt.
Proof. induction 1 as [|g gs [i Hi] _ IH]; [done|]. cbn [gen_fold]. assert (E : check_pool_global st g = inr tt) by (unfold check_pool_global; by rewrite Hi). rewrite E. exact IH. Qed.

Lemma data_relas_total st drs : Forall (data_resolved st) drs -> forall rs0, exists rs,
  gen_fold (fun rs dr => rl ← data_rela st dr; inr (rs ++ [rl])) drs rs0 = inr (rs0 ++ rs) /\
  (table_ok st -> Forall2 (relocates st) (data_against <$> drs) rs).
Proof.
  induction 1 as [|dr drs [i Hi] _ IH]; intros rs0; [exists []; rewrite app_nil_r; by split|]. cbn [gen_fold].
  assert (E : data_rela st dr = inr (mkRela (dr_offset dr) i rAArch64Abs64 (dr_addend dr))) by (unfold data_rela; by rewrite Hi). rewrite E. cbn [mbind gen_bind]. destruct (IH (rs0 ++ [mkRela (dr_offset dr) i rAArch64Abs64 (dr_addend dr)])) as (rs & -> & H). eexists. rewrite <- app_assoc. split; [done|].
  intros Ht. constructor; [|by apply H]. by eapply relocates_index.
Qed.

(** A code section as it is written. *)
Definition exec_written (st : symState) (c : customExec) (e : execSection) : Prop :=
  es_name e = ce_name c /\ es_text e = concat (le_bytes 4 <$> ce_words c) /\ Forall2 (relocates st) (code_against p (ce_cb c)) (es_relas e).

Lemma exec_written_keep st es c e : exec_written st c e -> exec_written (adds st es) c e.
Proof. intros (H1 & H2 & H3). split; [done|]. split; [done|]. eapply Forall2_impl; [|exact H3]. intros x rl. apply relocates_keep. Qed.

Lemma custom_relas_spec ces : forall st out, Forall (fun c => code_ready p (literals p) (ce_cb c) st) ces -> exists ns new,
  foldl (custom_relas p (literals p)) (st, out) ces = (adds st (undef_entry STT_FUNC <$> ns), out ++ new) /\ ns ⊆ FuncRefs p /\
  (table_ok st -> strtab_fits (adds st (undef_entry STT_FUNC <$> ns)) -> Forall2 (exec_written (adds st (undef_entry STT_FUNC <$> ns))) ces new).
Proof.
  induction ces as [|c ces IH]; intros st out Hc; [exists [], []; rewrite app_nil_r; split; [done|]; split; [apply list_subseteq_nil|by constructor]|].
  apply Forall_cons_1 in Hc as [Hc Hcs]. cbn [foldl]. unfold custom_relas at 2. cbn [fst snd].
  destruct (buildCodeRelas_adds (literals p) st (ce_cb c)) as (n1 & rs & E & S1). rewrite E.
  set (e := ExecSection _ _ _). set (st1 := adds st (undef_entry STT_FUNC <$> n1)) in *.
  destruct (IH st1 (out ++ [e])) as (n2 & new & -> & S2 & H2); [eapply list.Forall_impl; [exact Hcs|]; intros x; apply code_ready_keep|].
  exists (n1 ++ n2), (e :: new). rewrite fmap_app, adds_app, <- app_assoc. fold st1. split; [done|]. split; [clear -S1 S2; set_solver|].
  intros Ht Hf. assert (Hf1 : strtab_fits st1) by (eapply strtab_fits_before; exact Hf).
  destruct (buildCodeRelas_spec p (ce_cb c) st Hc Ht funcrefs_fine) as (n1' & rs' & E' & _ & Hrel); [unfold literals in E; by rewrite E|].
  unfold literals in E. rewrite E in E'. injection E' as En Ers. constructor.
  - apply exec_written_keep. split; [done|]. split; [done|]. cbn [es_relas e]. rewrite Ers. by rewrite ?En.
  - apply H2; [|done]. apply table_adds; [done|by apply refs_names|done].
Qed.

(** ** The finished object *)

Lemma table_built es : strtab_fits (adds (br_table r) es) -> names_ok es -> table_ok (adds (br_table r) es).
Proof.
  intros Hf He. apply table_adds; [|done|done]. apply table_adds; [apply table_first|apply entry_names|]. by eapply strtab_fits_before.
Qed.

(** What the object [q] of the run is, [st] being the finished table. *)
Record written (st : symState) (q : objParts) : Prop := {
  wr_text : op_text q = concat (le_bytes 4 <$> br_words r);
  wr_rodata : op_rodata q = br_rodata r;
  wr_data : op_data q = br_data r;
  wr_bss : op_bss q = bssTotal (placed p);
  wr_syms : op_syms q = ss_syms st;
  wr_strtab : op_strtab q = ss_strtab st;
  wr_first : op_firstGlobal q = Z.of_nat (length (ss_syms (br_first r)) + length (br_locals r));
  wr_custom : op_custom q = (fun c => DataSection (cd_name c) (cd_data c)) <$> br_cds r;
  wr_exec_names : es_name <$> op_exec q = ce_name <$> br_ces r;
  wr_relas : strtab_fits st -> Forall2 (relocates st) (code_against p (br_cb r)) (op_relas q);
  wr_data_relas : strtab_fits st -> Forall2 (relocates st) (data_against <$> dataRelocs (placed p)) (op_dataRelas q);
  wr_exec : strtab_fits st -> Forall2 (exec_written st) (br_ces r) (op_exec q)
}.

Lemma custom_relas_names ces : forall st out, es_name <$> (foldl (custom_relas p (literals p)) (st, out) ces).2 = (es_name <$> out) ++ (ce_name <$> ces).
Proof.
  induction ces as [|c ces IH]; intros st out; [by rewrite app_nil_r|]. cbn [foldl]. unfold custom_relas at 2. cbn [fst snd].
  destruct (buildCodeRelas _ _ _ _) as [st' rs]. rewrite IH, fmap_app, <- app_assoc. done.
Qed.

Lemma finish_spec : exists q ns, finish r = inr q /\ ns ⊆ FuncRefs p /\ written (adds (br_table r) (undef_entry STT_FUNC <$> ns)) q.
Proof.
  destruct (buildCodeRelas_adds (literals p) (br_table r) (br_cb r)) as (n1 & rs & E & S1). unfold finish. rewrite E. set (st1 := adds (br_table r) _) in *.
  pose proof (run_ready _ Hr) as Hready. apply Forall_cons_1 in Hready as [Hrd Hrds]. apply list.Forall_fmap in Hrds.
  rewrite pool_checked. 2: { eapply list.Forall_impl; [exact (ready_globals _ _ _ _ Hrd)|]. intros g. apply resolved_keep. }
  cbn [mbind gen_bind]. destruct (data_relas_total st1 (dataRelocs (placed p))) with (rs0 := @nil objRela) as (drs & Ed & Hdr).
  { eapply list.Forall_impl; [exact (run_data_ready _ Hr)|]. intros x. apply resolved_keep. }
  rewrite Ed. cbn [mbind gen_bind app]. pose proof (custom_relas_names (br_ces r) st1 []) as Hnames.
  destruct (custom_relas_spec (br_ces r) st1 []) as (n2 & execs & Ec & S2 & Hex).
  { eapply list.Forall_impl; [exact Hrds|]. intros c. apply code_ready_keep. }
  rewrite Ec in *. eexists _, (n1 ++ n2). split; [reflexivity|]. split; [clear -S1 S2; set_solver|].
  rewrite fmap_app, adds_app. fold st1. set (st2 := adds st1 _) in *.
  assert (Ht1 : strtab_fits st2 -> table_ok st1).
  { intros Hf. apply table_built; [by eapply strtab_fits_before|by apply refs_names]. }
  split; try done; cbn [op_relas op_dataRelas op_exec].
  - intros Hf. unfold literals in E. assert (Hf1 : strtab_fits st1) by (by eapply strtab_fits_before).
    destruct (buildCodeRelas_spec p (br_cb r) (br_table r) Hrd) as (n1' & rs' & E' & _ & Hrel); [|apply funcrefs_fine|by rewrite E|].
    { apply (table_built []); [by eapply (strtab_fits_before (br_table r))|constructor]. }
    rewrite E in E'. injection E' as En ->. eapply Forall2_impl; [|exact Hrel]. intros x rl. unfold st2. rewrite En. apply relocates_keep.
  - intros Hf. eapply Forall2_impl; [|by apply Hdr, Ht1]. intros x rl. apply relocates_keep.
  - intros Hf. apply Hex; [by apply Ht1|done].
Qed.
End run.
