(* ===== verification/ObjLoad.v ===== *)
(** The generated object fits its file format: the conditions under which the
    linker reads it back. *)
From stdpp Require Import gmap strings.
From S2P Require Import Prelude Align Linker LinkSyms LinkLayout LinkReloc Arfmt Elf CodeBuilder ObjWrite ObjParse ObjRound ObjFold ObjData ObjPlace ObjGen ObjSyms ObjRelas ObjProgram ObjFinish.
#[local] Open Scope Z_scope.

(** * Section names *)

(** A custom section with a name that is neither a standard one nor that of a
    relocation section. *)
Definition section_name_fine (n : string) : Prop := no_nul n /\ String.prefix ".rela" n = false /\ n ∉ standard_names.

Definition sections_fine (p : IRProgram) : Prop := Forall section_name_fine (customSecOrder p (placed p)).

Lemma rela_name_prefix n : String.prefix ".rela" (rela_name n) = true.
Proof. by destruct n. Qed.

Lemma rela_name_inj n m : rela_name n = rela_name m -> n = m.
Proof. intros H. unfold rela_name in H. by injection H. Qed.

Lemma rela_name_standard n : rela_name n ∈ standard_names -> n ∈ standard_names.
Proof.
  unfold standard_names. rewrite !elem_of_cons, elem_of_nil. intros H. repeat destruct H as [H|H]; try discriminate H; try done.
  - apply (rela_name_inj n ".text") in H. tauto.
  - apply (rela_name_inj n ".data") in H. tauto.
Qed.

Lemma rela_name_no_nul n : no_nul n -> no_nul (rela_name n).
Proof.
  unfold no_nul. intros H. change (to_bytes (rela_name n)) with ([46; 114; 101; 108; 97] ++ to_bytes n).
  rewrite not_elem_of_app. split; [|done]. apply (bool_decide_unpack (_ ∉ _)). vm_compute. exact I.
Qed.

Lemma pairs_elem (es : list string) n : n ∈ (es ≫= fun e => [e; rela_name e]) <-> n ∈ es \/ exists e, e ∈ es /\ n = rela_name e.
Proof.
  rewrite list_elem_of_bind. setoid_rewrite elem_of_cons. setoid_rewrite list_elem_of_singleton. split.
  - intros (e & [->| ->] & He); [by left|]. right. by exists e.
  - intros [H|(e & He & ->)]; [by exists n; auto|exists e; auto].
Qed.

Lemma names_distinct (es ds : list string) : NoDup es -> NoDup ds -> (forall n, n ∈ ds -> n ∉ es) -> Forall section_name_fine (es ++ ds) ->
  NoDup (standard_names ++ (es ≫= fun e => [e; rela_name e]) ++ ds).
Proof.
  intros He Hd Hdis Hf. apply list.Forall_app in Hf as [Fe Fd].
  assert (Fe' : forall n, n ∈ es -> section_name_fine n) by (by apply list.Forall_forall).
  assert (Fd' : forall n, n ∈ ds -> section_name_fine n) by (by apply list.Forall_forall).
  apply list.NoDup_app. split; [apply (bool_decide_unpack (NoDup _)); vm_compute; exact I|]. split.
  - intros n Hn. rewrite elem_of_app, pairs_elem. intros [[H|(e & H & ->)]|H].
    + by apply Fe' in H as (_ & _ & H).
    + apply rela_name_standard in Hn. by apply Fe' in H as (_ & _ & H).
    + by apply Fd' in H as (_ & _ & H).
  - apply list.NoDup_app. split; [|split; [|done]].
    + clear Hdis Fd Fd' Fe. induction He as [|e es Hne He IH]; [constructor|]. cbn [mbind list_bind app].
      assert (Ee : section_name_fine e) by (apply Fe'; left). destruct Ee as (_ & E1 & _).
      apply list.NoDup_cons. split; [|apply list.NoDup_cons; split; [|apply IH; intros; apply Fe'; by right]].
      * rewrite elem_of_cons, pairs_elem. intros [H|[H|(x & _ & H)]]; [|done|]; rewrite H, rela_name_prefix in E1; done.
      * rewrite pairs_elem. intros [H|(x & Hx & H)]; [|apply rela_name_inj in H; by subst x].
        destruct (Fe' _ ltac:(right; exact H)) as (_ & E2 & _). by rewrite rela_name_prefix in E2.
    + intros n. rewrite pairs_elem. intros [H|(e & H & ->)] Hn; [by apply (Hdis n)|]. apply Fd' in Hn as (_ & E & _). by rewrite rela_name_prefix in E.
Qed.

(** * Numbers in their fields *)

Definition entry_fits (e : entry) : Prop :=
  0 <= en_info e < 2 ^ 8 /\ 0 <= en_shndx e < 2 ^ 16 /\ 0 <= en_value e < 2 ^ 64 /\ 0 <= en_size e < 2 ^ 64.

Lemma sym_ok_intro n i o sh v sz : 0 <= n < 2 ^ 32 -> 0 <= i < 2 ^ 8 -> 0 <= o < 2 ^ 8 -> 0 <= sh < 2 ^ 16 -> 0 <= v < 2 ^ 64 -> 0 <= sz < 2 ^ 64 ->
  sym_ok (ObjSym n i o sh v sz).
Proof. intros. unfold sym_ok. repeat constructor; cbn; lia. Qed.

Lemma sym_ok_elim s : sym_ok s -> 0 <= st_info s < 2 ^ 8 /\ 0 <= st_shndx s < 2 ^ 16 /\ 0 <= st_value s < 2 ^ 64 /\ 0 <= st_size s < 2 ^ 64.
Proof.
  unfold sym_ok, sym_sizes, sym_fields. cbn [zip zip_with]. rewrite !list.Forall_cons. unfold in_width. cbn [fst snd].
  change (256 ^ Z.of_nat 1) with (2 ^ 8). change (256 ^ Z.of_nat 2) with (2 ^ 16). change (256 ^ Z.of_nat 8) with (2 ^ 64). tauto.
Qed.

Lemma adds_syms_ok es : forall st, Forall sym_ok (ss_syms st) -> Forall entry_fits es -> Forall sym_ok (ss_syms (adds st es)).
Proof.
  induction es as [|e es IH]; intros st Hs He; [done|]. apply Forall_cons_1 in He as [(H1 & H2 & H3 & H4) He]. unfold adds in *. cbn [foldl].
  apply IH; [|done]. unfold add_entry, add_sym, strtab_add. cbn [ss_syms]. apply list.Forall_app. split; [done|]. constructor; [|done].
  apply sym_ok_intro; try done; try lia. apply wrapU_range. lia.
Qed.

Lemma sym_info_fits b t : 0 <= b <= 2 -> 0 <= t <= 3 -> 0 <= sym_info b t < 2 ^ 8.
Proof.
  intros Hb Ht. unfold sym_info. assert (Hb' : b = 0 \/ b = 1 \/ b = 2) by lia. assert (Ht' : t = 0 \/ t = 1 \/ t = 2 \/ t = 3) by lia.
  destruct Hb' as [->|[->| ->]], Ht' as [->|[->|[->| ->]]]; by vm_compute.
Qed.

Lemma u64_fits v : 0 <= u64 v < 2 ^ 64. Proof. apply wrapU_range. lia. Qed.
Lemma weak_bind_fits b : 0 <= weak_bind b <= 2. Proof. by destruct b. Qed.

(** ** The entries *)

Lemma literals_bounds p e : program_ok p -> e ∈ literals p -> 0 <= re_offset e /\ re_offset e + bytes_len (re_bytes e) <= 2 ^ 62.
Proof.
  intros Hok He. pose proof (ok_lits _ Hok) as Hl. destruct (rodata_packed (StrLits p) 0 ltac:(lia) ltac:(lia)) as [P _].
  destruct (packed_nodup _ _ _ P ltac:(lia)) as [_ F]. fold (literals p) in F. apply list.Forall_fmap in F.
  pose proof (proj1 (list.Forall_forall _ _) F e He) as H. cbn in H. lia.
Qed.

Lemma customs_ok_empty : customs_ok empty_data.
Proof. split; [|intros sl H; by apply elem_of_nil in H]. intros n. cbn. by rewrite !lookup_empty. Qed.

Lemma custom_total_empty n : custom_total empty_data n = 0.
Proof. unfold custom_total. cbn. by rewrite lookup_empty. Qed.

Lemma customs_placed p : program_ok p -> customs_ok (placed p).
Proof.
  intros Hok. destruct (ok_globals _ Hok) as [Hg Hs]. apply place_globals_customs; [done|apply customs_ok_empty|].
  intros n. rewrite custom_total_empty. lia.
Qed.

Section fits.
Context (p : IRProgram) (Hok : program_ok p) (r : build_run p) (Hr : run_ok r).

Lemma ces_bound i c : br_ces r !! i = Some c -> 0 <= ce_secIdx c < 2 ^ 16.
Proof.
  intros H. destruct (custom_sections_of p Hok r Hr i c H) as [-> _]. pose proof (exec_names_short p Hok) as Hs.
  destruct (gen_customs_spec p _ _ _ (run_customs _ Hr)) as [Hn _]; [done|change objNumSections with 10; lia|].
  apply lookup_lt_Some in H. apply (f_equal length) in Hn. rewrite length_fmap in Hn. change objNumSections with 10. lia.
Qed.

Lemma custom_index_bound n i : custom_index (br_ces r) (br_cds r) n = Some i -> 0 <= i < 2 ^ 16.
Proof.
  unfold custom_index. destruct (find _ (br_ces r)) as [c|] eqn:E.
  - intros [= <-]. apply find_some in E as [E _]. apply list_elem_of_In, list_elem_of_lookup in E as [k E]. by eapply ces_bound.
  - destruct (find _ (br_cds r)) as [d|] eqn:E2; [|done]. intros [= <-]. apply find_some in E2 as [E2 _]. apply list_elem_of_In in E2.
    unfold br_cds, custom_data in E2. apply elem_of_lookup_imap in E2 as (k & x & -> & _). cbn. apply wrapU_range. lia.
Qed.

Lemma func_entry_fits cb sh b f : 0 <= sh < 2 ^ 16 -> 0 <= b <= 2 -> entry_fits (func_entry cb sh b f).
Proof. intros Hs Hb. split; [by apply sym_info_fits|]. split; [done|]. split; [apply u64_fits|done]. Qed.

Lemma room_bound g : g ∈ Globals p -> global_ok g /\ 0 <= room g < 2 ^ 62.
Proof.
  intros Hg. destruct (ok_globals _ Hok) as [Ho Hs]. pose proof (proj1 (list.Forall_forall _ _) Ho g Hg) as Hgo.
  pose proof (zsum_bound _ g Ho Hg). pose proof (room_pos g Hgo). split; [done|]. lia.
Qed.

Lemma var_entry_fits b sl : 0 <= b <= 2 -> sl ∈ slots (placed p) -> entry_fits (var_entry b sl).
Proof.
  intros Hb Hin. destruct (totals_small _ (ok_globals _ Hok)) as (T1 & T2 & _). destruct (slot_bounds _ sl (ok_globals _ Hok) Hin) as [B1 B2].
  fold (placed p) in *. pose proof (slot_global p Hok sl Hin) as Hg. destruct (room_bound _ Hg) as [Hgo Hrm]. unfold room in Hrm.
  pose proof (ok_gsize _ Hgo). pose proof (bytes_len_nonneg (InitData (gbl sl))). pose proof (u64_fits (u64 (Size (gbl sl)) * 8)) as Hv.
  assert (Hi : 0 <= sym_info b STT_OBJECT < 2 ^ 8) by (by apply sym_info_fits).
  unfold var_entry. destruct (isCommon sl) eqn:Ec; [|destruct (inData sl) eqn:Ed]; (split; [done|]; split; [done|]; split; [|done]); cbn [en_value].
  - destruct (Z.ltb_spec 0 (Align (gbl sl))); lia.
  - destruct (B1 eq_refl) as (? & ? & ?). lia.
  - destruct B2 as (? & ? & ?); [unfold in_bss; by rewrite Ed, Ec|]. lia.
Qed.

Lemma custom_entry_fits sl : sl ∈ customSlots (placed p) -> entry_fits (custom_entry (br_ces r) (br_cds r) sl).
Proof.
  intros Hin. destruct (customs_placed p Hok) as [_ H]. destruct (H sl Hin) as (d & _ & Hb & _).
  split; [apply sym_info_fits; [unfold custom_bind; repeat case_match; lia|done]|]. cbn [en_shndx en_value en_size custom_entry].
  split; [|split; [lia|apply u64_fits]]. destruct (custom_index _ _ _) as [i|] eqn:E; [|done]. by eapply custom_index_bound.
Qed.

Lemma first_entries_fit : Forall entry_fits (br_locals r ++ br_globals r).
Proof.
  apply list.Forall_forall. intros e H. unfold br_locals, br_globals, local_entries, global_entries in H. rewrite !elem_of_app in H.
  destruct H as [[H|[H|H]]|[H|[H|[H|H]]]].
  - apply list_elem_of_fmap in H as (x & -> & H). destruct (literals_bounds p x Hok H). pose proof (bytes_len_nonneg (re_bytes x)).
    split; [by apply sym_info_fits|]. split; [done|]. cbn [en_value en_size str_entry]. lia.
  - apply list_elem_of_fmap in H as (f & -> & H). by apply func_entry_fits.
  - apply list_elem_of_fmap in H as (sl & -> & H). apply list_elem_of_filter in H as [_ H]. by apply var_entry_fits.
  - apply list_elem_of_fmap in H as (f & -> & H). apply func_entry_fits; [done|apply weak_bind_fits].
  - apply list_elem_of_bind in H as (c & H & Hc). apply list_elem_of_fmap in H as (f & -> & H). apply list_elem_of_lookup in Hc as [i Hc].
    apply func_entry_fits; [by eapply ces_bound|apply weak_bind_fits].
  - apply list_elem_of_fmap in H as (sl & -> & H). apply list_elem_of_filter in H as [_ H]. apply var_entry_fits; [apply weak_bind_fits|done].
  - apply list_elem_of_fmap in H as (sl & -> & H). by apply custom_entry_fits.
Qed.

Lemma undef_entries_fit t ns : 0 <= t <= 3 -> Forall entry_fits (undef_entry t <$> ns).
Proof. intros Ht. apply list.Forall_fmap, list.Forall_forall. intros n _. split; [by apply sym_info_fits|]. by cbn. Qed.

Lemma first_syms_ok : Forall sym_ok (ss_syms (br_first r)).
Proof.
  unfold br_first, first_syms. cbn [ss_syms]. assert (Hs : forall k, 0 <= k < 2 ^ 16 -> sym_ok (sectionSym k)).
  { intros k Hk. by apply sym_ok_intro; try done; vm_compute. }
  rewrite !list.Forall_app. split; [|split].
  - repeat constructor; by vm_compute.
  - apply list.Forall_fmap, list.Forall_lookup. intros i c Hc. apply Hs. by eapply ces_bound.
  - apply list.Forall_fmap, list.Forall_forall. intros d Hd. apply Hs. unfold br_cds, custom_data in Hd. apply elem_of_lookup_imap in Hd as (k & x & -> & _).
    cbn. apply wrapU_range. lia.
Qed.

Lemma find_label_bound l w sh : find_label (br_cb r) (br_ces r) l = Some (w, sh) -> 0 <= sh < 2 ^ 16.
Proof.
  unfold find_label. destruct (labels (br_cb r) !! l); [intros [= _ <-]; done|].
  assert (H : forall ces, (forall c, c ∈ ces -> 0 <= ce_secIdx c < 2 ^ 16) -> find_custom l ces = Some (w, sh) -> 0 <= sh < 2 ^ 16).
  { induction ces as [|c ces IH]; intros Hc E; [done|]. cbn in E. destruct (labels (ce_cb c) !! l); [injection E as _ <-; apply Hc; left|].
    apply IH; [intros; apply Hc; by right|done]. }
  apply H. intros c Hc. apply list_elem_of_lookup in Hc as [i Hc]. by eapply ces_bound.
Qed.

Lemma alias_entries_fit : Forall entry_fits (br_aliases r).
Proof.
  assert (Hb : Forall sym_ok (ss_syms (br_before_aliases r))).
  { unfold br_before_aliases. rewrite app_assoc, adds_app. apply adds_syms_ok; [|by apply undef_entries_fit]. apply adds_syms_ok; [apply first_syms_ok|apply first_entries_fit]. }
  apply list.Forall_lookup. intros i e He. destruct (Forall2_lookup_r _ _ _ _ _ (run_aliases _ Hr) He) as (a & _ & _ & _ & [(l & w & _ & Hl & H1 & H2 & H3)|(j & t & _ & _ & Ht & H1 & H2 & H3 & H4)]).
  - unfold entry_fits. rewrite H1, H2, H3. split; [by apply sym_info_fits|]. split; [by eapply find_label_bound|]. split; [apply u64_fits|done].
  - apply list_elem_of_lookup_2 in Ht. apply (proj1 (list.Forall_forall _ _) Hb), sym_ok_elim in Ht. unfold entry_fits. rewrite H1, H2, H3, H4.
    split; [by apply sym_info_fits|]. tauto.
Qed.

Lemma table_syms_ok ns : Forall sym_ok (ss_syms (adds (br_table r) (undef_entry STT_FUNC <$> ns))).
Proof.
  apply adds_syms_ok; [|by apply undef_entries_fit]. unfold br_table, br_entries. rewrite app_assoc. apply adds_syms_ok; [apply first_syms_ok|].
  apply list.Forall_app. split; [apply first_entries_fit|]. apply list.Forall_app. split; [by apply undef_entries_fit|apply alias_entries_fit].
Qed.
End fits.

(** * The file *)

Lemma generated p q : program_ok p -> names_fine p -> genObjectTo p = inr q ->
  exists (r : build_run p) ns, run_ok r /\ ns ⊆ FuncRefs p /\ written p r (adds (br_table r) (undef_entry STT_FUNC <$> ns)) q.
Proof.
  intros Hok Hn H. destruct (generate_run p Hok) as [(r & Hr & E)|[(e & E)|(a & l & _ & E & _)]]; [|by rewrite E in H..].
  destruct (finish_spec p Hok Hn r Hr) as (q' & ns & Ef & Hns & Hw). exists r, ns. split; [done|]. split; [done|].
  rewrite E, Ef in H. injection H as <-. done.
Qed.

(** The object fits its file. *)
Definition fits_file (q : objParts) : Prop := pieces_end elfHdr (pieces q) < 2 ^ 32.

Lemma fits_tables q : fits_file q -> bytes_len (op_strtab q) < 2 ^ 32 /\ Z.of_nat (length (op_syms q)) < 2 ^ 32.
Proof.
  intros Hf. unfold fits_file in Hf. destruct (piece_bound (pieces q) elfHdr 4 (op_strtab q) eq_refl ltac:(done)) as [B1 B2].
  destruct (piece_bound (pieces q) elfHdr 3 (symtab_bytes q) eq_refl ltac:(done)) as [C1 C2]. change elfHdr with 64 in *.
  split; [lia|]. assert (E : bytes_len (symtab_bytes q) = 24 * Z.of_nat (length (op_syms q))); [|lia].
  unfold symtab_bytes, bytes_len. clear. induction (op_syms q) as [|s l IH]; [done|]. rewrite fmap_cons. cbn [concat length].
  rewrite length_app, length_sym. lia.
Qed.

Lemma mkRela_info off k ty a : Z.of_nat k < 2 ^ 32 -> 0 <= ty < 2 ^ 32 -> r_info (mkRela off (Z.of_nat k) ty a) = Z.of_nat k * 2 ^ 32 + ty.
Proof.
  intros Hk Ht. unfold mkRela. cbn [r_info]. rewrite (wrapU_small 64 (Z.of_nat k)) by lia. rewrite Z.shiftl_mul_pow2 by lia.
  rewrite wrapU_small by lia. by apply lor_low.
Qed.

Definition against_fits (x : against) : Prop := 0 <= ag_off x < 2 ^ 64 /\ 0 <= ag_type x < 2 ^ 32 /\ - 2 ^ 63 <= ag_addend x < 2 ^ 63.

Lemma relocates_fits st x rl : relocates st x rl -> against_fits x -> Z.of_nat (length (ss_syms st)) < 2 ^ 32 -> rela_ok rl.
Proof.
  intros (k & s & -> & Hk & _) (H1 & H2 & H3) Hl. apply lookup_lt_Some in Hk. unfold rela_ok. rewrite mkRela_info by lia. cbn [r_off r_addend mkRela]. lia.
Qed.

Lemma relas_fit st xs rs : Forall2 (relocates st) xs rs -> Forall against_fits xs -> Z.of_nat (length (ss_syms st)) < 2 ^ 32 -> Forall rela_ok rs.
Proof. intros H. induction H as [|x rl xs rs H _ IH]; intros Hx Hl; [constructor|]. apply Forall_cons_1 in Hx as [Hx Hxs]. constructor; [by eapply relocates_fits|by apply IH]. Qed.

Lemma code_against_fits p cb : Forall against_fits (code_against p cb).
Proof.
  apply list.Forall_forall. intros x H. unfold code_against in H. rewrite !elem_of_app in H. destruct H as [H|[H|H]].
  - apply elem_of_lookup_imap in H as (k & n & -> & _). split; [apply u64_fits|done].
  - apply list_elem_of_omap in H as (n & _ & H). unfold ref_against in H. destruct (poolIdx cb !! n) as [k|]; [|done]. injection H as <-. split; [apply u64_fits|done].
  - apply list_elem_of_fmap in H as (xbl & -> & _). split; [apply u64_fits|done].
Qed.

Lemma data_against_fits p : program_ok p -> Forall against_fits (data_against <$> dataRelocs (placed p)).
Proof.
  intros Hok. apply list.Forall_fmap, list.Forall_forall. intros dr H. apply list_elem_of_bind in H as (sl & H & Hsl).
  apply slot_global in Hsl; [|done]. unfold slot_relocs in H. case_match; [|by apply elem_of_nil in H].
  apply list_elem_of_fmap in H as (x & -> & Hx). split; [apply u64_fits|]. split; [done|]. cbn.
  exact (proj1 (list.Forall_forall _ _) (proj1 (list.Forall_forall _ _) (ok_addends _ Hok) _ Hsl) x Hx).
Qed.

Section file.
Context (p : IRProgram) (q : objParts) (Hok : program_ok p) (Hn : names_fine p) (Hsec : sections_fine p) (Hfile : fits_file q).
Context (r : build_run p) (Hr : run_ok r) (ns : list string).
Let st : symState := adds (br_table r) (undef_entry STT_FUNC <$> ns).
Context (Hw : written p r st q).

Lemma written_fits : strtab_fits st /\ Z.of_nat (length (ss_syms st)) < 2 ^ 32.
Proof. destruct (fits_tables q Hfile) as [H1 H2]. rewrite (wr_strtab _ _ _ _ Hw) in H1. rewrite (wr_syms _ _ _ _ Hw) in H2. done. Qed.

Lemma run_exec_names : ce_name <$> br_ces r = execCustomNames p (placed p).
Proof.
  pose proof (exec_names_short p Hok) as Hs. destruct (gen_customs_spec p _ _ _ (run_customs _ Hr)) as [H _]; [done|change objNumSections with 10; lia|]. done.
Qed.

Lemma object_names : names q = standard_names ++ (execCustomNames p (placed p) ≫= fun e => [e; rela_name e]) ++ dataCustomNames p (placed p).
Proof.
  unfold names, exec_names, custom_names. do 2 f_equal.
  - rewrite <- run_exec_names, <- (wr_exec_names _ _ _ _ Hw). generalize (op_exec q). clear. induction l as [|e l IH]; [done|]. cbn. by rewrite <- IH.
  - rewrite (wr_custom _ _ _ _ Hw), <- list_fmap_compose. rewrite <- (custom_data_names p (placed p) (objNumSections + 2 * Z.of_nat (length (br_ces r)))). done.
Qed.

Lemma section_fine_of n : n ∈ execCustomNames p (placed p) ++ dataCustomNames p (placed p) -> section_name_fine n.
Proof.
  intros H. apply (proj1 (list.Forall_forall _ _) Hsec). rewrite elem_of_app in H. destruct H as [H|H]; by apply list_elem_of_filter in H as [_ H].
Qed.

Lemma object_names_distinct : NoDup (names q).
Proof.
  rewrite object_names. apply names_distinct.
  - apply list.NoDup_filter, NoDup_customSecOrder.
  - apply list.NoDup_filter, NoDup_customSecOrder.
  - intros n H. by apply list_elem_of_filter in H as [[_ H] _].
  - apply list.Forall_forall. intros n. apply section_fine_of.
Qed.

Lemma object_no_data_relas : no_data_relas q.
Proof.
  unfold no_data_relas. rewrite (wr_custom _ _ _ _ Hw). apply list.Forall_fmap, list.Forall_forall. intros d Hd. cbn [compose ds_name].
  assert (Hdn : cd_name d ∈ dataCustomNames p (placed p)).
  { rewrite <- (custom_data_names p (placed p) (objNumSections + 2 * Z.of_nat (length (br_ces r)))). by apply list_elem_of_fmap_2. }
  assert (Hfine : section_name_fine (cd_name d)) by (apply section_fine_of, elem_of_app; by right).
  intros H. rewrite object_names, !elem_of_app, pairs_elem in H. destruct H as [H|[[H|(e & He & H)]|H]].
  - apply rela_name_standard in H. by destruct Hfine as (_ & _ & Hf).
  - destruct (section_fine_of (rela_name (cd_name d))) as (_ & E & _); [apply elem_of_app; by left|]. by rewrite rela_name_prefix in E.
  - apply rela_name_inj in H as <-. by apply list_elem_of_filter in Hdn as [[_ Hdn] _].
  - destruct (section_fine_of (rela_name (cd_name d))) as (_ & E & _); [apply elem_of_app; by right|]. by rewrite rela_name_prefix in E.
Qed.

Lemma object_section_count : section_count q < 0xff00.
Proof.
  unfold section_count. pose proof (ok_sections _ Hok) as Hs. pose proof (exec_names_short p Hok) as He.
  pose proof (f_equal length (wr_exec_names _ _ _ _ Hw)) as E1. pose proof (f_equal length run_exec_names) as E2. rewrite !length_fmap in *.
  rewrite (wr_custom _ _ _ _ Hw), length_fmap. unfold br_cds, custom_data. rewrite length_imap.
  assert (Hd : Z.of_nat (length (dataCustomNames p (placed p))) < 2 ^ 14); [|lia].
  eapply Z.le_lt_trans; [|exact Hs]. apply inj_le. unfold dataCustomNames. apply length_filter.
Qed.

Lemma object_fits : parts_ok q.
Proof.
  destruct written_fits as [Hf Hl]. destruct (totals_small _ (ok_globals _ Hok)) as (_ & T2 & _). split.
  - exact Hfile.
  - apply object_section_count.
  - rewrite (wr_bss _ _ _ _ Hw). exact T2.
  - rewrite (wr_first _ _ _ _ Hw). unfold st, br_table in Hl. rewrite !length_adds in Hl. unfold br_entries in Hl. rewrite !length_app in Hl. lia.
  - rewrite (wr_syms _ _ _ _ Hw). by apply table_syms_ok.
  - rewrite !list.Forall_app. split; [|split].
    + eapply relas_fit; [by apply (wr_relas _ _ _ _ Hw)|apply code_against_fits|done].
    + eapply relas_fit; [by apply (wr_data_relas _ _ _ _ Hw)|by apply data_against_fits|done].
    + pose proof (wr_exec _ _ _ _ Hw Hf) as He. apply list.Forall_forall. intros rl H. apply list_elem_of_bind in H as (e & H & Hin).
      apply list_elem_of_lookup in Hin as [i Hi]. destruct (Forall2_lookup_r _ _ _ _ _ He Hi) as (c & _ & _ & _ & Hrl).
      pose proof (relas_fit _ _ _ Hrl (code_against_fits p (ce_cb c)) Hl) as Hall. by apply (proj1 (list.Forall_forall _ _) Hall).
  - apply list.Forall_forall. intros n H. assert (Hx : n ∈ names q) by (unfold names; apply elem_of_app; by right).
    assert (Hsp : n ∈ (execCustomNames p (placed p) ≫= fun e => [e; rela_name e]) ++ dataCustomNames p (placed p)).
    { pose proof object_names as E. unfold names in E. apply app_inv_head in E. by rewrite <- E. }
    rewrite elem_of_app, pairs_elem in Hsp. destruct Hsp as [[Hsp|(e & He & ->)]|Hsp].
    + apply section_fine_of, elem_of_app. by left.
    + apply rela_name_no_nul, section_fine_of, elem_of_app. by left.
    + apply section_fine_of, elem_of_app. by right.
  - apply object_names_distinct.
Qed.

(** The linker reads the object back. *)
Lemma object_loads nm : loadObjFromBytes nm (write_obj q) = Some (object_of nm q).
Proof. apply load_written; [apply object_fits|apply object_no_data_relas]. Qed.
End file.
