(* ===== verification/ObjGenSpec.v ===== *)
(** What the object writer promises: the layout of the data, when it succeeds,
    what the relocations are against, and that the linker's object holds the
    program. *)
From stdpp Require Import gmap strings.
From S2P Require Import Prelude Align Linker LinkSyms LinkLayout LinkReloc Arfmt Elf CodeBuilder ObjWrite ObjParse ObjRound ObjFold ObjData ObjPlace ObjGen ObjSyms ObjRelas ObjProgram ObjFinish ObjLoad.
#[local] Open Scope Z_scope.

(** * The data *)


(** * Success and failure *)

(** C7: errors.  The writer ends with an object, or with the error of a branch
    that cannot be resolved, or with that of an alias whose chain of aliases
    ends in a name that no function of the object's code has; no other error
    and no panic happens. *)
Theorem generation_outcome (p : IRProgram) : program_ok p -> names_fine p ->
  (exists q, genObjectTo p = inr q) \/
  (exists e, genObjectTo p = inl (BadFixup e)) \/
  (exists a l, a ∈ Aliases p /\ genObjectTo p = inl (NoAliasTarget (al_Name a) (al_Target a)) /\
     resolveAliasTarget p (al_Target a) = Some l /\
     forall f, f ∈ Funcs p -> fn_SectionName f = ""%string \/ fn_SectionName f ∈ execCustomNames p (placed p) -> fn_Name f <> l).
Proof.
  intros Hok Hn. destruct (generate_run p Hok) as [(r & Hr & ->)|[H|H]]; [|by right; left|by right; right].
  destruct (finish_spec p Hok Hn r Hr) as (q & ns & -> & _). left. by exists q.
Qed.

(** * Relocations *)

(** A relocation of the object that says [x]: its symbol has the name. *)
Definition names_symbol (q : objParts) (x : against) (rl : objRela) : Prop := exists k s,
  rl = mkRela (ag_off x) (Z.of_nat k) (ag_type x) (ag_addend x) /\ op_syms q !! k = Some s /\
  getString (op_strtab q) (st_name s) = Some (ag_name x).

(** C4: relocations.  Every pool entry of a global, a string literal or a
    function, every call that leaves its section and every pointer in .data
    has exactly one relocation, at its place and with its addend, and the
    symbol it is against has the name that was meant; there are no others. *)
Theorem relocations_name_targets (p : IRProgram) (q : objParts) : program_ok p -> names_fine p -> genObjectTo p = inr q -> fits_file q ->
  (exists cb ws, gen_section p "" = inr (cb, ws) /\ op_text q = concat (le_bytes 4 <$> ws) /\ Forall2 (names_symbol q) (code_against p cb) (op_relas q)) /\
  Forall2 (names_symbol q) (data_against <$> dataRelocs (placed p)) (op_dataRelas q) /\
  Forall2 (fun n e => es_name e = n /\ exists cb ws, gen_section p n = inr (cb, ws) /\ es_text e = concat (le_bytes 4 <$> ws) /\
     Forall2 (names_symbol q) (code_against p cb) (es_relas e)) (execCustomNames p (placed p)) (op_exec q).
Proof.
  intros Hok Hn Hg Hf. destruct (generated p q Hok Hn Hg) as (r & ns & Hr & _ & Hw). destruct (written_fits p q Hf r ns Hw) as [Hfit _].
  set (st := adds _ _) in *. assert (K : forall x rl, relocates st x rl -> names_symbol q x rl).
  { intros x rl (k & s & H). exists k, s. by rewrite (wr_syms _ _ _ _ Hw), (wr_strtab _ _ _ _ Hw). }
  split; [|split].
  - exists (br_cb r), (br_words r). split; [apply (run_section _ Hr)|]. split; [apply (wr_text _ _ _ _ Hw)|].
    eapply Forall2_impl; [exact K|]. by apply (wr_relas _ _ _ _ Hw).
  - eapply Forall2_impl; [exact K|]. by apply (wr_data_relas _ _ _ _ Hw).
  - rewrite <- (run_exec_names p Hok r Hr). apply Forall2_fmap_l. pose proof (wr_exec _ _ _ _ Hw Hfit) as He.
    apply Forall2_same_length_lookup_2; [by apply Forall2_length in He|]. intros i c e Hc Hi.
    destruct (Forall2_lookup_lr _ _ _ _ _ _ He Hc Hi) as (E1 & E2 & E3). split; [done|]. exists (ce_cb c), (ce_words c).
    split; [by apply (custom_sections_of p Hok r Hr i)|]. split; [done|]. by eapply Forall2_impl.
Qed.

(** * The linker's object *)




Section holding.
Context (p : IRProgram) (q : objParts) (Hok : program_ok p) (Hn : names_fine p) (Hsecs : sections_fine p) (Hlab : labels_fine p) (Hfile : fits_file q).
Context (r : build_run p) (Hr : run_ok r) (ns : list string) (Hns : ns ⊆ FuncRefs p).
Let st : symState := adds (br_table r) (undef_entry STT_FUNC <$> ns).
Context (Hw : written p r st q).












End holding.


(** * Local symbols first *)

Lemma adds_info es : forall st, st_info <$> ss_syms (adds st es) = (st_info <$> ss_syms st) ++ (en_info <$> es).
Proof.
  induction es as [|e es IH]; intros st; [by rewrite app_nil_r|]. unfold adds in *. cbn [foldl]. rewrite IH.
  unfold add_entry, add_sym, strtab_add. cbn [ss_syms]. by rewrite fmap_app, <- app_assoc.
Qed.

Definition is_local (info : Z) : Prop := sym_bind info = STB_LOCAL.

Lemma var_entry_info b sl : en_info (var_entry b sl) = sym_info b STT_OBJECT.
Proof. unfold var_entry. by repeat case_match. Qed.

Lemma first_syms_local ces cds : Forall is_local (st_info <$> ss_syms (first_syms ces cds)).
Proof.
  unfold first_syms. cbn [ss_syms]. rewrite !fmap_app, !list.Forall_app. split; [by repeat constructor|].
  split; rewrite <- list_fmap_compose; apply list.Forall_fmap, list.Forall_forall; done.
Qed.

Lemma local_entries_local cb lits p dst : Forall is_local (en_info <$> local_entries cb lits p dst).
Proof.
  unfold local_entries. rewrite !fmap_app, !list.Forall_app. split; [|split]; apply list.Forall_fmap, list.Forall_fmap, list.Forall_forall; try done.
  intros sl _. cbn [compose]. by rewrite var_entry_info.
Qed.

(** Everything after the first symbol that is not local is not local, if no
    static variable is in a section of its own. *)
Lemma later_entries_not_local p (r : build_run p) : run_ok r ->
  (forall g, g ∈ Globals p -> IsStatic g = true -> IsExtern g = false -> SectionName g = ""%string \/ IsWeak g = true) ->
  Forall (fun i => ~ is_local i) (en_info <$> br_globals r ++ (undef_entry STT_NOTYPE <$> br_undefs r) ++ br_aliases r).
Proof.
  intros Hr Hst. assert (Hwb : forall b t, t = STT_FUNC \/ t = STT_OBJECT -> ~ is_local (sym_info (weak_bind b) t)) by (intros [] t [-> | ->]; done).
  unfold br_globals, global_entries. rewrite !fmap_app, !list.Forall_app. split; [split; [|split; [|split]]|split].
  - apply list.Forall_fmap, list.Forall_fmap, list.Forall_forall. intros f _. apply Hwb. by left.
  - apply list.Forall_fmap, list.Forall_forall. intros e H. apply list_elem_of_bind in H as (c & H & _). apply list_elem_of_fmap in H as (f & -> & _). apply Hwb. by left.
  - apply list.Forall_fmap, list.Forall_fmap, list.Forall_forall. intros sl _. cbn [compose]. rewrite var_entry_info. apply Hwb. by right.
  - apply list.Forall_fmap, list.Forall_fmap, list.Forall_forall. intros sl H. cbn [compose custom_entry en_info]. unfold custom_bind.
    apply (list_elem_of_fmap_2 gbl) in H. rewrite placed_customs in H. apply list_elem_of_filter in H as [H Hin].
    apply andb_prop_elim in H as [H1 H2]. destruct (IsWeak (gbl sl)) eqn:Ew; [done|]. destruct (IsStatic (gbl sl)) eqn:Es; [|done].
    destruct (IsExtern (gbl sl)) eqn:Ee; [done|]. destruct (Hst _ Hin Es Ee) as [E|E]; [by rewrite E in H2|congruence].
  - by apply list.Forall_fmap, list.Forall_fmap, list.Forall_forall.
  - apply list.Forall_fmap, list.Forall_lookup. intros i e He. cbn [compose]. destruct (Forall2_lookup_r _ _ _ _ _ (run_aliases _ Hr) He) as (a & _ & _ & _ & [(l & w & _ & _ & -> & _)|(j & t & _ & _ & _ & -> & _)]); done.
Qed.

(** C28: symbol order.  The symbols before the index in the header of .symtab
    are exactly the local ones, provided that no static variable is placed in a
    section of its own. *)
Theorem locals_first (p : IRProgram) (q : objParts) : program_ok p -> names_fine p -> genObjectTo p = inr q ->
  (forall g, g ∈ Globals p -> IsStatic g = true -> IsExtern g = false -> SectionName g = ""%string \/ IsWeak g = true) ->
  forall i s, op_syms q !! i = Some s -> Z.of_nat i < op_firstGlobal q <-> sym_bind (st_info s) = STB_LOCAL.
Proof.
  intros Hok Hn Hg Hst i s Hs. destruct (generated p q Hok Hn Hg) as (r & ns & Hr & _ & Hw). rewrite (wr_first _ _ _ _ Hw).
  rewrite (wr_syms _ _ _ _ Hw) in Hs. apply (f_equal (fmap st_info)) in Hs. rewrite <- list_lookup_fmap in Hs. cbn [fmap option_fmap option_map] in Hs.
  unfold br_table, br_entries in Hs. rewrite <- adds_app, adds_info, <- !app_assoc, fmap_app in Hs. fold (is_local (st_info s)).
  rewrite app_assoc in Hs. set (l1 := (st_info <$> _) ++ (en_info <$> _)) in Hs.
  assert (L1 : length l1 = (length (ss_syms (br_first r)) + length (br_locals r))%nat) by (unfold l1; by rewrite length_app, !length_fmap).
  rewrite <- L1. destruct (decide (i < length l1)%nat) as [Hi|Hi].
  - rewrite lookup_app_l in Hs by done. split; [|lia]. intros _. assert (Hl : Forall is_local l1).
    { apply list.Forall_app. split; [apply first_syms_local|apply local_entries_local]. }
    by apply (proj1 (list.Forall_lookup _ _) Hl i).
  - rewrite lookup_app_r in Hs by lia. split; [lia|]. intros Hl. exfalso. revert Hl.
    assert (Hl2 : Forall (fun x => ~ is_local x) (en_info <$> (br_globals r ++ (undef_entry STT_NOTYPE <$> br_undefs r) ++ br_aliases r) ++ (undef_entry STT_FUNC <$> ns))).
    { rewrite fmap_app, list.Forall_app. split; [by apply later_entries_not_local|]. by apply list.Forall_fmap, list.Forall_fmap, list.Forall_forall. }
    rewrite <- !app_assoc in Hl2. by apply (proj1 (list.Forall_lookup _ _) Hl2 _ _ Hs).
Qed.

(** * A concrete program *)

Definition var (n : string) (ext stat : bool) (sec : string) (al sz : Z) (init : option Z) (data : list Z) (rels : list InitReloc) : IRGlobal :=
  mkIRGlobal n false ext stat false sec al sz (bool_decide (is_Some init)) (default 0 init) data rels.

Definition call_or_extern (n : string) (locals : gset string) : op := if decide (n ∈ locals) then EmitBL n else EmitBLextern n.

(** Two initialised scalars, one of 16 bytes; a pointer to a string literal; a
    static array; a tentative definition; a declaration; a variable with a
    section of its own; functions in two sections; two aliases. *)
Definition program0 : IRProgram := {|
  Globals := [var "x" false false "" 0 1 (Some 5) [] []; var "w" false false "" 16 2 (Some (-1)) [] [];
    var "msg" false false "" 0 1 None (replicate 8 0) [mkInitReloc 0 "str0" 0]; var "cnt" false true "" 0 3 None [] [];
    var "t" false false "" 0 1 None [] []; var "e" true false "" 0 1 None [] []; var "my" false false ".mydata" 0 1 (Some 7) [] []];
  Funcs := [
    mkIRFunc "main" false false "" (fun l => [EmitLDRglobal "x"; EmitBLextern "puts"; call_or_extern "f" l]);
    mkIRFunc "f" true false "" (fun _ => [Emit 1]);
    mkIRFunc "h" false true ".text.hot" (fun l => [call_or_extern "f" l])];
  Aliases := [mkIRAlias "m2" "main" true; mkIRAlias "x2" "x" false];
  StrLits := [StrLit "str0" [104; 105]];
  FConsts := [];
  FuncRefs := ["f"; "abort"]
|}.

Lemma program0_ok : program_ok program0.
Proof.
  split.
  - split; [|by vm_compute]. repeat (apply list.Forall_cons; split; [split; [done|first [by left|right; by exists 4]|done]|]). constructor.
  - repeat constructor; by vm_compute.
  - by vm_compute.
  - repeat constructor; by vm_compute.
  - intros f locals H. repeat (apply elem_of_cons in H as [->|H]); [..|by apply elem_of_nil in H]; cbn [fn_body]; unfold call_or_extern;
      repeat constructor; by destruct (decide _).
  - by vm_compute.
Qed.

Lemma program0_names : names_fine program0.
Proof.
  split.
  - apply (bool_decide_unpack (Forall _ _)). vm_compute. exact I.
  - assert (H : Forall no_nul ["puts"; "f"]%string) by (apply (bool_decide_unpack (Forall _ _)); vm_compute; exact I).
    intros f locals n Hf Hn. apply (proj1 (list.Forall_forall _ _) H). revert Hn.
    repeat (apply elem_of_cons in Hf as [->|Hf]); [..|by apply elem_of_nil in Hf]; cbn [fn_body]; unfold call_or_extern;
      try destruct (decide _); rewrite ?elem_of_cons, ?elem_of_nil; intros Hn; repeat destruct Hn as [Hn|Hn]; simplify_eq; tauto.
Qed.



Definition object0 : objParts := Eval vm_compute in match genObjectTo program0 with inr q => q | inl _ => ObjParts [] [] [] 0 [] 0 [] [] [] [] [] end.

Lemma generates0 : genObjectTo program0 = inr object0.
Proof. by vm_compute. Qed.

Lemma object0_fits : fits_file object0.
Proof. by vm_compute. Qed.


Lemma generation_outcome_witness : (exists q, genObjectTo program0 = inr q) \/ False.
Proof.
  destruct (generation_outcome program0 program0_ok program0_names) as [H|[(e & H)|(a & l & _ & H & _)]]; [by left|right..]; rewrite generates0 in H; discriminate H.
Defined.

Lemma relocations_name_targets_witness : exists k s, op_relas object0 !! 6%nat = Some (mkRela 48 (Z.of_nat k) 257 0) /\
  op_syms object0 !! k = Some s /\ getString (op_strtab object0) (st_name s) = Some "my"%string.
Proof.
  destruct (relocations_name_targets program0 object0 program0_ok program0_names generates0 object0_fits) as ((cb & ws & _ & _ & H) & _).
  assert (E : code_against program0 cb !! 6%nat = Some (Against 48 257 0 "my")) by reflexivity.
  destruct (Forall2_lookup_l _ _ _ _ _ H E) as (rl & Hrl & k & s & -> & Hs & Hn). exists k, s. exact (conj Hrl (conj Hs Hn)).
Defined.


Lemma locals_first_witness :
  op_firstGlobal object0 = 10 /\
  (exists s, op_syms object0 !! 9%nat = Some s /\ sym_bind (st_info s) = STB_LOCAL) /\
  exists s, op_syms object0 !! 10%nat = Some s /\ sym_bind (st_info s) <> STB_LOCAL.
Proof.
  assert (H : forall i s, op_syms object0 !! i = Some s -> Z.of_nat i < op_firstGlobal object0 <-> sym_bind (st_info s) = STB_LOCAL).
  { apply (locals_first program0 object0 program0_ok program0_names generates0).
    intros g Hg. repeat (apply elem_of_cons in Hg as [->|Hg]); [..|by apply elem_of_nil in Hg]; try done; intros _ _; by left. }
  assert (H10 : op_firstGlobal object0 = 10) by (vm_compute; reflexivity). rewrite H10 in H. split; [exact H10|split].
  - destruct (op_syms object0 !! 9%nat) as [s|] eqn:E; [|vm_compute in E; discriminate E]. exists s. split; [done|]. by apply (H 9%nat).
  - destruct (op_syms object0 !! 10%nat) as [s|] eqn:E; [|vm_compute in E; discriminate E]. exists s. split; [done|].
    intros Hl. by apply (H 10%nat s E) in Hl.
Defined.
