(* ===== verification/ObjCorners.v ===== *)
(** Where the object writer departs from what its input asks for: small
    programs and what becomes of them. *)
From stdpp Require Import gmap strings.
From S2P Require Import Prelude Align Linker LinkLayout LinkReloc Arfmt Elf CodeBuilder ObjWrite ObjParse ObjRound ObjFold ObjData ObjPlace ObjGen ObjSyms ObjRelas ObjGenSpec.
#[local] Open Scope Z_scope.

(** A program with one string literal. *)
Definition small_program (gs : list IRGlobal) (fs : list IRFunc) (als : list IRAlias) (refs : list string) : IRProgram :=
  mkIRProgram gs fs als [StrLit "s0" [104]] [] refs.

Definition object_for (p : IRProgram) : objParts := match genObjectTo p with inr q => q | inl _ => ObjParts [] [] [] 0 [] 0 [] [] [] [] [] end.

(** The symbols after the null symbol, as the linker sees them. *)
Definition symbols_of (q : objParts) : list (string * string * Z * Z * SymBind) :=
  filter (fun x => x.1.1.1.1 <> ""%string) ((fun s => let l := sym_of q s in (name l, secName l, value l, size l, binding l)) <$> op_syms q).

Definition sections_of (q : objParts) : list (string * list Z) := (fun d => (ds_name d, ds_data d)) <$> op_custom q.

(** The relocations of an initialised pointer are dropped when the variable has
    a section of its own: it stays null. *)
Lemma custom_pointer_not_relocated :
  let q := object_for (small_program [var "p" false false ".mydata" 0 1 None (replicate 8 0) [mkInitReloc 0 "s0" 0]] [] [] []) in
  op_dataRelas q = [] /\ op_exec q = [] /\ sections_of q = [(".mydata"%string, replicate 8 0)].
Proof. by vm_compute. Qed.

(** There a scalar of 16 bytes gets 8: the next variable is inside it. *)
Lemma custom_wide_scalar_overlaps :
  let q := object_for (small_program [var "wide" false false ".mydata" 16 2 (Some (-1)) [] []; var "next" false false ".mydata" 0 1 (Some 7) [] []] [] [] []) in
  symbols_of q = [("s0", ".rodata", 0, 2, STB_LOCAL); ("wide", ".data", 0, 16, STB_GLOBAL); ("next", ".data", 8, 8, STB_GLOBAL)]%string.
Proof. by vm_compute. Qed.

(** Alignment is not asked for there. *)
Lemma custom_alignment_ignored :
  let q := object_for (small_program [var "a" false false ".mydata" 0 1 (Some 1) [] []; var "b" false false ".mydata" 64 1 (Some 2) [] []] [] [] []) in
  symbols_of q = [("s0", ".rodata", 0, 2, STB_LOCAL); ("a", ".data", 0, 8, STB_GLOBAL); ("b", ".data", 8, 8, STB_GLOBAL)]%string.
Proof. by vm_compute. Qed.

(** A static variable there is a local symbol behind global ones. *)
Lemma custom_static_after_globals :
  let q := object_for (small_program [var "a" false false ".mydata" 0 1 (Some 7) [] []; var "s" false true ".mydata" 0 1 (Some 7) [] []] [] [] []) in
  op_firstGlobal q = 7 /\ (fun s => sym_bind (st_info s)) <$> drop 7 (op_syms q) = [STB_GLOBAL; STB_LOCAL].
Proof. by vm_compute. Qed.

(** A static function with a section of its own is visible to other objects. *)
Lemma custom_static_function_global :
  let q := object_for (small_program [] [mkIRFunc "f" true false ".text.hot" (fun _ => [Emit 1])] [] []) in
  symbols_of q = [("s0", ".rodata", 0, 2, STB_LOCAL); ("f", ".text", 16, 0, STB_GLOBAL)]%string.
Proof. by vm_compute. Qed.

(** A function whose section is not named like .text is not generated: calls to
    it are to an undefined symbol. *)
Lemma function_section_dropped :
  let q := object_for (small_program [] [mkIRFunc "main" false false "" (fun l => [call_or_extern "f" l]); mkIRFunc "f" false false ".init" (fun _ => [Emit 1])] [] []) in
  symbols_of q = [("s0", ".rodata", 0, 2, STB_LOCAL); ("main", ".text", 8, 0, STB_GLOBAL); ("f", "", 0, 0, STB_GLOBAL)]%string /\
  op_exec q = [] /\ op_custom q = [].
Proof. by vm_compute. Qed.

(** An alias of a tentative definition is a tentative definition of its own. *)
Lemma common_alias_is_separate :
  let q := object_for (small_program [var "x" false false "" 0 1 None [] []] [] [mkIRAlias "y" "x" false] []) in
  symbols_of q = [("s0", ".rodata", 0, 2, STB_LOCAL); ("x", "COMMON", 8, 8, STB_GLOBAL); ("y", "COMMON", 8, 8, STB_GLOBAL)]%string.
Proof. by vm_compute. Qed.

(** A variable in a section that has functions gets a symbol, in the middle of
    the code, and no storage. *)
Lemma variable_among_code_lost :
  let q := object_for (small_program [var "tab" false false ".text.hot" 0 1 (Some 7) [] []] [mkIRFunc "f" false false ".text.hot" (fun _ => [Emit 1])] [] []) in
  symbols_of q = [("s0", ".rodata", 0, 2, STB_LOCAL); ("f", ".text", 32, 0, STB_GLOBAL); ("tab", ".text", 16, 8, STB_GLOBAL)]%string /\
  sections_of q = [] /\ op_data q = [].
Proof. by vm_compute. Qed.

(** An alias whose address is taken is both defined and undefined. *)
Lemma alias_reference_undefined :
  let q := object_for (small_program [] [mkIRFunc "f" false false "" (fun _ => [Emit 1])] [mkIRAlias "g" "f" true] ["g"]) in
  symbols_of q = [("s0", ".rodata", 0, 2, STB_LOCAL); ("f", ".text", 16, 0, STB_GLOBAL); ("g", ".text", 16, 0, STB_GLOBAL); ("g", "", 0, 0, STB_GLOBAL)]%string.
Proof. by vm_compute. Qed.
