(* ===== verification/ElfSpec.v ===== *)
(** What the linker's output promises: the executable loads, and memory then
    holds the linked code and data at the addresses they were linked for. *)
From stdpp Require Import gmap strings.
From S2P Require Import Prelude Setjmp Arm64Enc CodeBuilder Align Linker LinkSyms LinkLayout LinkReloc Runtime RuntimeExec RuntimeSpec Elf.
#[local] Open Scope Z_scope.

#[local] Opaque helper_code.

(** Objects whose image fits the address space and whose data relocations lie
    inside the data and apart from each other. *)
Record loadable (objs : list objFile) (il : imageLayout) : Prop := {
  loadable_objs : Forall obj_ok objs;
  loadable_size : footprint helperWords objs (commons (il_scan il)) < 2 ^ 62;
  loadable_apart : NoDup (all_relas dataRelas objs (il_places il) ≫= fun '(k, o, p, r) => data_touched p r);
  loadable_inside : Forall (fun '(k, o, p, r) => data_index p r + 8 <= totalData (il_extent il)) (all_relas dataRelas objs (il_places il))
}.

Lemma start_label : labels helper_code !! "_start"%string = Some 2.
Proof. vm_compute. reflexivity. Qed.

Lemma entry_start il : entryVA (start_labels il (labels helper_code)) = word_va 2.
Proof. unfold entryVA. rewrite start_labels_other, start_label by done. reflexivity. Qed.

(** What the layout says of the sizes that go into the headers. *)
Lemma layout_sizes objs il : lay_out helperWords (labels helper_code) objs = Ok il -> loadable objs il ->
  let words := Z.of_nat (length (merged_code (instrs helper_code) objs)) in
  il_bases il = layout_bases words (totalRodata (il_extent il)) (totalData (il_extent il)) /\
  0 <= totalRodata (il_extent il) /\ 0 <= totalData (il_extent il) /\ 0 <= totalBss (il_extent il) < 2 ^ 64 /\
  4 * words + totalRodata (il_extent il) + totalData (il_extent il) < 2 ^ 62.
Proof.
  intros Hl [Ho Hf _ _] words. pose proof (footprint_commons _ _ _ _ Hl Ho).
  destruct (lay_out_place _ _ _ _ Hl) as (t & Hp & _ & Er & Ed & _ & Eb & _).
  destruct (place_packed helperWords objs _ t Hp ltac:(rewrite helperWords_eq; lia) Ho ltac:(lia)) as (P1 & P2 & P3 & P4 & Hle & _).
  apply packed_le in P1, P2, P3, P4. pose proof (merged_length _ _ _ _ (instrs helper_code) Hp eq_refl) as Hw. fold words in Hw.
  rewrite Er, Ed, Hw. repeat split; try done; try lia.
  all: unfold lay_out in Hl; destruct (place _ objs) as [ps' t']; destruct (scan_symbols objs) as [st|]; [|done]; cbn [mbind res_bind] in Hl;
    destruct (alloc_commons _ _) as [coff bss]; destruct (_ !! "main"%string); [|done]; apply Ok_inj in Hl as <-; cbn [il_extent totalBss];
    pose proof (wrapU_range 64 (bss + 8) ltac:(lia)); lia.
Qed.

Lemma word_va_plain j : Z.of_nat j < 2 ^ 61 -> word_va j = lnkCodeBase + Z.of_nat (4 * j).
Proof. intros Hj. unfold word_va. change lnkCodeBase with 4194592. rewrite wrapU_small; lia. Qed.

Lemma link_image_ok objs il ws ro da da' : link_program objs = Ok (il, ws) ->
  assemble (totalRodata (il_extent il)) (zip (rodataOff <$> il_places il) (rodataData <$> objs)) = Ok ro ->
  assemble (totalData (il_extent il)) (zip (dataOff <$> il_places il) (dataData <$> objs)) = Ok da ->
  relocate_data il objs da = Ok da' ->
  link_image objs = Ok (write_exec (word_va 2) (il_bases il) (il_extent il) ws ro da').
Proof.
  intros H1 H2 H3 H4. unfold link_image. rewrite <- (entry_start il). eapply (bind_ok _ _ (il, ws)); [exact H1|]. cbv beta iota.
  rewrite H2. cbn [mbind res_bind]. rewrite H3. cbn [mbind res_bind]. rewrite H4. done.
Qed.

(** * The image *)

(** C2: the executable.  Objects that fit together link into a file that
    loads: its entry is the start code, its segments are acceptable and none is
    both writable and executable, and memory holds every word of the linked
    code, every object's read-only data, the data with its relocations
    applied and zeroed memory, each where it was linked for, and nothing
    else. *)
Theorem executable_loads (objs : list objFile) (il : imageLayout) (i1 i2 : nat) :
  linkable objs il i1 i2 -> loadable objs il ->
  let b := il_bases il in let t := il_extent il in
  exists ws file ps, link_program objs = Ok (il, ws) /\ link_image objs = Ok file /\ load_elf file = Some (word_va 2, ps) /\
    Forall (loadable_segment (Z.of_nat (length file))) ps /\
    (forall j w n, ws !! j = Some w -> (n < 4)%nat -> mapped file ps (word_va j + Z.of_nat n) = le_bytes 4 w !! n) /\
    (forall k o p j, objs !! k = Some o -> il_places il !! k = Some p ->
       ((j < length (rodataData o))%nat -> mapped file ps (rodataBase b + rodataOff p + Z.of_nat j) = rodataData o !! j) /\
       ((j < length (dataData o))%nat -> (Z.to_nat (dataOff p) + j)%nat ∉ (all_relas dataRelas objs (il_places il) ≫= fun '(k, o, p, r) => data_touched p r) ->
          mapped file ps (dataBase b + dataOff p + Z.of_nat j) = dataData o !! j)) /\
    (forall k o p r j, (k, o, p, r) ∈ all_relas dataRelas objs (il_places il) -> rtype r = rAArch64Abs64 -> (j < 8)%nat ->
       mapped file ps (dataBase b + data_index p r + Z.of_nat j) = le_bytes 8 (target il k o p r) !! j) /\
    (forall a, bssBase b <= a < bssBase b + totalBss t -> mapped file ps a = Some 0) /\
    (forall a, a < linkerLoadBase \/ lnkCodeBase + 4 * Z.of_nat (length ws) <= a < rodataBase b \/
       rodataBase b + totalRodata t <= a < dataBase b \/ dataBase b + totalData t <= a < bssBase b \/ bssBase b + totalBss t <= a ->
       mapped file ps a = None).
Proof.
  intros Hlink Hload b t. destruct (linked_program objs il i1 i2 Hlink) as (ws & Ep & _). pose proof (linkable_layout _ _ _ _ Hlink) as Hl.
  pose proof (linked_length _ _ _ _ _ Hlink Ep) as Hw. destruct (layout_sizes objs il Hl Hload) as (Eb & Hro & Hda & Hbss & Hsize).
  rewrite <- Hw in Eb, Hsize. destruct Hload as [Ho Hf Hn Hb].
  destruct (contents_spec (instrs helper_code) (labels helper_code) objs il Hl Ho Hf Hn Hb) as (ro & da & da' & E1 & E2 & E3 & L1 & L2 & F & U & R).
  assert (Hbro : bytes_len ro = totalRodata t) by (unfold bytes_len, t; lia).
  assert (Hbda : bytes_len da' = totalData t) by (unfold bytes_len, t; lia).
  assert (Hoff : forall k p, il_places il !! k = Some p -> 0 <= rodataOff p /\ 0 <= dataOff p).
  { intros k p Hk. destruct (lay_out_place _ _ _ _ Hl) as (t' & Hp & _).
    pose proof (places_align16 _ _ _ _ (fun v => 0 <= v) Hp align16_nonneg) as Hf'. apply list_elem_of_lookup_2 in Hk.
    by destruct (proj1 (list.Forall_forall _ _) Hf' p Hk) as (? & ? & _). }
  exists ws, (write_exec (word_va 2) b t ws ro da'), (programs (Z.of_nat (length ws)) b t).
  split; [done|]. split; [by eapply link_image_ok|]. subst b. rewrite Eb. fold t.
  assert (He : 0 <= word_va 2 < 2 ^ 64) by (by vm_compute).
  split; [by apply file_loads|]. split; [by apply segments_loadable|]. split; [|split; [|split; [|split]]].
  - intros j w n Hj Hn4. pose proof (lookup_lt_Some _ _ _ Hj). rewrite (word_va_plain j) by lia. rewrite <- Z.add_assoc, <- Nat2Z.inj_add.
    rewrite mapped_code by (done || lia). by apply word_bytes.
  - intros k o p j Hk Hp. destruct (F k o p j Hk Hp) as (_ & Fr & Fd). destruct (Hoff k p Hp) as [O1 O2]. split.
    + intros Hj. rewrite <- Fr, <- Z.add_assoc, <- (Z2Nat.id (rodataOff p)), <- Nat2Z.inj_add, Z2Nat.id by done.
      apply mapped_rodata; try done. eapply lookup_lt_is_Some. rewrite Fr by done. by apply lookup_lt_is_Some_2.
    + intros Hj Hnt. rewrite <- Fd, <- U, <- Z.add_assoc, <- (Z2Nat.id (dataOff p)), <- Nat2Z.inj_add, Z2Nat.id by done.
      apply mapped_data; try done. eapply lookup_lt_is_Some. rewrite U, Fd by done. by apply lookup_lt_is_Some_2.
  - intros k o p r j Hin Ht Hj. pose proof (proj1 (list.Forall_forall _ _) Hb _ Hin) as Hi. cbn beta iota in Hi. fold t in Hi.
    rewrite <- (R k o p r Hin Ht j Hj). pose proof (wrapU_range 64 (dataOff p + offset r) ltac:(lia)) as Hr. fold (data_index p r) in Hr.
    rewrite <- Z.add_assoc, <- (Z2Nat.id (data_index p r)), <- Nat2Z.inj_add, Z2Nat.id by lia. apply mapped_data; try done.
    unfold bytes_len in Hbda. lia.
  - intros a Ha. by apply mapped_bss.
  - intros a Ha. by apply mapped_nothing.
Qed.

(** * A concrete program *)

Lemma app_loadable : loadable app app_image.1.
Proof.
  split.
  - apply (bool_decide_unpack (Forall _ _)). vm_compute. exact I.
  - vm_compute. reflexivity.
  - apply (bool_decide_eq_true_1 (NoDup _)). vm_compute. reflexivity.
  - apply (bool_decide_eq_true_1 (Forall _ _)). vm_compute. reflexivity.
Qed.

Definition app_place : placement := default (Placement 0 0 0 0) (il_places app_image.1 !! 0%nat).

Lemma executable_loads_witness : exists file ps, link_image app = Ok file /\ load_elf file = Some (word_va 2, ps) /\
  mapped file ps (0x401000 + 0 + Z.of_nat 1) = Some 105 /\ mapped file ps (0x402000 + 0 + Z.of_nat 0) = Some 0x7C /\
  mapped file ps 0x403003 = Some 0.
Proof.
  destruct (executable_loads app app_image.1 88 86 app_linkable app_loadable) as (ws & file & ps & _ & E & L & _ & _ & F & R & Z & _).
  exists file, ps. split; [exact E|]. split; [exact L|]. split; [|split].
  - destruct (F 0%nat app_o app_place 1%nat) as [Fr _]; [reflexivity|vm_compute; reflexivity|]. apply Fr. cbn. lia.
  - apply (R 0%nat app_o app_place (LnkRela 0 1 rAArch64Abs64 4) 0%nat); [left|reflexivity|lia].
  - apply Z. vm_compute. split; [discriminate|reflexivity].
Defined.
