(* ===== verification/StructDefs.v ===== *)
(** Struct and union types in the front end: sizes and alignments (ast.go) and
    the two builders of their layout, of the checker (semcheck.go) and of the
    IR generator (irgen.go). *)
From stdpp Require Import gmap strings.
From S2P Require Import Prelude.
#[local] Open Scope Z_scope.

(** * Types *)

Inductive TypeKind :=
  | TypeVoid | TypeInt | TypeIntArray | TypeChar | TypeCharPtr | TypeUnsignedInt | TypeUnsignedChar
  | TypeShort | TypeUnsignedShort | TypeFloat | TypeDouble | TypeStruct | TypeFuncPtr | TypePtr
  | TypeLong | TypeUnsignedLong | TypeTypeof | TypeInt128 | TypeUint128 | TypeLongDouble.

#[export] Instance TypeKind_eq_dec : EqDecision TypeKind.
Proof. solve_decision. Defined.

(** What a pointer points to. *)
#[warnings="-register-all"]
Inductive CType := mkCType { ct_Kind : TypeKind; ct_Tag : string; ct_Pointee : option CType; ct_IsFuncType : bool }.

(** * Declarations *)

(** A declaration of a struct or of a member: the fields of Node that the
    builders read. *)
Inductive NodeKind := KindVarDecl | KindStructDef.

#[warnings="-register-all"]
Inductive Node := mkNode {
  Kind : NodeKind;
  Type_ : TypeKind;
  Pointee : option CType;
  Name : string;
  Val : Z;
  StructTag : string;
  Children : list Node;
  IsUnion : bool;
  IsPacked : bool;
  Align_ : Z;
  ElemType : TypeKind;
  ElemPointee : option CType;
  Dim2 : Z;
  BitWidth : Z
}.

Record StructField := mkField {
  f_Name : string;
  f_Type : TypeKind;
  f_Pointee : option CType;
  f_ElemType : TypeKind;
  f_ElemPointee : option CType;
  f_StructTag : string;
  f_ByteOffset : Z;
  f_ByteSize : Z;
  f_IsBitField : bool;
  f_BitOffset : Z;
  f_BitWidth : Z;
  f_IsFlexArray : bool;
  f_Dim2 : Z;
  f_Align : Z
}.

Record StructDef := mkStructDef { sd_Name : string; sd_Fields : list StructField; sd_IsUnion : bool; sd_IsPacked : bool }.

Abbreviation structDefs := (gmap string StructDef).

(** * Sizes *)

(** [(v + a - 1) &^ (a - 1)] on Go's int. *)
Definition round_up (v a : Z) : Z := Z.ldiff (i64 (v + a - 1)) (a - 1).

(** The size of a scalar and its alignment, which is its size. *)
Definition scalarSize (t : TypeKind) : Z :=
  match t with
  | TypeChar | TypeUnsignedChar => 1
  | TypeShort | TypeUnsignedShort => 2
  | TypeInt | TypeUnsignedInt | TypeFloat => 4
  | TypeInt128 | TypeUint128 => 16
  | _ => 8
  end.

(** Size and alignment of a member; [size] is the size of a struct.  A typeof
    that is not resolved is a panic. *)
Definition fieldSizeAlign (size : StructDef -> option Z) (E : structDefs) (t : TypeKind) (structTag : string) : option (Z * Z) :=
  match t with
  | TypeStruct =>
      if bool_decide (structTag = ""%string) then Some (8, 8)
      else match E !! structTag with
           | Some sd => sz ← size sd; Some (if 0 <? sz then (sz, 8) else (8, 8))
           | None => Some (8, 8)
           end
  | TypeTypeof => None
  | _ => Some (scalarSize t, scalarSize t)
  end.

Definition arrayFieldSizeAlign (size : StructDef -> option Z) (E : structDefs) (elemType : TypeKind) (elemTag : string) (count : Z)
    : option (Z * Z) :=
  '(elemSz, elemAlign) ← fieldSizeAlign size E elemType elemTag;
  Some (i64 (elemSz * count), elemAlign).

(** Size and alignment that a field contributes to its struct. *)
Definition field_extent (size : StructDef -> option Z) (E : structDefs) (f : StructField) : option (Z * Z) :=
  if f_IsBitField f then Some (8, 8)
  else
    '(sz, a) ← fieldSizeAlign size E (f_Type f) (f_StructTag f);
    let sz := if 0 <? f_ByteSize f then f_ByteSize f else sz in
    Some (sz, if a <? f_Align f then f_Align f else a).

(** One field: the widest alignment and the furthest end so far. *)
Definition size_step (size : StructDef -> option Z) (E : structDefs) (acc : option (Z * Z)) (f : StructField) : option (Z * Z) :=
  '(maxAlign, rawEnd) ← acc;
  if f_IsFlexArray f then Some (maxAlign, rawEnd)
  else
    '(sz, a) ← field_extent size E f;
    let end_ := i64 (f_ByteOffset f + sz) in
    Some (if maxAlign <? a then a else maxAlign, if rawEnd <? end_ then end_ else rawEnd).

(** The body of [SizeBytes], given the sizes of nested structs. *)
Definition struct_size (size : StructDef -> option Z) (E : structDefs) (sd : StructDef) : option Z :=
  match sd_Fields sd with
  | [] => Some 0
  | fs =>
      '(maxAlign, rawEnd) ← foldl (size_step size E) (Some (1, 0)) fs;
      Some (if sd_IsPacked sd then rawEnd else round_up rawEnd maxAlign)
  end.

(** [SizeBytes], the recursion through nested structs cut off at [fuel]:
    [None] then, and where the Go code panics. *)
Fixpoint SizeBytes (fuel : nat) (E : structDefs) (sd : StructDef) : option Z :=
  match fuel with
  | O => None
  | S fuel => struct_size (SizeBytes fuel E) E sd
  end.

(** Nested structs are fewer than the structs there are. *)
Definition enough (E : structDefs) : nat := S (size E).
Definition sizeBytes (E : structDefs) (sd : StructDef) : option Z := SizeBytes (enough E) E sd.

(** [sizeofKind], the value of sizeof. *)
Definition sizeofKind (E : structDefs) (t : TypeKind) (structTag : string) : option Z :=
  match t with
  | TypeStruct =>
      if bool_decide (structTag = ""%string) then Some 8
      else match E !! structTag with Some sd => sizeBytes E sd | None => Some 8 end
  | TypeInt128 | TypeUint128 | TypeLongDouble => Some 16
  | _ => Some (scalarSize t)
  end.

(** * Layout *)

(** The state of the loop over the members; a bit-field word is open where
    [bfWordOffset] is not -1. *)
Record layout := Layout { offset : Z; bfWordOffset : Z; bfBitsUsed : Z; fields : list StructField }.

Definition bfWordBits : Z := 64.
Definition bfWordSize : Z := 8.

Definition start : layout := Layout 0 (-1) 0 [].

Definition is_open (st : layout) : bool := negb (bfWordOffset st =? -1).

(** The next member starts after the open word. *)
Definition close (isUnion : bool) (st : layout) : layout :=
  if is_open st && negb isUnion then Layout (i64 (bfWordOffset st + bfWordSize)) (-1) 0 (fields st) else st.

Definition add_bit_field (st : layout) (child : Node) : layout :=
  let st :=
    if negb (is_open st) || (bfWordBits <? i64 (bfBitsUsed st + BitWidth child)) then
      let offset := if is_open st then i64 (bfWordOffset st + bfWordSize) else offset st in
      let offset := Z.ldiff (i64 (offset + 7)) 7 in
      Layout offset offset 0 (fields st)
    else st in
  let fs :=
    if bool_decide (Name child = ""%string) then fields st
    else fields st ++ [mkField (Name child) (Type_ child) None TypeVoid None "" (bfWordOffset st) 0 true (bfBitsUsed st) (BitWidth child) false 0 0] in
  Layout (offset st) (bfWordOffset st) (i64 (bfBitsUsed st + BitWidth child)) fs.

Definition isFlexArr (child : Node) : bool := bool_decide (Type_ child = TypeIntArray) && (Val child =? -1).
Definition isSizedArr (child : Node) : bool := bool_decide (Type_ child = TypeIntArray) && (0 <? Val child).

Definition memberSizeAlign (size : StructDef -> option Z) (E : structDefs) (child : Node) : option (Z * Z) :=
  if isSizedArr child then arrayFieldSizeAlign size E (ElemType child) (StructTag child) (Val child)
  else fieldSizeAlign size E (Type_ child) (StructTag child).

(** The builders differ in two ways: that of the IR generator ([ir]) knows
    nothing of packed structs and drops the inner dimension of arrays. *)
Definition add_field (ir isUnion isPacked : bool) (E : structDefs) (st : layout) (child : Node) : option layout :=
  let st := close isUnion st in
  '(sz, align) ← memberSizeAlign (sizeBytes E) E child;
  let align := if align <? Align_ child then Align_ child else align in
  let offset := if negb isUnion && negb isPacked then round_up (offset st) align else offset st in
  let f := mkField (Name child) (Type_ child) (Pointee child) (ElemType child) (ElemPointee child) (StructTag child) offset
             (if isSizedArr child then sz else 0) false 0 0 (isFlexArr child) (if ir then 0 else Dim2 child) (Align_ child) in
  Some (Layout (if negb isUnion && negb (isFlexArr child) then i64 (offset + sz) else offset)
          (bfWordOffset st) (bfBitsUsed st) (fields st ++ [f])).

(** A member whose type is defined in place; its tag is registered before. *)
Definition add_inline (isUnion : bool) (E : structDefs) (st : layout) (child : Node) : option layout :=
  '(sz, align) ← fieldSizeAlign (sizeBytes E) E TypeStruct (StructTag child);
  let off := if isUnion then offset st else round_up (offset st) align in
  let f := mkField (Name child) TypeStruct None TypeVoid None (StructTag child) off 0 false 0 0 false 0 0 in
  Some (Layout (if isUnion then off else i64 (off + sz)) (bfWordOffset st) (bfBitsUsed st) (fields st ++ [f])).

Definition add_member (ir isUnion isPacked : bool) (E : structDefs) (st : layout) (child : Node) : option layout :=
  if BitWidth child =? -1 then Some (close isUnion st)
  else if (0 <? BitWidth child) && negb isUnion then Some (add_bit_field st child)
  else add_field ir isUnion isPacked E st child.

Definition is_inline (child : Node) : bool :=
  bool_decide (Type_ child = TypeStruct) && match Children child with [] => false | _ => true end.

(** The loop over the members, with the builder for the types defined inside. *)
Section members.
Context (build : Node -> structDefs -> option (StructDef * structDefs)) (inline : Node -> structDefs -> option (StructDef * structDefs)).
Context (ir isUnion isPacked : bool).

Definition member_step (st : layout) (E : structDefs) (child : Node) : option (layout * structDefs) :=
  match Kind child with
  | KindStructDef => '(inner, E) ← build child E; Some (st, <[Name child := inner]> E)
  | KindVarDecl =>
      if is_inline child then
        '(inner, E) ← inline child E;
        let E := <[StructTag child := inner]> E in
        st ← add_inline isUnion E st child;
        Some (st, E)
      else st ← add_member ir isUnion isPacked E st child; Some (st, E)
  end.
End members.

Section loop.
Context (step : layout -> structDefs -> Node -> option (layout * structDefs)).

Fixpoint members_loop (st : layout) (E : structDefs) (children : list Node) : option (layout * structDefs) :=
  match children with
  | [] => Some (st, E)
  | child :: children => '(st, E) ← step st E child; members_loop st E children
  end.
End loop.

(** [name], [isUnion] and [isPacked] stand for the fields of the node: for a
    type defined in place they are taken from the member. *)
Fixpoint build (ir : bool) (name : string) (isUnion isPacked : bool) (n : Node) (E : structDefs) : option (StructDef * structDefs) :=
  '(st, E) ← members_loop
    (member_step (fun c => build ir (Name c) (IsUnion c) (negb ir && IsPacked c) c)
       (fun c => build ir (StructTag c) (IsUnion c) false c) ir isUnion isPacked)
    start E (Children n);
  Some (mkStructDef name (fields st) isUnion isPacked, E).

(** The structs registered on the way come with the result. *)
Definition buildStructDef (n : Node) (E : structDefs) : option (StructDef * structDefs) :=
  build false (Name n) (IsUnion n) (IsPacked n) n E.

Definition buildStructDefIR (n : Node) (E : structDefs) : option (StructDef * structDefs) :=
  build true (Name n) (IsUnion n) false n E.

(** Both passes register the definitions of the program in order. *)
Definition register (b : Node -> structDefs -> option (StructDef * structDefs)) (E : structDefs) (n : Node) : option structDefs :=
  '(sd, E) ← b n E; Some (<[sd_Name sd := sd]> E).

Definition register_all (b : Node -> structDefs -> option (StructDef * structDefs)) (ns : list Node) : option structDefs :=
  foldl (fun E n => E ← E; register b E n) (Some ∅) ns.

(** * Fields *)

Definition FindField (sd : StructDef) (name : string) : option StructField := find (fun f => bool_decide (f_Name f = name)) (sd_Fields sd).

Definition with_offset (f : StructField) (off : Z) : StructField :=
  mkField (f_Name f) (f_Type f) (f_Pointee f) (f_ElemType f) (f_ElemPointee f) (f_StructTag f) off (f_ByteSize f)
    (f_IsBitField f) (f_BitOffset f) (f_BitWidth f) (f_IsFlexArray f) (f_Dim2 f) (f_Align f).

(** [FindFieldDeep] looks into members without a name; [None] where the
    recursion does not end within [fuel], [Some None] where there is no such
    field. *)
Fixpoint FindFieldDeep (fuel : nat) (E : structDefs) (sd : StructDef) (name : string) : option (option StructField) :=
  match fuel with
  | O => None
  | S fuel =>
      (fix go fs :=
        match fs with
        | [] => Some None
        | f :: fs =>
            if bool_decide (f_Name f = name) then Some (Some f)
            else if bool_decide (f_Name f = ""%string) && bool_decide (f_Type f = TypeStruct) && negb (bool_decide (f_StructTag f = ""%string)) then
              match E !! f_StructTag f with
              | Some anon =>
                  inner ← FindFieldDeep fuel E anon name;
                  match inner with
                  | Some inner => Some (Some (with_offset inner (i64 (f_ByteOffset f + f_ByteOffset inner))))
                  | None => go fs
                  end
              | None => go fs
              end
            else go fs
        end) (sd_Fields sd)
  end.
