(* ===== verification/StructSize.v ===== *)
(** The size of a struct: when its computation ends, and what it depends on. *)
From stdpp Require Import gmap strings.
From S2P Require Import Prelude StructDefs.
#[local] Open Scope Z_scope.

(** * What a size depends on *)

(** The struct that a member holds by value, if it is one that has a name. *)
Definition held (t : TypeKind) (tag : string) : option string :=
  if bool_decide (t = TypeStruct) && negb (bool_decide (tag = ""%string)) then Some tag else None.

Definition field_held (f : StructField) : option string :=
  if f_IsFlexArray f || f_IsBitField f then None else held (f_Type f) (f_StructTag f).

Definition holds_tag (sd : StructDef) (n : string) : Prop := exists f, f ∈ sd_Fields sd /\ field_held f = Some n.

Lemma held_struct tag n : held TypeStruct tag = Some n <-> tag = n /\ n <> ""%string.
Proof.
  unfold held. rewrite bool_decide_eq_true_2 by done. cbn [andb]. destruct (decide (tag = ""%string)) as [->|H].
  - rewrite bool_decide_eq_true_2 by done. cbn [negb]. split; [done|]. by intros [<- H].
  - rewrite bool_decide_eq_false_2 by done. cbn [negb]. split; [by intros [= <-]|by intros [-> _]].
Qed.

Lemma fold_none size E fs : foldl (size_step size E) None fs = None.
Proof. by induction fs. Qed.

(** Two ways to know sizes, of which the second knows all that the first
    knows. *)
Section finer.
Context (s1 s2 : StructDef -> option Z) (E1 E2 : structDefs).

Lemma fieldSizeAlign_finer t tag x :
  (forall n, held t tag = Some n -> E1 !! n = E2 !! n /\ forall sd v, E1 !! n = Some sd -> s1 sd = Some v -> s2 sd = Some v) ->
  fieldSizeAlign s1 E1 t tag = Some x -> fieldSizeAlign s2 E2 t tag = Some x.
Proof.
  destruct t; try done. intros H. cbn [fieldSizeAlign]. destruct (decide (tag = ""%string)) as [->|Ht]; [done|].
  rewrite !(bool_decide_eq_false_2 _ Ht). destruct (H tag) as [<- Hs]; [by apply held_struct|].
  destruct (E1 !! tag) as [sd|]; [|done]. destruct (s1 sd) as [v|] eqn:Ev; [|done]. by rewrite (Hs sd v eq_refl Ev).
Qed.

Definition agree (n : string) : Prop := E1 !! n = E2 !! n /\ forall sd v, E1 !! n = Some sd -> s1 sd = Some v -> s2 sd = Some v.

Lemma field_extent_finer f x : f_IsFlexArray f = false -> (forall n, field_held f = Some n -> agree n) ->
  field_extent s1 E1 f = Some x -> field_extent s2 E2 f = Some x.
Proof.
  intros Hf. unfold field_held, field_extent. rewrite Hf. destruct (f_IsBitField f); [done|]. cbn [orb]. intros H.
  destruct (fieldSizeAlign s1 _ _ _) as [y|] eqn:Ey; [|done]. by rewrite (fieldSizeAlign_finer _ _ _ H Ey).
Qed.

Lemma size_steps_finer fs : (forall f n, f ∈ fs -> field_held f = Some n -> agree n) -> forall acc x,
  foldl (size_step s1 E1) acc fs = Some x -> foldl (size_step s2 E2) acc fs = Some x.
Proof.
  induction fs as [|f fs IH]; intros H acc x; [done|]. cbn [foldl]. destruct acc as [[m r]|]; [|cbn; by rewrite fold_none].
  specialize (IH ltac:(intros f0 n0 H0; apply H; by right)). unfold size_step at 2 4. cbn [mbind option_bind].
  destruct (f_IsFlexArray f) eqn:Ef; [apply IH|].
  destruct (field_extent s1 E1 f) as [[sz a]|] eqn:Ex; [|cbn [mbind option_bind]; by rewrite fold_none].
  rewrite (field_extent_finer f (sz, a)); [apply IH|done| |done]. intros n. apply H. left.
Qed.

Lemma struct_size_finer sd v : (forall n, holds_tag sd n -> agree n) -> struct_size s1 E1 sd = Some v -> struct_size s2 E2 sd = Some v.
Proof.
  intros H. unfold struct_size. destruct (sd_Fields sd) as [|f fs] eqn:E; [done|]. rewrite <- E.
  destruct (foldl (size_step s1 E1) (Some (1, 0)) (sd_Fields sd)) as [[m r]|] eqn:Ef; [|done].
  rewrite (size_steps_finer (sd_Fields sd)) with (x := (m, r)); [done| |done]. intros g n Hg Hn. apply H. by exists g.
Qed.
End finer.

Lemma SizeBytes_more fuel fuel' E sd v : (fuel <= fuel')%nat -> SizeBytes fuel E sd = Some v -> SizeBytes fuel' E sd = Some v.
Proof.
  revert fuel' sd v. induction fuel as [|fuel IH]; intros fuel' sd v Hf; [done|]. destruct fuel' as [|fuel']; [lia|].
  cbn [SizeBytes]. apply struct_size_finer. intros n _. split; [done|]. intros sd' v' _. apply IH. lia.
Qed.

(** Structs that hold only registered ones keep their size when more are
    registered. *)
Definition complete (E : structDefs) : Prop := forall t sd n, E !! t = Some sd -> holds_tag sd n -> is_Some (E !! n).

Lemma SizeBytes_weaken fuel E E' sd v : E ⊆ E' -> complete E -> (forall n, holds_tag sd n -> is_Some (E !! n)) ->
  SizeBytes fuel E sd = Some v -> SizeBytes fuel E' sd = Some v.
Proof.
  intros HE Hc. revert sd v. induction fuel as [|fuel IH]; intros sd v Hsd; [done|]. cbn [SizeBytes]. apply struct_size_finer.
  intros n Hn. destruct (Hsd n Hn) as [sd' Hsd']. split; [rewrite Hsd'; symmetry; by apply (lookup_weaken E)|].
  intros sd2 v2 H2. apply IH. intros m. by apply (Hc n).
Qed.

(** * The end of the computation *)

(** Computations that succeed with exactly this much fuel. *)
Definition exact (E : structDefs) (fuel : nat) (sd : StructDef) : Prop := is_Some (SizeBytes (S fuel) E sd) /\ SizeBytes fuel E sd = None.

(** The field's struct is one of those that need all the fuel. *)
Definition needs (E : structDefs) (fuel : nat) (f : StructField) : bool :=
  match n ← field_held f; E !! n with
  | Some sd => match SizeBytes fuel E sd, SizeBytes (S fuel) E sd with None, Some _ => true | _, _ => false end
  | None => false
  end.

Lemma exact_below E fuel sd : exact E (S fuel) sd -> exists n sd', holds_tag sd n /\ E !! n = Some sd' /\ exact E fuel sd'.
Proof.
  intros [[v Hv] Hn]. destruct (decide (Exists (fun f => needs E fuel f = true) (sd_Fields sd))) as [He|He].
  - apply list.Exists_exists in He as (f & Hf & H). unfold needs in H. destruct (field_held f) as [n|] eqn:En; [|done]. cbn [mbind option_bind] in H.
    destruct (E !! n) as [sd'|] eqn:Ed; [|done]. exists n, sd'. split; [by exists f|]. split; [done|]. unfold exact.
    destruct (SizeBytes fuel E sd'); [done|]. by destruct (SizeBytes (S fuel) E sd').
  - exfalso. cbn [SizeBytes] in Hv. enough (SizeBytes (S fuel) E sd = Some v) by congruence. cbn [SizeBytes]. revert Hv. apply struct_size_finer.
    intros n (f & Hf & En). split; [done|]. intros sd' v' Ed Hs. destruct (SizeBytes fuel E sd') as [w|] eqn:Ew.
    + apply (SizeBytes_more _ (S fuel)) in Ew; [|lia]. unfold exact in *. cbn [SizeBytes] in *. congruence.
    + exfalso. apply He, list.Exists_exists. exists f. split; [done|]. unfold needs. rewrite En. cbn [mbind option_bind]. rewrite Ed, Ew.
      cbn [SizeBytes]. by rewrite Hs.
Qed.

Lemma exact_unique E k k' sd : exact E k sd -> exact E k' sd -> k = k'.
Proof.
  assert (forall k k', (k < k')%nat -> exact E k sd -> exact E k' sd -> False).
  { clear. intros k k' H [[v Hv] _] [_ Hn]. apply (SizeBytes_more _ k') in Hv; [congruence|lia]. }
  intros H1 H2. destruct (Nat.lt_trichotomy k k') as [?|[?|?]]; [exfalso; eauto|done|exfalso; eauto].
Qed.

(** A chain of structs, each of which needs one round less than its holder. *)
Lemma exact_chain E fuel : forall sd, exact E fuel sd ->
  exists ns, length ns = fuel /\ forall i n, ns !! i = Some n -> exists sd', E !! n = Some sd' /\ exact E i sd'.
Proof.
  induction fuel as [|fuel IH]; intros sd H; [by exists []|].
  destruct (exact_below _ _ _ H) as (n & sd' & _ & Ed & H'). destruct (IH _ H') as (ns & Hl & Hns).
  exists (ns ++ [n]). split; [rewrite length_app; cbn; lia|]. intros i m Hm. destruct (decide (i < length ns)%nat).
  - rewrite lookup_app_l in Hm by done. by apply Hns.
  - rewrite lookup_app_r in Hm by lia. apply list_lookup_singleton_Some in Hm as [Hi <-]. exists sd'. split; [done|].
    by replace i with fuel by lia.
Qed.

Lemma exact_bound E fuel sd : exact E fuel sd -> (fuel <= size E)%nat.
Proof.
  intros H. destruct (exact_chain _ _ _ H) as (ns & <- & Hns). rewrite <- size_dom.
  assert (Hnd : NoDup ns).
  { apply NoDup_alt. intros i j n Hi Hj. destruct (Hns _ _ Hi) as (sd1 & E1 & X1). destruct (Hns _ _ Hj) as (sd2 & E2 & X2).
    assert (sd1 = sd2) as <- by congruence. by eapply exact_unique. }
  rewrite <- (size_list_to_set (C := gset string) ns Hnd). apply subseteq_size. intros n Hn. apply elem_of_list_to_set in Hn.
  apply list_elem_of_lookup in Hn as [i Hi]. destruct (Hns _ _ Hi) as (sd' & Ed & _). apply elem_of_dom. by eexists.
Qed.

(** As many rounds as there are structs, and one more, are enough. *)
Lemma SizeBytes_enough E sd fuel v : SizeBytes fuel E sd = Some v -> sizeBytes E sd = Some v.
Proof.
  intros H. unfold sizeBytes, enough. assert (exists k, exact E k sd) as [k Hk].
  { induction fuel as [|fuel IH]; [done|]. destruct (SizeBytes fuel E sd) as [w|] eqn:Ew; [|exists fuel; split; [by eexists|done]].
    apply IH. apply (SizeBytes_more _ (S fuel)) in Ew; [congruence|lia]. }
  pose proof (exact_bound _ _ _ Hk) as Hb. destruct Hk as [[w Hw] _].
  assert (w = v) as ->. { apply (SizeBytes_more _ (Nat.max fuel (S k))) in H; [|lia]. apply (SizeBytes_more _ (Nat.max fuel (S k))) in Hw; [congruence|lia]. }
  eapply SizeBytes_more; [|done]. lia.
Qed.

(** * What the size bounds *)

Lemma size_steps_spec size E fs : forall m r m' r', foldl (size_step size E) (Some (m, r)) fs = Some (m', r') ->
  m <= m' /\ r <= r' /\
  (forall f, f ∈ fs -> f_IsFlexArray f = false -> exists sz a, field_extent size E f = Some (sz, a) /\ a <= m' /\ i64 (f_ByteOffset f + sz) <= r').
Proof.
  induction fs as [|f fs IH]; intros m r m' r' H.
  - injection H as <- <-. split; [lia|]. split; [lia|]. intros f Hf. by apply elem_of_nil in Hf.
  - cbn [foldl] in H. unfold size_step at 2 in H. cbn [mbind option_bind] in H. destruct (f_IsFlexArray f) eqn:Ef.
    + destruct (IH _ _ _ _ H) as (H1 & H2 & H3). split; [done|]. split; [done|]. intros g Hg Hg'.
      apply elem_of_cons in Hg as [->|Hg]; [congruence|by apply H3].
    + destruct (field_extent size E f) as [[sz a]|] eqn:Ex; [|cbn [mbind option_bind] in H; by rewrite fold_none in H].
      cbn [mbind option_bind] in H. destruct (IH _ _ _ _ H) as (H1 & H2 & H3).
      destruct (Z.ltb_spec m a), (Z.ltb_spec r (i64 (f_ByteOffset f + sz))).
      all: split; [lia|]; split; [lia|]; intros g Hg Hg'; apply elem_of_cons in Hg as [->|Hg]; [exists sz, a; repeat split; [done|lia..]|by apply H3].
Qed.

(** The furthest end is the end of a field, the widest alignment that of one. *)
Lemma size_steps_reached size E fs : forall m r m' r', foldl (size_step size E) (Some (m, r)) fs = Some (m', r') ->
  (m' = m \/ exists f sz a, f ∈ fs /\ f_IsFlexArray f = false /\ field_extent size E f = Some (sz, a) /\ m' = a) /\
  (r' = r \/ exists f sz a, f ∈ fs /\ f_IsFlexArray f = false /\ field_extent size E f = Some (sz, a) /\ r' = i64 (f_ByteOffset f + sz)).
Proof.
  induction fs as [|f fs IH]; intros m r m' r' H; [injection H as <- <-; split; by left|].
  cbn [foldl] in H. unfold size_step at 2 in H. cbn [mbind option_bind] in H.
  assert (Hw : forall P : StructField -> Z -> Z -> Prop, (exists g sz a, g ∈ fs /\ f_IsFlexArray g = false /\ field_extent size E g = Some (sz, a) /\ P g sz a) ->
    exists g sz a, g ∈ f :: fs /\ f_IsFlexArray g = false /\ field_extent size E g = Some (sz, a) /\ P g sz a).
  { intros P (g & sz & a & Hg & HP). exists g, sz, a. split; [by right|done]. }
  destruct (f_IsFlexArray f) eqn:Ef.
  - destruct (IH _ _ _ _ H) as [[H1|H1] [H2|H2]]; split; auto; right; by apply Hw.
  - destruct (field_extent size E f) as [[sz a]|] eqn:Ex; [|cbn [mbind option_bind] in H; by rewrite fold_none in H].
    cbn [mbind option_bind] in H. destruct (IH _ _ _ _ H) as [H1 H2]. split.
    + destruct H1 as [->|H1]; [|right; by apply Hw]. destruct (m <? a); [|by left]. right. exists f, sz, a. split; [left|done].
    + destruct H2 as [->|H2]; [|right; by apply Hw]. destruct (r <? _); [|by left]. right. exists f, sz, a. split; [left|done].
Qed.

Lemma size_steps_total size E fs : (forall f, f ∈ fs -> f_IsFlexArray f = false -> is_Some (field_extent size E f)) ->
  forall m r, is_Some (foldl (size_step size E) (Some (m, r)) fs).
Proof.
  induction fs as [|f fs IH]; intros H m r; [by eexists|]. cbn [foldl]. unfold size_step at 2. cbn [mbind option_bind].
  specialize (IH ltac:(intros g Hg; apply H; by right)). destruct (f_IsFlexArray f) eqn:Ef; [apply IH|].
  destruct (H f ltac:(left) Ef) as [[sz a] ->]. cbn [mbind option_bind]. apply IH.
Qed.

Lemma struct_size_held size E sd v n sd' : struct_size size E sd = Some v -> holds_tag sd n -> E !! n = Some sd' -> is_Some (size sd').
Proof.
  intros H (f & Hf & Hn) Ed. unfold struct_size in H. destruct (sd_Fields sd) as [|g fs] eqn:Es; [by apply elem_of_nil in Hf|]. rewrite <- Es in *.
  destruct (foldl _ _ _) as [[m r]|] eqn:Ef; [|done]. destruct (size_steps_spec _ _ _ _ _ _ _ Ef) as (_ & _ & Hx).
  unfold field_held in Hn. destruct (f_IsFlexArray f) eqn:Efl; [done|]. destruct (f_IsBitField f) eqn:Ebf; [done|]. cbn [orb] in Hn.
  destruct (Hx f Hf Efl) as (sz & a & Ex & _). unfold field_extent in Ex. rewrite Ebf in Ex. unfold held in Hn.
  destruct (decide (f_Type f = TypeStruct)) as [Et|]; [|by rewrite bool_decide_eq_false_2 in Hn]. rewrite Et in Hn, Ex.
  apply (held_struct (f_StructTag f)) in Hn as [<- Hn]. cbn [fieldSizeAlign] in Ex. rewrite bool_decide_eq_false_2, Ed in Ex by done.
  destruct (size sd') as [w|]; [by eexists|done].
Qed.

(** ** By-value nesting *)

Definition holds (E : structDefs) (sd' sd : StructDef) : Prop := exists n, holds_tag sd n /\ E !! n = Some sd'.

(** typeof is resolved before layouts are computed. *)
Definition resolved (sd : StructDef) : Prop := Forall (fun f => f_Type f <> TypeTypeof) (sd_Fields sd).

Lemma SizeBytes_acc E fuel : forall sd, is_Some (SizeBytes fuel E sd) -> Acc (holds E) sd.
Proof.
  induction fuel as [|fuel IH]; intros sd [v Hv]; [done|]. constructor. intros sd' (n & Hn & Ed). apply IH.
  cbn [SizeBytes] in Hv. by eapply struct_size_held.
Qed.

Lemma field_extent_total size E f : f_Type f <> TypeTypeof -> f_IsFlexArray f = false ->
  (forall n sd', field_held f = Some n -> E !! n = Some sd' -> is_Some (size sd')) -> is_Some (field_extent size E f).
Proof.
  intros Ht Hfl H. unfold field_extent, field_held in *. rewrite Hfl in H. destruct (f_IsBitField f); [by eexists|]. cbn [orb] in H.
  assert (Hx : is_Some (fieldSizeAlign size E (f_Type f) (f_StructTag f))).
  { destruct (decide (f_Type f = TypeStruct)) as [Et|]; [rewrite Et in *|by destruct (f_Type f); first [contradiction|done|eexists]]. cbn [fieldSizeAlign]. case_bool_decide; [by eexists|].
    destruct (E !! f_StructTag f) as [sd'|] eqn:Ed; [|by eexists]. destruct (H (f_StructTag f) sd') as [w ->]; [by apply held_struct|done|by eexists]. }
  destruct Hx as [[sz a] ->]. by eexists.
Qed.

Lemma SizeBytes_total E sd : (forall n sd', E !! n = Some sd' -> resolved sd') -> resolved sd -> Acc (holds E) sd -> is_Some (sizeBytes E sd).
Proof.
  intros HE Hr Ha. enough (exists fuel, is_Some (SizeBytes fuel E sd)) as (fuel & v & Hv) by (eexists; by eapply SizeBytes_enough).
  induction Ha as [sd _ IH]. assert (exists fuel, forall n sd', holds_tag sd n -> E !! n = Some sd' -> is_Some (SizeBytes fuel E sd')) as [fuel Hf].
  { assert (forall fs : list StructField, (forall f, f ∈ fs -> f ∈ sd_Fields sd) ->
      exists fuel, forall f n sd', f ∈ fs -> field_held f = Some n -> E !! n = Some sd' -> is_Some (SizeBytes fuel E sd')) as H.
    { induction fs as [|f fs IHf]; intros Hin; [exists 0%nat; intros f n sd' Hf; by apply elem_of_nil in Hf|].
      destruct IHf as [k1 Hk1]; [intros g Hg; apply Hin; by right|].
      assert (exists k2, forall n sd', field_held f = Some n -> E !! n = Some sd' -> is_Some (SizeBytes k2 E sd')) as [k2 Hk2].
      { destruct (field_held f) as [n|] eqn:En; [|exists 0%nat; done]. destruct (E !! n) as [sd'|] eqn:Ed; [|exists 0%nat; intros; congruence].
        destruct (IH sd') as [k Hk]; [exists n; split; [exists f; split; [apply Hin; left|done]|done]|by eapply HE|]. exists k. intros. congruence. }
      exists (Nat.max k1 k2). intros g n sd' Hg Hn Ed. apply elem_of_cons in Hg as [->|Hg].
      - destruct (Hk2 _ _ Hn Ed) as [v Hv]. eexists. eapply SizeBytes_more; [|done]. lia.
      - destruct (Hk1 _ _ _ Hg Hn Ed) as [v Hv]. eexists. eapply SizeBytes_more; [|done]. lia. }
    destruct (H _ (fun f Hf => Hf)) as [fuel Hfuel]. exists fuel. intros n sd' (f & Hin & Hn). by eapply Hfuel. }
  exists (S fuel). cbn [SizeBytes]. unfold struct_size. destruct (sd_Fields sd) as [|f fs] eqn:Es; [by eexists|]. rewrite <- Es in *.
  destruct (size_steps_total (SizeBytes fuel E) E (sd_Fields sd)) with (m := 1) (r := 0) as [[m r] ->]; [|by eexists].
  intros g Hg Hfl. apply field_extent_total; [exact (proj1 (list.Forall_forall _ _) Hr g Hg)|done|]. intros n sd' Hn. apply Hf. by exists g.
Qed.
