(* ===== verification/StructLayout.v ===== *)
(** The layout of structs and unions: where fields lie, and the invariant of
    the loop that places them. *)
From stdpp Require Import gmap strings.
From S2P Require Import Prelude Align StructDefs StructSize.
#[local] Open Scope Z_scope.

(** * Rounding *)

Lemma round_up_spec v a : pow2 a -> 0 <= v -> v + a <= 2 ^ 62 -> v <= round_up v a < v + a /\ (a | round_up v a).
Proof.
  intros (k & Hk & ->) Hv Hf. unfold round_up. rewrite i64_small by lia. rewrite ldiff_ones by lia.
  pose proof (Z.div_mod (v + 2 ^ k - 1) (2 ^ k) ltac:(lia)). pose proof (Z.mod_pos_bound (v + 2 ^ k - 1) (2 ^ k) ltac:(lia)).
  split; [nia|]. by exists ((v + 2 ^ k - 1) / 2 ^ k).
Qed.

Lemma pow2_divides a b : pow2 a -> pow2 b -> a <= b -> (a | b).
Proof.
  intros (i & Hi & ->) (j & Hj & ->) H. assert (i <= j) by (apply (Z.pow_le_mono_r_iff 2); lia).
  exists (2 ^ (j - i)). rewrite <- Z.pow_add_r by lia. f_equal. lia.
Qed.

Lemma scalarSize_pow2 t : pow2 (scalarSize t) /\ 0 < scalarSize t <= 16.
Proof. split; [|by destruct t]. destruct t; first [by exists 3|by exists 2|by exists 0|by exists 1|by exists 4]. Qed.

Lemma fieldSizeAlign_range size E t tag sz a : fieldSizeAlign size E t tag = Some (sz, a) -> a = scalarSize t /\ 0 < sz.
Proof.
  pose proof (scalarSize_pow2 t) as [_ Hs]. destruct t; try (by intros [= <- <-]). cbn [fieldSizeAlign].
  case_bool_decide; [by intros [= <- <-]|]. destruct (E !! tag) as [sd|]; [|by intros [= <- <-]].
  destruct (size sd) as [v|]; [|done]. cbn [mbind option_bind]. destruct (Z.ltb_spec 0 v); by intros [= <- <-].
Qed.

(** * Where a field lies *)

(** The alignment of a field's type, of its elements for an array, or the one
    asked for. *)
Definition natural_align (f : StructField) : Z := Z.max (scalarSize (if 0 <? f_ByteSize f then f_ElemType f else f_Type f)) (f_Align f).

Definition field_size (E : structDefs) (f : StructField) : Z :=
  if f_IsFlexArray f then 0 else default 0 (fst <$> field_extent (sizeBytes E) E f).

(** The bits of a field, from the start of the struct: the first one and the
    one after the last.  A flexible array has none. *)
Definition first_bit (f : StructField) : Z := 8 * f_ByteOffset f + (if f_IsBitField f then f_BitOffset f else 0).
Definition end_bit (E : structDefs) (f : StructField) : Z :=
  if f_IsBitField f then first_bit f + f_BitWidth f else 8 * (f_ByteOffset f + field_size E f).

(** Fields follow one another without overlap. *)
Definition ordered (E : structDefs) (fs : list StructField) : Prop :=
  forall i j f g, (i < j)%nat -> fs !! i = Some f -> fs !! j = Some g -> end_bit E f <= first_bit g.

Record field_ok (E : structDefs) (isPacked : bool) (f : StructField) : Prop := {
  fo_held : forall n, field_held f = Some n -> is_Some (E !! n);
  fo_offset : 0 <= f_ByteOffset f <= 2 ^ 60;
  fo_extent : exists sz a, field_extent (sizeBytes E) E f = Some (sz, a) /\ 0 < sz <= 2 ^ 40 /\ pow2 a /\ a <= 4096;
  fo_bits : f_IsBitField f = true -> (8 | f_ByteOffset f) /\ 0 <= f_BitOffset f /\ 0 < f_BitWidth f /\ f_BitOffset f + f_BitWidth f <= 64;
  fo_array : 0 < f_ByteSize f -> f_Type f = TypeIntArray;
  fo_named : f_IsBitField f = true -> f_Name f <> ""%string;
  fo_flex : f_IsFlexArray f = true -> f_IsBitField f = false /\ f_Type f = TypeIntArray;
  fo_aligned : isPacked = false -> f_IsBitField f = false -> (natural_align f | f_ByteOffset f)
}.

Definition at_start (f : StructField) : Prop := f_ByteOffset f = 0 /\ f_IsBitField f = false.

(** A struct is well laid out: its fields are aligned, do not overlap (or all
    start at 0 in a union), and lie inside the size, which is a multiple of
    their alignments. *)
Record def_ok (E : structDefs) (sd : StructDef) : Prop := {
  do_fields : Forall (field_ok E (sd_IsPacked sd)) (sd_Fields sd);
  do_union : sd_IsUnion sd = true -> Forall at_start (sd_Fields sd);
  do_ordered : sd_IsUnion sd = false -> ordered E (sd_Fields sd);
  do_size : exists total, sizeBytes E sd = Some total /\ 0 <= total <= 2 ^ 61 /\
    forall f, f ∈ sd_Fields sd -> f_IsFlexArray f = false -> end_bit E f <= 8 * total /\
      (sd_IsPacked sd = false -> forall sz a, field_extent (sizeBytes E) E f = Some (sz, a) -> (a | total))
}.

Definition env_ok (E : structDefs) : Prop := forall t sd, E !! t = Some sd -> def_ok E sd.

Lemma env_ok_empty : env_ok ∅.
Proof. intros t sd H. by rewrite lookup_empty in H. Qed.

(** ** More structs do not matter *)

Lemma env_ok_complete E : env_ok E -> complete E.
Proof. intros H t sd n Ht (f & Hf & Hn). exact (fo_held _ _ _ (proj1 (list.Forall_forall _ _) (do_fields _ _ (H _ _ Ht)) f Hf) n Hn). Qed.

Section weaken.
Context (E E' : structDefs) (HE : E ⊆ E') (Hc : complete E).

Lemma sizeBytes_weaken sd v : (forall n, holds_tag sd n -> is_Some (E !! n)) -> sizeBytes E sd = Some v -> sizeBytes E' sd = Some v.
Proof. intros H Hs. eapply SizeBytes_enough. by apply (SizeBytes_weaken _ E). Qed.

Lemma extent_weaken p f x : field_ok E p f -> field_extent (sizeBytes E) E f = Some x -> field_extent (sizeBytes E') E' f = Some x.
Proof.
  intros Hf. destruct (f_IsFlexArray f) eqn:Efl.
  - destruct (fo_flex _ _ _ Hf Efl) as [_ Ht]. unfold field_extent. by rewrite Ht.
  - pose proof (fo_held _ _ _ Hf) as H. apply field_extent_finer; [done|]. intros n Hn. destruct (H n Hn) as [sd Hsd].
    split; [rewrite Hsd; symmetry; by apply (lookup_weaken E)|]. intros sd' v Hsd'. apply sizeBytes_weaken. intros m Hm. by apply (Hc n sd').
Qed.

Lemma end_bit_weaken p f : field_ok E p f -> end_bit E' f = end_bit E f.
Proof.
  intros Hf. destruct (fo_extent _ _ _ Hf) as (sz & a & Hx & _). unfold end_bit, field_size. by rewrite Hx, (extent_weaken p f _ Hf Hx).
Qed.

Lemma field_ok_weaken p f : field_ok E p f -> field_ok E' p f.
Proof.
  intros Hf. pose proof (extent_weaken p f) as Hx. destruct Hf as [H1 H2 (sz & a & H3 & H4) H5 H6 H7 H8 H9]. split; [|done| |done..].
  - intros n Hn. destruct (H1 n Hn) as [sd Hsd]. exists sd. by apply (lookup_weaken E).
  - exists sz, a. split; [apply Hx; [|done]; split; [done|done|by exists sz, a|done..]|done].
Qed.

Lemma ordered_weaken p fs : Forall (field_ok E p) fs -> ordered E fs -> ordered E' fs.
Proof.
  intros Hf Ho i j f g Hij Hi Hj. rewrite (end_bit_weaken p); [by eapply Ho|]. apply (proj1 (list.Forall_forall _ _) Hf). by eapply list_elem_of_lookup_2.
Qed.

Lemma def_ok_weaken sd : def_ok E sd -> def_ok E' sd.
Proof.
  intros [H1 H2 H3 (total & H4 & H5 & H6)]. pose proof (proj1 (list.Forall_forall _ _) H1) as Hf. split.
  - eapply list.Forall_impl; [exact H1|]. intros f. apply field_ok_weaken.
  - done.
  - intros Hu. by eapply ordered_weaken, H3.
  - exists total. split; [|split; [done|]].
    + apply sizeBytes_weaken; [|done]. intros n (f & Hin & Hn). exact (fo_held _ _ _ (Hf f Hin) n Hn).
    + intros f Hin Hfl. destruct (H6 f Hin Hfl) as [G1 G2]. rewrite (end_bit_weaken _ f (Hf f Hin)). split; [done|].
      intros Hp sz a Hx. destruct (fo_extent _ _ _ (Hf f Hin)) as (sz' & a' & Hx' & _). pose proof (extent_weaken _ f _ (Hf f Hin) Hx') as Hx2.
      rewrite Hx in Hx2. injection Hx2 as -> ->. by eapply G2.
Qed.
End weaken.

Lemma env_ok_insert E n sd : env_ok E -> E !! n = None -> def_ok E sd -> env_ok (<[n := sd]> E).
Proof.
  intros HE Hn Hsd. pose proof (insert_subseteq E n sd Hn) as Hsub. pose proof (env_ok_complete _ HE) as Hc.
  intros t sd' Ht. apply (def_ok_weaken E _ Hsub Hc). destruct (decide (t = n)) as [->|Hne].
  - rewrite lookup_insert_eq in Ht. by injection Ht as <-.
  - rewrite lookup_insert_ne in Ht by done. by apply (HE t).
Qed.

(** * The loop *)

(** The first free bit. *)
Definition frontier (st : layout) : Z := 8 * offset st + (if is_open st then bfBitsUsed st else 0).

Record laid_out (E : structDefs) (isUnion isPacked : bool) (st : layout) : Prop := {
  lo_offset : 0 <= offset st <= 2 ^ 60;
  lo_word : is_open st = true -> isUnion = false /\ bfWordOffset st = offset st /\ (8 | offset st) /\ 0 <= bfBitsUsed st <= 64;
  lo_fields : Forall (field_ok E isPacked) (fields st);
  lo_union : isUnion = true -> offset st = 0 /\ Forall at_start (fields st);
  lo_ordered : isUnion = false -> ordered E (fields st) /\ Forall (fun f => end_bit E f <= frontier st) (fields st)
}.

Lemma laid_out_start E u p : laid_out E u p start.
Proof. by split. Qed.

Lemma laid_out_weaken E E' u p st : E ⊆ E' -> complete E -> laid_out E u p st -> laid_out E' u p st.
Proof.
  intros HE Hc [H1 H2 H3 H4 H5]. split; [done|done| |done|].
  - eapply list.Forall_impl; [exact H3|]. intros f. by apply field_ok_weaken.
  - intros Hu. destruct (H5 Hu) as [G1 G2]. split; [by eapply ordered_weaken|]. apply list.Forall_forall. intros f Hf.
    rewrite (end_bit_weaken E E' HE Hc p f (proj1 (list.Forall_forall _ _) H3 f Hf)). exact (proj1 (list.Forall_forall _ _) G2 f Hf).
Qed.

Lemma ordered_snoc E fs g : ordered E fs -> Forall (fun f => end_bit E f <= first_bit g) fs -> ordered E (fs ++ [g]).
Proof.
  intros Ho Hg i j f h Hij Hi Hj. destruct (decide (j < length fs)%nat).
  - rewrite lookup_app_l in Hj by done. rewrite lookup_app_l in Hi by lia. exact (Ho i j f h Hij Hi Hj).
  - pose proof (lookup_lt_Some _ _ _ Hj) as Hl. rewrite length_app in Hl. cbn in Hl. rewrite lookup_app_r in Hj by lia.
    replace (j - length fs)%nat with 0%nat in Hj by lia. injection Hj as <-. rewrite lookup_app_l in Hi by lia.
    apply (proj1 (list.Forall_forall _ _) Hg). by eapply list_elem_of_lookup_2.
Qed.

Lemma union_closed E p st : laid_out E true p st -> is_open st = false.
Proof. intros H. destruct (is_open st) eqn:Eo; [|done]. by destruct (lo_word _ _ _ _ H Eo). Qed.

Lemma close_closed E u p st : laid_out E u p st -> is_open (close u st) = false.
Proof. intros H. unfold close. destruct (is_open st) eqn:Eo; [|done]. by destruct (lo_word _ _ _ _ H Eo) as [-> _]. Qed.

Lemma close_laid_out E u p st : laid_out E u p st -> offset st <= 2 ^ 60 - 8 -> laid_out E u p (close u st).
Proof.
  intros H Hb. unfold close. destruct (is_open st) eqn:Eo; [|done]. destruct (lo_word _ _ _ _ H Eo) as (-> & Hw & Hd & Hu).
  destruct H as [H1 _ H3 _ H5]. destruct (H5 eq_refl) as [G1 G2]. cbn [negb andb]. rewrite Hw. unfold bfWordSize. rewrite i64_small by lia.
  split; cbn [offset fields]; [lia|done..|]. intros _. split; [done|]. eapply list.Forall_impl; [exact G2|]. intros f.
  unfold frontier. rewrite Eo. cbn. lia.
Qed.

(** ** Adding a field *)

Lemma push_field E u p st f st' : laid_out E u p st -> field_ok E p f -> fields st' = fields st ++ [f] -> 0 <= offset st' <= 2 ^ 60 ->
  (is_open st' = true -> u = false /\ bfWordOffset st' = offset st' /\ (8 | offset st') /\ 0 <= bfBitsUsed st' <= 64) ->
  (u = true -> at_start f /\ offset st' = 0) ->
  (u = false -> frontier st <= first_bit f /\ end_bit E f <= frontier st' /\ frontier st <= frontier st') ->
  laid_out E u p st'.
Proof.
  intros [H1 H2 H3 H4 H5] Hf Hfs Ho Hw Hu Ho'. split; rewrite ?Hfs; [done|done| | |].
  - apply list.Forall_app. split; [done|]. by apply list.Forall_singleton.
  - intros Eu. destruct (H4 Eu), (Hu Eu). split; [done|]. apply list.Forall_app. split; [done|]. by apply list.Forall_singleton.
  - intros Eu. destruct (H5 Eu) as [G1 G2], (Ho' Eu) as (F1 & F2 & F3). split.
    + apply ordered_snoc; [done|]. eapply list.Forall_impl; [exact G2|]. cbn beta. lia.
    + apply list.Forall_app. split; [|by apply list.Forall_singleton]. eapply list.Forall_impl; [exact G2|]. cbn beta. lia.
Qed.

Definition bit_word (st : layout) (width : Z) : layout :=
  if negb (is_open st) || (bfWordBits <? i64 (bfBitsUsed st + width)) then
    let offset := if is_open st then i64 (bfWordOffset st + bfWordSize) else offset st in
    let offset := Z.ldiff (i64 (offset + 7)) 7 in
    Layout offset offset 0 (fields st)
  else st.

Lemma open_word E p st o : laid_out E false p st -> frontier st <= 8 * o -> 0 <= o <= 2 ^ 60 -> (8 | o) ->
  let st' := Layout o o 0 (fields st) in laid_out E false p st' /\ is_open st' = true /\ frontier st <= frontier st'.
Proof.
  intros [_ _ H3 _ H5] Hf Ho Hd st'. destruct (H5 eq_refl) as [G1 G2]. assert (Hop : is_open st' = true) by (apply negb_true_iff, Z.eqb_neq; cbn; lia).
  assert (Hfr : frontier st <= frontier st') by (unfold frontier at 2; rewrite Hop; cbn; lia).
  split; [|done]. split; try done. intros _. split; [done|]. eapply list.Forall_impl; [exact G2|]. cbn beta. lia.
Qed.

Lemma bit_word_laid_out E p st w : laid_out E false p st -> offset st <= 2 ^ 50 -> 0 < w <= 64 ->
  let st' := bit_word st w in
  laid_out E false p st' /\ is_open st' = true /\ bfBitsUsed st' + w <= 64 /\ fields st' = fields st /\ frontier st <= frontier st'.
Proof.
  intros H Hb Hw st'. unfold st', bit_word. clear st'. pose proof (lo_offset _ _ _ _ H) as HO.
  assert (Er : forall v, 0 <= v -> v <= 2 ^ 51 -> Z.ldiff (i64 (v + 7)) 7 = round_up v 8) by (intros v _ _; unfold round_up; do 2 f_equal; lia).
  assert (Ho : forall v, frontier st <= 8 * v -> 0 <= v <= 2 ^ 51 -> let st' := Layout (round_up v 8) (round_up v 8) 0 (fields st) in
    laid_out E false p st' /\ is_open st' = true /\ bfBitsUsed st' + w <= 64 /\ fields st' = fields st /\ frontier st <= frontier st').
  { intros v Hv Hv' st'. destruct (round_up_spec v 8) as [Hr1 Hr2]; [by exists 3|lia|lia|].
    destruct (open_word E p st (round_up v 8) H) as (L & Lo & Lf); [lia|lia|done|]. split; [done|]. split; [done|]. split; [unfold st'; cbn; lia|]. by split. }
  destruct (is_open st) eqn:Eo; cbn [negb orb].
  - destruct (lo_word _ _ _ _ H Eo) as (_ & Hwo & Hd & Hu). unfold bfWordBits. rewrite (i64_small (bfBitsUsed st + w)) by lia.
    destruct (Z.ltb_spec 64 (bfBitsUsed st + w)) as [Hlt|Hge]; [|done]. rewrite Hwo. unfold bfWordSize. rewrite (i64_small (offset st + 8)) by lia.
    rewrite Er by lia. apply Ho; [|lia]. unfold frontier. rewrite Eo. lia.
  - rewrite Er by lia. apply Ho; [|lia]. unfold frontier. rewrite Eo. lia.
Qed.

Lemma add_bit_field_laid_out E p st c : laid_out E false p st -> offset st <= 2 ^ 50 -> 0 < BitWidth c <= 64 -> laid_out E false p (add_bit_field st c).
Proof.
  intros H Hb Hw. unfold add_bit_field. fold (bit_word st (BitWidth c)).
  destruct (bit_word_laid_out E p st (BitWidth c) H Hb Hw) as (L & Lo & Lb & Lf & Lr). set (st1 := bit_word st (BitWidth c)) in *. clearbody st1.
  destruct (lo_word _ _ _ _ L Lo) as (_ & Wo & Wd & Wu). rewrite i64_small by lia. pose proof (lo_offset _ _ _ _ L) as HO.
  case_bool_decide as Hn.
  - destruct L as [H1 H2 H3 H4 H5]. rewrite Lf in H3, H5. destruct (H5 eq_refl) as [G1 G2]. split; cbn [offset bfWordOffset bfBitsUsed fields]; rewrite <- ?Lf in *; try done.
    + intros _. repeat split; [done|done|lia|lia].
    + intros _. split; [done|]. eapply list.Forall_impl; [exact G2|]. cbn beta. intros f Hf. unfold frontier in *. unfold is_open in *.
      cbn [offset bfWordOffset bfBitsUsed]. rewrite Lo in *. lia.
  - set (f := mkField _ _ _ _ _ _ _ _ _ _ _ _ _ _). eapply (push_field E false p st1 f); cbn [offset bfWordOffset bfBitsUsed fields].
    + done.
    + split; unfold f; cbn.
      * done.
      * rewrite Wo. lia.
      * exists 8, 8. split; [done|]. split; [lia|]. split; [by exists 3|lia].
      * intros _. rewrite Wo. repeat split; [done|lia..].
      * lia.
      * done.
      * done.
      * done.
    + by rewrite Lf.
    + lia.
    + intros _. repeat split; [done|done|lia|lia].
    + done.
    + intros _. unfold end_bit, first_bit, frontier, is_open, f in *. cbn. rewrite Lo. rewrite Wo. lia.
Qed.

(** ** Declarations *)

Definition align_ok (a : Z) : bool := (a <=? 0) || ((a <=? 4096) && (Z.land a (a - 1) =? 0)).

Definition small_size (E : structDefs) (t : TypeKind) (tag : string) (count : Z) : bool :=
  match fieldSizeAlign (sizeBytes E) E t tag with Some (sz, _) => sz * count <=? 2 ^ 40 | None => false end.

(** A member held by value is of a registered struct. *)
Definition known (E : structDefs) (t : TypeKind) (tag : string) : bool :=
  match held t tag with Some n => bool_decide (is_Some (E !! n)) | None => true end.

Definition member_ok (E : structDefs) (c : Node) : bool :=
  (BitWidth c <=? 64) && align_ok (Align_ c) &&
  if isSizedArr c then small_size E (ElemType c) (StructTag c) (Val c)
  else small_size E (Type_ c) (StructTag c) 1 && known E (Type_ c) (StructTag c).

Lemma align_ok_spec s a : align_ok a = true -> pow2 s -> 0 < s <= 16 -> let m := if s <? a then a else s in pow2 m /\ s <= m <= 4096 /\ m = Z.max s a.
Proof.
  unfold align_ok. intros H Hs Hr. destruct (Z.ltb_spec s a); [|split; [done|lia]]. apply orb_true_iff in H as [H|H]; [lia|].
  apply andb_true_iff in H as [H1 H2]. split; [apply pow2_test; lia|lia].
Qed.


Lemma member_size_spec E c sz al : member_ok E c = true -> memberSizeAlign (sizeBytes E) E c = Some (sz, al) ->
  al = scalarSize (if isSizedArr c then ElemType c else Type_ c) /\ 0 < sz <= 2 ^ 40.
Proof.
  unfold member_ok, memberSizeAlign, small_size, arrayFieldSizeAlign. intros H Hm. apply andb_true_iff in H as [_ H].
  destruct (isSizedArr c) eqn:Ea.
  - destruct (fieldSizeAlign _ _ (ElemType c) _) as [[es ea]|] eqn:Ef; [|done]. injection Hm as <- <-. apply fieldSizeAlign_range in Ef as [-> He].
    unfold isSizedArr in Ea. apply andb_true_iff in Ea as [_ Ea]. rewrite i64_small by nia. split; [done|nia].
  - rewrite Hm in H. apply fieldSizeAlign_range in Hm as [-> Hs]. split; [done|]. apply andb_true_iff in H as [H _]. lia.
Qed.

Lemma member_size_total E c : member_ok E c = true -> is_Some (memberSizeAlign (sizeBytes E) E c).
Proof.
  unfold member_ok, memberSizeAlign, small_size, arrayFieldSizeAlign. intros H. apply andb_true_iff in H as [_ H].
  destruct (isSizedArr c); [destruct (fieldSizeAlign _ _ (ElemType c) _) as [[]|]|destruct (fieldSizeAlign _ _ (Type_ c) _) as [[]|]]; try done; by eexists.
Qed.

Lemma member_held E c n : member_ok E c = true -> isSizedArr c = false -> held (Type_ c) (StructTag c) = Some n -> is_Some (E !! n).
Proof.
  unfold member_ok, known. intros H Ha Hh. rewrite Ha, Hh in H. apply andb_true_iff in H as [_ H]. apply andb_true_iff in H as [_ H].
  by apply bool_decide_eq_true in H.
Qed.

Definition field_of (ir : bool) (c : Node) (off sz : Z) : StructField :=
  mkField (Name c) (Type_ c) (Pointee c) (ElemType c) (ElemPointee c) (StructTag c) off (if isSizedArr c then sz else 0) false 0 0
    (isFlexArr c) (if ir then 0 else Dim2 c) (Align_ c).

(** The extent of the field of a member: an array's alignment counts as that
    of a pointer there. *)
Lemma field_of_extent ir E c off sz al : member_ok E c = true -> memberSizeAlign (sizeBytes E) E c = Some (sz, al) ->
  exists a, field_extent (sizeBytes E) E (field_of ir c off sz) = Some (sz, a) /\ pow2 a /\ a <= 4096.
Proof.
  intros Hok Hm. destruct (member_size_spec _ _ _ _ Hok Hm) as [_ Hs]. unfold field_extent, field_of. cbn [f_IsBitField f_Type f_StructTag f_ByteSize f_Align].
  assert (Ha : align_ok (Align_ c) = true) by (unfold member_ok in Hok; apply andb_true_iff in Hok as [Hok _]; apply andb_true_iff in Hok as [_ Hok]; done).
  destruct (isSizedArr c) eqn:Ea.
  - assert (Et : Type_ c = TypeIntArray) by (unfold isSizedArr in Ea; apply andb_true_iff in Ea as [Ea _]; by apply bool_decide_eq_true in Ea).
    rewrite Et. cbn [fieldSizeAlign mbind option_bind]. rewrite (proj2 (Z.ltb_lt 0 sz)) by lia.
    destruct (align_ok_spec 8 (Align_ c) Ha) as (P1 & P2 & _); [by exists 3|lia|]. eexists. split; [done|]. split; [done|]. cbn in *. lia.
  - unfold memberSizeAlign in Hm. rewrite Ea in Hm. rewrite Hm. cbn [mbind option_bind]. apply fieldSizeAlign_range in Hm as [-> _].
    destruct (scalarSize_pow2 (Type_ c)) as [Q1 Q2]. destruct (align_ok_spec _ _ Ha Q1 Q2) as (P1 & P2 & _). eexists. split; [done|]. split; [done|]. cbn in *. lia.
Qed.

Lemma add_field_laid_out ir E u p st c : laid_out E u p st -> offset st <= 2 ^ 50 -> member_ok E c = true ->
  exists st', add_field ir u p E st c = Some st' /\ laid_out E u p st'.
Proof.
  intros H Hb Hok. pose proof (close_laid_out _ _ _ _ H ltac:(lia)) as L. pose proof (close_closed _ _ _ _ H) as Lo.
  assert (Hb' : offset (close u st) <= 2 ^ 50 + 8).
  { unfold close. destruct (is_open st) eqn:Eo; [|cbn; lia]. destruct (lo_word _ _ _ _ H Eo) as (-> & Hw & _). pose proof (lo_offset _ _ _ _ H).
    cbn. unfold bfWordSize. rewrite Hw, i64_small by lia. lia. }
  unfold add_field. set (st1 := close u st) in *. clearbody st1. destruct (member_size_total _ _ Hok) as [[sz al] Hm]. rewrite Hm. cbn [mbind option_bind].
  destruct (member_size_spec _ _ _ _ Hok Hm) as [Hal Hsz]. destruct (field_of_extent ir E c 0 sz al Hok Hm) as (a & _).
  assert (Ha : align_ok (Align_ c) = true) by (unfold member_ok in Hok; apply andb_true_iff in Hok as [Hok _]; apply andb_true_iff in Hok as [_ Hok]; done).
  destruct (scalarSize_pow2 (if isSizedArr c then ElemType c else Type_ c)) as [Q1 Q2]. rewrite <- Hal in Q1, Q2.
  destruct (align_ok_spec al (Align_ c) Ha Q1 Q2) as (P1 & P2 & P3). set (m := if al <? Align_ c then Align_ c else al) in *. clearbody m.
  pose proof (lo_offset _ _ _ _ L) as HO.
  set (off := if negb u && negb p then round_up (offset st1) m else offset st1).
  assert (Hoff : offset st1 <= off < offset st1 + 4096 /\ (u = true -> off = offset st1) /\ (p = false -> (m | off))).
  { unfold off. destruct u; cbn [negb andb].
    - destruct (lo_union _ _ _ _ L eq_refl) as [E0 _]. rewrite E0. repeat split; [lia..|]. intros _. by exists 0.
    - destruct p; cbn [negb]; [repeat split; (done || lia)|]. destruct (round_up_spec (offset st1) m P1) as [R1 R2]; [lia|lia|]. repeat split; (done || lia). }
  destruct Hoff as (O1 & O2 & O3). clearbody off. fold (field_of ir c off sz).
  destruct (field_of_extent ir E c off sz al Hok Hm) as (a' & Hx & Pa & Pa').
  assert (Hfl : isFlexArr c = true -> Type_ c = TypeIntArray) by (unfold isFlexArr; intros Hf; apply andb_true_iff in Hf as [Hf _]; by apply bool_decide_eq_true in Hf).
  eexists. split; [done|]. set (f := field_of ir c off sz) in *. eapply (push_field E u p st1 f); cbn [offset bfWordOffset bfBitsUsed fields].
  - done.
  - split.
    + intros n. unfold field_held, f, field_of. cbn [f_IsFlexArray f_IsBitField f_Type f_StructTag]. destruct (isFlexArr c) eqn:Efl; [done|]. cbn [orb].
      destruct (isSizedArr c) eqn:Ea; [|by apply member_held]. unfold isSizedArr in Ea. apply andb_true_iff in Ea as [Ea _].
      apply bool_decide_eq_true in Ea. by rewrite Ea.
    + cbn. lia.
    + by exists sz, a'.
    + done.
    + cbn. destruct (isSizedArr c) eqn:Ea; [|lia]. intros _. unfold isSizedArr in Ea. apply andb_true_iff in Ea as [Ea _]. by apply bool_decide_eq_true in Ea.
    + done.
    + intros Hf. split; [done|]. by apply Hfl.
    + intros Hp _. unfold natural_align, f, field_of. cbn [f_ByteSize f_ElemType f_Type f_Align f_ByteOffset].
      assert (Eq : Z.max (scalarSize (if 0 <? (if isSizedArr c then sz else 0) then ElemType c else Type_ c)) (Align_ c) = m).
      { rewrite P3, Hal. destruct (isSizedArr c); [by rewrite (proj2 (Z.ltb_lt 0 sz)) by lia|done]. }
      rewrite Eq. by apply O3.
  - done.
  - destruct (negb u && negb (isFlexArr c)); [rewrite i64_small by lia; lia|lia].
  - intros Ho. unfold is_open in *. cbn [bfWordOffset] in Ho. congruence.
  - intros ->. destruct (lo_union _ _ _ _ L eq_refl) as [E0 _]. cbn [negb andb]. split; [split; [cbn; rewrite (O2 eq_refl); done|done]|rewrite (O2 eq_refl); done].
  - intros ->. cbn [negb andb]. unfold frontier, is_open in *. cbn [bfWordOffset offset]. rewrite Lo. unfold first_bit, end_bit, field_size, f. cbn [field_of f_IsBitField f_ByteOffset f_IsFlexArray].
    fold f. rewrite Hx. cbn [fmap option_fmap option_map fst default from_option id]. destruct (isFlexArr c); cbn [negb]; rewrite ?i64_small by lia; lia.
Qed.

Lemma add_inline_laid_out E u p st c : laid_out E u p st -> is_open st = false -> offset st <= 2 ^ 50 ->
  is_Some (E !! StructTag c) -> small_size E TypeStruct (StructTag c) 1 = true -> exists st', add_inline u E st c = Some st' /\ laid_out E u p st'.
Proof.
  intros L Lo Hb Hk Hs. unfold add_inline, small_size in *. destruct (fieldSizeAlign _ _ TypeStruct _) as [[sz al]|] eqn:Hm; [|done]. cbn [mbind option_bind].
  destruct (fieldSizeAlign_range _ _ _ _ _ _ Hm) as [-> Hsz]. pose proof (lo_offset _ _ _ _ L) as HO. apply Z.leb_le in Hs.
  set (off := if u then offset st else round_up (offset st) (scalarSize TypeStruct)).
  assert (Hoff : offset st <= off < offset st + 8 /\ (u = true -> off = offset st) /\ (8 | off)).
  { unfold off. change (scalarSize TypeStruct) with 8. destruct u.
    - destruct (lo_union _ _ _ _ L eq_refl) as [E0 _]. rewrite E0. repeat split; [lia..|]. by exists 0.
    - destruct (round_up_spec (offset st) 8) as [R1 R2]; [by exists 3|lia|lia|]. repeat split; (done || lia). }
  destruct Hoff as (O1 & O2 & O3). clearbody off. eexists. split; [done|]. set (f := mkField _ _ _ _ _ _ _ _ _ _ _ _ _ _).
  assert (Hx : field_extent (sizeBytes E) E f = Some (sz, 8)) by (unfold field_extent, f; cbn [f_IsBitField f_Type f_StructTag f_ByteSize f_Align]; by rewrite Hm).
  eapply (push_field E u p st f); cbn [offset bfWordOffset bfBitsUsed fields].
  - done.
  - split; cbn [f f_ByteOffset f_IsBitField f_IsFlexArray].
    + intros n. unfold field_held, f. cbn [f_IsFlexArray f_IsBitField f_Type f_StructTag orb]. intros Hh. by apply held_struct in Hh as [<- _].
    + lia.
    + exists sz, 8. split; [done|]. split; [lia|]. split; [by exists 3|lia].
    + done.
    + cbn. lia.
    + done.
    + done.
    + intros _ _. by change (natural_align f) with 8.
  - done.
  - destruct u; [lia|rewrite i64_small by lia; lia].
  - intros Ho. unfold is_open in *. cbn [bfWordOffset] in Ho. congruence.
  - intros ->. destruct (lo_union _ _ _ _ L eq_refl) as [E0 _]. split; [split; [cbn; rewrite (O2 eq_refl); done|done]|rewrite (O2 eq_refl); done].
  - intros ->. unfold frontier, is_open in *. cbn [bfWordOffset offset]. rewrite Lo. unfold first_bit, end_bit, field_size. rewrite Hx.
    cbn [f f_IsBitField f_ByteOffset f_IsFlexArray fmap option_fmap option_map fst default from_option id]. rewrite i64_small by lia. lia.
Qed.

Lemma add_member_laid_out ir E u p st c : laid_out E u p st -> offset st <= 2 ^ 50 -> member_ok E c = true ->
  exists st', add_member ir u p E st c = Some st' /\ laid_out E u p st'.
Proof.
  intros H Hb Hok. unfold add_member. destruct (Z.eqb_spec (BitWidth c) (-1)); [eexists; split; [done|]; apply close_laid_out; [done|lia]|].
  destruct (Z.ltb_spec 0 (BitWidth c)) as [Hw|]; [|by apply add_field_laid_out]. destruct u; [by apply add_field_laid_out|]. cbn [negb andb].
  eexists. split; [done|]. apply add_bit_field_laid_out; [done|done|]. unfold member_ok in Hok. apply andb_true_iff in Hok as [Hok _].
  apply andb_true_iff in Hok as [Hok _]. lia.
Qed.

(** * The finished struct *)

Lemma max_align_pow2 E fs m r p : Forall (field_ok E p) fs -> foldl (size_step (sizeBytes E) E) (Some (1, 0)) fs = Some (m, r) ->
  pow2 m /\ m <= 4096 /\ 0 <= r <= 2 ^ 60 + 2 ^ 41.
Proof.
  intros Hf Hs. pose proof (proj1 (list.Forall_forall _ _) Hf) as Hf'. destruct (size_steps_spec _ _ _ _ _ _ _ Hs) as (S1 & S2 & _).
  destruct (size_steps_reached _ _ _ _ _ _ _ Hs) as [[->|(f & sz & a & Hin & Hfl & Hx & ->)] H2].
  1: split; [by exists 0|split; [lia|]]. 2: destruct (fo_extent _ _ _ (Hf' _ Hin)) as (sz' & a' & Hx' & _ & P1 & P2); rewrite Hx in Hx'; injection Hx' as <- <-; split; [done|split; [done|]].
  all: destruct H2 as [->|(g & sg & ag & Hg & _ & Hgx & ->)]; [lia|].
  all: destruct (fo_extent _ _ _ (Hf' _ Hg)) as (sz2 & a2 & Hx2 & Hsz & _); rewrite Hgx in Hx2; injection Hx2 as <- <-.
  all: pose proof (fo_offset _ _ _ (Hf' _ Hg)); rewrite i64_small by lia; lia.
Qed.

Lemma finished E u p nm st : laid_out E u p st -> def_ok E (mkStructDef nm (fields st) u p).
Proof.
  intros [_ _ H3 H4 H5]. split; cbn [sd_Fields sd_IsUnion sd_IsPacked]; [done|by intros; apply H4|by intros; apply H5|].
  pose proof (proj1 (list.Forall_forall _ _) H3) as Hf.
  assert (Ht : is_Some (foldl (size_step (sizeBytes E) E) (Some (1, 0)) (fields st))).
  { apply size_steps_total. intros f Hin _. destruct (fo_extent _ _ _ (Hf f Hin)) as (sz & a & -> & _). by eexists. }
  destruct Ht as [[m r] Hs]. destruct (max_align_pow2 _ _ _ _ _ H3 Hs) as (M1 & M2 & M3). destruct (size_steps_spec _ _ _ _ _ _ _ Hs) as (_ & _ & S3).
  destruct (round_up_spec r m M1) as [R1 R2]; [lia|lia|].
  assert (Hz : forall v, struct_size (sizeBytes E) E (mkStructDef nm (fields st) u p) = Some v -> sizeBytes E (mkStructDef nm (fields st) u p) = Some v).
  { intros v Hv. by apply (SizeBytes_enough E _ (S (enough E))). }
  exists (match fields st with [] => 0 | _ => if p then r else round_up r m end). split; [|split].
  - apply Hz. unfold struct_size. cbn [sd_Fields sd_IsPacked]. destruct (fields st) as [|f fs]; [done|]. by rewrite Hs.
  - destruct (fields st); [lia|]. destruct p; lia.
  - intros f Hin Hfl. destruct (fields st) as [|f0 fs] eqn:Efs; [by apply elem_of_nil in Hin|]. rewrite <- Efs in *. clear Efs f0 fs.
    destruct (S3 f Hin Hfl) as (sz & a & Hx & Ha & He). destruct (fo_extent _ _ _ (Hf f Hin)) as (sz' & a' & Hx' & Hsz & P1 & P2).
    rewrite Hx in Hx'. injection Hx' as <- <-. pose proof (fo_offset _ _ _ (Hf f Hin)). rewrite i64_small in He by lia.
    assert (Hend : end_bit E f <= 8 * r).
    { unfold end_bit, first_bit, field_size. rewrite Hfl, Hx. cbn [fmap option_fmap option_map fst default from_option id].
      destruct (f_IsBitField f) eqn:Ebf; [|lia]. destruct (fo_bits _ _ _ (Hf f Hin) Ebf) as (_ & B1 & B2 & B3).
      unfold field_extent in Hx. rewrite Ebf in Hx. injection Hx as <- <-. lia. }
    split; [destruct p; lia|]. intros -> sz' a' Hx'. rewrite Hx in Hx'. injection Hx' as <- <-.
    etrans; [|exact R2]. apply pow2_divides; [done|done|lia].
Qed.

(** * Declarations that C allows *)

(** The struct defined on the way gets a tag of its own and is not too
    large. *)
Definition fresh (r : option (StructDef * structDefs)) (tag : string) : bool :=
  match r with
  | Some (inner, E) => negb (bool_decide (tag = ""%string)) && bool_decide (E !! tag = None) && small_size (<[tag := inner]> E) TypeStruct tag 1
  | None => false
  end.

Section loop.
Context (ok : layout -> structDefs -> Node -> bool) (step : layout -> structDefs -> Node -> option (layout * structDefs)).

Fixpoint loop_ok (st : layout) (E : structDefs) (children : list Node) : bool :=
  match children with
  | [] => true
  | c :: children =>
      ok st E c && (offset st <=? 2 ^ 50) && match step st E c with Some (st, E) => loop_ok st E children | None => false end
  end.
End loop.

Definition inner_step (ir u p : bool) : layout -> structDefs -> Node -> option (layout * structDefs) :=
  member_step (fun c => build ir (Name c) (IsUnion c) (negb ir && IsPacked c) c) (fun c => build ir (StructTag c) (IsUnion c) false c) ir u p.

(** Bit-fields of at most 64 bits, alignments that are powers of two, members
    of known types of a size that fits, tags that are new; and no struct that
    is defined in place right after a bit-field. *)
Definition allowed (inner : bool -> bool -> Node -> structDefs -> bool) (ir : bool) (st : layout) (E : structDefs) (c : Node) : bool :=
  match Kind c with
  | KindStructDef =>
      let p := negb ir && IsPacked c in
      inner (IsUnion c) p c E && fresh (build ir (Name c) (IsUnion c) p c E) (Name c)
  | KindVarDecl =>
      if is_inline c then
        negb (is_open st) && inner (IsUnion c) false c E && fresh (build ir (StructTag c) (IsUnion c) false c E) (StructTag c)
      else member_ok E c
  end.

Fixpoint decls_ok (ir u p : bool) (n : Node) (E : structDefs) : bool :=
  loop_ok (allowed (fun u p c => decls_ok ir u p c) ir) (inner_step ir u p) start E (Children n).

Lemma build_eq ir nm u p n E : build ir nm u p n E =
  '(st, E) ← members_loop (inner_step ir u p) start E (Children n); Some (mkStructDef nm (fields st) u p, E).
Proof. by destruct n. Qed.

(** Induction on a declaration and all that it contains. *)
Lemma Node_nested_ind (P : Node -> Prop) : (forall n, Forall P (Children n) -> P n) -> forall n, P n.
Proof.
  intros H. fix IH 1. intros n. apply H. destruct n as [? ? ? ? ? ? cs ? ? ? ? ? ? ?]. cbn [Children].
  induction cs as [|c cs IHcs]; [by apply list.Forall_nil|apply list.Forall_cons; split; [apply IH|done]].
Qed.

(** What a builder makes of a declaration that C allows. *)
Definition builds (ir : bool) (n : Node) : Prop := forall nm u p E, env_ok E -> decls_ok ir u p n E = true ->
  exists sd E', build ir nm u p n E = Some (sd, E') /\ env_ok E' /\ E ⊆ E' /\ def_ok E' sd.

Lemma fresh_step ir c nm u p E : builds ir c -> env_ok E -> decls_ok ir u p c E = true -> fresh (build ir nm u p c E) nm = true ->
  exists inner E', build ir nm u p c E = Some (inner, E') /\ env_ok (<[nm := inner]> E') /\ E ⊆ <[nm := inner]> E' /\
    small_size (<[nm := inner]> E') TypeStruct nm 1 = true.
Proof.
  intros Hc HE Hd Hf. destruct (Hc nm u p E HE Hd) as (inner & E' & Hb & HE' & Hsub & Hdef). rewrite Hb in Hf. unfold fresh in Hf.
  apply andb_true_iff in Hf as [Hf1 Hf2]. apply andb_true_iff in Hf1 as [_ Hf1]. apply bool_decide_eq_true in Hf1.
  exists inner, E'. split; [done|]. split; [by apply env_ok_insert|]. split; [|done]. etrans; [exact Hsub|]. by apply insert_subseteq.
Qed.

Lemma loop_builds ir u p cs : Forall (builds ir) cs -> forall st E, env_ok E -> laid_out E u p st ->
  loop_ok (allowed (decls_ok ir) ir) (inner_step ir u p) st E cs = true ->
  exists st' E', members_loop (inner_step ir u p) st E cs = Some (st', E') /\ env_ok E' /\ E ⊆ E' /\ laid_out E' u p st'.
Proof.
  induction cs as [|c cs IH]; intros Hcs st E HE L Hok; [by exists st, E|]. apply Forall_cons_1 in Hcs as [Hc Hcs]. cbn [loop_ok members_loop] in *.
  apply andb_true_iff in Hok as [Hok Hrest]. apply andb_true_iff in Hok as [Hok Hb]. apply Z.leb_le in Hb.
  assert (Hstep : exists st1 E1, inner_step ir u p st E c = Some (st1, E1) /\ env_ok E1 /\ E ⊆ E1 /\ laid_out E1 u p st1).
  { unfold allowed in Hok. unfold inner_step, member_step. pose proof (env_ok_complete _ HE) as Hcomp. destruct (Kind c).
    - destruct (is_inline c) eqn:Ei.
      + apply andb_true_iff in Hok as [Hok Hf]. apply andb_true_iff in Hok as [Ho Hd]. apply negb_true_iff in Ho.
        destruct (fresh_step _ _ _ _ _ _ Hc HE Hd Hf) as (inner & E1 & Hbd & HE1 & Hsub & Hsm). rewrite Hbd. cbn [mbind option_bind].
        destruct (add_inline_laid_out (<[StructTag c := inner]> E1) u p st c) as (st1 & -> & L1); [by eapply laid_out_weaken|done|done|rewrite lookup_insert_eq; by eexists|done|].
        by exists st1, (<[StructTag c := inner]> E1).
      + destruct (add_member_laid_out ir E u p st c L Hb Hok) as (st1 & -> & L1). by exists st1, E.
    - apply andb_true_iff in Hok as [Hd Hf]. destruct (fresh_step _ _ _ _ _ _ Hc HE Hd Hf) as (inner & E1 & Hbd & HE1 & Hsub & _).
      rewrite Hbd. exists st, (<[Name c := inner]> E1). split; [done|]. split; [done|]. split; [done|]. by eapply laid_out_weaken. }
  destruct Hstep as (st1 & E1 & Hs & HE1 & Hsub & L1). rewrite Hs in Hrest |- *. cbn [mbind option_bind].
  destruct (IH Hcs st1 E1 HE1 L1 Hrest) as (st2 & E2 & Hm & HE2 & Hsub2 & L2). exists st2, E2. split; [done|]. split; [done|]. split; [by etrans|done].
Qed.

Lemma decls_ok_eq ir u p n E : decls_ok ir u p n E =
  loop_ok (allowed (decls_ok ir) ir) (inner_step ir u p) start E (Children n).
Proof. by destruct n. Qed.

Lemma build_lays_out ir n : builds ir n.
Proof.
  induction n as [n Hn] using Node_nested_ind. intros nm u p E HE Hd. rewrite decls_ok_eq in Hd. rewrite build_eq.
  destruct (loop_builds ir u p _ Hn start E HE (laid_out_start _ _ _) Hd) as (st & E' & -> & HE' & Hsub & L). cbn [mbind option_bind].
  exists (mkStructDef nm (fields st) u p), E'. split; [done|]. split; [done|]. split; [done|]. by apply finished.
Qed.
