(* ===== verification/StructFields.v ===== *)
(** Looking a field up through members without a name, and the agreement of
    the two layout builders. *)
From stdpp Require Import gmap strings.
From S2P Require Import Prelude Align StructDefs StructSize StructLayout.
#[local] Open Scope Z_scope.

(** * Looking fields up *)

(** A member whose fields count as those of its struct. *)
Definition anonymous (f : StructField) : bool :=
  bool_decide (f_Name f = ""%string) && bool_decide (f_Type f = TypeStruct) && negb (bool_decide (f_StructTag f = ""%string)).

Fixpoint find_in (find : StructDef -> option (option StructField)) (E : structDefs) (name : string) (fs : list StructField) : option (option StructField) :=
  match fs with
  | [] => Some None
  | f :: fs =>
      if bool_decide (f_Name f = name) then Some (Some f)
      else if anonymous f then
        match E !! f_StructTag f with
        | Some anon =>
            inner ← find anon;
            match inner with
            | Some inner => Some (Some (with_offset inner (i64 (f_ByteOffset f + f_ByteOffset inner))))
            | None => find_in find E name fs
            end
        | None => find_in find E name fs
        end
      else find_in find E name fs
  end.

Lemma FindFieldDeep_S fuel E sd name : FindFieldDeep (S fuel) E sd name = find_in (fun sd => FindFieldDeep fuel E sd name) E name (sd_Fields sd).
Proof. cbn [FindFieldDeep]. unfold anonymous. induction (sd_Fields sd) as [|f fs IH]; [done|]. cbn [find_in]. by rewrite <- IH. Qed.

Section inside.
Context (E : structDefs) (HE : env_ok E).

Lemma anonymous_held p f : field_ok E p f -> anonymous f = true ->
  f_IsFlexArray f = false /\ f_IsBitField f = false /\ field_held f = Some (f_StructTag f) /\ f_Type f = TypeStruct.
Proof.
  unfold anonymous. intros Hf Ha. apply andb_true_iff in Ha as [Ha Ht]. apply andb_true_iff in Ha as [Hn Hs]. apply bool_decide_eq_true in Hn, Hs.
  apply negb_true_iff, bool_decide_eq_false in Ht.
  assert (Hfl : f_IsFlexArray f = false) by (destruct (f_IsFlexArray f) eqn:Ef; [|done]; destruct (fo_flex _ _ _ Hf Ef); congruence).
  assert (Hb : f_IsBitField f = false) by (destruct (f_IsBitField f) eqn:Eb; [|done]; by destruct (fo_named _ _ _ Hf Eb)).
  repeat split; [done|done| |done]. unfold field_held. rewrite Hfl, Hb, Hs. by apply held_struct.
Qed.

(** The size of an anonymous member is that of its struct. *)
Lemma anonymous_size p f sd : field_ok E p f -> anonymous f = true -> E !! f_StructTag f = Some sd ->
  exists total, sizeBytes E sd = Some total /\ total <= field_size E f.
Proof.
  intros Hf Ha Hsd. destruct (anonymous_held _ _ Hf Ha) as (Hfl & Hb & Hh & Ht). destruct (do_size _ _ (HE _ _ Hsd)) as (total & Hs & H0 & _).
  exists total. split; [done|]. unfold field_held in Hh. rewrite Hfl, Hb, Ht in Hh. cbn [orb] in Hh. apply held_struct in Hh as [_ Hne].
  unfold field_size, field_extent. rewrite Hfl, Hb, Ht. cbn [fieldSizeAlign]. rewrite bool_decide_eq_false_2, Hsd by done. rewrite Hs. cbn [mbind option_bind].
  assert (Hz : (0 <? f_ByteSize f) = false) by (apply Z.ltb_ge; destruct (Z.lt_ge_cases 0 (f_ByteSize f)) as [Hl|]; [|done]; pose proof (fo_array _ _ _ Hf Hl); congruence).
  destruct (Z.ltb_spec 0 total); cbn [mbind option_bind fst snd fmap option_fmap option_map default from_option id]; rewrite Hz; cbn; lia.
Qed.

Lemma end_bit_moved f off : end_bit E (with_offset f off) = end_bit E f + 8 * (off - f_ByteOffset f).
Proof.
  unfold end_bit, first_bit. change (field_size E (with_offset f off)) with (field_size E f). cbn [with_offset f_IsBitField f_ByteOffset f_BitOffset f_BitWidth].
  destruct (f_IsBitField f); lia.
Qed.

Definition inside (sd : StructDef) (name : string) (f : StructField) : Prop :=
  f_Name f = name /\ (f_IsFlexArray f = false -> forall total, sizeBytes E sd = Some total ->
    0 <= f_ByteOffset f /\ 8 * f_ByteOffset f < end_bit E f <= 8 * total).

Lemma some_bits p f : field_ok E p f -> f_IsFlexArray f = false -> 8 * f_ByteOffset f < end_bit E f.
Proof.
  intros Hf Hfl. destruct (fo_extent _ _ _ Hf) as (sz & a & Hx & Hs & _). unfold end_bit, first_bit, field_size. rewrite Hfl, Hx.
  cbn [fmap option_fmap option_map fst default from_option id]. destruct (f_IsBitField f) eqn:Eb; [|lia]. destruct (fo_bits _ _ _ Hf Eb) as (_ & ? & ? & _). lia.
Qed.

Lemma found_inside name fuel : forall sd f, def_ok E sd -> FindFieldDeep fuel E sd name = Some (Some f) -> inside sd name f.
Proof.
  induction fuel as [|fuel IH]; intros sd f Hsd; [done|]. rewrite FindFieldDeep_S.
  destruct (do_size _ _ Hsd) as (total & Hs & Ht & Hin). pose proof (proj1 (list.Forall_forall _ _) (do_fields _ _ Hsd)) as Hfs.
  enough (forall fs, (forall g, g ∈ fs -> g ∈ sd_Fields sd) -> find_in (fun sd => FindFieldDeep fuel E sd name) E name fs = Some (Some f) -> inside sd name f) as H by by apply H.
  induction fs as [|g fs IHf]; intros Hsub Hf; [done|]. cbn [find_in] in Hf. specialize (IHf ltac:(intros x Hx; apply Hsub; by right)).
  pose proof (Hsub g ltac:(left)) as Hg. case_bool_decide as Hn.
  - injection Hf as <-. split; [done|]. intros Hfl t' Ht'. assert (t' = total) as -> by congruence.
    pose proof (fo_offset _ _ _ (Hfs g Hg)). pose proof (some_bits _ _ (Hfs g Hg) Hfl). destruct (Hin g Hg Hfl). lia.
  - destruct (anonymous g) eqn:Ha; [|by apply IHf]. destruct (E !! f_StructTag g) as [anon|] eqn:Ed; [|by apply IHf].
    destruct (FindFieldDeep fuel E anon name) as [[i|]|] eqn:Ei; [|by apply IHf|done]. injection Hf as <-.
    destruct (IH anon i (HE _ _ Ed) Ei) as [Hin1 Hin2]. split; [done|]. cbn [with_offset f_IsFlexArray f_ByteOffset]. intros Hfl t' Ht'.
    assert (t' = total) as -> by congruence. destruct (anonymous_size _ _ _ (Hfs g Hg) Ha Ed) as (ti & Hti & Hle).
    destruct (Hin2 Hfl ti Hti) as [I1 I2]. destruct (anonymous_held _ _ (Hfs g Hg) Ha) as (Gfl & Gb & _).
    destruct (Hin g Hg Gfl) as [G1 _]. unfold end_bit in G1. rewrite Gb in G1. pose proof (fo_offset _ _ _ (Hfs g Hg)).
    rewrite end_bit_moved, i64_small by lia. lia.
Qed.

(** The search ends within the same nesting as the computation of sizes. *)
Lemma find_ends name fuel : forall sd, def_ok E sd -> is_Some (SizeBytes fuel E sd) -> is_Some (FindFieldDeep fuel E sd name).
Proof.
  induction fuel as [|fuel IH]; intros sd Hsd [v Hv]; [done|]. rewrite FindFieldDeep_S. pose proof (proj1 (list.Forall_forall _ _) (do_fields _ _ Hsd)) as Hfs.
  enough (forall fs, (forall g, g ∈ fs -> g ∈ sd_Fields sd) -> is_Some (find_in (fun sd => FindFieldDeep fuel E sd name) E name fs)) as H by by apply H.
  induction fs as [|g fs IHf]; intros Hsub; [by eexists|]. cbn [find_in]. specialize (IHf ltac:(intros x Hx; apply Hsub; by right)).
  case_bool_decide; [by eexists|]. destruct (anonymous g) eqn:Ha; [|done]. destruct (E !! f_StructTag g) as [anon|] eqn:Ed; [|done].
  pose proof (Hsub g ltac:(left)) as Hg. destruct (anonymous_held _ _ (Hfs g Hg) Ha) as (_ & _ & Hh & _). cbn [SizeBytes] in Hv.
  destruct (IH anon (HE _ _ Ed)) as [[i|] ->]; [by eapply struct_size_held; [|exists g|]|by eexists|done].
Qed.
End inside.

(** * The two builders *)

(** The IR generator's builder does not keep inner dimensions of arrays. *)
Definition drop_dim (f : StructField) : StructField :=
  mkField (f_Name f) (f_Type f) (f_Pointee f) (f_ElemType f) (f_ElemPointee f) (f_StructTag f) (f_ByteOffset f) (f_ByteSize f)
    (f_IsBitField f) (f_BitOffset f) (f_BitWidth f) (f_IsFlexArray f) 0 (f_Align f).
Definition drop_dims (sd : StructDef) : StructDef := mkStructDef (sd_Name sd) (drop_dim <$> sd_Fields sd) (sd_IsUnion sd) (sd_IsPacked sd).
Definition drop_layout (st : layout) : layout := Layout (offset st) (bfWordOffset st) (bfBitsUsed st) (drop_dim <$> fields st).
Definition drop_all (E : structDefs) : structDefs := drop_dims <$> E.

Section dropped.
Context (s s' : StructDef -> option Z) (Hs : forall sd, s' (drop_dims sd) = s sd).

Lemma fieldSizeAlign_drop E t tag : fieldSizeAlign s' (drop_all E) t tag = fieldSizeAlign s E t tag.
Proof.
  destruct t; try done. cbn [fieldSizeAlign]. case_bool_decide; [done|]. unfold drop_all. rewrite lookup_fmap.
  destruct (E !! tag) as [sd|]; [|done]. cbn [fmap option_fmap option_map]. by rewrite Hs.
Qed.

Lemma size_steps_drop E fs : forall acc, foldl (size_step s' (drop_all E)) acc (drop_dim <$> fs) = foldl (size_step s E) acc fs.
Proof.
  induction fs as [|f fs IH]; intros acc; [done|]. cbn [fmap list_fmap foldl]. rewrite <- IH. f_equal. destruct acc as [[m r]|]; [|done].
  unfold size_step, field_extent. cbn [mbind option_bind drop_dim f_IsFlexArray f_IsBitField f_Type f_StructTag f_ByteSize f_Align f_ByteOffset].
  by rewrite fieldSizeAlign_drop.
Qed.

Lemma struct_size_drop E sd : struct_size s' (drop_all E) (drop_dims sd) = struct_size s E sd.
Proof.
  unfold struct_size. cbn [drop_dims sd_Fields sd_IsPacked]. destruct (sd_Fields sd) as [|f fs]; [done|]. by rewrite <- (size_steps_drop E (f :: fs)).
Qed.
End dropped.

Lemma sizeBytes_drop E sd : sizeBytes (drop_all E) (drop_dims sd) = sizeBytes E sd.
Proof.
  unfold sizeBytes, enough, drop_all. rewrite map_size_fmap. generalize (S (size E)) as fuel. intros fuel. revert sd.
  induction fuel as [|fuel IH]; intros sd; [done|]. cbn [SizeBytes]. by apply struct_size_drop.
Qed.

Lemma memberSizeAlign_drop E c : memberSizeAlign (sizeBytes (drop_all E)) (drop_all E) c = memberSizeAlign (sizeBytes E) E c.
Proof. unfold memberSizeAlign, arrayFieldSizeAlign. by rewrite !(fieldSizeAlign_drop (sizeBytes E)) by apply sizeBytes_drop. Qed.

(** Nothing inside a declaration is packed. *)
Fixpoint no_packed (n : Node) : bool := forallb (fun c => negb (IsPacked c) && no_packed c) (Children n).

Lemma add_member_drop u E st c : add_member true u false (drop_all E) (drop_layout st) c = drop_layout <$> add_member false u false E st c.
Proof.
  unfold add_member. assert (Hc : close u (drop_layout st) = drop_layout (close u st)) by (unfold close, is_open; cbn; by destruct (negb _ && negb u)).
  destruct (BitWidth c =? -1); [cbn [fmap option_fmap option_map]; by rewrite Hc|]. destruct ((0 <? BitWidth c) && negb u).
  - cbn [fmap option_fmap option_map]. f_equal. unfold add_bit_field, is_open. cbn [drop_layout bfWordOffset bfBitsUsed offset fields].
    destruct (negb (negb (bfWordOffset st =? -1)) || _), (bool_decide (Name c = ""%string)); unfold drop_layout; cbn [bfWordOffset bfBitsUsed offset fields]; rewrite ?fmap_app; done.
  - unfold add_field. rewrite Hc, memberSizeAlign_drop. destruct (memberSizeAlign _ E c) as [[sz al]|]; [|done]. cbn [mbind option_bind fmap option_fmap option_map].
    unfold drop_layout. cbn [bfWordOffset bfBitsUsed offset fields]. by rewrite fmap_app.
Qed.

Lemma add_inline_drop u E st c : add_inline u (drop_all E) (drop_layout st) c = drop_layout <$> add_inline u E st c.
Proof.
  unfold add_inline. rewrite (fieldSizeAlign_drop (sizeBytes E)) by apply sizeBytes_drop. destruct (fieldSizeAlign _ E _ _) as [[sz al]|]; [|done].
  cbn [mbind option_bind fmap option_fmap option_map]. unfold drop_layout. cbn [bfWordOffset bfBitsUsed offset fields]. by rewrite fmap_app.
Qed.

Definition dropped (r : StructDef * structDefs) : StructDef * structDefs := (drop_dims r.1, drop_all r.2).

Lemma drop_all_insert E n sd : <[n := drop_dims sd]> (drop_all E) = drop_all (<[n := sd]> E).
Proof. unfold drop_all. by rewrite fmap_insert. Qed.

Lemma build_drop n : forall nm u E, no_packed n = true -> build true nm u false n (drop_all E) = dropped <$> build false nm u false n E.
Proof.
  induction n as [n IH] using Node_nested_ind. intros nm u E Hp. rewrite !build_eq.
  assert (Hp' : forallb (fun c => negb (IsPacked c) && no_packed c) (Children n) = true) by by destruct n. clear Hp.
  enough (H : forall cs st E, Forall (fun n => forall nm u E, no_packed n = true -> build true nm u false n (drop_all E) = dropped <$> build false nm u false n E) cs ->
    forallb (fun c => negb (IsPacked c) && no_packed c) cs = true ->
    members_loop (inner_step true u false) (drop_layout st) (drop_all E) cs =
      (fun r => (drop_layout r.1, drop_all r.2)) <$> members_loop (inner_step false u false) st E cs).
  { change start with (drop_layout start) at 1. rewrite H by done. by destruct (members_loop _ start E (Children n)) as [[st E']|]. }
  clear. induction cs as [|c cs IHcs]; intros st E Hcs Hp; [done|]. apply Forall_cons_1 in Hcs as [Hc Hcs]. cbn [forallb] in Hp.
  apply andb_true_iff in Hp as [Hc' Hp]. apply andb_true_iff in Hc' as [Hcp Hcn]. apply negb_true_iff in Hcp. cbn [members_loop].
  assert (Hs : inner_step true u false (drop_layout st) (drop_all E) c = (fun r => (drop_layout r.1, drop_all r.2)) <$> inner_step false u false st E c).
  { unfold inner_step, member_step. destruct (Kind c).
    - destruct (is_inline c).
      + rewrite Hc by done. destruct (build false (StructTag c) (IsUnion c) false c E) as [[inner E1]|]; [|done]. cbn [mbind option_bind fmap option_fmap option_map dropped fst snd].
        rewrite drop_all_insert, add_inline_drop.
        by destruct (add_inline u (<[StructTag c := inner]> E1) st c).
      + rewrite add_member_drop. by destruct (add_member false u false E st c).
    - cbn [negb andb]. rewrite Hcp, Hc by done. destruct (build false (Name c) (IsUnion c) false c E) as [[inner E1]|]; [|done].
      cbn [mbind option_bind fmap option_fmap option_map dropped fst snd]. by rewrite drop_all_insert. }
  rewrite Hs. destruct (inner_step false u false st E c) as [[st1 E1]|]; [|done]. cbn [mbind option_bind fmap option_fmap option_map fst snd]. by apply IHcs.
Qed.
