(* ===== verification/FieldAccess.v ===== *)
(** Access to struct fields: the IR that irgen.go emits for bit-fields, the
    instructions of elfgen.go for loads and stores of fields, and what they do
    to memory. *)
From stdpp Require Import gmap strings.
From S2P Require Import Prelude Align Arm64Enc CodeBuilder CodeExec StructDefs StructSize StructLayout.
#[local] Open Scope Z_scope.

(** * The IR of field accesses *)

Inductive IRAddr := AddrConst (IVal : Z) | AddrTemp (Name : nat).

Inductive IROpCode := IRAdd | IRSub | IRBitAnd | IRBitOr | IRShl | IRShr.

Inductive Quad :=
  | IRFieldLoad (Dst : nat) (Src1 : IRAddr) (off : Z) (TypeHint : TypeKind)
  | IRFieldStore (Dst Src1 : IRAddr) (off : Z) (TypeHint : TypeKind)
  | IRArith (Op : IROpCode) (Dst : nat) (Src1 Src2 : IRAddr).

(** [(1 << sf.BitWidth) - 1] and [^(mask << sf.BitOffset)] on Go's int. *)
Definition bit_mask (sf : StructField) : Z := i64 (i64 (Z.shiftl 1 (f_BitWidth sf)) - 1).
Definition clear_mask (sf : StructField) : Z := Z.lnot (i64 (Z.shiftl (bit_mask sf) (f_BitOffset sf))).

(** Reading a bit-field, [t] being the next temporary; the value is in [t]. *)
Definition bitfield_load (t : nat) (ptr : IRAddr) (sf : StructField) : list Quad :=
  let load := IRFieldLoad (t + 1) ptr (f_ByteOffset sf) TypeInt in
  if 0 <? f_BitOffset sf then
    [load; IRArith IRShr (t + 2) (AddrTemp (t + 1)) (AddrConst (f_BitOffset sf));
     IRArith IRBitAnd t (AddrTemp (t + 2)) (AddrConst (bit_mask sf))]
  else [load; IRArith IRBitAnd t (AddrTemp (t + 1)) (AddrConst (bit_mask sf))].

(** Assigning to one: read, clear, merge, write back. *)
Definition bitfield_store (t : nat) (ptr rhs : IRAddr) (sf : StructField) : list Quad :=
  let pre := [IRFieldLoad t ptr (f_ByteOffset sf) TypeInt;
              IRArith IRBitAnd (t + 1) (AddrTemp t) (AddrConst (clear_mask sf));
              IRArith IRBitAnd (t + 2) rhs (AddrConst (bit_mask sf))] in
  if 0 <? f_BitOffset sf then
    pre ++ [IRArith IRShl (t + 3) (AddrTemp (t + 2)) (AddrConst (f_BitOffset sf));
            IRArith IRBitOr (t + 4) (AddrTemp (t + 1)) (AddrTemp (t + 3));
            IRFieldStore ptr (AddrTemp (t + 4)) (f_ByteOffset sf) TypeInt]
  else
    pre ++ [IRArith IRBitOr (t + 3) (AddrTemp (t + 1)) (AddrTemp (t + 2));
            IRFieldStore ptr (AddrTemp (t + 3)) (f_ByteOffset sf) TypeInt].

(** [s.f op= rhs] for an integer field: the result is the address. *)
Definition field_op_assign (t : nat) (op : IROpCode) (ptr rhs : IRAddr) (off : Z) (TypeHint : TypeKind) : list Quad * IRAddr :=
  ([IRFieldLoad (t + 1) ptr off TypeHint; IRArith op t (AddrTemp (t + 1)) rhs; IRFieldStore ptr (AddrTemp t) off TypeHint], ptr).

(** [s.f++] and the like: the result is the old value or the new one. *)
Definition field_incdec (t : nat) (isIncrement post : bool) (ptr : IRAddr) (step off : Z) (TypeHint : TypeKind) : list Quad * IRAddr :=
  ([IRFieldLoad t ptr off TypeHint; IRArith (if isIncrement then IRAdd else IRSub) (t + 1) (AddrTemp t) (AddrConst step);
    IRFieldStore ptr (AddrTemp (t + 1)) off TypeHint], AddrTemp (if post then t else t + 1)).

(** * The instructions *)

(** The access itself: the base is in X0, a value to store in X1, a value
    loaded goes to X0. *)
Definition field_load_word (TypeHint : TypeKind) (off : Z) : Z :=
  match TypeHint with
  | TypeChar => encLDRSBuoff 0 0 off
  | TypeUnsignedChar => encLDRBuoff 0 0 off
  | TypeShort => encLDRSH 0 0 off
  | TypeUnsignedShort => encLDRH 0 0 off
  | TypeInt => encLDRSWuoff 0 0 off
  | TypeUnsignedInt => encLDRWuoff 0 0 off
  | _ => encLDRuoff 0 0 off
  end.

Definition field_store_word (TypeHint : TypeKind) (off : Z) : Z :=
  match TypeHint with
  | TypeChar | TypeUnsignedChar => encSTRBuoff 1 0 off
  | TypeShort | TypeUnsignedShort => encSTRH 1 0 off
  | TypeInt | TypeUnsignedInt => encSTRWuoff 1 0 off
  | _ => encSTRuoff 1 0 off
  end.

Definition arith_word (op : IROpCode) : Z :=
  match op with
  | IRAdd => encADDreg 0 0 1
  | IRSub => encSUBreg 0 0 1
  | IRBitAnd => encAND 0 0 1
  | IRBitOr => encORR 0 0 1
  | IRShl => encLSLV 0 0 1
  | IRShr => encASRV 0 0 1
  end.

(** * What they do *)

Definition put (m : machine) (t n off : Z) (w : nat) : option machine :=
  Some (Machine (regs m) (sp m) (store_bytes (mem m) (base_reg m n + off) (read_reg m t) w)).
Definition get (m : machine) (t n off : Z) (w : nat) (ext : Z -> Z) : option machine :=
  Some (write_reg m t (u64 (ext (load_bytes (mem m) (base_reg m n + off) w)))).
Definition alu (m : machine) (d : Z) (v : Z) : option machine := Some (write_reg m d (u64 v)).

Definition exec_data (m : machine) (i : insn) : option machine :=
  match i with
  | (LDRB, [t; n; off]) => get m t n off 1 id
  | (LDRSB, [t; n; off]) => get m t n off 1 (wrapS 8)
  | (LDRH, [t; n; off]) => get m t n off 2 id
  | (LDRSH, [t; n; off]) => get m t n off 2 (wrapS 16)
  | (LDR_W, [t; n; off]) => get m t n off 4 id
  | (LDRSW, [t; n; off]) => get m t n off 4 (wrapS 32)
  | (LDR_X, [t; n; off]) => get m t n off 8 id
  | (STRB, [t; n; off]) => put m t n off 1
  | (STRH, [t; n; off]) => put m t n off 2
  | (STR_W, [t; n; off]) => put m t n off 4
  | (STR_X, [t; n; off]) => put m t n off 8
  | (ADD, [d; n; k]) => alu m d (read_reg m n + read_reg m k)
  | (SUB, [d; n; k]) => alu m d (read_reg m n - read_reg m k)
  | (AND, [d; n; k]) => alu m d (Z.land (read_reg m n) (read_reg m k))
  | (ORR, [d; n; k]) => alu m d (Z.lor (read_reg m n) (read_reg m k))
  | (LSLV, [d; n; k]) => alu m d (Z.shiftl (read_reg m n) (read_reg m k mod 64))
  | (ASRV, [d; n; k]) => alu m d (Z.shiftr (i64 (read_reg m n)) (read_reg m k mod 64))
  | _ => None
  end.

(** Temporaries live in slots of the frame that hold 64 bits, apart from the
    memory that is accessed. *)
Record state := State { temps : nat -> Z; memory : Z -> Z }.

Definition operand (s : state) (a : IRAddr) : Z := match a with AddrConst v => u64 v | AddrTemp n => temps s n end.

Definition set_temp (s : state) (n : nat) (v : Z) : state := State (fun k => if (k =? n)%nat then v else temps s k) (memory s).

(** A machine with the operands in X0 and X1. *)
Definition ready (s : state) (x0 x1 : Z) : machine := Machine (fun r => if r =? 0 then x0 else if r =? 1 then x1 else 0) 0 (memory s).

Definition exec_quad (s : state) (q : Quad) : option state :=
  match q with
  | IRFieldLoad d b off hint =>
      i ← decode (field_load_word hint off);
      m ← exec_data (ready s (operand s b) 0) i;
      Some (set_temp s d (regs m 0))
  | IRFieldStore b v off hint =>
      i ← decode (field_store_word hint off);
      m ← exec_data (ready s (operand s b) (operand s v)) i;
      Some (State (temps s) (mem m))
  | IRArith op d a b =>
      i ← decode (arith_word op);
      m ← exec_data (ready s (operand s a) (operand s b)) i;
      Some (set_temp s d (regs m 0))
  end.

Definition exec_quads (s : state) (qs : list Quad) : option state := foldl (fun s q => s ← s; exec_quad s q) (Some s) qs.

(** ** One instruction at a time *)

(** The bytes that an access takes, and the value it makes of them. *)
Definition width (hint : TypeKind) : nat :=
  match hint with
  | TypeChar | TypeUnsignedChar => 1
  | TypeShort | TypeUnsignedShort => 2
  | TypeInt | TypeUnsignedInt => 4
  | _ => 8
  end.

Definition extended (hint : TypeKind) (v : Z) : Z :=
  match hint with
  | TypeChar => wrapS 8 v
  | TypeShort => wrapS 16 v
  | TypeInt => wrapS 32 v
  | _ => v
  end.

(** An offset that the instruction can hold: 12 bits, in units of the
    width. *)
Definition reachable (hint : TypeKind) (off : Z) : Prop := exists k, off = Z.of_nat (width hint) * k /\ fits 12 k.

Lemma reg0 : reg 0. Proof. done. Qed.
Lemma reg1 : reg 1. Proof. done. Qed.

Lemma exec_load s d b off hint : reachable hint off ->
  exec_quad s (IRFieldLoad d b off hint) = Some (set_temp s d (u64 (extended hint (load_bytes (memory s) (operand s b + off) (width hint))))).
Proof.
  intros (k & -> & Hk). unfold exec_quad, field_load_word. assert (H1 : 1 * k = k) by lia.
  destruct hint; match goal with |- context [Z.of_nat ?x] => let v := eval vm_compute in (Z.of_nat x) in change (Z.of_nat x) with v end; rewrite ?H1;
    first [rewrite (encodes_decode _ _ (Enc_LDRSBuoff 0 0 k reg0 reg0 Hk))|rewrite (encodes_decode _ _ (Enc_LDRBuoff 0 0 k reg0 reg0 Hk))
          |rewrite (encodes_decode _ _ (Enc_LDRSH 0 0 k reg0 reg0 Hk))|rewrite (encodes_decode _ _ (Enc_LDRH 0 0 k reg0 reg0 Hk))
          |rewrite (encodes_decode _ _ (Enc_LDRSWuoff 0 0 k reg0 reg0 Hk))|rewrite (encodes_decode _ _ (Enc_LDRWuoff 0 0 k reg0 reg0 Hk))
          |rewrite (encodes_decode _ _ (Enc_LDRuoff 0 0 k reg0 reg0 Hk))]; reflexivity.
Qed.

Lemma exec_store s b v off hint : reachable hint off ->
  exec_quad s (IRFieldStore b v off hint) = Some (State (temps s) (store_bytes (memory s) (operand s b + off) (operand s v) (width hint))).
Proof.
  intros (k & -> & Hk). unfold exec_quad, field_store_word. assert (H1 : 1 * k = k) by lia.
  destruct hint; match goal with |- context [Z.of_nat ?x] => let v := eval vm_compute in (Z.of_nat x) in change (Z.of_nat x) with v end; rewrite ?H1;
    first [rewrite (encodes_decode _ _ (Enc_STRBuoff 1 0 k reg1 reg0 Hk))|rewrite (encodes_decode _ _ (Enc_STRH 1 0 k reg1 reg0 Hk))
          |rewrite (encodes_decode _ _ (Enc_STRWuoff 1 0 k reg1 reg0 Hk))|rewrite (encodes_decode _ _ (Enc_STRuoff 1 0 k reg1 reg0 Hk))]; reflexivity.
Qed.

Definition arith (op : IROpCode) (a b : Z) : Z :=
  match op with
  | IRAdd => a + b
  | IRSub => a - b
  | IRBitAnd => Z.land a b
  | IRBitOr => Z.lor a b
  | IRShl => Z.shiftl a (b mod 64)
  | IRShr => Z.shiftr (i64 a) (b mod 64)
  end.

Lemma exec_arith s op d a b : exec_quad s (IRArith op d a b) = Some (set_temp s d (u64 (arith op (operand s a) (operand s b)))).
Proof.
  unfold exec_quad, arith_word. destruct op.
  - by rewrite (encodes_decode _ _ (Enc_ADDreg 0 0 1 reg0 reg0 reg1)).
  - by rewrite (encodes_decode _ _ (Enc_SUBreg 0 0 1 reg0 reg0 reg1)).
  - by rewrite (encodes_decode _ _ (Enc_AND 0 0 1 reg0 reg0 reg1)).
  - by rewrite (encodes_decode _ _ (Enc_ORR 0 0 1 reg0 reg0 reg1)).
  - by rewrite (encodes_decode _ _ (Enc_LSLV 0 0 1 reg0 reg0 reg1)).
  - by rewrite (encodes_decode _ _ (Enc_ASRV 0 0 1 reg0 reg0 reg1)).
Qed.

(** * Memory, bit by bit *)

Definition bytes_ok (m : Z -> Z) : Prop := forall a, 0 <= m a < 256.

(** Bit [i] from the address [a] on. *)
Definition mem_bit (m : Z -> Z) (a i : Z) : bool := Z.testbit (m (u64 (a + i / 8))) (i mod 8).

Lemma mem_bit_shift m a off i : mem_bit m (a + off) i = mem_bit m a (8 * off + i).
Proof.
  unfold mem_bit. replace (8 * off + i) with (i + off * 8) by lia. rewrite Z.div_add, Z.mod_add by lia. do 3 f_equal. lia.
Qed.

Lemma low_byte_bits x y i : 0 <= x < 256 -> 0 <= i -> Z.testbit (x + 256 * y) i = if i <? 8 then Z.testbit x i else Z.testbit y (i - 8).
Proof.
  intros Hx Hi. change 256 with (2 ^ 8) in *. destruct (Z.ltb_spec i 8).
  - rewrite <- (Z.mod_pow2_bits_low (x + _) 8) by lia. rewrite Z.mul_comm, Z.mod_add, Z.mod_small by lia. done.
  - replace i with (i - 8 + 8) at 1 by lia. rewrite <- Z.div_pow2_bits by lia. rewrite Z.mul_comm, Z.div_add, Z.div_small by lia. done.
Qed.

Lemma load_bytes_bound m n : bytes_ok m -> forall a, 0 <= load_bytes m a n < 2 ^ (8 * Z.of_nat n).
Proof.
  intros Hm. induction n as [|n IH]; intros a; [cbn; lia|]. cbn [load_bytes]. specialize (IH (a + 1)). pose proof (Hm (u64 a)).
  rewrite Nat2Z.inj_succ, Z.mul_succ_r, Z.pow_add_r by lia. change (2 ^ 8) with 256. nia.
Qed.

Lemma load_bytes_bit m n : bytes_ok m -> forall a i, 0 <= i < 8 * Z.of_nat n -> Z.testbit (load_bytes m a n) i = mem_bit m a i.
Proof.
  intros Hm. induction n as [|n IH]; intros a i Hi; [lia|]. cbn [load_bytes]. rewrite low_byte_bits by (apply Hm || lia). destruct (Z.ltb_spec i 8).
  - unfold mem_bit. by rewrite Z.div_small, Z.mod_small, Z.add_0_r by lia.
  - rewrite IH by lia. rewrite mem_bit_shift. f_equal. lia.
Qed.

Lemma store_bytes_ok m n : bytes_ok m -> forall a v, bytes_ok (store_bytes m a v n).
Proof.
  intros Hm. induction n as [|n IH]; intros a v; [done|]. intros x. cbn [store_bytes]. destruct (x =? u64 a); [|apply IH]. apply Z.mod_pos_bound. lia.
Qed.

Lemma store_bytes_bit m n : forall a v i, - 2 ^ 62 <= i - 8 * Z.of_nat n -> i < 2 ^ 62 ->
  mem_bit (store_bytes m a v n) a i = if (0 <=? i) && (i <? 8 * Z.of_nat n) then Z.testbit v i else mem_bit m a i.
Proof.
  induction n as [|n IH]; intros a v i Hl Hu.
  - cbn [store_bytes]. destruct (Z.leb_spec 0 i), (Z.ltb_spec i (8 * Z.of_nat 0)); (lia || done).
  - assert (Hs : forall m, mem_bit m a i = mem_bit m (a + 1) (i - 8)) by (intros; rewrite mem_bit_shift; f_equal; lia).
    unfold mem_bit at 1. cbn [store_bytes]. pose proof (Z.div_mod i 8 ltac:(lia)) as Hd. pose proof (Z.mod_pos_bound i 8 ltac:(lia)) as Hm.
    destruct (Z.eq_dec (i / 8) 0) as [E|E].
    + rewrite E, Z.add_0_r, Z.eqb_refl. rewrite (proj2 (Z.leb_le 0 i)), (proj2 (Z.ltb_lt i _)) by lia. cbn [andb].
      change 256 with (2 ^ 8). rewrite Z.mod_pow2_bits_low by lia. f_equal. rewrite Z.mod_small; lia.
    + assert (Hne : u64 (a + i / 8) <> u64 a).
      { destruct (Z.lt_ge_cases (i / 8) 0) as [Hneg|Hpos].
        - replace a with (a + i / 8 + - (i / 8)) at 2 by lia. rewrite <- (Z.add_0_r (a + i / 8)) at 1. apply u64_add_ne; lia.
        - rewrite <- (Z.add_0_r a) at 2. apply u64_add_ne; lia. }
      rewrite (proj2 (Z.eqb_neq _ _) Hne). change (Z.testbit (store_bytes m (a + 1) (v / 256) n (u64 (a + i / 8))) (i mod 8)) with
        (mem_bit (store_bytes m (a + 1) (v / 256) n) a i). rewrite Hs, IH by lia. rewrite <- Hs.
      destruct (Z.leb_spec 0 i).
      * rewrite (proj2 (Z.leb_le 0 (i - 8))) by lia. cbn [andb]. replace (i - 8 <? 8 * Z.of_nat n) with (i <? 8 * Z.of_nat (S n)) by (apply eq_true_iff_eq; rewrite !Z.ltb_lt; lia).
        destruct (i <? _); [|done]. change 256 with (2 ^ 8). rewrite Z.div_pow2_bits by lia. f_equal. lia.
      * by rewrite (proj2 (Z.leb_gt 0 (i - 8))) by lia.
Qed.

Lemma wrapU_bit w v i : 0 <= i < w -> Z.testbit (wrapU w v) i = Z.testbit v i.
Proof. intros. unfold wrapU. apply Z.mod_pow2_bits_low. lia. Qed.

Lemma wrapS_bit w v i : 0 <= i < w -> Z.testbit (wrapS w v) i = Z.testbit v i.
Proof.
  intros. rewrite <- (Z.mod_pow2_bits_low (wrapS w v) w) by lia. rewrite wrapS_mod by lia. apply Z.mod_pow2_bits_low. lia.
Qed.

Lemma i64_u64 v : i64 (u64 v) = i64 v.
Proof. apply wrapS_cong. unfold wrapU. by rewrite Z.mod_mod. Qed.

(** * Bit-fields *)

(** A bit-field in the low half of its word, at an offset that the
    instructions reach. *)
Record low_bits (sf : StructField) : Prop := {
  lb_range : 0 <= f_BitOffset sf /\ 0 < f_BitWidth sf /\ f_BitOffset sf + f_BitWidth sf <= 32;
  lb_reach : reachable TypeInt (f_ByteOffset sf);
  lb_bit : f_IsBitField sf = true
}.

Lemma bit_mask_ones sf : low_bits sf -> bit_mask sf = Z.ones (f_BitWidth sf).
Proof.
  intros [H _ _]. unfold bit_mask. rewrite Z.shiftl_1_l. assert (2 ^ f_BitWidth sf <= 2 ^ 32) by (apply Z.pow_le_mono_r; lia).
  rewrite (i64_small (2 ^ _)) by lia. rewrite i64_small by lia. rewrite Z.ones_equiv. lia.
Qed.

(** The word with the field set. *)
Definition merged (sf : StructField) (w v i : Z) : bool :=
  if (f_BitOffset sf <=? i) && (i <? f_BitOffset sf + f_BitWidth sf) then Z.testbit v (i - f_BitOffset sf) else Z.testbit w i.

Section bits.
Context (sf : StructField) (Hsf : low_bits sf).

Lemma mask_u64 : u64 (bit_mask sf) = Z.ones (f_BitWidth sf).
Proof.
  rewrite bit_mask_ones by done. destruct Hsf as [H _ _]. apply wrapU_small. rewrite Z.ones_equiv.
  assert (2 ^ f_BitWidth sf <= 2 ^ 32) by (apply Z.pow_le_mono_r; lia). lia.
Qed.

Lemma shift_mod : u64 (f_BitOffset sf) mod 64 = f_BitOffset sf.
Proof. destruct Hsf as [H _ _]. rewrite wrapU_small by lia. apply Z.mod_small. lia. Qed.

Lemma mask_bit i : 0 <= i -> Z.testbit (Z.ones (f_BitWidth sf)) i = (i <? f_BitWidth sf).
Proof.
  intros Hi. destruct Hsf as [H _ _]. destruct (Z.ltb_spec i (f_BitWidth sf)); [apply Z.ones_spec_low; lia|apply Z.ones_spec_high; lia].
Qed.

Lemma clear_bit i : 0 <= i < 32 -> Z.testbit (u64 (clear_mask sf)) i = negb ((f_BitOffset sf <=? i) && (i <? f_BitOffset sf + f_BitWidth sf)).
Proof.
  intros Hi. pose proof Hsf as [H _ _]. rewrite wrapU_bit by lia. unfold clear_mask. rewrite Z.lnot_spec, wrapS_bit, bit_mask_ones, Z.shiftl_spec by (done || lia).
  f_equal. destruct (Z.leb_spec (f_BitOffset sf) i); cbn [andb].
  - rewrite mask_bit by lia. apply eq_true_iff_eq. rewrite !Z.ltb_lt. lia.
  - apply Z.testbit_neg_r. lia.
Qed.

(** The four steps of an assignment, on the low half of the word. *)
Lemma merge_bit (w v i : Z) : 0 <= i < 32 ->
  Z.testbit (u64 (Z.lor (u64 (Z.land (u64 (wrapS 32 w)) (u64 (clear_mask sf))))
    (u64 (Z.shiftl (u64 (Z.land v (u64 (bit_mask sf)))) (u64 (f_BitOffset sf) mod 64))))) i = merged sf w v i.
Proof.
  intros Hi. pose proof Hsf as [H _ _]. rewrite wrapU_bit, Z.lor_spec, !wrapU_bit, Z.land_spec, wrapU_bit, wrapS_bit, clear_bit, shift_mod, Z.shiftl_spec by lia.
  unfold merged. destruct (Z.leb_spec (f_BitOffset sf) i); cbn [andb negb].
  - rewrite wrapU_bit, Z.land_spec, mask_u64, mask_bit by lia. replace (i - f_BitOffset sf <? f_BitWidth sf) with (i <? f_BitOffset sf + f_BitWidth sf) by (apply eq_true_iff_eq; rewrite !Z.ltb_lt; lia).
    destruct (i <? _); cbn [negb]; by rewrite ?andb_true_r, ?andb_false_r, ?orb_false_r.
  - rewrite (Z.testbit_neg_r _ (i - _)) by lia. by rewrite andb_true_r, orb_false_r.
Qed.

(** The steps of a read. *)
Lemma extract_bit (w i : Z) : 0 <= i ->
  Z.testbit (u64 (Z.land (u64 (Z.shiftr (i64 (u64 (wrapS 32 w))) (u64 (f_BitOffset sf) mod 64))) (u64 (bit_mask sf)))) i =
  (i <? f_BitWidth sf) && Z.testbit w (f_BitOffset sf + i).
Proof.
  intros Hi. pose proof Hsf as [H _ _]. destruct (Z.ltb_spec i (f_BitWidth sf)); cbn [andb].
  - rewrite wrapU_bit, Z.land_spec, mask_u64, mask_bit, wrapU_bit, shift_mod, Z.shiftr_spec, i64_u64, wrapS_bit, wrapS_bit by lia.
    rewrite (proj2 (Z.ltb_lt i _)), andb_true_r by lia. f_equal. lia.
  - rewrite mask_u64. rewrite wrapU_small.
    + rewrite Z.land_spec, mask_bit, (proj2 (Z.ltb_ge i _)) by lia. apply andb_false_r.
    + rewrite Z.land_ones by lia. pose proof (Z.mod_pos_bound (u64 (Z.shiftr (i64 (u64 (wrapS 32 w))) (u64 (f_BitOffset sf) mod 64))) (2 ^ f_BitWidth sf) ltac:(lia)).
      assert (2 ^ f_BitWidth sf <= 2 ^ 32) by (apply Z.pow_le_mono_r; lia). lia.
Qed.
End bits.

(** ** Running the IR *)

(** An operand that is not among the temporaries from [t] on. *)
Definition older (t : nat) (a : IRAddr) : Prop := match a with AddrConst _ => True | AddrTemp n => (n < t)%nat end.

Lemma operand_older s t k v a : older t a -> (t <= k)%nat -> operand (set_temp s k v) a = operand s a.
Proof. destruct a as [c|n]; [done|]. cbn. intros Hn Hk. by rewrite (proj2 (Nat.eqb_neq n k)) by lia. Qed.

Lemma operand_set s k v : operand (set_temp s k v) (AddrTemp k) = v.
Proof. cbn. by rewrite Nat.eqb_refl. Qed.

Lemma operand_other s k k' v : k <> k' -> operand (set_temp s k v) (AddrTemp k') = operand s (AddrTemp k').
Proof. cbn. intros H. by rewrite (proj2 (Nat.eqb_neq k' k)) by lia. Qed.

Lemma exec_quads_cons s q qs : exec_quads s (q :: qs) = s' ← exec_quad s q; exec_quads s' qs.
Proof. unfold exec_quads. cbn [foldl mbind option_bind]. destruct (exec_quad s q); [done|]. cbn. by induction qs. Qed.

Lemma exec_quads_nil s : exec_quads s [] = Some s.
Proof. done. Qed.

Lemma u64_idem v : u64 (u64 v) = u64 v.
Proof. unfold wrapU. by rewrite Z.mod_mod. Qed.

Lemma store_runs s t ptr rhs sf : low_bits sf -> older t ptr -> older t rhs ->
  let a := operand s ptr + f_ByteOffset sf in
  let w := load_bytes (memory s) a 4 in
  exists s', exec_quads s (bitfield_store t ptr rhs sf) = Some s' /\ (forall n, (n < t)%nat -> temps s' n = temps s n) /\
    memory s' = store_bytes (memory s) a
      (u64 (Z.lor (u64 (Z.land (u64 (wrapS 32 w)) (u64 (clear_mask sf))))
        (u64 (Z.shiftl (u64 (Z.land (operand s rhs) (u64 (bit_mask sf)))) (u64 (f_BitOffset sf) mod 64))))) 4.
Proof.
  intros [Hr Hreach _] Hp Hv a w. unfold bitfield_store. destruct (Z.ltb_spec 0 (f_BitOffset sf)) as [Ho|Ho]; cbn [app].
  - rewrite exec_quads_cons, exec_load by done. cbn [mbind option_bind]. do 4 (rewrite exec_quads_cons, exec_arith; cbn [mbind option_bind]).
    rewrite exec_quads_cons, exec_store by done. cbn [mbind option_bind]. rewrite exec_quads_nil. eexists. split; [done|]. cbn [temps memory].
    split; [intros n Hn; cbn [set_temp temps]; by rewrite !(proj2 (Nat.eqb_neq n _)) by lia|].
    cbn [set_temp memory width extended arith]. rewrite !operand_set. rewrite !(operand_other _ (t + 3) (t + 1)), !(operand_other _ (t + 2) (t + 1)) by lia.
    rewrite !operand_set. rewrite !(operand_older _ t) by (done || lia). done.
  - assert (E : f_BitOffset sf = 0) by lia. rewrite exec_quads_cons, exec_load by done. cbn [mbind option_bind].
    do 3 (rewrite exec_quads_cons, exec_arith; cbn [mbind option_bind]). rewrite exec_quads_cons, exec_store by done. cbn [mbind option_bind].
    rewrite exec_quads_nil. eexists. split; [done|]. cbn [temps memory].
    split; [intros n Hn; cbn [set_temp temps]; by rewrite !(proj2 (Nat.eqb_neq n _)) by lia|].
    cbn [set_temp memory width extended arith]. rewrite !operand_set. rewrite !(operand_other _ (t + 2) (t + 1)) by lia.
    rewrite !operand_set. rewrite !(operand_older _ t) by (done || lia). rewrite E. change (u64 0 mod 64) with 0. rewrite Z.shiftl_0_r, !u64_idem. done.
Qed.

Lemma load_runs s t ptr sf : low_bits sf -> older t ptr ->
  let w := load_bytes (memory s) (operand s ptr + f_ByteOffset sf) 4 in
  exists s', exec_quads s (bitfield_load t ptr sf) = Some s' /\ memory s' = memory s /\
    temps s' t = u64 (Z.land (u64 (Z.shiftr (i64 (u64 (wrapS 32 w))) (u64 (f_BitOffset sf) mod 64))) (u64 (bit_mask sf))).
Proof.
  intros [Hr Hreach _] Hp w. unfold bitfield_load. destruct (Z.ltb_spec 0 (f_BitOffset sf)) as [Ho|Ho].
  - rewrite exec_quads_cons, exec_load by done. cbn [mbind option_bind]. do 2 (rewrite exec_quads_cons, exec_arith; cbn [mbind option_bind]).
    rewrite exec_quads_nil. eexists. split; [done|]. split; [done|]. cbn [width extended arith]. rewrite !operand_set. cbn [set_temp temps]. by rewrite Nat.eqb_refl.
  - assert (E : f_BitOffset sf = 0) by lia. rewrite exec_quads_cons, exec_load by done. cbn [mbind option_bind]. rewrite exec_quads_cons, exec_arith. cbn [mbind option_bind].
    rewrite exec_quads_nil. eexists. split; [done|]. split; [done|]. cbn [width extended arith]. rewrite !operand_set. cbn [set_temp temps]. rewrite Nat.eqb_refl.
    rewrite E. change (u64 0 mod 64) with 0. rewrite Z.shiftr_0_r. apply Z.bits_inj'. intros i Hi. destruct (Z.ltb_spec i 64).
    + rewrite !wrapU_bit, !Z.land_spec by lia. f_equal. by rewrite !wrapU_bit, i64_u64, (wrapS_bit 64) by lia.
    + rewrite !(low_bits_above _ 64) by (try lia; apply wrapU_range; lia). done.
Qed.
