(* ===== verification/StructSpec.v ===== *)
(** What the front end promises of structs: layouts are well formed, the two
    passes agree on them, sizes are computed, fields lie inside their struct,
    and bit-fields keep to their bits. *)
From stdpp Require Import gmap strings.
From S2P Require Import Prelude Align Arm64Enc CodeBuilder CodeExec StructDefs StructSize StructLayout StructFields FieldAccess.
#[local] Open Scope Z_scope.

(** * Layout *)


(** C37: the two passes.  The checker and the IR generator lay out the structs
    of a program alike, inner dimensions of arrays apart, as long as nothing in
    it is packed. *)
Theorem builders_agree (ns : list Node) :
  Forall (fun n => IsPacked n = false /\ no_packed n = true) ns ->
  register_all buildStructDefIR ns = drop_all <$> register_all buildStructDef ns.
Proof.
  intros Hns. unfold register_all.
  enough (H : forall acc, foldl (fun E n => E ← E; register buildStructDefIR E n) (drop_all <$> acc) ns =
    drop_all <$> foldl (fun E n => E ← E; register buildStructDef E n) acc ns) by (rewrite <- H; do 2 f_equal; cbn; unfold drop_all; by rewrite fmap_empty).
  induction Hns as [|n ns [Hp Hn] Hns IH]; intros acc; [done|]. cbn [foldl]. rewrite <- IH. f_equal.
  destruct acc as [E|]; [|done]. cbn [fmap option_fmap option_map mbind option_bind]. unfold register, buildStructDefIR, buildStructDef. rewrite Hp, build_drop by done.
  destruct (build false (Name n) (IsUnion n) false n E) as [[sd E1]|]; [|done]. cbn [mbind option_bind fmap option_fmap option_map dropped fst snd].
  by rewrite drop_all_insert.
Qed.

(** C38: sizes.  The recursion of SizeBytes ends exactly when no chain of structs
    held by value goes on for ever, and then within as many steps as there are
    structs, and one. *)
Theorem sizeof_terminates (E : structDefs) (sd : StructDef) :
  (forall t sd', E !! t = Some sd' -> resolved sd') -> resolved sd ->
  (is_Some (SizeBytes (S (size E)) E sd) <-> Acc (holds E) sd) /\
  forall fuel total, SizeBytes fuel E sd = Some total -> SizeBytes (S (size E)) E sd = Some total.
Proof.
  intros HE Hsd. split; [split|].
  - apply SizeBytes_acc.
  - intros Ha. by apply SizeBytes_total.
  - intros fuel total H. exact (SizeBytes_enough _ _ _ _ H).
Qed.

(** ** Programs *)




(** * Bit-fields *)

(** C10: bit-fields.  Assigning to a bit-field in the low half of its word
    changes exactly the bits of the field, which become those of the value;
    reading one gives its bits, and zeros above. *)
Theorem bit_fields_keep_to_their_bits (s : state) (t : nat) (ptr rhs : IRAddr) (sf : StructField) :
  bytes_ok (memory s) -> low_bits sf -> older t ptr -> older t rhs ->
  (exists s', exec_quads s (bitfield_store t ptr rhs sf) = Some s' /\ bytes_ok (memory s') /\
    forall i, 0 <= i < 2 ^ 61 -> mem_bit (memory s') (operand s ptr) i =
      if (first_bit sf <=? i) && (i <? first_bit sf + f_BitWidth sf) then Z.testbit (operand s rhs) (i - first_bit sf) else mem_bit (memory s) (operand s ptr) i) /\
  (exists s', exec_quads s (bitfield_load t ptr sf) = Some s' /\ memory s' = memory s /\
    forall i, 0 <= i -> Z.testbit (temps s' t) i = (i <? f_BitWidth sf) && mem_bit (memory s) (operand s ptr) (first_bit sf + i)).
Proof.
  intros Hm Hsf Hp Hv. pose proof Hsf as [Hr (k & Hk & Hfit) Hbf]. unfold fits in Hfit. cbn [width] in Hk. unfold first_bit. rewrite Hbf. split.
  - destruct (store_runs s t ptr rhs sf Hsf Hp Hv) as (s' & Hrun & _ & Hmem). exists s'. split; [done|]. rewrite Hmem. split; [by apply store_bytes_ok|].
    intros i Hi. set (a := operand s ptr) in *. set (off := f_ByteOffset sf) in *. replace i with (8 * off + (i - 8 * off)) at 1 by lia.
    rewrite <- mem_bit_shift, store_bytes_bit by lia. destruct (Z.leb_spec 0 (i - 8 * off)), (Z.ltb_spec (i - 8 * off) (8 * Z.of_nat 4)); cbn [andb].
    2: rewrite mem_bit_shift, (proj2 (Z.ltb_ge i _)), andb_false_r by lia; f_equal; lia.
    2-3: rewrite mem_bit_shift, (proj2 (Z.leb_gt _ i)) by lia; f_equal; lia.
    rewrite merge_bit by (done || lia). unfold merged. rewrite load_bytes_bit, mem_bit_shift by (done || lia).
    replace (8 * off + (i - 8 * off)) with i by lia. replace (i - 8 * off - f_BitOffset sf) with (i - (8 * off + f_BitOffset sf)) by lia.
    replace (f_BitOffset sf <=? i - 8 * off) with (8 * off + f_BitOffset sf <=? i) by (apply eq_true_iff_eq; rewrite !Z.leb_le; lia).
    by replace (i - 8 * off <? f_BitOffset sf + f_BitWidth sf) with (i <? 8 * off + f_BitOffset sf + f_BitWidth sf) by (apply eq_true_iff_eq; rewrite !Z.ltb_lt; lia).
  - destruct (load_runs s t ptr sf Hsf Hp) as (s' & Hrun & Hmem & Ht). exists s'. split; [done|]. split; [done|]. intros i Hi. rewrite Ht, extract_bit by done.
    destruct (Z.ltb_spec i (f_BitWidth sf)); cbn [andb]; [|done]. rewrite load_bytes_bit, mem_bit_shift by (done || lia). f_equal. lia.
Qed.

(** C40: other fields.  A field that the instructions reach reads back as what
    was stored in it, reduced to its type, and no other byte changes. *)
Theorem field_reads_back (s : state) (d : nat) (ptr v : IRAddr) (off : Z) (hint : TypeKind) :
  reachable hint off ->
  exists s1 s2, exec_quad s (IRFieldStore ptr v off hint) = Some s1 /\ exec_quad s1 (IRFieldLoad d ptr off hint) = Some s2 /\
    temps s2 d = u64 (extended hint (operand s v mod 2 ^ (8 * Z.of_nat (width hint)))) /\ memory s2 = memory s1 /\
    forall x, (forall i, 0 <= i < Z.of_nat (width hint) -> x <> u64 (operand s ptr + off + i)) -> memory s1 x = memory s x.
Proof.
  intros H. rewrite exec_store by done. eexists. eexists. split; [done|]. rewrite exec_load by done. split; [done|]. split; [|split; [done|]].
  - cbn [set_temp temps memory]. rewrite Nat.eqb_refl. rewrite (load_store _ _ _ _ 0) by (destruct hint; cbn; lia).
    do 2 f_equal. change 256 with (2 ^ 8). by rewrite <- Z.pow_mul_r by lia.
  - intros x Hx. cbn [memory]. by apply store_other.
Qed.

(** Assignment with an operation and increment of an ordinary field store the
    operation's result. *)
Lemma op_assign_updates (s : state) (t : nat) (op : IROpCode) (ptr rhs : IRAddr) (off : Z) (hint : TypeKind) :
  reachable hint off -> older t ptr -> older t rhs ->
  let old := u64 (extended hint (load_bytes (memory s) (operand s ptr + off) (width hint))) in
  exists s', exec_quads s (field_op_assign t op ptr rhs off hint).1 = Some s' /\
    memory s' = store_bytes (memory s) (operand s ptr + off) (u64 (arith op old (operand s rhs))) (width hint).
Proof.
  intros H Hp Hr old. unfold field_op_assign. cbn [fst]. rewrite exec_quads_cons, exec_load by done. cbn [mbind option_bind].
  rewrite exec_quads_cons, exec_arith. cbn [mbind option_bind]. rewrite exec_quads_cons, exec_store by done. cbn [mbind option_bind].
  rewrite exec_quads_nil. eexists. split; [done|]. cbn [memory set_temp]. rewrite !operand_set. by rewrite !(operand_older _ t) by (done || lia).
Qed.

(** * Concrete structs *)

Definition var (t : TypeKind) (nm : string) : Node := mkNode KindVarDecl t None nm 0 "" [] false false 0 TypeVoid None 0 0.
Definition arr (t : TypeKind) (nm : string) (n : Z) : Node := mkNode KindVarDecl TypeIntArray None nm n "" [] false false 0 t None 0 0.
Definition bits (t : TypeKind) (nm : string) (w : Z) : Node := mkNode KindVarDecl t None nm 0 "" [] false false 0 TypeVoid None 0 w.
Definition member (tag nm : string) : Node := mkNode KindVarDecl TypeStruct None nm 0 tag [] false false 0 TypeVoid None 0 0.
Definition union_in (tag nm : string) (ms : list Node) : Node := mkNode KindVarDecl TypeStruct None nm 0 tag ms true false 0 TypeVoid None 0 0.
Definition struct_in (tag nm : string) (ms : list Node) : Node := mkNode KindVarDecl TypeStruct None nm 0 tag ms false false 0 TypeVoid None 0 0.
Definition struct (nm : string) (ms : list Node) : Node := mkNode KindStructDef TypeVoid None nm 0 "" ms false false 0 TypeVoid None 0 0.
Definition packed_struct (nm : string) (ms : list Node) : Node := mkNode KindStructDef TypeVoid None nm 0 "" ms false true 0 TypeVoid None 0 0.

Definition pair_decl : Node := struct "pair" [var TypeChar "tag"; var TypeInt "n"; var TypeShort "s"].
Definition outer_decl : Node :=
  struct "outer" [var TypeChar "c"; member "pair" "p"; union_in "u1" "" [var TypeInt "i"; var TypeDouble "d"];
    bits TypeUnsignedInt "lo" 5; bits TypeUnsignedInt "hi" 20; arr TypeShort "a" 3; arr TypeChar "tail" (-1)].

Definition env0 : structDefs := default ∅ (register_all buildStructDef [pair_decl]).


(** The offsets and, for bit-fields, the bits. *)
Definition offsets (sd : StructDef) : list (string * Z * Z) := (fun f => (f_Name f, f_ByteOffset f, f_BitOffset f)) <$> sd_Fields sd.





Lemma builders_agree_witness : register_all buildStructDefIR [pair_decl; outer_decl] = drop_all <$> register_all buildStructDef [pair_decl; outer_decl] /\
  is_Some (register_all buildStructDefIR [pair_decl; outer_decl]).
Proof.
  split; [apply (builders_agree [pair_decl; outer_decl])|vm_compute; eexists; reflexivity].
  repeat (apply list.Forall_cons; split; [split; reflexivity|]). by apply list.Forall_nil.
Defined.

Lemma sizeof_terminates_witness : exists sd, env0 !! "pair"%string = Some sd /\ SizeBytes 2 env0 sd = Some 12 /\ Acc (holds env0) sd.
Proof.
  exists (default (mkStructDef "" [] false false) (env0 !! "pair"%string)). split; [vm_compute; reflexivity|].
  assert (Hr : forall t sd', env0 !! t = Some sd' -> resolved sd').
  { assert (Hm : map_Forall (fun (_ : string) sd' => Forall (fun f => f_Type f <> TypeTypeof) (sd_Fields sd')) env0) by
      (apply (bool_decide_eq_true_1 (map_Forall (fun (_ : string) sd' => Forall (fun f => f_Type f <> TypeTypeof) (sd_Fields sd')) env0)); vm_compute; reflexivity). intros t sd' Ht. exact (Hm t sd' Ht). }
  destruct (sizeof_terminates env0 (default (mkStructDef "" [] false false) (env0 !! "pair"%string)) Hr) as [[H _] _];
    [apply (bool_decide_eq_true_1 (Forall _ _)); vm_compute; reflexivity|].
  split; [vm_compute; reflexivity|]. apply H. vm_compute. eexists. reflexivity.
Defined.






(** ** A bit-field *)

Definition state0 : state := State (fun n => if (n =? 1)%nat then 0x1000 else 0x1F) (fun a => 0xFF).
Definition bf0 : StructField := mkField "hi" TypeUnsignedInt None TypeVoid None "" 32 0 true 5 20 false 0 0.

Lemma bf0_low : low_bits bf0.
Proof. split; [cbn; lia| |reflexivity]. exists 8. split; [reflexivity|unfold fits; lia]. Qed.

Lemma bit_fields_keep_to_their_bits_witness : exists s', exec_quads state0 (bitfield_store 3 (AddrTemp 1) (AddrTemp 2) bf0) = Some s' /\
  mem_bit (memory s') 0x1000 (8 * 32 + 5) = true /\ mem_bit (memory s') 0x1000 (8 * 32 + 24) = false /\ mem_bit (memory s') 0x1000 (8 * 32 + 25) = true.
Proof.
  destruct (bit_fields_keep_to_their_bits state0 3 (AddrTemp 1) (AddrTemp 2) bf0) as [(s' & Hr & _ & Hb) _].
  - intros a. cbn. lia.
  - exact bf0_low.
  - cbn. lia.
  - cbn. lia.
  - exists s'. split; [exact Hr|]. change 0x1000 with (operand state0 (AddrTemp 1)). rewrite !Hb by (vm_compute; split; [discriminate|reflexivity]). by vm_compute.
Defined.

Lemma field_reads_back_witness : exists s1 s2, exec_quad state0 (IRFieldStore (AddrTemp 1) (AddrConst 300) 6 TypeShort) = Some s1 /\
  exec_quad s1 (IRFieldLoad 5 (AddrTemp 1) 6 TypeShort) = Some s2 /\ temps s2 5%nat = 300.
Proof.
  destruct (field_reads_back state0 5 (AddrTemp 1) (AddrConst 300) 6 TypeShort) as (s1 & s2 & H1 & H2 & H3 & _).
  - exists 3. split; [reflexivity|unfold fits; lia].
  - exists s1, s2. split; [exact H1|]. split; [exact H2|]. rewrite H3. by vm_compute.
Defined.

(** * Corner cases *)

(** The IR generator lays packed structs out as if they were not packed: their
    size, which the checker computes, is smaller than what is accessed. *)
Lemma packed_layouts_differ :
  let p := packed_struct "p" [var TypeChar "a"; var TypeInt "b"] in
  (sizeofKind (default ∅ (register_all buildStructDef [p])) TypeStruct "p" = Some 5) /\
  (offsets <$> (fst <$> buildStructDef p ∅) = Some [("a", 0, 0); ("b", 1, 0)]%string) /\
  (offsets <$> (fst <$> buildStructDefIR p ∅) = Some [("a", 0, 0); ("b", 4, 0)]%string).
Proof. by vm_compute. Qed.

(** A struct that is defined in place after a bit-field is laid over it. *)
Lemma inline_overlaps_bit_field :
  offsets <$> (fst <$> buildStructDef (struct "s" [bits TypeInt "b" 3; struct_in "t" "in" [var TypeInt "x"]]) ∅) = Some [("b", 0, 0); ("in", 0, 0)]%string.
Proof. by vm_compute. Qed.

(** A flexible array of bytes starts behind the end of its struct. *)
Lemma flexible_array_outside :
  let s := struct "s" [var TypeInt "n"; arr TypeChar "d" (-1)] in
  (sizeofKind (default ∅ (register_all buildStructDef [s])) TypeStruct "s" = Some 4) /\
  (offsets <$> (fst <$> buildStructDef s ∅) = Some [("n", 0, 0); ("d", 8, 0)]%string).
Proof. by vm_compute. Qed.

(** A long double takes 16 bytes by sizeof, and 8 in a struct. *)
Lemma long_double_field :
  (sizeofKind ∅ TypeLongDouble "" = Some 16) /\
  (offsets <$> (fst <$> buildStructDef (struct "s" [var TypeLongDouble "x"; var TypeInt "y"]) ∅) = Some [("x", 0, 0); ("y", 8, 0)]%string).
Proof. by vm_compute. Qed.

(** A struct whose array of 128-bit integers is aligned to 16 bytes has a size
    that is not a multiple of 16. *)
Lemma int128_array_size :
  let s := struct "s" [arr TypeInt128 "a" 1; var TypeChar "c"] in
  (sizeofKind (default ∅ (register_all buildStructDef [s])) TypeStruct "s" = Some 24) /\
  (natural_align <$> (default [] (sd_Fields <$> (fst <$> buildStructDef s ∅))) = [16; 1]).
Proof. by vm_compute. Qed.

(** The bit-fields of a union are ordinary fields. *)
Lemma union_bit_field_not_one :
  (fun sd => f_IsBitField <$> sd_Fields sd) <$> (fst <$> buildStructDef (mkNode KindStructDef TypeVoid None "u" 0 "" [bits TypeInt "b" 3] true false 0 TypeVoid None 0 0) ∅) =
  Some [false].
Proof. by vm_compute. Qed.

(** A struct that contains itself is laid out, and its size never found. *)
Lemma self_containing_struct_diverges : exists E sd, register_all buildStructDef [struct "s" [member "s" "self"]] = Some E /\ E !! "s"%string = Some sd /\
  forall fuel, SizeBytes fuel E sd = None.
Proof.
  set (sd := mkStructDef "s" [mkField "self" TypeStruct None TypeVoid None "s" 0 0 false 0 0 false 0 0] false false).
  exists (<["s"%string := sd]> ∅), sd. split; [by vm_compute|]. split; [apply lookup_insert_eq|]. induction fuel as [|fuel IH]; [done|].
  cbn [SizeBytes]. unfold struct_size. cbn [sd_Fields sd foldl]. unfold size_step, field_extent. cbn [mbind option_bind f_IsFlexArray f_IsBitField f_Type f_StructTag fieldSizeAlign].
  rewrite bool_decide_eq_false_2, lookup_insert_eq by done. by rewrite IH.
Qed.

(** Bit-fields in the upper half of their word are lost: only four bytes of the
    word are read and written. *)
Lemma high_bit_field_lost :
  let sf := mkField "b" TypeUnsignedInt None TypeVoid None "" 0 0 true 20 20 false 0 0 in
  let s := State (fun _ => 0x1000) (fun _ => 0) in
  (fun s' => temps s' 8%nat) <$> exec_quads s (bitfield_store 3 (AddrTemp 1) (AddrConst 0x80000) sf ++ bitfield_load 8 (AddrTemp 1) sf) = Some 0.
Proof. by vm_compute. Qed.

(** Compound assignment and increment do not know bit-fields: [s.b += 1], where
    b is the second field of the word, adds to the first; and the value of the
    assignment is an address. *)
Lemma op_assign_ignores_bit_field :
  let sf := mkField "b" TypeInt None TypeVoid None "" 0 0 true 3 5 false 0 0 in
  let s := State (fun _ => 0x1000) (fun _ => 0) in
  let '(qs, result) := field_op_assign 3 IRAdd (AddrTemp 1) (AddrConst 1) (f_ByteOffset sf) (f_Type sf) in
  ((fun s' => (temps s' 8%nat, mem_bit (memory s') 0x1000 0, operand s' result)) <$> exec_quads s (qs ++ bitfield_load 8 (AddrTemp 1) sf) = Some (0, true, 0x1000)).
Proof. by vm_compute. Qed.

(** The offset of an access is put into the instruction without a check: from
    byte 4096 on a store of a byte is the encoding of a load, and from 32768 on
    that of eight bytes. *)
Lemma far_store_becomes_load :
  decode (field_store_word TypeChar 5000) = Some (LDRB, [1; 0; 904]) /\ decode (field_store_word TypeLong 40000) = Some (LDR_X, [1; 0; 7232]).
Proof. by vm_compute. Qed.
